(* ===== verification/_CoqProject ===== *)
-Q . S2P
Prelude.v
BitMem.v
BitCmp.v
BitCopy.v
Sha256.v
MineData.v
CpuMiner.v
Kernel.v
GpuHost.v
BigInt.v
BigIntOps.v
BigIntShift.v
BigIntLog.v
BigIntBits.v
RefInt.v
BigIntLoad.v
BigIntBytes.v
Stack.v
OpTable.v
StackOps.v
StackSafety.v
StackMoves.v
ArithOps.v
ArithSafe.v
ArithSpec.v
ArithLogic.v
ArithCmp.v
TupleOps.v
TupleSpec.v
TupleSafe.v
MachineTypes.v
MachineKeeps.v
MachineInv.v
Continuation.v
Cells.v
CellConstOps.v
BuilderOps.v
SliceOps.v
CellSpec.v
ContOps.v
ContChange.v
Machine.v
Run.v
TreeCells.v
CellTheorems.v
ContTypes.v
ContJumps.v
JumpSafe.v
CallSafe.v
ContOpsSafe.v
ControlSafe.v
CellSafe.v
JumpOpsSafe.v
ContChangeSafe.v
ExceptionSafe.v
ControlSpec.v
RunSafe.v
RunTheorems.v
LoopSpec.v
