(* ===== verification/Prelude.v ===== *)
(** * pow-miner-gpu: a verification development

    The repository is the TON node with a miner for proof-of-work givers added.  The
    development models, from the sources under src/, two parts of it: the miner from the
    message it mines to the concurrent search on the graphics card, and the TON virtual
    machine (TVM) from its integers and its instructions to the loop that runs a program.

    ** The miner

    A proof of work is a 123-byte message whose SHA-256 is below a target.
    - Sha256 ([crypto/util/cruncher.h]): [sha256_transform] of the kernel with its macros
      and constants; the compression function of FIPS 180-4 beside it, and the equality.  The
      library's streaming SHA-256 (OpenSSL) is specified by FIPS 180-4 there.
    - MineData ([crypto/util/Miner.h], [build_mine_result] of [Miner.cpp]): [HData] and
      [HDataEnv] as byte arrays; the counter [inc], the expiry, the result message.
    - CpuMiner ([Miner::run]): the loop with its cached hash of the prefix, its guard byte,
      the checks of the environment every 2^20 rounds and the accounting.  It refines a plain
      search; what it returns is a proof of work; undisturbed, it finds the first.
    - Kernel ([crypto/util/cruncher.h], [opencl/opencl.cpp]): the data prepared for the card,
      one thread's computation, the race of the threads for the result as interleavings of
      atomic steps, [scan_hash].
    - GpuHost ([opencl/sha256.cpp]): the host loop over launches.

    ** The virtual machine

    - BitMem ([crypto/common/bitstring.cpp]): strings of bits in memory, stored, loaded and
      filled byte by byte, and the lists of bits that this means.  BitCmp and BitCopy: strings
      compared, scanned and copied, whole words at a time.
    - BigInt, BigIntOps, BigIntShift, BigIntLog ([crypto/common/bigint.hpp]): [AnyIntView],
      integers as up to five signed digits in base 2^52, each in a 64-bit word with its
      wrap-around; NaN is the number without digits.  Addition, comparison, conversion;
      size tests, multiplication; shifts; bitwise operations.  BigIntBits and BigIntLoad:
      numbers written as strings of bits, and read back; BigIntBytes: as bytes in either order.
    - RefInt ([refint.cpp] and [BigIntG]): the operators on 257-bit integers, and the theorems
      that they compute on the value of the digits.
    - Stack ([crypto/vm/stack.hpp], [stack.cpp], [excno.hpp], [GasLimits] of [vm.h]): entries,
      tuples, stack operations, gas, exceptions, and the monad of instructions: an outcome
      is a value and a state, an exception, the end of the gas, or [Undefined] where the C++
      code would leave the bounds of a vector or dereference a register that is empty; it
      does not stand for undefined arithmetic.
    - OpTable ([opctable.cpp]): the table of instructions, its construction and its lookup.
    - StackOps, ArithOps, TupleOps ([stackops.cpp], [arithops.cpp], [tupleops.cpp]): one
      definition for each [exec_] function, under its name, and the registration lists.
    - Continuation ([continuation.h], [continuation.cpp], [vm.h], [vm.cpp]): the classes of
      continuations as constructors, the control registers, jumps, returns, calls, [extract_cc],
      the loops, exceptions and [commit].
    - Cells ([cells/CellSlice.cpp], [cells/CellBuilder.cpp]): what is left to read of a cell and
      what was stored so far, as bits and references, and the operations on them, with numbers
      going through the routines of BitMem and BigIntBits on the bytes of the cell.
    - CellConstOps, BuilderOps, SliceOps ([cellops.cpp]): the instructions that take constants
      from the code, build cells, and read, cut and compare them.
    - ContOps, ContChange ([contops.cpp]): the instructions that jump, call, loop, save
      registers, throw and catch.
    - Machine ([cp0.cpp]): the codepage.  Run ([vm.cpp]): the constructor of the machine,
      [VmState::step], [run] and [run_vm_code].  TreeCells: cells for the worked programs.
    - StackMoves, ArithSpec, ArithLogic, ArithCmp, TupleSpec: what the instructions on data do.
      CellSpec and CellTheorems: what those on cells do.
    - StackSafety, ArithSafe, TupleSafe, MachineTypes, MachineKeeps, MachineInv: they never
      leave the stack, and they keep what it holds well typed.
    - ContTypes, ContJumps, JumpSafe, CallSafe: the type invariant of continuations and of the
      whole machine, [sound], and that jumps, calls and exceptions keep it.
    - ContOpsSafe, ControlSafe, CellSafe, JumpOpsSafe, ContChangeSafe, ExceptionSafe: so does
      every instruction of the codepage.  RunSafe, RunTheorems: so does the loop, and it ends.
    - ControlSpec, LoopSpec: what calls, handlers and loops do.

    The parts interact through the state [VmState]: instructions are functions of it, registered
    in a table that [dispatch] searches; an instruction yields 0 to go on, and a jump out of the
    machine yields the complement of an exit code, which ends [run_loop].

    ** What the theorems show

    C1 to C11, the miner: the kernel's hash is SHA-256, its candidates are the messages of the
    host, a launch reports a hit exactly when there is one under every interleaving, and both
    loops end with a proof of work or after their whole range.  C12 to C19, integers: each
    operator is exact within its capacity and NaN outside, and a number written as bits or bytes
    is read back; strings of bits are compared and scanned exactly.  C20 and C21, the opcode
    table: insertion accepts exactly what is free, lookup finds what was inserted.  C22 to C25,
    the machine: no run accesses an entry, a register, code or a reference that is not there,
    the types of all that is stored are kept, a step throws only eight exceptions and there is a
    handler for them, and every run ends by its gas.  C26 to C29, control: a
    call hides the caller's stack and comes back, TRY runs its handler once, and rules of total
    correctness for REPEAT and WHILE.  C30 to C34, cells: integers stored in the fields of a
    cell are loaded back, each store and load answers or throws exactly when the code says so,
    and parts and comparisons of slices are those of strings of bits.  C35 to C40, the other
    instructions on data: moves of the stack, arithmetic with overflow and NaN, tuples.

    ** Conventions, bounds and fuel

    A word of w bits is an integer in Z, wrapped by [wrapu] or [wraps] where the code may
    overflow; a shift has the value that the code expects of it, also where C++ leaves it undefined
    ([import_bits_any] of no bits, which PLDUZ on an empty slice reaches).  [Undefined] stands for
    accesses only.  Loops are structural over a list or a count where the code's bound is one; the
    others take fuel: [run_fuel] of CpuMiner and the fuel of [host_loop] exceed the number of
    rounds [max_iterations] allows, and [bisect] of OpTable takes the length of the interval
    it halves; the theorems state that the result is reached.  [run_loop] of Run takes the number
    of iterations: each costs at least 5 gas, so that [g / 5 + 2] are enough for [g] gas.
    C25 takes [g] and the heights of the continuations that are passed in (the jumps that a jump
    to them may go through) to be at most 2^28, so that the 64-bit gas counter cannot wrap.
    Concurrency is a list of the threads' steps in the order in which they happen.

    ** Parameters

    The hash library is the FIPS 180-4 specification; the clock, the cancellation token and
    the time of expiry are functions of the round; the referents of stack entries that the
    instructions do not open are types of the class [RefTypes]; what the machine needs of cells
    is the class [CellSystem]: the data and references of a cell if it can be loaded, and
    whether it is special, its hash, its depth, how a cell is made, and the empty cell.

    ** Not modelled

    Division of big integers ([mod_div_any] guesses digits in floating point) and the
    instructions that divide; parsing and printing of numbers; the long form of [PUSHINT].
    How cells are stored, hashed and proved (the class [CellSystem] stands for it), special and
    library cells, the cursors and the preloaded word of [CellSlice], the serialization of
    continuations, dictionaries and the primitives of the
    blockchain, whose opcodes are invalid in the codepage of the model.  Logging and the
    stack trace.  The CUDA host code, which repeats the OpenCL host; statistics in floating
    point; and the rest of the node (network, consensus, validator, compilers, clients), which
    the miner does not use. *)
From stdpp Require Export base list list_numbers numbers option decidable.
From Stdlib Require Export ZArith Lia.

#[global] Open Scope Z_scope.

(** ** Machine integers *)

(** Unsigned [w]-bit wrap-around and two's complement [w]-bit wrap-around. *)
Definition wrapu (w x : Z) : Z := x mod 2 ^ w.
Definition wraps (w x : Z) : Z := (x + 2 ^ (w - 1)) mod 2 ^ w - 2 ^ (w - 1).

Abbreviation u8 := (wrapu 8).
Abbreviation u16 := (wrapu 16).
Abbreviation u32 := (wrapu 32).
Abbreviation u64 := (wrapu 64).
Abbreviation s8 := (wraps 8).
Abbreviation s16 := (wraps 16).
Abbreviation s32 := (wraps 32).
Abbreviation s64 := (wraps 64).

Lemma wrapu_range w x : 0 <= w -> 0 <= wrapu w x < 2 ^ w.
Proof. intros Hw. apply Z.mod_pos_bound. lia. Qed.

Lemma wrapu_small w x : 0 <= x < 2 ^ w -> wrapu w x = x.
Proof. apply Z.mod_small. Qed.

Lemma wraps_range w x : 0 < w -> - 2 ^ (w - 1) <= wraps w x < 2 ^ (w - 1).
Proof.
  intros Hw. unfold wraps.
  assert (2 ^ w = 2 * 2 ^ (w - 1)) as E by (rewrite <- Z.pow_succ_r by lia; f_equal; lia).
  pose proof (Z.mod_pos_bound (x + 2 ^ (w - 1)) (2 ^ w) ltac:(lia)). lia.
Qed.

Lemma wraps_small w x : 0 < w -> - 2 ^ (w - 1) <= x < 2 ^ (w - 1) -> wraps w x = x.
Proof.
  intros Hw Hx. unfold wraps.
  assert (2 ^ w = 2 * 2 ^ (w - 1)) as E by (rewrite <- Z.pow_succ_r by lia; f_equal; lia).
  rewrite Z.mod_small; lia.
Qed.

Lemma wraps_add w x k : 0 < w -> wraps w (x + k * 2 ^ w) = wraps w x.
Proof.
  intros Hw. unfold wraps. replace (x + k * 2 ^ w + 2 ^ (w - 1)) with (x + 2 ^ (w - 1) + k * 2 ^ w) by lia.
  by rewrite Z.mod_add by (pose proof (Z.pow_pos_nonneg 2 w); lia).
Qed.

(** The wrapped value is congruent to the exact one. *)
Lemma wraps_congr w x : 0 < w -> exists k, wraps w x = x + k * 2 ^ w.
Proof.
  intros Hw. unfold wraps.
  pose proof (Z.div_mod (x + 2 ^ (w - 1)) (2 ^ w) ltac:(pose proof (Z.pow_pos_nonneg 2 w); lia)).
  exists (- ((x + 2 ^ (w - 1)) / 2 ^ w)). lia.
Qed.

(** ** Bit operations as arithmetic *)

(** [lor] of a multiple of [2 ^ k] with a value below [2 ^ k] is their sum. *)
Lemma lor_disjoint k a b : 0 <= k -> 0 <= b < 2 ^ k -> Z.lor (a * 2 ^ k) b = a * 2 ^ k + b.
Proof.
  intros Hk Hb. symmetry. rewrite <- Z.shiftl_mul_pow2 by lia.
  assert (Z.land (Z.shiftl a k) b = 0) as Hl.
  { apply Z.bits_inj'. intros n Hn. rewrite Z.land_spec, Z.bits_0.
    destruct (decide (n < k)).
    - by rewrite Z.shiftl_spec_low.
    - rewrite <- (Z.mod_small b (2 ^ k)), Z.mod_pow2_bits_high by lia.
      apply andb_false_r. }
  rewrite Z.add_nocarry_lxor by done.
  by rewrite Z.lxor_lor.
Qed.

(** Masking the low [k] bits off a [w]-bit value. *)
Lemma land_high k w x : 0 <= k <= w -> 0 <= x < 2 ^ w ->
  Z.land x (2 ^ w - 2 ^ k) = x / 2 ^ k * 2 ^ k.
Proof.
  intros Hk Hx.
  assert (2 ^ w - 2 ^ k = Z.shiftl (Z.ones (w - k)) k) as ->.
  { rewrite Z.shiftl_mul_pow2, Z.ones_equiv by lia.
    unfold Z.pred. rewrite Z.mul_add_distr_r, <- Z.pow_add_r by lia.
    replace (w - k + k) with w by lia. lia. }
  rewrite <- Z.shiftr_div_pow2, <- Z.shiftl_mul_pow2 by lia.
  apply Z.bits_inj'. intros n Hn. rewrite Z.land_spec.
  destruct (decide (n < k)).
  - rewrite !(Z.shiftl_spec_low _ _ n) by lia. apply andb_false_r.
  - rewrite !Z.shiftl_spec, Z.shiftr_spec by lia.
    replace (n - k + k) with n by lia.
    destruct (decide (n < w)).
    + rewrite Z.ones_spec_low by lia. apply andb_true_r.
    + rewrite <- (Z.mod_small x (2 ^ w)) by lia.
      by rewrite Z.mod_pow2_bits_high by lia.
Qed.

(** ** Bytes and big-endian numbers *)

(** A byte is an integer in [0, 256). *)
Definition is_byte (b : Z) : Prop := 0 <= b < 256.

#[export] Instance is_byte_dec b : Decision (is_byte b).
Proof. unfold is_byte. apply _. Defined.

Abbreviation bytes := (Forall is_byte).

(** The value of a big-endian byte sequence, and the [n] low bytes of a value. *)
Definition be_combine (l : list Z) : Z := foldl (fun acc b => acc * 256 + b) 0 l.

Fixpoint be_split (n : nat) (x : Z) : list Z :=
  match n with
  | O => []
  | S n' => be_split n' (x / 256) ++ [x mod 256]
  end.

Lemma be_combine_app l1 l2 :
  be_combine (l1 ++ l2) = be_combine l1 * 256 ^ Z.of_nat (length l2) + be_combine l2.
Proof.
  unfold be_combine. rewrite foldl_app. generalize (foldl (fun acc b => acc * 256 + b) 0 l1).
  induction l2 as [|b l2 IH] using rev_ind; intros a.
  - simpl. lia.
  - rewrite !foldl_app, IH, length_app. simpl.
    rewrite Nat2Z.inj_add, Z.pow_add_r by lia. change (256 ^ Z.of_nat 1) with 256. lia.
Qed.

Lemma be_combine_snoc l b : be_combine (l ++ [b]) = be_combine l * 256 + b.
Proof. rewrite be_combine_app. simpl. unfold be_combine at 2. simpl. lia. Qed.

Lemma be_combine_range l : bytes l -> 0 <= be_combine l < 256 ^ Z.of_nat (length l).
Proof.
  induction l as [|b l IH] using rev_ind; intros H.
  - simpl. unfold be_combine. simpl. lia.
  - rewrite Forall_app, Forall_singleton in H. destruct H as [H1 H2].
    specialize (IH H1). rewrite be_combine_snoc, length_app. simpl.
    rewrite Nat2Z.inj_add, Z.pow_add_r by lia.
    change (256 ^ Z.of_nat 1) with 256. unfold is_byte in H2. nia.
Qed.

Lemma length_be_split n x : length (be_split n x) = n.
Proof. revert x. induction n as [|n IH]; intros x; [done|]. simpl. rewrite length_app, IH. simpl. lia. Qed.

Lemma be_split_bytes n x : bytes (be_split n x).
Proof.
  revert x. induction n as [|n IH]; intros x; simpl; [constructor|].
  apply Forall_app; split; [apply IH|]. apply Forall_singleton.
  unfold is_byte. apply Z.mod_pos_bound. lia.
Qed.

Lemma be_split_app n k x : be_split (n + k) x = be_split n (x / 256 ^ Z.of_nat k) ++ be_split k x.
Proof.
  revert x. induction k as [|k IH]; intros x.
  - rewrite Nat.add_0_r, Z.div_1_r. by rewrite app_nil_r.
  - rewrite Nat.add_succ_r. cbn [be_split]. rewrite IH, (assoc_L (++)). f_equal. f_equal. f_equal.
    rewrite Nat2Z.inj_succ, Z.pow_succ_r, Z.div_div by lia. done.
Qed.

Lemma be_combine_split n x : be_combine (be_split n x) = x mod 256 ^ Z.of_nat n.
Proof.
  revert x. induction n as [|n IH]; intros x.
  - simpl. unfold be_combine. simpl. by rewrite Z.mod_1_r.
  - simpl be_split. rewrite be_combine_snoc, IH.
    rewrite Nat2Z.inj_succ, Z.pow_succ_r by lia.
    rewrite Z.rem_mul_r by (pose proof (Z.pow_pos_nonneg 256 (Z.of_nat n)); lia). lia.
Qed.

Lemma be_split_combine l : bytes l -> be_split (length l) (be_combine l) = l.
Proof.
  induction l as [|b l IH] using rev_ind; intros H; [done|].
  rewrite Forall_app, Forall_singleton in H. destruct H as [H1 H2].
  rewrite length_app, Nat.add_comm. simpl. rewrite be_combine_snoc.
  unfold is_byte in H2.
  rewrite Z.div_add_l, Z.div_small, Z.add_0_r by lia.
  rewrite IH by done. f_equal.
  rewrite Z.add_comm, Z.mod_add, Z.mod_small by lia. done.
Qed.

Lemma be_combine_inj l1 l2 :
  bytes l1 -> bytes l2 -> length l1 = length l2 -> be_combine l1 = be_combine l2 -> l1 = l2.
Proof.
  intros H1 H2 Hl He. rewrite <- (be_split_combine l1), <- (be_split_combine l2) by done.
  by rewrite Hl, He.
Qed.

(** [memcmp] of two buffers of equal length: the sign of the first difference. *)
Fixpoint memcmp (l1 l2 : list Z) : Z :=
  match l1, l2 with
  | a :: l1', b :: l2' => if a <? b then -1 else if b <? a then 1 else memcmp l1' l2'
  | _, _ => 0
  end.

Lemma memcmp_compare l1 l2 :
  bytes l1 -> bytes l2 -> length l1 = length l2 ->
  memcmp l1 l2 = if be_combine l1 <? be_combine l2 then -1 else if be_combine l2 <? be_combine l1 then 1 else 0.
Proof.
  revert l2. induction l1 as [|a l1 IH]; intros [|b l2] H1 H2 Hl; try done.
  apply Forall_cons_1 in H1 as [Ha H1]. apply Forall_cons_1 in H2 as [Hb H2].
  simpl in Hl. injection Hl as Hl. cbn [memcmp]. rewrite (IH l2) by done. clear IH.
  change (a :: l1) with ([a] ++ l1). change (b :: l2) with ([b] ++ l2). rewrite !be_combine_app, Hl.
  pose proof (be_combine_range _ H1) as R1. pose proof (be_combine_range _ H2) as R2. rewrite Hl in R1.
  assert (forall x, be_combine [x] = x) as E1 by done. rewrite !E1.
  set (p := 256 ^ Z.of_nat (length l2)) in *.
  destruct (Z.ltb_spec a b); [destruct (Z.ltb_spec (a * p + be_combine l1) (b * p + be_combine l2)); [done|nia]|].
  destruct (Z.ltb_spec b a).
  - destruct (Z.ltb_spec (a * p + be_combine l1) (b * p + be_combine l2)); [nia|].
    destruct (Z.ltb_spec (b * p + be_combine l2) (a * p + be_combine l1)); [done|nia].
  - assert (a = b) as -> by lia.
    destruct (Z.ltb_spec (be_combine l1) (be_combine l2)), (Z.ltb_spec (b * p + be_combine l1) (b * p + be_combine l2)); try lia.
    destruct (Z.ltb_spec (be_combine l2) (be_combine l1)), (Z.ltb_spec (b * p + be_combine l2) (b * p + be_combine l1)); lia.
Qed.

Lemma memcmp_be l1 l2 :
  bytes l1 -> bytes l2 -> length l1 = length l2 ->
  memcmp l1 l2 < 0 <-> be_combine l1 < be_combine l2.
Proof.
  intros. rewrite memcmp_compare by done.
  destruct (Z.ltb_spec (be_combine l1) (be_combine l2)), (Z.ltb_spec (be_combine l2) (be_combine l1)); lia.
Qed.

(** ** Lists *)

Lemma elem_Forall {A} (P : A -> Prop) l x : Forall P l -> x ∈ l -> P x.
Proof. rewrite Forall_forall. intros F Hx. apply F. by apply list_elem_of_In. Qed.

(** ** Counting in lists *)

(** How many elements of a list satisfy a test. *)
Definition count_if {A} (p : A -> bool) (l : list A) : Z := foldr (fun x n => Z.b2z (p x) + n) 0 l.

Lemma count_if_range {A} (p : A -> bool) l : 0 <= count_if p l <= Z.of_nat (length l).
Proof. induction l as [|x l IH]; simpl; [lia|]. destruct (p x); simpl; lia. Qed.

Lemma count_if_insert {A} (p : A -> bool) l i x y :
  l !! i = Some x -> count_if p (<[i := y]> l) = count_if p l - Z.b2z (p x) + Z.b2z (p y).
Proof.
  revert i. induction l as [|z l IH]; intros [|i] Hx; try done; simpl in *.
  - injection Hx as <-. lia.
  - rewrite IH by done. lia.
Qed.

Lemma count_if_pos {A} (p : A -> bool) l : 0 < count_if p l -> exists x, x ∈ l /\ p x = true.
Proof.
  induction l as [|x l IH]; simpl; [lia|]. intros Hp. destruct (p x) eqn:E.
  - exists x. split; [apply list_elem_of_here|done].
  - destruct IH as (y & ? & ?); [simpl in Hp; lia|]. exists y. split; [by apply list_elem_of_further|done].
Qed.

Lemma count_if_mem {A} (p : A -> bool) l x : x ∈ l -> p x = true -> 0 < count_if p l.
Proof.
  intros Hx Hp. apply list_elem_of_In in Hx. induction l as [|y l IH]; [done|].
  simpl. pose proof (count_if_range p l). destruct Hx as [->|Hx].
  - rewrite Hp. simpl. lia.
  - specialize (IH Hx). destruct (p y); simpl; lia.
Qed.

Create HintDb bytes.
Create Rewrite HintDb bytes.
#[export] Hint Resolve be_split_bytes : bytes.
#[export] Hint Rewrite length_be_split be_combine_split : bytes.

(** ** Tactics *)

(** [explode l H], with [H : length l = n] for a literal [n], names the elements of [l]. *)
Ltac explode l H :=
  lazymatch type of H with
  | length l = S _ =>
      let x := fresh "x" in
      destruct l as [|x l]; [discriminate H|];
      apply (f_equal Nat.pred) in H; cbn [length Nat.pred] in H; explode l H
  | length l = O => destruct l; [clear H|discriminate H]
  end.

(** Split the hypotheses that [Forall] makes about an explicit list. *)
Ltac forall_split :=
  repeat match goal with
  | H : Forall _ (_ :: _) |- _ => apply Forall_cons_1 in H as [? H]
  | H : Forall _ [] |- _ => clear H
  | H : Forall _ (_ ++ _) |- _ => apply Forall_app in H as [? H]
  end.

(** Prove [Forall P] of an explicit list, each element with [tac]. *)
Ltac forall_intro tac := repeat (apply Forall_cons_2; [tac|]); apply Forall_nil_2.
