(* ===== verification/BitMem.v ===== *)
(** * Bits in memory ([crypto/common/bitstring.cpp])

    Memory is a list of bytes, in which a string of bits starts at any bit, from the highest
    bit of a byte to its lowest.  The code works on bytes and 64-bit words; what it means is
    stated on the list of the bits. *)
From S2P Require Import Prelude.

(** ** Bits and numbers *)

Definition bits_value (l : list bool) : Z := fold_left (fun v (b : bool) => 2 * v + Z.b2z b) l 0.

(** The [n] lowest bits of a number. *)
Fixpoint bits_of (n : nat) (v : Z) : list bool := match n with O => [] | S n' => bits_of n' (v / 2) ++ [Z.odd v] end.

Lemma fold_bits v l : fold_left (fun v (b : bool) => 2 * v + Z.b2z b) l v = v * 2 ^ Z.of_nat (length l) + bits_value l.
Proof.
  unfold bits_value. revert v. induction l as [|b l IH]; intros v; [cbn; lia|]. cbn [fold_left length].
  rewrite IH, (IH (2 * 0 + Z.b2z b)). rewrite Nat2Z.inj_succ, Z.pow_succ_r by lia. lia.
Qed.

Lemma bits_value_range l : 0 <= bits_value l < 2 ^ Z.of_nat (length l).
Proof.
  induction l as [|b l IH]; [cbn; lia|]. unfold bits_value. cbn [fold_left length]. rewrite fold_bits.
  rewrite Nat2Z.inj_succ, Z.pow_succ_r by lia. destruct b; cbn [Z.b2z]; lia.
Qed.

Lemma bits_value_app l1 l2 : bits_value (l1 ++ l2) = bits_value l1 * 2 ^ Z.of_nat (length l2) + bits_value l2.
Proof. unfold bits_value at 1. rewrite fold_left_app. apply fold_bits. Qed.

Lemma length_bits_of n v : length (bits_of n v) = n.
Proof. revert v. induction n as [|n IH]; intros v; [done|]. cbn [bits_of]. rewrite length_app, IH. cbn. lia. Qed.

Lemma pow2_S n : 2 ^ Z.of_nat (S n) = 2 * 2 ^ Z.of_nat n.
Proof. rewrite Nat2Z.inj_succ, Z.pow_succ_r by lia. done. Qed.
Lemma pow2_pos n : 0 < 2 ^ Z.of_nat n.
Proof. apply Z.pow_pos_nonneg; lia. Qed.

Lemma bits_of_app n1 n2 v : bits_of (n1 + n2) v = bits_of n1 (v / 2 ^ Z.of_nat n2) ++ bits_of n2 v.
Proof.
  revert v. induction n2 as [|n2 IH]; intros v.
  - rewrite Nat.add_0_r, app_nil_r. by rewrite Z.div_1_r.
  - rewrite Nat.add_succ_r. cbn [bits_of]. rewrite IH, app_assoc, pow2_S, Z.div_div by (pose proof (pow2_pos n2); lia). done.
Qed.

Lemma bits_value_of n v : bits_value (bits_of n v) = v mod 2 ^ Z.of_nat n.
Proof.
  revert v. induction n as [|n IH]; intros v; [by rewrite Z.mod_1_r|]. cbn [bits_of]. rewrite bits_value_app, IH, pow2_S.
  rewrite Z.rem_mul_r by (pose proof (pow2_pos n); lia). cbn. rewrite (Zmod_odd v). destruct (Z.odd v); cbn; lia.
Qed.

Lemma bits_of_value l : bits_of (length l) (bits_value l) = l.
Proof.
  induction l as [|b l IH] using rev_ind; [done|]. rewrite length_app, Nat.add_comm. cbn [length Nat.add bits_of]. rewrite bits_value_app.
  assert (bits_value [b] = Z.b2z b) as -> by by destruct b. change (2 ^ Z.of_nat (length [b])) with 2.
  rewrite Z.div_add_l by lia. rewrite (Z.div_small (Z.b2z b)) by (destruct b; cbn; lia). rewrite Z.add_0_r, IH. f_equal. f_equal.
  rewrite Z.odd_add, Z.odd_mul. by destruct b, (Z.odd (bits_value l)).
Qed.

(** Only the lowest bits count. *)
Lemma bits_of_congr n a b : a mod 2 ^ Z.of_nat n = b mod 2 ^ Z.of_nat n -> bits_of n a = bits_of n b.
Proof. intros E. rewrite <- (bits_of_value (bits_of n a)), <- (bits_of_value (bits_of n b)), !length_bits_of, !bits_value_of. by rewrite E. Qed.

Lemma bits_of_add n a k : bits_of n (a + k * 2 ^ Z.of_nat n) = bits_of n a.
Proof. apply bits_of_congr. pose proof (pow2_pos n). by rewrite Z.mod_add by lia. Qed.

Lemma bits_of_take k n v : (k <= n)%nat -> take k (bits_of n v) = bits_of k (v / 2 ^ Z.of_nat (n - k)).
Proof.
  intros Hk. replace n with (k + (n - k))%nat at 1 by lia. rewrite bits_of_app. apply take_app_length'. by rewrite length_bits_of.
Qed.
Lemma bits_of_drop k n v : (k <= n)%nat -> drop k (bits_of n v) = bits_of (n - k) v.
Proof.
  intros Hk. replace n with (k + (n - k))%nat at 1 by lia. rewrite bits_of_app. apply drop_app_length'. by rewrite length_bits_of.
Qed.

(** ** Memory *)

Definition byte_at (m : list Z) (i : nat) : Z := default 0 (m !! i).
Definition mem_bits (m : list Z) : list bool := flat_map (bits_of 8) m.

Lemma mem_bits_app m1 m2 : mem_bits (m1 ++ m2) = mem_bits m1 ++ mem_bits m2.
Proof. apply flat_map_app. Qed.
Lemma length_mem_bits m : length (mem_bits m) = (8 * length m)%nat.
Proof. induction m as [|b m IH]; [done|]. cbn [mem_bits flat_map]. rewrite length_app, length_bits_of. unfold mem_bits in IH. rewrite IH. cbn [length]. lia. Qed.
Lemma mem_bits_take k m : mem_bits (take k m) = take (8 * k) (mem_bits m).
Proof.
  revert m. induction k as [|k IH]; intros m; [done|]. destruct m as [|b m]; [by rewrite take_nil|]. cbn [take mem_bits flat_map].
  replace (8 * S k)%nat with (8 + 8 * k)%nat by lia. change (flat_map (bits_of 8) (take k m)) with (mem_bits (take k m)). rewrite IH.
  by rewrite take_app_add' by (by rewrite length_bits_of).
Qed.
Lemma mem_bits_drop k m : mem_bits (drop k m) = drop (8 * k) (mem_bits m).
Proof.
  revert m. induction k as [|k IH]; intros m; [done|]. destruct m as [|b m]; [by rewrite drop_nil|]. cbn [drop mem_bits flat_map].
  replace (8 * S k)%nat with (8 + 8 * k)%nat by lia. change (flat_map (bits_of 8) m) with (mem_bits m). rewrite IH.
  by rewrite drop_app_add' by (by rewrite length_bits_of).
Qed.

Lemma bits_value_mem m : bytes m -> bits_value (mem_bits m) = be_combine m.
Proof.
  induction m as [|b m IH] using rev_ind; intros H; [done|]. apply Forall_app in H as [H Hb]. apply Forall_cons_1 in Hb as [Hb _].
  rewrite mem_bits_app, bits_value_app, IH, be_combine_snoc by done. cbn [mem_bits flat_map]. rewrite app_nil_r, length_bits_of, bits_value_of.
  change (2 ^ Z.of_nat 8) with 256. unfold is_byte in Hb. rewrite (Z.mod_small b) by lia. done.
Qed.

Lemma mem_byte m i : (i < length m)%nat -> take 8 (drop (8 * i) (mem_bits m)) = bits_of 8 (byte_at m i).
Proof.
  intros Hi. unfold byte_at. destruct (lookup_lt_is_Some_2 m i Hi) as [b Eb]. rewrite Eb, <- mem_bits_drop, (drop_S m b i Eb).
  cbn [mem_bits flat_map default from_option id]. apply take_app_length'. by rewrite length_bits_of.
Qed.

(** [l'] is [l] with the bits from [o] on replaced by [new]. *)
Definition written (l : list bool) (o : nat) (new l' : list bool) : Prop :=
  (o + length new <= length l)%nat /\ l' = take o l ++ new ++ drop (o + length new) l.

Lemma written_length l o new l' : written l o new l' -> length l' = length l.
Proof. intros [H ->]. rewrite !length_app, length_take, length_drop. lia. Qed.

(** A part, and then the part before it. *)
Lemma written_before l o new1 new2 l1 l2 : written l (o + length new2) new1 l1 -> written l1 o new2 l2 -> written l o (new2 ++ new1) l2.
Proof.
  intros W1 [H2 ->]. pose proof (written_length _ _ _ _ W1) as E. destruct W1 as [H1 ->]. unfold written. rewrite length_app. split; [lia|].
  rewrite take_app_le by (rewrite length_take; lia). rewrite take_take. replace (o `min` (o + length new2))%nat with o by lia.
  rewrite <- app_assoc. do 2 f_equal. rewrite drop_app_ge by (rewrite length_take; lia). rewrite length_take.
  replace (o + length new2 - (o + length new2) `min` length l)%nat with 0%nat by lia. rewrite drop_0. do 2 f_equal. lia.
Qed.

Lemma written_byte m i v : (i < length m)%nat -> written (mem_bits m) (8 * i) (bits_of 8 v) (mem_bits (<[i := v]> m)).
Proof.
  intros Hi. split; [rewrite length_mem_bits, length_bits_of; lia|]. rewrite length_bits_of, insert_take_drop by done.
  rewrite mem_bits_app, mem_bits_take. cbn [mem_bits flat_map]. do 2 f_equal.
  change (flat_map (bits_of 8) (drop (S i) m)) with (mem_bits (drop (S i) m)). rewrite mem_bits_drop. f_equal. lia.
Qed.

Lemma insert_bytes m i v : bytes m -> is_byte v -> bytes (<[i := v]> m).
Proof. intros Hm Hv. by apply Forall_insert. Qed.

(** ** Masks *)

Lemma bits8 x : bits_of 8 x =
  [Z.testbit x 7; Z.testbit x 6; Z.testbit x 5; Z.testbit x 4; Z.testbit x 3; Z.testbit x 2; Z.testbit x 1; Z.testbit x 0].
Proof.
  rewrite !Z.testbit_odd, !Z.shiftr_div_pow2 by lia. change (2 ^ 0) with 1. rewrite Z.div_1_r.
  cbn [bits_of app]. rewrite !Z.div_div by lia. reflexivity.
Qed.

Lemma testbit_mod_eq w a b i : 0 <= i < w -> a mod 2 ^ w = b mod 2 ^ w -> Z.testbit a i = Z.testbit b i.
Proof. intros Hi E. rewrite <- (Z.mod_pow2_bits_low a w i), <- (Z.mod_pow2_bits_low b w i) by lia. by rewrite E. Qed.
Lemma mod_mod_pow a b x : 0 <= a <= b -> (x mod 2 ^ b) mod 2 ^ a = x mod 2 ^ a.
Proof. intros H. apply Z.mod_mod_divide. exists (2 ^ (b - a)). rewrite <- Z.pow_add_r by lia. f_equal. lia. Qed.
Lemma wraps_mod w x : 0 < w -> wraps w x mod 2 ^ w = x mod 2 ^ w.
Proof. intros Hw. destruct (wraps_congr w x Hw) as [k ->]. pose proof (Z.pow_pos_nonneg 2 w). by rewrite Z.mod_add by lia. Qed.
Lemma testbit_wrapu w x i : 0 <= i < w -> Z.testbit (wrapu w x) i = Z.testbit x i.
Proof. intros Hi. apply Z.mod_pow2_bits_low. lia. Qed.
Lemma testbit_wraps w x i : 0 <= i < w -> Z.testbit (wraps w x) i = Z.testbit x i.
Proof. intros Hi. apply (testbit_mod_eq w); [done|]. apply wraps_mod. lia. Qed.

(** Computes the bits of a masked byte. *)
Ltac mask_bits :=
  rewrite !bits8; cbn [take drop app];
  repeat (rewrite ?Z.lor_spec, ?Z.land_spec, ?testbit_wrapu, ?testbit_wraps, ?Z.lxor_spec by lia; rewrite ?Z.lnot_spec by lia);
  repeat match goal with
    |- context [Z.testbit ?c ?i] => let v := eval vm_compute in (Z.testbit c i) in
                                      lazymatch v with true => idtac | false => idtac end; change (Z.testbit c i) with v
  end;
  rewrite ?andb_true_r, ?andb_false_r, ?orb_true_r, ?orb_false_r, ?orb_false_l; cbn [negb andb orb]; rewrite ?andb_true_r, ?andb_false_r, ?orb_false_r.

(** A number below 8, by cases. *)
Lemma below_8 (P : Z -> Prop) : P 0 -> P 1 -> P 2 -> P 3 -> P 4 -> P 5 -> P 6 -> P 7 -> forall o, 0 <= o < 8 -> P o.
Proof.
  intros H0 H1 H2 H3 H4 H5 H6 H7 o Ho. assert (o = 0 \/ o = 1 \/ o = 2 \/ o = 3 \/ o = 4 \/ o = 5 \/ o = 6 \/ o = 7) as C by lia.
  by repeat (destruct C as [->|C]; [done|]); subst.
Qed.

(** The first bits are written as they were. *)
Lemma written_inside l p k n new l' : (k <= n)%nat -> (p + n <= length l)%nat -> length new = (n - k)%nat ->
  written l p (take k (take n (drop p l)) ++ new) l' -> written l (p + k) new l'.
Proof.
  intros Hk Hp Hl [H ->]. split; [lia|]. rewrite take_take, length_app, length_take, length_drop.
  replace (k `min` n)%nat with k by lia. replace (k `min` (length l - p))%nat with k by lia.
  rewrite <- app_assoc, app_assoc, take_take_drop. do 2 f_equal. f_equal. lia.
Qed.

(** A part, and then the part behind it. *)
Lemma written_after l o new1 new2 l1 l2 : written l o new1 l1 -> written l1 (o + length new1) new2 l2 -> written l o (new1 ++ new2) l2.
Proof.
  intros W1 [H2 ->]. pose proof (written_length _ _ _ _ W1) as E. destruct W1 as [H1 ->]. unfold written. rewrite length_app. split; [lia|].
  assert (length (take o l ++ new1) = o + length new1)%nat as L by (rewrite length_app, length_take; lia).
  rewrite (app_assoc (take o l)). rewrite (take_app_length' _ _ _ (eq_sym L)). rewrite <- !app_assoc. do 3 f_equal.
  rewrite app_assoc. rewrite drop_app_ge by lia. rewrite L, drop_drop. f_equal. lia.
Qed.
Lemma written_nil l o : (o <= length l)%nat -> written l o [] l.
Proof. intros H. split; [cbn; lia|]. cbn. by rewrite Nat.add_0_r, take_drop. Qed.

(** ** Words in memory *)

(** [memcpy], and a word stored with its bytes swapped on a little-endian machine. *)
Definition write_bytes (m : list Z) (i : nat) (l : list Z) : list Z := take i m ++ l ++ drop (i + length l) m.

(** [*to++ = z >> p], [c] times. *)
Fixpoint store_loop (c : nat) (m : list Z) (to : nat) (z p : Z) : list Z :=
  match c with O => m | S c' => store_loop c' (<[to := u8 (Z.shiftr z p)]> m) (S to) z (p - 8) end.

(** The first bits of a byte, and the rest as it was. *)
Definition store_top (m : list Z) (to : nat) (v bits : Z) : list Z :=
  let mask := Z.shiftr 0xff bits in <[to := u8 (Z.lor (Z.land (byte_at m to) mask) (Z.land (s32 v) (Z.lnot mask)))]> m.

Definition bits_store_long_top (m : list Z) (to_offs val top_bits : Z) : list Z :=
  if top_bits <=? 0 then m
  else
    let to := Z.to_nat (Z.shiftr to_offs 3) in
    let to_offs := Z.land to_offs 7 in
    if (to_offs =? 0) && (Z.land top_bits 7 =? 0) then write_bytes m to (take (Z.to_nat (Z.shiftr top_bits 3)) (be_split 8 val))
    else
      let z := Z.lor (u64 (Z.shiftl (Z.land (byte_at m to) (Z.shiftr (-0x100) to_offs)) 56)) (Z.shiftr val to_offs) in
      let top_bits := top_bits + to_offs in
      if 64 <? top_bits then store_top (write_bytes m to (be_split 8 z)) (to + 8) (u64 (Z.shiftl val (8 - to_offs))) (top_bits - 64)
      else
        let q := 64 - top_bits in
        let fast := q <=? 32 in
        let m := if fast then write_bytes m to (be_split 4 (Z.shiftr z 32)) else m in
        let to := if fast then (to + 4)%nat else to in
        let p := if fast then 24 else 56 in
        let c := Z.to_nat ((p + 8 - q) / 8) in
        let m := store_loop c m to z p in
        let p := p - 8 * Z.of_nat c in
        if 0 <? p + 8 - q then store_top m (to + c) (Z.shiftr z p) (p + 8 - q) else m.

(** What is behind the bits does not matter; [pad] stands for the bytes of the word that are
    not read from memory. *)
Definition bits_load_long_top (pad : Z) (m : list Z) (from_offs top_bits : Z) : Z :=
  if top_bits =? 0 then 0
  else
    let from := Z.to_nat (Z.shiftr from_offs 3) in
    let from_offs := Z.land from_offs 7 in
    let mask := u64 (Z.shiftl (2 ^ 64 - 1) (64 - top_bits)) in
    if from_offs + top_bits <=? 64 then
      let n := Z.to_nat (Z.shiftr (from_offs + top_bits + 7) 3) in
      let tmp := be_combine (take n (drop from m) ++ be_split (8 - n) pad) in
      Z.land (u64 (Z.shiftl tmp from_offs)) mask
    else
      let z := u64 (Z.shiftl (be_combine (take 8 (drop from m))) from_offs) in
      Z.land (Z.lor z (Z.shiftr (byte_at m (from + 8)) (8 - from_offs))) mask.

(** [bits_memset]. *)
Definition bits_memset (m : list Z) (to_offs : Z) (val : bool) (bit_count : Z) : list Z :=
  if bit_count <=? 0 then m
  else
    let to := Z.to_nat (Z.shiftr to_offs 3) in
    let to_offs := Z.land to_offs 7 in
    let c := byte_at m to in
    if bit_count + to_offs <=? 8 then
      let mask := Z.shiftr (Z.land (Z.shiftr (-0x100) bit_count) 0xff) to_offs in
      <[to := u8 (if val then Z.lor c mask else Z.land c (Z.lnot mask))]> m
    else
      let m := <[to := u8 (if val then Z.lor c (Z.shiftr 0xff to_offs) else Z.land c (Z.shiftr (-0x100) to_offs))]> m in
      let l := Z.shiftr (bit_count + to_offs) 3 in
      let m := write_bytes m (to + 1) (replicate (Z.to_nat (l - 1)) (if val then 0xff else 0)) in
      let r := Z.land (bit_count + to_offs) 7 in
      if negb (r =? 0) then
        let c := byte_at m (to + Z.to_nat l) in
        <[(to + Z.to_nat l)%nat := u8 (if val then Z.lor c (Z.shiftr (-0x100) r) else Z.land c (Z.shiftr 0xff r))]> m
      else m.

(** ** The functions on words write and read their bits *)

Lemma mem_be_split n z : mem_bits (be_split n z) = bits_of (8 * n) z.
Proof.
  revert z. induction n as [|n IH]; intros z; [done|]. cbn [be_split]. rewrite mem_bits_app, IH.
  replace (8 * S n)%nat with (8 * n + 8)%nat by lia. rewrite bits_of_app. f_equal. cbn [mem_bits flat_map]. rewrite app_nil_r.
  apply bits_of_congr. change (2 ^ Z.of_nat 8) with 256. by rewrite Z.mod_mod.
Qed.

Lemma written_bytes m i l : (i + length l <= length m)%nat -> written (mem_bits m) (8 * i) (mem_bits l) (mem_bits (write_bytes m i l)).
Proof.
  intros H. unfold written, write_bytes. rewrite !length_mem_bits, !mem_bits_app, mem_bits_take, mem_bits_drop. split; [lia|]. do 3 f_equal. lia.
Qed.
Lemma length_write_bytes m i l : (i + length l <= length m)%nat -> length (write_bytes m i l) = length m.
Proof. intros H. unfold write_bytes. rewrite !length_app, length_take, length_drop. lia. Qed.
Lemma write_bytes_ok m i l : bytes m -> bytes l -> bytes (write_bytes m i l).
Proof. intros Hm Hl. unfold write_bytes. rewrite !Forall_app. split; [by apply Forall_take|]. split; [done|by apply Forall_drop]. Qed.

Lemma bits_of_part a b v : (a <= b)%nat -> take a (bits_of b v) = bits_of a (v / 2 ^ (Z.of_nat b - Z.of_nat a)).
Proof. intros H. rewrite bits_of_take by done. by replace (Z.of_nat (b - a)) with (Z.of_nat b - Z.of_nat a) by lia. Qed.
Lemma div_pow2 v a b : 0 <= a -> 0 <= b -> v / 2 ^ a / 2 ^ b = v / 2 ^ (a + b).
Proof. intros Ha Hb. rewrite Z.div_div by (try apply Z.pow_nonzero; try apply Z.pow_pos_nonneg; lia). by rewrite Z.pow_add_r. Qed.
Lemma bits_of_glue a b v e : 0 <= e -> bits_of a (v / 2 ^ (e + Z.of_nat b)) ++ bits_of b (v / 2 ^ e) = bits_of (a + b) (v / 2 ^ e).
Proof. intros He. by rewrite bits_of_app, div_pow2 by lia. Qed.

Lemma store_loop_written c m to z p : (to + c <= length m)%nat -> 0 <= p + 8 - 8 * Z.of_nat c ->
  written (mem_bits m) (8 * to) (bits_of (8 * c) (z / 2 ^ (p + 8 - 8 * Z.of_nat c))) (mem_bits (store_loop c m to z p))
  /\ (bytes m -> bytes (store_loop c m to z p)).
Proof.
  revert m to p. induction c as [|c IH]; intros m to p Hc Hp.
  - split; [|done]. cbn [store_loop]. apply written_nil. rewrite length_mem_bits. lia.
  - cbn [store_loop]. set (m1 := <[to := _]> m). destruct (IH m1 (S to) (p - 8)) as [W B]; [unfold m1; rewrite length_insert; lia|lia|].
    split; [|intros H; apply B, insert_bytes; [done|]; apply (wrapu_range 8); lia].
    replace (8 * S c)%nat with (8 + 8 * c)%nat by lia. rewrite <- bits_of_glue by lia.
    apply (written_after _ _ _ _ (mem_bits m1)).
    + replace (p + 8 - 8 * Z.of_nat (S c) + Z.of_nat (8 * c)) with p by lia. rewrite <- Z.shiftr_div_pow2 by lia.
      rewrite (bits_of_congr 8 _ (u8 (Z.shiftr z p))) by (unfold wrapu; by rewrite Z.mod_mod). apply written_byte. lia.
    + rewrite length_bits_of. replace (8 * to + 8)%nat with (8 * S to)%nat by lia.
      by replace (p + 8 - 8 * Z.of_nat (S c)) with (p - 8 + 8 - 8 * Z.of_nat c) by lia.
Qed.

(** The last bits are written as they were. *)
Lemma written_prefix l p n k new l' : (p + n <= length l)%nat -> length new = k -> (k <= n)%nat ->
  written l p (new ++ drop k (take n (drop p l))) l' -> written l p new l'.
Proof.
  intros Hp Hl Hk [H ->]. rewrite length_app, length_drop, length_take, length_drop in H |- *. split; [lia|]. rewrite <- app_assoc. do 2 f_equal.
  replace (length new + (n `min` (length l - p) - k))%nat with n by lia. rewrite <- (take_drop (n - k) (drop (p + length new) l)).
  rewrite drop_drop. f_equal; [|f_equal; lia]. rewrite skipn_firstn_comm, drop_drop. do 2 f_equal; lia.
Qed.

Lemma store_top_bits a v t : 0 <= t < 8 -> let mask := Z.shiftr 0xff t in
  bits_of 8 (u8 (Z.lor (Z.land a mask) (Z.land (s32 v) (Z.lnot mask)))) = take (Z.to_nat t) (bits_of 8 v) ++ drop (Z.to_nat t) (bits_of 8 a).
Proof. revert t. apply below_8; cbv zeta; mask_bits; reflexivity. Qed.

Lemma store_top_written m to v t : (to < length m)%nat -> 0 <= t < 8 ->
  written (mem_bits m) (8 * to) (bits_of (Z.to_nat t) (v / 2 ^ (8 - t))) (mem_bits (store_top m to v t)) /\ (bytes m -> bytes (store_top m to v t)).
Proof.
  intros Hto Ht. split; [|intros H; apply insert_bytes; [done|]; apply (wrapu_range 8); lia].
  pose proof (written_byte m to (u8 (Z.lor (Z.land (byte_at m to) (Z.shiftr 0xff t)) (Z.land (s32 v) (Z.lnot (Z.shiftr 0xff t))))) Hto) as W.
  rewrite (store_top_bits (byte_at m to) v t Ht), <- (mem_byte m to), bits_of_part in W by lia.
  replace (Z.of_nat 8 - Z.of_nat (Z.to_nat t)) with (8 - t) in W by lia.
  apply written_prefix in W; [exact W|rewrite length_mem_bits; lia|by rewrite length_bits_of|lia].
Qed.

(** The word that is stored: the first bits of its first byte, and then the number. *)
Lemma store_word b val o : is_byte b -> 0 <= val < 2 ^ 64 -> 0 <= o < 8 ->
  let z := Z.lor (u64 (Z.shiftl (Z.land b (Z.shiftr (-0x100) o)) 56)) (Z.shiftr val o) in
  bits_of 64 z = take (Z.to_nat o) (bits_of 8 b) ++ bits_of (64 - Z.to_nat o) (val / 2 ^ o).
Proof.
  intros Hb Hv Ho z. unfold is_byte in Hb.
  assert (Z.land b (Z.shiftr (-0x100) o) = b / 2 ^ (8 - o) * 2 ^ (8 - o)) as E.
  { rewrite <- (land_high (8 - o) 8 b) by lia. apply Z.bits_inj'. intros i Hi. rewrite !Z.land_spec.
    destruct (decide (i < 8)) as [Hi8|Hi8].
    - f_equal. assert (forall i, 0 <= i < 8 -> 0 <= o < 8 -> Z.testbit (Z.shiftr (-0x100) o) i = Z.testbit (2 ^ 8 - 2 ^ (8 - o)) i) as T; [|by apply T].
      clear. intros i Hi Ho. revert o Ho. apply (below_8 (fun o => _)); revert i Hi; apply below_8; reflexivity.
    - rewrite <- (Z.mod_small b (2 ^ 8)) by lia. by rewrite Z.mod_pow2_bits_high by lia. }
  assert (0 <= val / 2 ^ o < 2 ^ (64 - o)) as Hq.
  { split; [apply Z.div_pos; [lia|apply Z.pow_pos_nonneg; lia]|]. apply Z.div_lt_upper_bound; [apply Z.pow_pos_nonneg; lia|].
    rewrite <- Z.pow_add_r by lia. replace (o + (64 - o)) with 64 by lia. lia. }
  assert (0 <= b / 2 ^ (8 - o) < 2 ^ o) as Hh.
  { split; [apply Z.div_pos; [lia|apply Z.pow_pos_nonneg; lia]|]. apply Z.div_lt_upper_bound; [apply Z.pow_pos_nonneg; lia|].
    rewrite <- Z.pow_add_r by lia. replace (8 - o + o) with 8 by lia. lia. }
  assert (z = b / 2 ^ (8 - o) * 2 ^ (64 - o) + val / 2 ^ o) as ->.
  { unfold z. rewrite E, Z.shiftl_mul_pow2, Z.shiftr_div_pow2 by lia. rewrite <- Z.mul_assoc, <- Z.pow_add_r by lia.
    replace (8 - o + 56) with (64 - o) by lia. rewrite wrapu_small; [by rewrite lor_disjoint by lia|].
    assert (2 ^ 64 = 2 ^ o * 2 ^ (64 - o)) as -> by (rewrite <- Z.pow_add_r by lia; f_equal; lia). nia. }
  replace 64%nat with (Z.to_nat o + (64 - Z.to_nat o))%nat at 1 by lia. rewrite bits_of_app.
  replace (Z.of_nat (64 - Z.to_nat o)) with (64 - o) by lia. rewrite Z.div_add_l, (Z.div_small (val / 2 ^ o)), Z.add_0_r by lia.
  f_equal.
  - rewrite bits_of_part by lia. do 3 f_equal. lia.
  - rewrite Z.add_comm. replace (64 - o) with (Z.of_nat (64 - Z.to_nat o)) by lia. apply bits_of_add.
Qed.

Definition stores (m : list Z) (o : nat) (new : list bool) (m' : list Z) : Prop :=
  written (mem_bits m) o new (mem_bits m') /\ bytes m' /\ length m' = length m.

Lemma stores_length m o new m' : written (mem_bits m) o new (mem_bits m') -> bytes m' -> stores m o new m'.
Proof. intros W B. split; [done|]. split; [done|]. apply written_length in W. rewrite !length_mem_bits in W. lia. Qed.
Lemma stores_after m o new1 new2 m1 m2 : stores m o new1 m1 -> stores m1 (o + length new1) new2 m2 -> stores m o (new1 ++ new2) m2.
Proof. intros (W1 & _ & L1) (W2 & B & L2). split; [by eapply written_after|]. split; [done|lia]. Qed.
Lemma stores_bytes m i l : bytes m -> bytes l -> (i + length l <= length m)%nat -> stores m (8 * i) (mem_bits l) (write_bytes m i l).
Proof. intros Hm Hl H. apply stores_length; [by apply written_bytes|by apply write_bytes_ok]. Qed.
Lemma stores_top m to v t : bytes m -> (to < length m)%nat -> 0 <= t < 8 ->
  stores m (8 * to) (bits_of (Z.to_nat t) (v / 2 ^ (8 - t))) (store_top m to v t).
Proof. intros Hm H Ht. destruct (store_top_written m to v t H Ht). apply stores_length; auto. Qed.
Lemma stores_loop c m to z p : bytes m -> (to + c <= length m)%nat -> 0 <= p + 8 - 8 * Z.of_nat c ->
  stores m (8 * to) (bits_of (8 * c) (z / 2 ^ (p + 8 - 8 * Z.of_nat c))) (store_loop c m to z p).
Proof. intros Hm H Hp. destruct (store_loop_written c m to z p H Hp). apply stores_length; auto. Qed.
(** Bits that are written as they were. *)
Lemma stores_behind m p k new m' : (k <= 8)%nat -> (8 * p + 8 <= 8 * length m)%nat ->
  stores m (8 * p) (take k (bits_of 8 (byte_at m p)) ++ new) m' -> stores m (8 * p + k) new m'.
Proof.
  intros Hk Hp (W & B & L). split; [|done]. rewrite <- mem_byte in W by lia.
  assert (exists n, length new = (n - k)%nat /\ (k <= n)%nat) as (n & Hn & Hkn) by (exists (length new + k)%nat; lia).
  pose proof W as [Hw _].  rewrite length_app, !length_take, length_drop, length_mem_bits in Hw.
  apply written_inside with n; [done|rewrite length_mem_bits; lia|done|].
  replace (take k (take n (drop (8 * p) (mem_bits m)))) with (take k (take 8 (drop (8 * p) (mem_bits m)))); [exact W|].
  rewrite !take_take. f_equal. lia.
Qed.

(** The loop and the last byte, behind the first [f] bytes. *)
Lemma store_tail m to z p T f : bytes m -> 0 <= z -> p = 56 - 8 * f -> 0 <= f -> 8 * f <= T <= 64 -> (8 * Z.of_nat to + T <= 8 * Z.of_nat (length m) + 8 * f) ->
  let q := 64 - T in let c := Z.to_nat ((p + 8 - q) / 8) in
  let m1 := store_loop c m to z p in let p1 := p - 8 * Z.of_nat c in
  stores m (8 * to) (bits_of (Z.to_nat (T - 8 * f)) (z / 2 ^ q)) (if 0 <? p1 + 8 - q then store_top m1 (to + c) (Z.shiftr z p1) (p1 + 8 - q) else m1).
Proof.
  intros Hm Hz -> Hf HT Hl q c m1 p1. pose proof (Z.div_mod (56 - 8 * f + 8 - q) 8 ltac:(lia)) as D. pose proof (Z.mod_pos_bound (56 - 8 * f + 8 - q) 8 ltac:(lia)) as M.
  assert (Z.of_nat c = (56 - 8 * f + 8 - q) / 8) as Hc by (unfold c; rewrite Z2Nat.id; [done|apply Z.div_pos; lia]).
  set (r := (56 - 8 * f + 8 - q) mod 8) in *. assert (p1 + 8 - q = r) as -> by (unfold p1; lia).
  pose proof (stores_loop c m to z (56 - 8 * f) Hm ltac:(lia) ltac:(lia)) as W1. fold m1 in W1.
  replace (56 - 8 * f + 8 - 8 * Z.of_nat c) with (q + r) in W1 by lia. destruct (Z.ltb_spec 0 r).
  - pose proof W1 as (_ & B1 & L1). pose proof (stores_top m1 (to + c) (Z.shiftr z p1) r B1 ltac:(lia) ltac:(lia)) as W2.
    assert (0 <= p1) as Hp1 by (unfold p1; lia). rewrite Z.shiftr_div_pow2 by exact Hp1. rewrite Z.shiftr_div_pow2 in W2 by exact Hp1. rewrite div_pow2 in W2 by lia. replace (p1 + (8 - r)) with q in W2 by (unfold p1; lia).
    replace (8 * (to + c))%nat with (8 * to + length (bits_of (8 * c) (z / 2 ^ (q + r))))%nat in W2 by (rewrite length_bits_of; lia).
    pose proof (stores_after _ _ _ _ _ _ W1 W2) as W. replace r with (Z.of_nat (Z.to_nat r)) in W at 1 by lia. rewrite bits_of_glue in W by (unfold q; lia).
    replace (8 * c + Z.to_nat r)%nat with (Z.to_nat (T - 8 * f)) in W by lia. exact W.
  - replace (q + r) with q in W1 by lia. by replace (8 * c)%nat with (Z.to_nat (T - 8 * f)) in W1 by lia.
Qed.

Lemma offset_split offs : 0 <= offs ->
  Z.to_nat offs = (8 * Z.to_nat (Z.shiftr offs 3) + Z.to_nat (Z.land offs 7))%nat /\ 0 <= Z.land offs 7 < 8 /\ 0 <= Z.shiftr offs 3.
Proof.
  intros H. rewrite Z.shiftr_div_pow2 by lia. change 7 with (Z.ones 3). rewrite Z.land_ones by lia. change (2 ^ 3) with 8.
  pose proof (Z.div_mod offs 8 ltac:(lia)). pose proof (Z.mod_pos_bound offs 8 ltac:(lia)). pose proof (Z.div_pos offs 8 ltac:(lia) ltac:(lia)). lia.
Qed.

Lemma byte_at_ok m i : bytes m -> is_byte (byte_at m i).
Proof.
  intros Hm. unfold byte_at. destruct (m !! i) as [x|] eqn:E; [|unfold is_byte; cbn; lia]. by apply (Forall_lookup_1 _ _ _ _ Hm E).
Qed.

(** A word and the first bits of a ninth byte. *)
Lemma store_nine m to o val n z : bytes m -> 0 <= val < 2 ^ 64 -> 0 <= n <= 64 -> 0 <= o < 8 -> 64 < n + o ->
  8 * Z.of_nat to + o + n <= 8 * Z.of_nat (length m) ->
  bits_of 64 z = take (Z.to_nat o) (bits_of 8 (byte_at m to)) ++ bits_of (64 - Z.to_nat o) (val / 2 ^ o) ->
  stores m (8 * to + Z.to_nat o) (bits_of (Z.to_nat n) (val / 2 ^ (64 - n)))
    (store_top (write_bytes m to (be_split 8 z)) (to + 8) (u64 (Z.shiftl val (8 - o))) (n + o - 64)).
Proof.
  intros Hm Hv Hn Ho HT Hl Ez. apply stores_behind; [lia|lia|].
  pose proof (stores_bytes m to (be_split 8 z) Hm (be_split_bytes _ _)) as W1. rewrite length_be_split in W1. specialize (W1 ltac:(lia)).
  rewrite mem_be_split in W1. change (8 * 8)%nat with 64%nat in W1. pose proof W1 as (_ & B1 & L1). set (m1 := write_bytes m to (be_split 8 z)) in *.
  pose proof (stores_top m1 (to + 8) (u64 (Z.shiftl val (8 - o))) (n + o - 64) B1 ltac:(lia) ltac:(lia)) as W2.
  replace (8 * (to + 8))%nat with (8 * to + length (bits_of 64 z))%nat in W2 by (rewrite length_bits_of; lia).
  pose proof (stores_after _ _ _ _ _ _ W1 W2) as W. rewrite Ez, <- app_assoc in W.
  assert (bits_of (64 - Z.to_nat o) (val / 2 ^ o) ++ bits_of (Z.to_nat (n + o - 64)) (u64 (Z.shiftl val (8 - o)) / 2 ^ (8 - (n + o - 64))) =
          bits_of (Z.to_nat n) (val / 2 ^ (64 - n))) as E; [|by rewrite E in W].
  set (t := n + o - 64). replace (8 - t) with (Z.of_nat 8 - Z.of_nat (Z.to_nat t)) by lia. rewrite <- bits_of_part by lia.
  rewrite (bits_of_congr 8 (u64 _) (val * 2 ^ (8 - o))).
  2:{ rewrite Z.shiftl_mul_pow2 by lia. unfold wrapu. change (2 ^ Z.of_nat 8) with (2 ^ 8). apply (mod_mod_pow 8 64); lia. }
  rewrite bits_of_part by lia. replace (Z.of_nat 8 - Z.of_nat (Z.to_nat t)) with (64 - n + (8 - o)) by (unfold t; lia).
  rewrite Z.pow_add_r, Z.div_mul_cancel_r by (try apply Z.pow_nonzero; lia).
  replace o with (64 - n + Z.of_nat (Z.to_nat t)) at 2 by (unfold t; lia). rewrite bits_of_glue by lia. f_equal. unfold t. lia.
Qed.

(** At most a word. *)
Lemma store_eight m to o val n z : bytes m -> 0 <= z -> 0 <= val < 2 ^ 64 -> 0 < n <= 64 -> 0 <= o < 8 -> n + o <= 64 ->
  8 * Z.of_nat to + o + n <= 8 * Z.of_nat (length m) ->
  bits_of 64 z = take (Z.to_nat o) (bits_of 8 (byte_at m to)) ++ bits_of (64 - Z.to_nat o) (val / 2 ^ o) ->
  let q := 64 - (n + o) in let fast := q <=? 32 in
  let m1 := if fast then write_bytes m to (be_split 4 (Z.shiftr z 32)) else m in
  let to1 := if fast then (to + 4)%nat else to in let p := if fast then 24 else 56 in
  let c := Z.to_nat ((p + 8 - q) / 8) in let m2 := store_loop c m1 to1 z p in let p1 := p - 8 * Z.of_nat c in
  stores m (8 * to + Z.to_nat o) (bits_of (Z.to_nat n) (val / 2 ^ (64 - n))) (if 0 <? p1 + 8 - q then store_top m2 (to1 + c) (Z.shiftr z p1) (p1 + 8 - q) else m2).
Proof.
  intros Hm Hz Hv Hn Ho HT Hl Ez q fast m1 to1 p c m2 p1. apply stores_behind; [lia|lia|].
  assert (take (Z.to_nat o) (bits_of 8 (byte_at m to)) ++ bits_of (Z.to_nat n) (val / 2 ^ (64 - n)) = bits_of (Z.to_nat (n + o)) (z / 2 ^ q)) as ->.
  { replace q with (Z.of_nat 64 - Z.of_nat (Z.to_nat (n + o))) by (unfold q; lia). rewrite <- bits_of_part, Ez by lia.
    rewrite take_app, length_take, length_bits_of, take_take. f_equal; [f_equal; lia|]. rewrite bits_of_part by lia. rewrite div_pow2 by lia. f_equal; [lia|].
    do 2 f_equal. lia. }
  unfold m2, to1, m1, p1, c, p. destruct fast eqn:F.
  - apply Z.leb_le in F. pose proof (stores_bytes m to (be_split 4 (Z.shiftr z 32)) Hm (be_split_bytes _ _)) as W1. rewrite length_be_split in W1.
    specialize (W1 ltac:(unfold q in F; lia)). rewrite mem_be_split in W1. pose proof W1 as (_ & B1 & L1). rewrite Z.shiftr_div_pow2 in W1 at 1 by lia.
    pose proof (store_tail (write_bytes m to (be_split 4 (Z.shiftr z 32))) (to + 4) z 24 (n + o) 4) as W2. rewrite L1 in W2.
    specialize (W2 B1 Hz eq_refl ltac:(lia) ltac:(unfold q in F; lia) ltac:(lia)). cbv zeta in W2. fold q in W2.
    replace (8 * (to + 4))%nat with (8 * to + length (bits_of (8 * 4) (z / 2 ^ 32)))%nat in W2 by (rewrite length_bits_of; lia).
    pose proof (stores_after _ _ _ _ _ _ W1 W2) as W. replace 32 with (q + Z.of_nat (Z.to_nat (n + o - 8 * 4))) in W at 1 by (unfold q in *; lia).
    rewrite bits_of_glue in W by (unfold q; lia). by replace (8 * 4 + Z.to_nat (n + o - 8 * 4))%nat with (Z.to_nat (n + o)) in W by (unfold q in *; lia).
  - pose proof (store_tail m to z 56 (n + o) 0 Hm Hz eq_refl ltac:(lia) ltac:(lia) ltac:(lia)) as W. cbv zeta in W. fold q in W.
    by replace (n + o - 8 * 0) with (n + o) in W by lia.
Qed.

Lemma store_long_top_stores m offs val n : bytes m -> 0 <= val < 2 ^ 64 -> 0 <= n <= 64 -> 0 <= offs -> offs + n <= 8 * Z.of_nat (length m) ->
  stores m (Z.to_nat offs) (bits_of (Z.to_nat n) (val / 2 ^ (64 - n))) (bits_store_long_top m offs val n).
Proof.
  intros Hm Hv Hn Ho Hl. unfold bits_store_long_top. destruct (Z.leb_spec n 0).
  { replace n with 0 by lia. apply stores_length; [|done]. apply written_nil. rewrite length_mem_bits. lia. }
  destruct (offset_split offs Ho) as (Eo & Hr & Hq). set (o := Z.land offs 7) in *. set (to := Z.to_nat (Z.shiftr offs 3)) in *. rewrite Eo.
  destruct ((o =? 0) && (Z.land n 7 =? 0)) eqn:A.
  - apply andb_true_iff in A as [E0%Z.eqb_eq E1%Z.eqb_eq]. destruct (offset_split n ltac:(lia)) as (En & _ & Hn3). rewrite E1 in En. rewrite E0. cbn [Z.to_nat] in *. rewrite Nat.add_0_r in *.
    pose proof (stores_bytes m to (take (Z.to_nat (Z.shiftr n 3)) (be_split 8 val)) Hm ltac:(apply Forall_take, be_split_bytes)) as W.
    rewrite length_take, length_be_split, mem_bits_take, mem_be_split in W. specialize (W ltac:(lia)). rewrite <- En in W.
    rewrite bits_of_part in W by lia. by replace (Z.of_nat (8 * 8) - Z.of_nat (Z.to_nat n)) with (64 - n) in W by lia.
  - clear A. cbv zeta. pose proof (store_word (byte_at m to) val o (byte_at_ok m to Hm) Hv Hr) as Z1. cbv zeta in Z1.
    set (z := Z.lor _ _) in *. assert (0 <= z) as Hz.
    { unfold z. apply Z.lor_nonneg. split; [apply (wrapu_range 64); lia|]. apply Z.shiftr_nonneg. lia. }
    destruct (Z.ltb_spec 64 (n + o)) as [HT|HT].
    + apply store_nine; (done || lia).
    + apply store_eight; (done || lia).
Qed.

Lemma bits_value_take n l : (n <= length l)%nat -> bits_value l / 2 ^ Z.of_nat (length l - n) = bits_value (take n l).
Proof.
  intros H. rewrite <- (take_drop n l) at 1. rewrite bits_value_app, length_drop. pose proof (bits_value_range (drop n l)) as R. rewrite length_drop in R.
  rewrite Z.div_add_l by lia. rewrite Z.div_small by lia. lia.
Qed.
Lemma bits_value_drop n l : bits_value l mod 2 ^ Z.of_nat (length l - n) = bits_value (drop n l).
Proof.
  rewrite <- (take_drop n l) at 1. rewrite bits_value_app, length_drop. pose proof (bits_value_range (drop n l)) as R. rewrite length_drop in R.
  rewrite Z.add_comm, Z.mod_add by lia. by apply Z.mod_small.
Qed.

(** The first [n] bits of a 64-bit word. *)
Lemma mask_top n l : length l = 64%nat -> 0 <= n <= 64 -> Z.land (bits_value l) (u64 (Z.shiftl (2 ^ 64 - 1) (64 - n))) = bits_value (take (Z.to_nat n) l) * 2 ^ (64 - n).
Proof.
  intros Hl Hn. assert (u64 (Z.shiftl (2 ^ 64 - 1) (64 - n)) = 2 ^ 64 - 2 ^ (64 - n)) as ->.
  { rewrite Z.shiftl_mul_pow2 by lia. unfold wrapu. assert (1 <= 2 ^ (64 - n) <= 2 ^ 64) as H.
    { split; [apply (Z.pow_le_mono_r 2 0); lia|apply Z.pow_le_mono_r; lia]. }
    replace ((2 ^ 64 - 1) * 2 ^ (64 - n)) with (2 ^ 64 - 2 ^ (64 - n) + (2 ^ (64 - n) - 1) * 2 ^ 64) by ring.
    rewrite Z.mod_add by lia. apply Z.mod_small. lia. }
  pose proof (bits_value_range l) as R. rewrite Hl in R. rewrite land_high by lia. f_equal.
  rewrite <- (bits_value_take (Z.to_nat n) l) by lia. do 2 f_equal. lia.
Qed.

Lemma bits_value_zeros k : bits_value (replicate k false) = 0.
Proof. induction k as [|k IH]; [done|]. cbn [replicate]. change (false :: replicate k false) with ([false] ++ replicate k false). by rewrite bits_value_app, IH. Qed.
(** A word shifted to the left. *)
Lemma shift_out l o : length l = 64%nat -> 0 <= o < 8 -> u64 (Z.shiftl (bits_value l) o) = bits_value (drop (Z.to_nat o) l) * 2 ^ o.
Proof.
  intros Hl Ho. rewrite Z.shiftl_mul_pow2 by lia. unfold wrapu. replace (2 ^ 64) with (2 ^ (64 - o) * 2 ^ o) by (rewrite <- Z.pow_add_r by lia; f_equal; lia).
  rewrite Z.mul_mod_distr_r by (apply Z.pow_nonzero; lia). f_equal. rewrite <- bits_value_drop, Hl. do 2 f_equal. lia.
Qed.

Lemma load_long_top_value pad m offs n : bytes m -> 0 <= n <= 64 -> 0 <= offs -> offs + n <= 8 * Z.of_nat (length m) ->
  bits_load_long_top pad m offs n = bits_value (take (Z.to_nat n) (drop (Z.to_nat offs) (mem_bits m))) * 2 ^ (64 - n).
Proof.
  intros Hm Hn Ho Hl. unfold bits_load_long_top. destruct (Z.eqb_spec n 0) as [->|Hn0]; [done|].
  destruct (offset_split offs Ho) as (Eo & Hr & Hq). set (o := Z.land offs 7) in *. set (from := Z.to_nat (Z.shiftr offs 3)) in *. rewrite Eo.
  rewrite <- drop_drop, <- mem_bits_drop. set (m1 := drop from m). assert (length m1 = length m - from)%nat as L1 by (unfold m1; by rewrite length_drop).
  assert (bytes m1) as B1 by (by apply Forall_drop). destruct (Z.leb_spec (o + n) 64).
  - set (k := Z.to_nat (Z.shiftr (o + n + 7) 3)).
    assert (o + n <= 8 * Z.of_nat k < o + n + 8) as Hk.
    { unfold k. rewrite Z.shiftr_div_pow2 by lia. change (2 ^ 3) with 8. pose proof (Z.div_mod (o + n + 7) 8 ltac:(lia)).
      pose proof (Z.mod_pos_bound (o + n + 7) 8 ltac:(lia)). lia. }
    assert (k <= 8)%nat by lia. set (w := take k m1 ++ be_split (8 - k) pad).
    assert (length w = 8)%nat as Lw by (unfold w; rewrite length_app, length_take, length_be_split; lia).
    assert (bytes w) as Bw by (apply Forall_app; split; [by apply Forall_take|apply be_split_bytes]).
    assert (u64 (Z.shiftl (be_combine w) o) = bits_value (drop (Z.to_nat o) (mem_bits w) ++ replicate (Z.to_nat o) false)) as ->.
    { rewrite <- (bits_value_mem w), shift_out by (done || rewrite length_mem_bits; lia). rewrite bits_value_app, bits_value_zeros, length_replicate.
      rewrite Z.add_0_r. do 2 f_equal. lia. }
    rewrite mask_top; [|rewrite length_app, length_drop, length_mem_bits, length_replicate; lia|lia]. do 2 f_equal.
    rewrite take_app_le by (rewrite length_drop, length_mem_bits; lia). unfold w. rewrite mem_bits_app, mem_bits_take.
    rewrite drop_app_le by (rewrite length_take, length_mem_bits; lia). rewrite take_app_le by (rewrite length_drop, length_take, length_mem_bits; lia).
    rewrite take_drop_commute, take_take. rewrite take_drop_commute. do 2 f_equal. lia.
  - assert (length (take 8 m1) = 8)%nat as L8 by (rewrite length_take; lia).
    rewrite <- (bits_value_mem (take 8 m1)) by (by apply Forall_take). rewrite shift_out by (rewrite ?length_mem_bits; lia).
    assert (byte_at m (from + 8) = byte_at m1 8) as -> by (unfold byte_at, m1; by rewrite lookup_drop).
    assert (Z.shiftr (byte_at m1 8) (8 - o) = bits_value (take (Z.to_nat o) (bits_of 8 (byte_at m1 8)))) as ->.
    { pose proof (byte_at_ok m1 8 B1) as Hb. rewrite <- bits_value_take, bits_value_of, length_bits_of, Z.shiftr_div_pow2 by (rewrite ?length_bits_of; lia).
      unfold is_byte in Hb. rewrite Z.mod_small by (cbn; lia). do 2 f_equal. lia. }
    set (l1 := drop (Z.to_nat o) (mem_bits (take 8 m1))). set (l2 := take (Z.to_nat o) (bits_of 8 (byte_at m1 8))).
    assert (length l2 = Z.to_nat o) as Ll2 by (unfold l2; rewrite length_take, length_bits_of; lia).
    assert (length l1 = 64 - Z.to_nat o)%nat as Ll1 by (unfold l1; rewrite length_drop, length_mem_bits; lia).
    pose proof (bits_value_range l2) as R2. rewrite Ll2 in R2. replace (Z.of_nat (Z.to_nat o)) with o in R2 by lia. rewrite lor_disjoint by lia.
    replace (bits_value l1 * 2 ^ o + bits_value l2) with (bits_value (l1 ++ l2)) by (rewrite bits_value_app, Ll2; do 3 f_equal; lia).
    rewrite mask_top by (rewrite ?length_app; lia). do 2 f_equal. unfold l1, l2. rewrite <- (mem_byte m1 8), mem_bits_take by lia.
    change (8 * 8)%nat with 64%nat. set (B := mem_bits m1). assert (64 + 8 <= length B)%nat by (unfold B; rewrite length_mem_bits; lia).
    rewrite take_take. replace (Z.to_nat o `min` 8)%nat with (Z.to_nat o) by lia.
    replace (drop (Z.to_nat o) (take 64 B) ++ take (Z.to_nat o) (drop 64 B)) with (take 64 (drop (Z.to_nat o) B)).
    + rewrite take_take. f_equal. lia.
    + rewrite <- (take_drop 64 B) at 1. rewrite drop_app_le by (rewrite length_take; lia). rewrite take_app, take_ge, length_drop, length_take by (rewrite length_drop, length_take; lia).
      f_equal. f_equal. lia.
Qed.

(** ** [bits_memset] *)

Lemma memset_byte c val o n : 0 <= o < 8 -> 1 <= n -> n + o <= 8 ->
  let mask := Z.shiftr (Z.land (Z.shiftr (-0x100) n) 0xff) o in
  bits_of 8 (u8 (if val : bool then Z.lor c mask else Z.land c (Z.lnot mask))) =
    take (Z.to_nat o) (bits_of 8 c) ++ replicate (Z.to_nat n) val ++ drop (Z.to_nat (o + n)) (bits_of 8 c).
Proof.
  intros Ho Hn Hs. assert (exists j, n = j + 1 /\ 0 <= j < 8) as (j & -> & Hj) by (exists (n - 1); lia). clear Hn. revert o Ho Hs.
  apply (below_8 (fun o => j + 1 + o <= 8 -> _)); revert j Hj; apply (below_8 (fun j => _ -> _)); intros Hs; try (exfalso; lia); clear Hs; destruct val; cbv zeta; mask_bits; reflexivity.
Qed.
Lemma memset_first c val o : 0 <= o < 8 ->
  bits_of 8 (u8 (if val : bool then Z.lor c (Z.shiftr 0xff o) else Z.land c (Z.shiftr (-0x100) o))) = take (Z.to_nat o) (bits_of 8 c) ++ replicate (8 - Z.to_nat o) val.
Proof. revert o. apply below_8; destruct val; mask_bits; reflexivity. Qed.
Lemma memset_last c val r : 0 <= r < 8 ->
  bits_of 8 (u8 (if val : bool then Z.lor c (Z.shiftr (-0x100) r) else Z.land c (Z.shiftr 0xff r))) = replicate (Z.to_nat r) val ++ drop (Z.to_nat r) (bits_of 8 c).
Proof. revert r. apply below_8; destruct val; mask_bits; reflexivity. Qed.

Lemma stores_byte m i v : bytes m -> (i < length m)%nat -> stores m (8 * i) (bits_of 8 (u8 v)) (<[i := u8 v]> m).
Proof. intros Hm Hi. apply stores_length; [by apply written_byte|]. apply insert_bytes; [done|]. apply (wrapu_range 8). lia. Qed.
(** The first bits of a byte. *)
Lemma stores_prefix m i new m' : (i < length m)%nat -> (length new <= 8)%nat ->
  stores m (8 * i) (new ++ drop (length new) (bits_of 8 (byte_at m i))) m' -> stores m (8 * i) new m'.
Proof.
  intros Hi Hl (W & B & L). split; [|done]. rewrite <- mem_byte in W by done.
  apply written_prefix in W; [done|rewrite length_mem_bits; lia|done|done].
Qed.
Lemma mem_bits_same k (val : bool) : mem_bits (replicate k (if val then 0xff else 0)) = replicate (8 * k) val.
Proof.
  induction k as [|k IH]; [done|]. replace (8 * S k)%nat with (8 + 8 * k)%nat by lia. rewrite replicate_add, <- IH. by destruct val.
Qed.

Lemma memset_stores m offs val n : bytes m -> 0 <= n -> 0 <= offs -> offs + n <= 8 * Z.of_nat (length m) ->
  stores m (Z.to_nat offs) (replicate (Z.to_nat n) val) (bits_memset m offs val n).
Proof.
  intros Hm Hn Ho Hl. unfold bits_memset. destruct (Z.leb_spec n 0).
  { replace n with 0 by lia. apply stores_length; [|done]. apply written_nil. rewrite length_mem_bits. lia. }
  destruct (offset_split offs Ho) as (Eo & Hr & Hq). set (o := Z.land offs 7) in *. set (to := Z.to_nat (Z.shiftr offs 3)) in *. rewrite Eo.
  cbv zeta. destruct (Z.leb_spec (n + o) 8).
  - pose proof (stores_byte m to (if val : bool then Z.lor (byte_at m to) (Z.shiftr (Z.land (Z.shiftr (-0x100) n) 0xff) o)
       else Z.land (byte_at m to) (Z.lnot (Z.shiftr (Z.land (Z.shiftr (-0x100) n) 0xff) o))) Hm ltac:(lia)) as W.
    rewrite memset_byte in W by lia. rewrite app_assoc in W.
    assert (length (take (Z.to_nat o) (bits_of 8 (byte_at m to)) ++ replicate (Z.to_nat n) val) = Z.to_nat (o + n)) as L
      by (rewrite length_app, length_take, length_bits_of, length_replicate; lia).
    rewrite <- L in W. apply stores_prefix in W; [|lia|lia]. apply stores_behind in W; [done|lia|lia].
  - pose proof (offset_split (n + o) ltac:(lia)) as (El & Hr2 & Hq2). set (l := Z.shiftr (n + o) 3) in *. set (r := Z.land (n + o) 7) in *.
    set (m1 := <[to := _]> m). assert (stores m (8 * to) (take (Z.to_nat o) (bits_of 8 (byte_at m to)) ++ replicate (8 - Z.to_nat o) val) m1) as W1.
    { rewrite <- memset_first by done. apply stores_byte; [done|lia]. }
    pose proof W1 as (_ & B1 & L1). set (m2 := write_bytes m1 _ _).
    assert (stores m1 (8 * (to + 1)) (replicate (8 * Z.to_nat (l - 1)) val) m2) as W2.
    { rewrite <- mem_bits_same. apply stores_bytes; [done| |rewrite length_replicate; lia]. apply Forall_replicate. destruct val; unfold is_byte; lia. }
    pose proof W2 as (_ & B2 & L2).
    assert (stores m2 (8 * (to + Z.to_nat l)) (replicate (Z.to_nat r) val) (if negb (r =? 0) then
      <[(to + Z.to_nat l)%nat := u8 (if val then Z.lor (byte_at m2 (to + Z.to_nat l)) (Z.shiftr (-0x100) r) else Z.land (byte_at m2 (to + Z.to_nat l)) (Z.shiftr 0xff r))]> m2
      else m2)) as W3.
    { destruct (Z.eqb_spec r 0) as [E0|E0]; cbn [negb].
      - rewrite E0. apply stores_length; [|done]. apply written_nil. rewrite length_mem_bits. lia.
      - apply stores_prefix; [lia|rewrite length_replicate; lia|]. rewrite length_replicate, <- memset_last by lia. apply stores_byte; [done|lia]. }
    apply stores_behind; [lia|lia|].
    replace (8 * (to + 1))%nat with (8 * to + length (take (Z.to_nat o) (bits_of 8 (byte_at m to)) ++ replicate (8 - Z.to_nat o) val))%nat in W2
      by (rewrite length_app, length_take, length_bits_of, length_replicate; lia).
    pose proof (stores_after _ _ _ _ _ _ W1 W2) as W12.
    replace (8 * (to + Z.to_nat l))%nat with (8 * to + length ((take (Z.to_nat o) (bits_of 8 (byte_at m to)) ++ replicate (8 - Z.to_nat o) val) ++ replicate (8 * Z.to_nat (l - 1)) val))%nat in W3
      by (rewrite !length_app, length_take, length_bits_of, !length_replicate; lia).
    pose proof (stores_after _ _ _ _ _ _ W12 W3) as W. rewrite <- !app_assoc, <- !replicate_add in W.
    by replace (8 - Z.to_nat o + (8 * Z.to_nat (l - 1) + Z.to_nat r))%nat with (Z.to_nat n) in W by lia.
Qed.
