(* ===== verification/BitCmp.v ===== *)
(** * Comparing and scanning strings of bits ([crypto/common/bitstring.cpp])

    [bits_memcmp] and [bits_lexcmp] compare words of 64 bits that are filled from two strings at
    any offsets; [bits_memscan] and [bits_memscan_rev] skip bytes and words of equal bits.  What
    they find is stated on the lists of the bits. *)
From S2P Require Import Prelude BitMem.

(** ** On lists of bits *)

(** The first difference within the shorter string. *)
Fixpoint compare_bits (l1 l2 : list bool) : Z :=
  match l1, l2 with
  | b1 :: l1', b2 :: l2' => if Bool.eqb b1 b2 then compare_bits l1' l2' else if b1 then 1 else -1
  | _, _ => 0
  end.
Definition lex_bits (l1 l2 : list bool) : Z :=
  let res := compare_bits l1 l2 in
  if negb (res =? 0) || (length l1 =? length l2)%nat then res else if (length l1 <? length l2)%nat then -1 else 1.

(** The length of the run of [bit] that starts a string. *)
Fixpoint run_length (bit : bool) (l : list bool) : Z :=
  match l with b :: l' => if Bool.eqb b bit then 1 + run_length bit l' else 0 | [] => 0 end.

(** How far two strings agree. *)
Definition common_bits (l1 l2 : list bool) : Z := run_length false (zip_with xorb l1 l2).

(** ** Words *)

Definition count_leading_zeroes (w x : Z) : Z := if x =? 0 then w else w - 1 - Z.log2 x.
Definition count_trailing_zeroes (w x : Z) : Z := if x =? 0 then w else Z.log2 (Z.land x (- x)).

(** [bswap32(as<unsigned>(p))] and [bswap64]. *)
Definition load_be (n : nat) (m : list Z) (p : nat) : Z := be_combine (take n (drop p m)).

(** ** [bits_memcmp] *)

Section Memcmp.
Context (m1 m2 : list Z).

(** The bits that differ, among those that the mask keeps. *)
Definition differ (acc1 acc2 keep : Z) : bool := negb (Z.land (Z.lxor acc1 acc2) (u64 (Z.shiftl (2 ^ 64 - 1) (64 - keep))) =? 0).
Definition difference (processed acc1 acc2 : Z) : Z * Z :=
  ((if acc1 <? acc2 then -1 else 1), processed + count_leading_zeroes 64 (Z.lxor acc1 acc2)).

(** [while (bit_count >= 40)]: the answer, or what is left. *)
Record Words := { w_acc1 : Z; w_p1 : nat; w_acc2 : Z; w_p2 : nat; w_processed : Z; w_bits : Z }.
Fixpoint compare_words (fuel : nat) (z1 z2 : Z) (w : Words) : Z * Z + Words :=
  match fuel with
  | O => inr w
  | S fuel =>
      if 40 <=? w_bits w then
        let acc1 := Z.lor (w_acc1 w) (u64 (Z.shiftl (load_be 4 m1 (w_p1 w)) (32 - z1))) in
        let acc2 := Z.lor (w_acc2 w) (u64 (Z.shiftl (load_be 4 m2 (w_p2 w)) (32 - z2))) in
        if differ acc1 acc2 32 then inl (difference (w_processed w) acc1 acc2)
        else compare_words fuel z1 z2
          {| w_acc1 := u64 (Z.shiftl acc1 32); w_p1 := w_p1 w + 4; w_acc2 := u64 (Z.shiftl acc2 32); w_p2 := w_p2 w + 4;
             w_processed := w_processed w + 32; w_bits := w_bits w - 32 |}
      else inr w
  end.
End Memcmp.

(** The bytes that are left to load, and the number of bits that count in the end. *)
Fixpoint load_bytes (c : nat) (m : list Z) (p : nat) (z acc : Z) : nat * Z * Z :=
  match c with O => (p, z, acc) | S c' => load_bytes c' m (p + 1) (z + 8) (Z.lor acc (u64 (Z.shiftl (byte_at m p) (56 - z)))) end.
Definition load_rest (m : list Z) (p : nat) (offs z acc : Z) : Z * Z :=
  let '(p, z, acc) := load_bytes (Z.to_nat (offs / 8)) m p z acc in
  let offs := if 8 <=? offs then offs mod 8 else offs in
  let acc := if 0 <? offs then Z.lor acc (u64 (Z.shiftl (byte_at m p) (56 - z))) else acc in
  (z + offs, acc).

(** The comparison and [same_upto]; [None] is a failed [CHECK]. *)
Definition bits_memcmp (bs1 : list Z) (bs1_offs : Z) (bs2 : list Z) (bs2_offs bit_count same_upto : Z) : option (Z * Z) :=
  if bit_count =? 0 then Some (0, same_upto)
  else
    let p1 := Z.to_nat (Z.shiftr bs1_offs 3) in
    let p2 := Z.to_nat (Z.shiftr bs2_offs 3) in
    let bs1_offs := Z.land bs1_offs 7 in
    let bs2_offs := Z.land bs2_offs 7 in
    let acc1 := u64 (Z.shiftl (byte_at bs1 p1) (56 + bs1_offs)) in
    let acc2 := u64 (Z.shiftl (byte_at bs2 p2) (56 + bs2_offs)) in
    let z1 := 8 - bs1_offs in
    let z2 := 8 - bs2_offs in
    let w := {| w_acc1 := acc1; w_p1 := p1 + 1; w_acc2 := acc2; w_p2 := p2 + 1; w_processed := 0; w_bits := bit_count |} in
    match compare_words bs1 bs2 (Z.to_nat (bit_count / 32)) z1 z2 w with
    | inl r => Some r
    | inr w =>
        let (z1, acc1) := load_rest bs1 (w_p1 w) (bs1_offs + w_bits w - 8) z1 (w_acc1 w) in
        let (z2, acc2) := load_rest bs2 (w_p2 w) (bs2_offs + w_bits w - 8) z2 (w_acc2 w) in
        if negb (z1 =? z2) || (64 <=? z1) then None
        else if negb (z1 =? 0) && differ acc1 acc2 z1 then Some (difference (w_processed w) acc1 acc2)
        else Some (0, w_processed w + w_bits w)
    end.

Definition bits_lexcmp (bs1 : list Z) (bs1_offs bs1_bit_count : Z) (bs2 : list Z) (bs2_offs bs2_bit_count : Z) : option Z :=
  r ← bits_memcmp bs1 bs1_offs bs2 bs2_offs (Z.min bs1_bit_count bs2_bit_count) 0;
  Some (if negb (fst r =? 0) || (bs1_bit_count =? bs2_bit_count) then fst r else if bs1_bit_count <? bs2_bit_count then -1 else 1).

(** ** [bits_memscan] *)

Definition xor_val (cmp_to : bool) : Z := if cmp_to then -1 else 0.

(** A scan that has found its answer, or goes on at a byte with so many bits left. *)
Definition scan_then (r : Z + nat * Z) (f : nat -> Z -> Z + nat * Z) : Z + nat * Z :=
  match r with inl c => inl c | inr (p, rem) => f p rem end.

(** [while (rem >= 8)], up to a byte where [stop] says so, and [while (rem >= 64)]. *)
Fixpoint scan_bytes (stop : nat -> bool) (m : list Z) (bit_count : Z) (cmp_to : bool) (fuel p : nat) (rem : Z) : Z + nat * Z :=
  match fuel with
  | O => inr (p, rem)
  | S fuel =>
      if (8 <=? rem) && negb (stop p) then
        let v := u32 (Z.shiftl (Z.lxor (byte_at m p) (xor_val cmp_to)) 24) in
        if negb (v =? 0) then inl (bit_count - rem + count_leading_zeroes 32 v) else scan_bytes stop m bit_count cmp_to fuel (p + 1) (rem - 8)
      else inr (p, rem)
  end.
Fixpoint scan_words (m : list Z) (bit_count : Z) (cmp_to : bool) (fuel p : nat) (rem : Z) : Z + nat * Z :=
  match fuel with
  | O => inr (p, rem)
  | S fuel =>
      if 64 <=? rem then
        let z := Z.lxor (load_be 8 m p) (if cmp_to then 2 ^ 64 - 1 else 0) in
        if negb (z =? 0) then inl (bit_count - rem + count_leading_zeroes 64 z) else scan_words m bit_count cmp_to fuel (p + 8) (rem - 64)
      else inr (p, rem)
  end.

(** [addr] is the address of the memory, which decides where a word is aligned. *)
Definition bits_memscan (addr : Z) (m : list Z) (offs bit_count : Z) (cmp_to : bool) : Z :=
  if bit_count =? 0 then 0
  else
    let p := Z.to_nat (Z.shiftr offs 3) in
    let offs := Z.land offs 7 in
    let r :=
      if negb (offs =? 0) then
        let c := count_leading_zeroes 32 (u32 (Z.shiftl (Z.lxor (byte_at m p) (xor_val cmp_to)) (24 + offs))) in
        let l := 8 - offs in
        if (c <? l) || (bit_count <=? l) then inl (Z.min c bit_count) else inr ((p + 1)%nat, bit_count - l)
      else inr (p, bit_count) in
    let fuel := Z.to_nat bit_count in
    let r := scan_then r (scan_bytes (fun p => (addr + Z.of_nat p) mod 8 =? 0) m bit_count cmp_to fuel) in
    let r := scan_then r (scan_words m bit_count cmp_to fuel) in
    let r := scan_then r (scan_bytes (fun _ => false) m bit_count cmp_to fuel) in
    match r with
    | inl c => c
    | inr (p, rem) =>
        if 0 <? rem then
          let c := count_leading_zeroes 32 (u32 (Z.shiftl (Z.lxor (byte_at m p) (xor_val cmp_to)) 24)) in
          if c <? rem then bit_count - rem + c else bit_count
        else bit_count
    end.

(** ** [bits_memscan_rev] *)

(** Words of [n] bytes before [p], with [res] bits done and [bit_count] to go. *)
Fixpoint scan_back (n : nat) (xor_val : Z) (m : list Z) (fuel p : nat) (res bit_count : Z) : Z + nat * Z * Z :=
  match fuel with
  | O => inr (p, res, bit_count)
  | S fuel =>
      if 8 * Z.of_nat n <=? bit_count then
        let p := (p - n)%nat in
        let v := u32 (Z.lxor (load_be n m p) xor_val) in
        if negb (v =? 0) then inl (count_trailing_zeroes 32 v + res) else scan_back n xor_val m fuel p (res + 8 * Z.of_nat n) (bit_count - 8 * Z.of_nat n)
      else inr (p, res, bit_count)
  end.

Definition bits_memscan_rev (m : list Z) (offs bit_count : Z) (cmp_to : bool) : Z :=
  if bit_count =? 0 then 0
  else
    let x := xor_val cmp_to in
    let p := Z.to_nat (Z.shiftr (offs + bit_count) 3) in
    let offs := Z.land (offs + bit_count) 7 in
    let res := offs in
    let c := count_trailing_zeroes 32 (u32 (Z.lxor (Z.shiftr (byte_at m p) (8 - offs)) x)) in
    if negb (offs =? 0) && ((c <? offs) || (bit_count <=? res)) then Z.min c bit_count
    else
      let bit_count := bit_count - res in
      let fuel := Z.to_nat bit_count in
      match scan_back 4 x m fuel p res bit_count with
      | inl c => c
      | inr (p, res, bit_count) =>
          let x := Z.land x 0xff in
          match scan_back 1 x m fuel p res bit_count with
          | inl c => c
          | inr (p, res, bit_count) =>
              if 0 <? bit_count then Z.min (count_trailing_zeroes 32 (u32 (Z.lxor (byte_at m (p - 1)) x))) bit_count + res else res
          end
      end.

(** ** Lists of bits and their values *)

Lemma run_length_range bit l : 0 <= run_length bit l <= Z.of_nat (length l).
Proof. induction l as [|b l IH]; [done|]. cbn [run_length length]. destruct (Bool.eqb b bit); lia. Qed.
Lemma run_length_app bit l1 l2 : run_length bit (l1 ++ l2) = if run_length bit l1 =? Z.of_nat (length l1) then run_length bit l1 + run_length bit l2 else run_length bit l1.
Proof.
  induction l1 as [|b l1 IH]; [done|]. cbn [app run_length length]. pose proof (run_length_range bit l1). destruct (Bool.eqb b bit).
  - rewrite IH. destruct (Z.eqb_spec (run_length bit l1) (Z.of_nat (length l1))), (Z.eqb_spec (1 + run_length bit l1) (Z.of_nat (S (length l1)))); lia.
  - destruct (Z.eqb_spec 0 (Z.of_nat (S (length l1)))); lia.
Qed.
(** A run that ends within the first [k] bits. *)
Lemma run_length_take bit k l : run_length bit (take k l) < Z.of_nat (length (take k l)) -> run_length bit l = run_length bit (take k l).
Proof. intros H. rewrite <- (take_drop k l) at 1. rewrite run_length_app. by destruct (Z.eqb_spec (run_length bit (take k l)) (Z.of_nat (length (take k l)))); [lia|]. Qed.
Lemma run_length_all bit l : run_length bit l = Z.of_nat (length l) <-> l = replicate (length l) bit.
Proof.
  induction l as [|b l IH]; [done|]. cbn [run_length length replicate]. pose proof (run_length_range bit l). destruct (Bool.eqb b bit) eqn:E.
  - apply eqb_prop in E as ->. split; [intros H1; f_equal; apply IH; lia|]. intros [= H1]. apply IH in H1. lia.
  - apply eqb_false_iff in E. split; [lia|]. intros [= H1 _]. done.
Qed.

Lemma bits_value_cons b l : bits_value (b :: l) = Z.b2z b * 2 ^ Z.of_nat (length l) + bits_value l.
Proof. change (b :: l) with ([b] ++ l). rewrite bits_value_app. by destruct b. Qed.
Lemma bits_value_snoc b l : bits_value (l ++ [b]) = 2 * bits_value l + Z.b2z b.
Proof. rewrite bits_value_app. change (2 ^ Z.of_nat (length [b])) with 2. destruct b; cbn; lia. Qed.

Lemma compare_value l1 l2 : length l1 = length l2 ->
  compare_bits l1 l2 = if bits_value l1 <? bits_value l2 then -1 else if bits_value l2 <? bits_value l1 then 1 else 0.
Proof.
  revert l2. induction l1 as [|b1 l1 IH]; intros [|b2 l2] H; try done. cbn [length] in H. cbn [compare_bits]. rewrite !bits_value_cons.
  replace (length l2) with (length l1) by lia. pose proof (bits_value_range l1) as R1. pose proof (bits_value_range l2) as R2. replace (length l2) with (length l1) in R2 by lia.
  set (p := 2 ^ Z.of_nat (length l1)) in *. destruct b1, b2; cbn [Bool.eqb Z.b2z]; rewrite ?IH by lia;
    repeat match goal with |- context [?a <? ?b] => destruct (Z.ltb_spec a b) end; lia.
Qed.
Lemma compare_app p l1 l2 : compare_bits (p ++ l1) (p ++ l2) = compare_bits l1 l2.
Proof. induction p as [|b p IH]; [done|]. cbn [app compare_bits]. by rewrite eqb_reflx. Qed.
Lemma compare_take k l1 l2 : compare_bits (take k l1) (take k l2) <> 0 -> compare_bits l1 l2 = compare_bits (take k l1) (take k l2).
Proof.
  revert k l2. induction l1 as [|b1 l1 IH]; intros [|k] [|b2 l2]; cbn [take compare_bits]; try done. destruct (Bool.eqb b1 b2); [apply IH|done].
Qed.
Lemma common_app p l1 l2 : common_bits (p ++ l1) (p ++ l2) = Z.of_nat (length p) + common_bits l1 l2.
Proof. unfold common_bits. induction p as [|b p IH]; [done|]. cbn [app zip_with run_length length]. rewrite xorb_nilpotent. cbn [Bool.eqb]. rewrite IH. lia. Qed.
Lemma common_take k l1 l2 : common_bits (take k l1) (take k l2) < Z.of_nat (length (zip_with xorb (take k l1) (take k l2))) ->
  common_bits l1 l2 = common_bits (take k l1) (take k l2).
Proof. unfold common_bits. rewrite <- zip_with_take. apply run_length_take. Qed.
Lemma common_self l : common_bits l l = Z.of_nat (length l).
Proof. pose proof (common_app l [] []) as H. rewrite !app_nil_r in H. rewrite H. unfold common_bits. cbn. lia. Qed.

Lemma lxor_value l1 l2 : length l1 = length l2 -> Z.lxor (bits_value l1) (bits_value l2) = bits_value (zip_with xorb l1 l2).
Proof.
  revert l2. induction l1 as [|b1 l1 IH] using rev_ind; intros l2 H; [by destruct l2|].
  destruct l2 as [|b2 l2 _] using rev_ind; [rewrite length_app in H; cbn in H; lia|]. rewrite !length_app in H. cbn [length] in H.
  rewrite zip_with_app by lia. cbn [zip_with]. rewrite !bits_value_snoc, <- IH by lia. apply Z.bits_inj'. intros i Hi.
  rewrite Z.lxor_spec. destruct (Z.eq_dec i 0) as [->|]; [by rewrite !Z.testbit_0_r|]. replace i with (Z.succ (i - 1)) by lia.
  rewrite !Z.testbit_succ_r by lia. by rewrite Z.lxor_spec.
Qed.

Lemma leading_value l : count_leading_zeroes (Z.of_nat (length l)) (bits_value l) = run_length false l.
Proof.
  unfold count_leading_zeroes. induction l as [|b l IH]; [done|]. cbn [length run_length]. rewrite bits_value_cons. pose proof (bits_value_range l) as R. destruct b; cbn [Z.b2z Bool.eqb].
  - rewrite Z.mul_1_l. destruct (Z.eqb_spec (2 ^ Z.of_nat (length l) + bits_value l) 0); [lia|]. rewrite (Z.log2_unique _ (Z.of_nat (length l))); [lia|lia|].
    rewrite Z.pow_succ_r by lia. lia.
  - rewrite Z.mul_0_l, Z.add_0_l. destruct (bits_value l =? 0); lia.
Qed.
Lemma land_opp_double x : Z.land (2 * x) (- (2 * x)) = 2 * Z.land x (- x).
Proof.
  apply Z.bits_inj'. intros i Hi. replace (- (2 * x)) with (2 * - x) by lia. rewrite Z.land_spec. destruct (Z.eq_dec i 0) as [->|]; [by rewrite !Z.testbit_even_0|].
  replace i with (Z.succ (i - 1)) by lia. rewrite !Z.testbit_even_succ by lia. by rewrite Z.land_spec.
Qed.
Lemma trailing_value l : count_trailing_zeroes (Z.of_nat (length l)) (bits_value l) = run_length false (rev l).
Proof.
  unfold count_trailing_zeroes. induction l as [|b l IH] using rev_ind; [done|]. rewrite rev_app_distr, length_app, bits_value_snoc. cbn [rev app run_length length].
  pose proof (bits_value_range l) as R. destruct b; cbn [Z.b2z Bool.eqb].
  - destruct (Z.eqb_spec (2 * bits_value l + 1) 0); [lia|]. assert (Z.land (2 * bits_value l + 1) (- (2 * bits_value l + 1)) = 1) as ->; [|done].
    apply Z.bits_inj'. intros i Hi. replace (- (2 * bits_value l + 1)) with (2 * Z.lnot (bits_value l) + 1) by (unfold Z.lnot; lia). rewrite Z.land_spec.
    destruct (Z.eq_dec i 0) as [->|]; [by rewrite !Z.testbit_odd_0|]. replace i with (Z.succ (i - 1)) by lia. rewrite !Z.testbit_odd_succ by lia.
    rewrite Z.lnot_spec by lia. rewrite andb_negb_r. symmetry. change 1 with (2 ^ 0) at 1. apply Z.pow2_bits_false. lia.
  - rewrite Z.add_0_r, land_opp_double. destruct (Z.eqb_spec (bits_value l) 0) as [E|E]; [rewrite E; change (2 * 0 =? 0) with true; cbv iota; lia|].
    destruct (Z.eqb_spec (2 * bits_value l) 0); [lia|]. rewrite <- IH, Z.log2_double; [lia|].
    apply Z.le_neq. split; [apply Z.land_nonneg; lia|]. intros H. symmetry in H.
    revert H R E. clear. generalize (bits_value l). intros x H R E. assert (exists p, x = Z.pos p) as [p ->] by (destruct x; try lia; by eexists).
    clear R E. induction p as [p IH|p IH|]; [|apply IH; change (Z.pos p~0) with (2 * Z.pos p) in H; rewrite land_opp_double in H; lia|done].
    apply (f_equal Z.odd) in H. change (Z.odd 0) with false in H. rewrite <- Z.bit0_odd, Z.land_spec in H. cbn in H. by destruct p.
Qed.

Lemma leading_zero l : bits_value l = 0 <-> run_length false l = Z.of_nat (length l).
Proof.
  pose proof (leading_value l) as H. unfold count_leading_zeroes in H. destruct (Z.eqb_spec (bits_value l) 0) as [E|E]; [split; [lia|done]|].
  pose proof (Z.log2_nonneg (bits_value l)). split; lia.
Qed.
Lemma common_range l1 l2 : length l1 = length l2 -> 0 <= common_bits l1 l2 <= Z.of_nat (length l1).
Proof. intros H. pose proof (run_length_range false (zip_with xorb l1 l2)) as R. rewrite length_zip_with in R. unfold common_bits. lia. Qed.
Lemma common_full l1 l2 : length l1 = length l2 -> common_bits l1 l2 = Z.of_nat (length l1) -> l1 = l2.
Proof.
  unfold common_bits. revert l2. induction l1 as [|b1 l1 IH]; intros [|b2 l2] Hl; try done. cbn [zip_with run_length length] in *.
  pose proof (run_length_range false (zip_with xorb l1 l2)). destruct b1, b2; cbn [xorb Bool.eqb]; intros; first [lia | f_equal; apply IH; lia].
Qed.
Lemma compare_common l1 l2 : length l1 = length l2 -> common_bits l1 l2 < Z.of_nat (length l1) -> compare_bits l1 l2 <> 0.
Proof.
  unfold common_bits. revert l2. induction l1 as [|b1 l1 IH]; intros [|b2 l2] Hl; try done. cbn [zip_with run_length length compare_bits] in *.
  destruct b1, b2; cbn [xorb Bool.eqb]; intros; first [done | apply IH; lia].
Qed.

(** ** [bits_memcmp] *)

(** The word [acc] starts with the first [z] bits of [l], and the byte at [p] is next. *)
Definition holds (m : list Z) (p z : nat) (acc : Z) (l : list bool) : Prop :=
  drop z l = drop (8 * p) (mem_bits m) /\ (z <= length l)%nat /\ (z <= 64)%nat /\ acc = bits_value (take z l) * 2 ^ (64 - Z.of_nat z).

Definition padded (z : nat) (l : list bool) : list bool := take z l ++ replicate (64 - z) false.
Lemma holds_padded m p z acc l : holds m p z acc l -> acc = bits_value (padded z l) /\ length (padded z l) = 64%nat.
Proof.
  intros (_ & Hl & Hz & ->). unfold padded. rewrite bits_value_app, bits_value_zeros, length_app, length_replicate, length_take. split; [|lia].
  rewrite Z.add_0_r. do 2 f_equal. lia.
Qed.
Lemma padded_take k z l : (k <= z)%nat -> (z <= length l)%nat -> take k (padded z l) = take k l.
Proof. intros Hk Hz. unfold padded. rewrite take_app_le by (rewrite length_take; lia). rewrite take_take. f_equal. lia. Qed.

Lemma load_be_bits n m p : bytes m -> (p + n <= length m)%nat -> load_be n m p = bits_value (take (8 * n) (drop (8 * p) (mem_bits m))).
Proof. intros Hm Hp. unfold load_be. rewrite <- bits_value_mem by (by apply Forall_take, Forall_drop). by rewrite mem_bits_take, mem_bits_drop. Qed.
Lemma load_be_byte m p : (p < length m)%nat -> load_be 1 m p = byte_at m p.
Proof. intros Hp. unfold load_be, byte_at. destruct (lookup_lt_is_Some_2 m p Hp) as [b Eb]. rewrite Eb, (drop_S m b p Eb). by change (be_combine [b] = b). Qed.

Lemma holds_room m p z acc l n : holds m p z acc l -> (0 < n)%nat -> (z + n <= length l)%nat -> (8 * p + n <= 8 * length m)%nat.
Proof. intros (E & Hl & _) H0 Hn. apply (f_equal (@length bool)) in E. rewrite !length_drop, length_mem_bits in E. lia. Qed.

(** [n] more bytes. *)
Lemma holds_more m p z acc l n : bytes m -> holds m p z acc l -> (z + 8 * n <= 64)%nat -> (p + n <= length m)%nat ->
  holds m (p + n) (z + 8 * n) (Z.lor acc (u64 (Z.shiftl (load_be n m p) (64 - Z.of_nat z - 8 * Z.of_nat n)))) l.
Proof.
  intros Hm (E & Hl & Hz & ->) Hn Hp. pose proof (f_equal (@length bool) E) as EL. rewrite !length_drop, length_mem_bits in EL.
  split; [|split; [lia|split; [lia|]]].
  { rewrite <- drop_drop, E, drop_drop. f_equal. lia. }
  rewrite load_be_bits by done. rewrite <- E. set (next := take (8 * n) (drop z l)). assert (length next = 8 * n)%nat as Ln by (unfold next; rewrite length_take, length_drop; lia).
  rewrite <- take_take_drop. fold next.
  rewrite bits_value_app, Ln. pose proof (bits_value_range next) as R. rewrite Ln in R.
  rewrite Z.shiftl_mul_pow2 by lia. set (e := 64 - Z.of_nat z - 8 * Z.of_nat n). assert (0 < 2 ^ e) as He by (apply Z.pow_pos_nonneg; lia).
  assert (2 ^ (64 - Z.of_nat z) = 2 ^ Z.of_nat (8 * n) * 2 ^ e) as E1 by (rewrite <- Z.pow_add_r by lia; f_equal; lia).
  assert (2 ^ (64 - Z.of_nat z) <= 2 ^ 64) as E2 by (apply Z.pow_le_mono_r; lia).
  rewrite wrapu_small by nia. rewrite lor_disjoint by first [lia | split; nia]. replace (64 - Z.of_nat (z + 8 * n)) with e by lia. rewrite E1. ring.
Qed.
Lemma holds_byte m p z acc l : bytes m -> holds m p z acc l -> (z + 8 <= 64)%nat -> (p < length m)%nat ->
  holds m (p + 1) (z + 8) (Z.lor acc (u64 (Z.shiftl (byte_at m p) (56 - Z.of_nat z)))) l.
Proof.
  intros Hm H Hz Hp. pose proof (holds_more m p z acc l 1 Hm H ltac:(lia) ltac:(lia)) as M. rewrite load_be_byte in M by done.
  by replace (64 - Z.of_nat z - 8 * Z.of_nat 1) with (56 - Z.of_nat z) in M by lia.
Qed.

(** The first 32 bits are done with. *)
Lemma holds_shift m p z acc l : holds m p z acc l -> (32 <= z)%nat -> holds m p (z - 32) (u64 (Z.shiftl acc 32)) (drop 32 l).
Proof.
  intros (E & Hl & Hz & ->) H. split; [rewrite drop_drop; rewrite <- E; f_equal; lia|]. rewrite length_drop. split; [lia|]. split; [lia|].
  rewrite Z.shiftl_mul_pow2 by lia. replace (take z l) with (take 32 l ++ take (z - 32) (drop 32 l)) by (rewrite take_take_drop; f_equal; lia).
  set (rest := take (z - 32) (drop 32 l)). assert (length rest = (z - 32)%nat) as Lr by (unfold rest; rewrite length_take, length_drop; lia).
  rewrite bits_value_app, Lr. pose proof (bits_value_range rest) as R. rewrite Lr in R. unfold wrapu.
  replace (64 - Z.of_nat (z - 32)) with (64 - Z.of_nat z + 32) by lia. rewrite Z.pow_add_r by lia.
  assert (2 ^ 64 = 2 ^ Z.of_nat (z - 32) * (2 ^ (64 - Z.of_nat z) * 2 ^ 32)) as E64 by (rewrite <- !Z.pow_add_r by lia; f_equal; lia).
  symmetry. apply (Z.mod_unique _ _ (bits_value (take 32 l))); [left|rewrite E64; ring]. rewrite E64.
  assert (0 < 2 ^ (64 - Z.of_nat z)) by (apply Z.pow_pos_nonneg; lia). nia.
Qed.

Lemma holds_first m offs : bytes m -> 0 <= offs -> offs < 8 * Z.of_nat (length m) ->
  let p := Z.to_nat (Z.shiftr offs 3) in let o := Z.land offs 7 in
  holds m (p + 1) (Z.to_nat (8 - o)) (u64 (Z.shiftl (byte_at m p) (56 + o))) (drop (Z.to_nat offs) (mem_bits m)) /\ 0 <= o < 8.
Proof.
  intros Hm Ho Hl. cbv zeta. destruct (offset_split offs Ho) as (Eo & Hr & Hq). set (o := Z.land offs 7) in *. set (p := Z.to_nat (Z.shiftr offs 3)) in *.
  split; [|done]. rewrite Eo. unfold holds. rewrite drop_drop, length_drop, length_mem_bits. split; [f_equal; lia|]. split; [lia|]. split; [lia|].
  rewrite <- drop_drop. assert (take (Z.to_nat (8 - o)) (drop (Z.to_nat o) (drop (8 * p) (mem_bits m))) = bits_of (Z.to_nat (8 - o)) (byte_at m p)) as ->.
  { rewrite take_drop_commute. replace (Z.to_nat o + Z.to_nat (8 - o))%nat with 8%nat by lia. rewrite mem_byte by lia. rewrite bits_of_drop by lia. f_equal. lia. }
  rewrite bits_value_of, Z.shiftl_mul_pow2 by lia. unfold wrapu. rewrite !Z2Nat.id by lia. replace (64 - (8 - o)) with (56 + o) by lia.
  replace (2 ^ 64) with (2 ^ (8 - o) * 2 ^ (56 + o)) by (rewrite <- Z.pow_add_r by lia; f_equal; lia). by rewrite Z.mul_mod_distr_r by (apply Z.pow_nonzero; lia).
Qed.

Section Differences.
Context (m1 m2 : list Z) (p1 z1 p2 z2 : nat) (acc1 acc2 : Z) (l1 l2 : list bool).
Context (H1 : holds m1 p1 z1 acc1 l1) (H2 : holds m2 p2 z2 acc2 l2).
Context (k : nat) (K1 : (k <= z1)%nat) (K2 : (k <= z2)%nat).

Lemma xor_padded : Z.lxor acc1 acc2 = bits_value (zip_with xorb (padded z1 l1) (padded z2 l2)) /\ length (zip_with xorb (padded z1 l1) (padded z2 l2)) = 64%nat
  /\ take k (zip_with xorb (padded z1 l1) (padded z2 l2)) = zip_with xorb (take k l1) (take k l2).
Proof.
  destruct (holds_padded _ _ _ _ _ H1) as [-> L1], (holds_padded _ _ _ _ _ H2) as [-> L2]. rewrite lxor_value by lia. split; [done|]. rewrite length_zip_with. split; [lia|].
  destruct H1 as (_ & ? & _), H2 as (_ & ? & _). by rewrite zip_with_take, !padded_take by lia.
Qed.
Lemma length_firsts : length (take k l1) = k /\ length (take k l2) = k.
Proof. destruct H1 as (_ & ? & _), H2 as (_ & ? & _). rewrite !length_take. lia. Qed.

Lemma differ_spec : differ acc1 acc2 (Z.of_nat k) = negb (common_bits (take k l1) (take k l2) =? Z.of_nat k).
Proof.
  destruct xor_padded as (Ex & Lx & Ek), length_firsts as [L1 L2]. unfold differ. f_equal. destruct H1 as (_ & _ & Hz & _).
  rewrite Ex, mask_top, Nat2Z.id, Ek by (done || lia). unfold common_bits. set (e := zip_with xorb (take k l1) (take k l2)).
  assert (length e = k) as Le by (unfold e; rewrite length_zip_with; lia). pose proof (leading_zero e) as Z0. rewrite Le in Z0.
  assert (0 < 2 ^ (64 - Z.of_nat k)) by (apply Z.pow_pos_nonneg; lia).
  apply eq_true_iff_eq. rewrite !Z.eqb_eq, <- Z0. split; [|intros ->; lia]. intros. nia.
Qed.

Lemma difference_spec processed n : differ acc1 acc2 (Z.of_nat k) = true -> (k <= n)%nat ->
  difference processed acc1 acc2 = (compare_bits (take n l1) (take n l2), processed + common_bits (take n l1) (take n l2)).
Proof.
  rewrite differ_spec. destruct (Z.eqb_spec (common_bits (take k l1) (take k l2)) (Z.of_nat k)) as [|Hne]; [done|]. intros _ Hn.
  destruct xor_padded as (Ex & Lx & Ek), length_firsts as [L1 L2]. pose proof (common_range (take k l1) (take k l2) ltac:(lia)) as R. rewrite L1 in R.
  pose proof (compare_common (take k l1) (take k l2) ltac:(lia) ltac:(lia)) as C.
  pose proof (compare_take k (padded z1 l1) (padded z2 l2)) as CP. pose proof (compare_take k (take n l1) (take n l2)) as CN. rewrite !take_take, (Nat.min_l k n) in CN by lia.
  pose proof (common_take k (take n l1) (take n l2)) as MN. rewrite !take_take, (Nat.min_l k n), length_zip_with in MN by lia.
  destruct (holds_padded _ _ _ _ _ H1) as [Ea1 La1], (holds_padded _ _ _ _ _ H2) as [Ea2 La2]. pose proof H1 as (_ & ? & _). pose proof H2 as (_ & ? & _).
  rewrite !padded_take in CP by lia. unfold difference. rewrite CN, MN by (done || lia). f_equal.
  - rewrite <- CP by done. rewrite compare_value by lia. rewrite <- Ea1, <- Ea2. destruct (Z.ltb_spec acc1 acc2) as [|Hge]; [done|]. destruct (Z.ltb_spec acc2 acc1); [done|].
    exfalso. apply C. rewrite <- CP by done. rewrite compare_value by lia. rewrite <- Ea1, <- Ea2. destruct (Z.ltb_spec acc1 acc2); [lia|]. destruct (Z.ltb_spec acc2 acc1); [lia|done].
  - f_equal. rewrite Ex. pose proof (leading_value (zip_with xorb (padded z1 l1) (padded z2 l2))) as LV. rewrite Lx in LV. change (Z.of_nat 64) with 64 in LV. rewrite LV.
    unfold common_bits. rewrite <- Ek. apply run_length_take. rewrite Ek, length_zip_with. unfold common_bits in *. lia.
Qed.

Lemma no_difference : differ acc1 acc2 (Z.of_nat k) = false -> take k l1 = take k l2.
Proof.
  rewrite differ_spec. destruct (Z.eqb_spec (common_bits (take k l1) (take k l2)) (Z.of_nat k)) as [E|]; [|done]. intros _. destruct length_firsts as [L1 L2].
  apply common_full; lia.
Qed.
End Differences.

(** The words that are compared, with [w_bits w] bits of both strings to go. *)
Definition comparing (m1 m2 : list Z) (z1 z2 : nat) (l1 l2 : list bool) (w : Words) : Prop :=
  holds m1 (w_p1 w) z1 (w_acc1 w) l1 /\ holds m2 (w_p2 w) z2 (w_acc2 w) l2 /\ 0 < w_bits w /\
  w_bits w <= Z.of_nat (length l1) /\ w_bits w <= Z.of_nat (length l2).

Lemma compare_words_spec m1 m2 z1 z2 fuel l1 l2 w : bytes m1 -> bytes m2 -> (1 <= z1 <= 8)%nat -> (1 <= z2 <= 8)%nat ->
  comparing m1 m2 z1 z2 l1 l2 w -> w_bits w / 32 <= Z.of_nat fuel ->
  let s1 := take (Z.to_nat (w_bits w)) l1 in let s2 := take (Z.to_nat (w_bits w)) l2 in
  match compare_words m1 m2 fuel (Z.of_nat z1) (Z.of_nat z2) w with
  | inl r => r = (compare_bits s1 s2, w_processed w + common_bits s1 s2)
  | inr w' => exists q l1' l2', l1 = q ++ l1' /\ l2 = q ++ l2' /\ comparing m1 m2 z1 z2 l1' l2' w' /\ w_bits w' < 40 /\
      w_processed w' = w_processed w + Z.of_nat (length q) /\ w_bits w' = w_bits w - Z.of_nat (length q)
  end.
Proof.
  intros Hm1 Hm2 Hz1 Hz2. cbv zeta. revert l1 l2 w. induction fuel as [|fuel IH]; intros l1 l2 w Hw Hf; pose proof Hw as (H1 & H2 & Hb & Hl1 & Hl2); cbn [compare_words].
  { exists [], l1, l2. cbn [app length]. assert (w_bits w < 32) by (pose proof (Z.div_mod (w_bits w) 32 ltac:(lia)); pose proof (Z.mod_pos_bound (w_bits w) 32 ltac:(lia)); lia).
    do 3 (split; [done|]). lia. }
  destruct (Z.leb_spec 40 (w_bits w)) as [H40|H40].
  2:{ exists [], l1, l2. cbn [app length]. do 3 (split; [done|]). lia. }
  pose proof (holds_room _ _ _ _ _ 32 H1 ltac:(lia) ltac:(lia)) as R1. pose proof (holds_room _ _ _ _ _ 32 H2 ltac:(lia) ltac:(lia)) as R2.
  pose proof (holds_more _ _ _ _ _ 4 Hm1 H1 ltac:(lia) ltac:(lia)) as M1. pose proof (holds_more _ _ _ _ _ 4 Hm2 H2 ltac:(lia) ltac:(lia)) as M2.
  replace (64 - Z.of_nat z1 - 8 * Z.of_nat 4) with (32 - Z.of_nat z1) in M1 by lia. replace (64 - Z.of_nat z2 - 8 * Z.of_nat 4) with (32 - Z.of_nat z2) in M2 by lia.
  set (acc1 := Z.lor (w_acc1 w) _) in *. set (acc2 := Z.lor (w_acc2 w) _) in *. change 32 with (Z.of_nat 32) at 1. destruct (differ acc1 acc2 (Z.of_nat 32)) eqn:D.
  - apply (difference_spec _ _ _ _ _ _ _ _ _ _ M1 M2 32); (done || lia).
  - pose proof (no_difference _ _ _ _ _ _ _ _ _ _ M1 M2 32 ltac:(lia) ltac:(lia) D) as E.
    apply holds_shift in M1; [|lia]. apply holds_shift in M2; [|lia].
    replace (z1 + 8 * 4 - 32)%nat with z1 in M1 by lia. replace (z2 + 8 * 4 - 32)%nat with z2 in M2 by lia.
    set (w1 := {| w_acc1 := _ |}). specialize (IH (drop 32 l1) (drop 32 l2) w1).
    assert (comparing m1 m2 z1 z2 (drop 32 l1) (drop 32 l2) w1) as Hc.
    { split; [done|]. split; [done|]. unfold w1. cbn [w_bits]. rewrite !length_drop. lia. }
    specialize (IH Hc). assert (w_bits w1 / 32 <= Z.of_nat fuel) as Hf1.
    { unfold w1. cbn [w_bits]. replace (w_bits w - 32) with (w_bits w + (-1) * 32) by lia. rewrite Z.div_add by lia. lia. }
    specialize (IH Hf1).
    assert (forall n, (32 <= n)%nat -> take n l1 = take 32 l1 ++ take (n - 32) (drop 32 l1) /\ take n l2 = take 32 l1 ++ take (n - 32) (drop 32 l2)) as T.
    { intros n Hn. rewrite E at 2. rewrite !take_take_drop. split; f_equal; lia. }
    destruct (compare_words m1 m2 fuel (Z.of_nat z1) (Z.of_nat z2) w1) as [r|w'].
    + rewrite IH. destruct (T (Z.to_nat (w_bits w)) ltac:(lia)) as [-> ->]. rewrite compare_app, common_app.
      unfold w1. cbn [w_bits w_processed]. replace (Z.to_nat (w_bits w) - 32)%nat with (Z.to_nat (w_bits w - 32)) by lia. rewrite length_take. f_equal. lia.
    + destruct IH as (q & l1' & l2' & E1 & E2 & Hc' & Hb' & Hp & Hn). exists (take 32 l1 ++ q), l1', l2'.
      rewrite <- !app_assoc, <- E1, <- E2, take_drop. split; [done|]. split; [by rewrite E, take_drop|]. split; [done|]. split; [done|].
      rewrite length_app, length_take. unfold w1 in Hp, Hn. cbn [w_processed w_bits] in Hp, Hn. lia.
Qed.

(** ** What is left: fewer than 40 bits *)

Lemma load_bytes_spec c m p z acc l : bytes m -> holds m p z acc l -> (z + 8 * c <= 64)%nat -> (p + c <= length m)%nat ->
  exists acc', load_bytes c m p (Z.of_nat z) acc = ((p + c)%nat, Z.of_nat (z + 8 * c), acc') /\ holds m (p + c) (z + 8 * c) acc' l.
Proof.
  intros Hm. revert p z acc. induction c as [|c IH]; intros p z acc H Hz Hp; cbn [load_bytes].
  - exists acc. replace (p + 0)%nat with p by lia. replace (z + 8 * 0)%nat with z by lia. done.
  - pose proof (holds_byte m p z acc l Hm H ltac:(lia) ltac:(lia)) as M. replace (Z.of_nat z + 8) with (Z.of_nat (z + 8)) by lia.
    destruct (IH _ _ _ M ltac:(lia) ltac:(lia)) as (acc' & E & H'). exists acc'. rewrite E.
    replace (p + 1 + c)%nat with (p + S c)%nat in * by lia. replace (z + 8 + 8 * c)%nat with (z + 8 * S c)%nat in * by lia. done.
Qed.

(** The word has the bits that count, and perhaps some more. *)
Lemma load_rest_spec m p z acc l n : bytes m -> holds m p z acc l -> (z <= 8)%nat -> (n < 40)%nat -> (n <= length l)%nat ->
  exists acc' z' p', load_rest m p (Z.of_nat n - Z.of_nat z) (Z.of_nat z) acc = (Z.of_nat n, acc') /\ holds m p' z' acc' l /\ (n <= z')%nat.
Proof.
  intros Hm H Hz Hn Hl. unfold load_rest. destruct (decide (n <= z)%nat) as [Hnz|Hnz].
  - assert (Z.to_nat ((Z.of_nat n - Z.of_nat z) / 8) = 0%nat) as -> by (pose proof (Z.div_le_upper_bound (Z.of_nat n - Z.of_nat z) 8 0); lia). cbn [load_bytes].
    destruct (Z.leb_spec 8 (Z.of_nat n - Z.of_nat z)); [lia|]. destruct (Z.ltb_spec 0 (Z.of_nat n - Z.of_nat z)); [lia|]. exists acc, z, p.
    split; [f_equal; lia|]. split; [done|lia].
  - set (r := (n - z)%nat). replace (Z.of_nat n - Z.of_nat z) with (Z.of_nat r) by lia. pose proof (holds_room _ _ _ _ _ r H ltac:(lia) ltac:(lia)) as R.
    assert (Z.to_nat (Z.of_nat r / 8) = r / 8)%nat as -> by (change 8 with (Z.of_nat 8); by rewrite <- Nat2Z.inj_div, Nat2Z.id). pose proof (Nat.div_mod r 8 ltac:(lia)) as D. pose proof (Nat.mod_upper_bound r 8 ltac:(lia)) as B.
    destruct (load_bytes_spec (r / 8) m p z acc l Hm H ltac:(lia) ltac:(lia)) as (acc' & -> & H').
    assert ((if 8 <=? Z.of_nat r then Z.of_nat r mod 8 else Z.of_nat r) = Z.of_nat (r mod 8)) as ->.
    { rewrite Nat2Z.inj_mod. destruct (Z.leb_spec 8 (Z.of_nat r)); [done|]. symmetry. apply Z.mod_small. lia. }
    destruct (Z.ltb_spec 0 (Z.of_nat (r mod 8))) as [H0|H0].
    + eexists _, _, _. split; [f_equal; lia|]. split; [apply (holds_byte m _ _ _ l Hm H'); lia|lia].
    + exists acc', (z + 8 * (r / 8))%nat, (p + r / 8)%nat. split; [f_equal; lia|]. split; [done|lia].
Qed.

(** [bits_memcmp] finds the first difference of two strings, whatever their offsets. *)
Lemma memcmp_value m1 o1 m2 o2 n same : bytes m1 -> bytes m2 -> 0 <= o1 -> 0 <= o2 -> 0 < n ->
  o1 + n <= 8 * Z.of_nat (length m1) -> o2 + n <= 8 * Z.of_nat (length m2) ->
  let s1 := take (Z.to_nat n) (drop (Z.to_nat o1) (mem_bits m1)) in let s2 := take (Z.to_nat n) (drop (Z.to_nat o2) (mem_bits m2)) in
  bits_memcmp m1 o1 m2 o2 n same = Some (compare_bits s1 s2, common_bits s1 s2).
Proof.
  intros Hm1 Hm2 Ho1 Ho2 Hn Hl1 Hl2. cbv zeta. unfold bits_memcmp. destruct (Z.eqb_spec n 0); [lia|].
  destruct (holds_first m1 o1 Hm1 Ho1 ltac:(lia)) as [H1 R1], (holds_first m2 o2 Hm2 Ho2 ltac:(lia)) as [H2 R2]. cbv zeta.
  set (acc1 := u64 (Z.shiftl (byte_at m1 _) _)) in *. set (acc2 := u64 (Z.shiftl (byte_at m2 _) _)) in *. set (l1 := drop (Z.to_nat o1) (mem_bits m1)) in *. set (l2 := drop (Z.to_nat o2) (mem_bits m2)) in *.
  set (z1 := Z.to_nat (8 - Z.land o1 7)) in *. set (z2 := Z.to_nat (8 - Z.land o2 7)) in *.
  replace (8 - Z.land o1 7) with (Z.of_nat z1) by lia. replace (8 - Z.land o2 7) with (Z.of_nat z2) by lia.
  set (w := {| w_acc1 := acc1 |}). assert (comparing m1 m2 z1 z2 l1 l2 w) as Hc.
  { split; [done|]. split; [done|]. unfold w, l1, l2. cbn [w_bits]. rewrite !length_drop, !length_mem_bits. lia. }
  assert (w_bits w / 32 <= Z.of_nat (Z.to_nat (n / 32))) as Hf by (unfold w; cbn [w_bits]; pose proof (Z.div_pos n 32); lia).
  pose proof (compare_words_spec m1 m2 z1 z2 (Z.to_nat (n / 32)) l1 l2 w Hm1 Hm2 ltac:(lia) ltac:(lia) Hc Hf) as W. cbv zeta in W.
  destruct (compare_words _ _ _ _ _ w) as [r|w']; [by rewrite W; unfold w; cbn [w_bits w_processed]|]. destruct W as (q & l1' & l2' & E1 & E2 & (G1 & G2 & Gb & Gl1 & Gl2) & H40 & Hp & Hb).
  unfold w in Hp, Hb. cbn [w_processed w_bits] in Hp, Hb. set (k := Z.to_nat (w_bits w')).
  replace (Z.land o1 7 + w_bits w' - 8) with (Z.of_nat k - Z.of_nat z1) by lia. replace (Z.land o2 7 + w_bits w' - 8) with (Z.of_nat k - Z.of_nat z2) by lia.
  destruct (load_rest_spec m1 _ z1 _ l1' k Hm1 G1 ltac:(lia) ltac:(lia) ltac:(lia)) as (a1 & y1 & q1 & -> & F1 & Y1).
  destruct (load_rest_spec m2 _ z2 _ l2' k Hm2 G2 ltac:(lia) ltac:(lia) ltac:(lia)) as (a2 & y2 & q2 & -> & F2 & Y2).
  rewrite Z.eqb_refl. destruct (Z.leb_spec 64 (Z.of_nat k)); [lia|]. cbn [negb orb]. destruct (Z.eqb_spec (Z.of_nat k) 0); [lia|]. cbn [negb andb].
  assert (take (Z.to_nat n) l1 = q ++ take k l1' /\ take (Z.to_nat n) l2 = q ++ take k l2') as [-> ->].
  { rewrite E1, E2. replace (Z.to_nat n) with (length q + k)%nat by lia. by rewrite !take_app_add. }
  rewrite compare_app, common_app. destruct (differ a1 a2 (Z.of_nat k)) eqn:D.
  - rewrite (difference_spec _ _ _ _ _ _ _ _ _ _ F1 F2 k Y1 Y2 _ k D ltac:(lia)). rewrite Hp. do 2 f_equal; lia.
  - pose proof (no_difference _ _ _ _ _ _ _ _ _ _ F1 F2 k Y1 Y2 D) as E. rewrite <- E, common_self, length_take.
    replace (compare_bits (take k l1') (take k l1')) with 0 by (rewrite <- (app_nil_r (take k l1')); by rewrite compare_app). do 2 f_equal; lia.
Qed.

(** ** [bits_memscan] *)

Lemma run_length_min bit k l : run_length bit (take k l) = Z.min (run_length bit l) (Z.of_nat k).
Proof.
  revert k. induction l as [|b l IH]; intros [|k]; cbn [take run_length]; [lia..| |]; pose proof (run_length_range bit l); destruct (Bool.eqb b bit); rewrite ?IH; lia.
Qed.
Lemma run_length_xor c l : run_length false (map (xorb c) l) = run_length c l.
Proof. induction l as [|b l IH]; [done|]. cbn [map run_length]. by destruct b, c; cbn [xorb Bool.eqb]; rewrite ?IH. Qed.

Lemma bits_of_lnot n v : bits_of n (Z.lnot v) = map negb (bits_of n v).
Proof.
  revert v. induction n as [|n IH]; intros v; [done|]. cbn [bits_of]. rewrite map_app. cbn [map].
  assert (Z.lnot v / 2 = Z.lnot (v / 2)) as -> by (unfold Z.lnot; pose proof (Z.div_mod v 2 ltac:(lia)); pose proof (Z.mod_pos_bound v 2 ltac:(lia)); symmetry; apply (Z.div_unique _ _ _ (1 - v mod 2)); lia).
  rewrite IH. do 2 f_equal. unfold Z.lnot. by rewrite Z.odd_pred, Z.even_opp, Z.negb_odd.
Qed.
Lemma bits_of_xor n v c : bits_of n (Z.lxor v (xor_val c)) = map (xorb c) (bits_of n v).
Proof.
  destruct c; cbn [xor_val]; [rewrite Z.lxor_m1_r; apply bits_of_lnot|]. rewrite Z.lxor_0_r. rewrite (map_ext _ id) by (by intros []). by rewrite map_id.
Qed.

(** A word that starts with some bits counts their run, or is zero. *)
Lemma leading_chunk W d : (length d <= W)%nat ->
  count_leading_zeroes (Z.of_nat W) (bits_value d * 2 ^ (Z.of_nat W - Z.of_nat (length d))) =
    if run_length false d =? Z.of_nat (length d) then Z.of_nat W else run_length false d.
Proof.
  intros Hd. pose proof (leading_value (d ++ replicate (W - length d) false)) as L.
  rewrite bits_value_app, bits_value_zeros, length_app, length_replicate, run_length_app, Z.add_0_r in L.
  replace (Z.of_nat (length d + (W - length d))) with (Z.of_nat W) in L by lia. replace (Z.of_nat (W - length d)) with (Z.of_nat W - Z.of_nat (length d)) in L by lia.
  rewrite L. pose proof (proj2 (run_length_all false (replicate (W - length d) false))) as R. rewrite length_replicate in R. rewrite R by done.
  destruct (Z.eqb_spec (run_length false d) (Z.of_nat (length d))); lia.
Qed.
Lemma chunk_zero W d : (length d <= W)%nat -> (bits_value d * 2 ^ (Z.of_nat W - Z.of_nat (length d)) =? 0) = (run_length false d =? Z.of_nat (length d)).
Proof.
  intros Hd. pose proof (leading_zero d) as Z0. pose proof (Z.pow_pos_nonneg 2 (Z.of_nat W - Z.of_nat (length d)) ltac:(lia) ltac:(lia)).
  apply eq_true_iff_eq. rewrite !Z.eqb_eq, <- Z0. split; [nia|]. intros ->. lia.
Qed.

(** The bits of a byte from the offset on, at the top of 32. *)
Lemma byte_chunk m p o c : (p < length m)%nat -> 0 <= o < 8 ->
  let d := map (xorb c) (drop (Z.to_nat o) (take 8 (drop (8 * p) (mem_bits m)))) in length d = Z.to_nat (8 - o) /\
  u32 (Z.shiftl (Z.lxor (byte_at m p) (xor_val c)) (24 + o)) = bits_value d * 2 ^ (Z.of_nat 32 - Z.of_nat (length d)).
Proof.
  intros Hp Ho. cbv zeta. rewrite mem_byte by done. rewrite length_map, length_drop, length_bits_of. split; [lia|].
  rewrite <- List.skipn_map, <- bits_of_xor, bits_of_drop, bits_value_of, Z.shiftl_mul_pow2 by lia. unfold wrapu.
  replace (Z.of_nat (8 - Z.to_nat o)) with (8 - o) by lia. change (Z.of_nat 32) with 32. replace (32 - (8 - o)) with (24 + o) by lia.
  replace (2 ^ 32) with (2 ^ (8 - o) * 2 ^ (24 + o)) by (rewrite <- Z.pow_add_r by lia; f_equal; lia). by rewrite Z.mul_mod_distr_r by (apply Z.pow_nonzero; lia).
Qed.

Section Scanning.
Context (m : list Z) (Hm : bytes m) (offs bit_count : Z) (c : bool) (Ho : 0 <= offs) (Hl : offs + bit_count <= 8 * Z.of_nat (length m)).
Definition scanned_string : list bool := take (Z.to_nat bit_count) (drop (Z.to_nat offs) (mem_bits m)).

(** Up to the byte [p], with [rem] bits to go, only [c] was seen. *)
Definition scan_at (p : nat) (rem : Z) : Prop :=
  0 <= rem <= bit_count /\ 8 * Z.of_nat p + rem = offs + bit_count /\
  run_length c scanned_string = bit_count - rem + run_length c (take (Z.to_nat rem) (drop (8 * p) (mem_bits m))).
Definition scan_ok (r : Z + nat * Z) : Prop := match r with inl k => k = run_length c scanned_string | inr (p, rem) => scan_at p rem end.

(** A chunk of [n] bits that is only [c], or is not. *)
Lemma scan_chunk p rem n : scan_at p rem -> Z.of_nat n <= rem -> (n mod 8 = 0)%nat ->
  let d := take n (drop (8 * p) (mem_bits m)) in length d = n /\
  (run_length c d = Z.of_nat n -> scan_at (p + n / 8) (rem - Z.of_nat n)) /\
  (run_length c d <> Z.of_nat n -> run_length c scanned_string = bit_count - rem + run_length c d).
Proof.
  intros (Hr & Hp & E) Hn H8. cbv zeta. set (d := take n (drop (8 * p) (mem_bits m))).
  assert (length d = n) as Ld by (unfold d; rewrite length_take, length_drop, length_mem_bits; lia). split; [done|].
  assert (take (Z.to_nat rem) (drop (8 * p) (mem_bits m)) = d ++ take (Z.to_nat (rem - Z.of_nat n)) (drop (8 * (p + n / 8)) (mem_bits m))) as Es.
  { unfold d. pose proof (Nat.div_mod n 8 ltac:(lia)). replace (8 * (p + n / 8))%nat with (8 * p + n)%nat by lia. rewrite <- drop_drop, take_take_drop. f_equal. lia. }
  rewrite Es, run_length_app, Ld in E. split.
  - intros Ed. rewrite Ed, Z.eqb_refl in E. pose proof (Nat.div_mod n 8 ltac:(lia)). split; [lia|]. split; [lia|]. rewrite E. lia.
  - intros Ed. destruct (Z.eqb_spec (run_length c d) (Z.of_nat n)); [done|]. rewrite E. done.
Qed.

Lemma scan_bytes_ok stop fuel p rem : scan_at p rem -> scan_ok (scan_bytes stop m bit_count c fuel p rem).
Proof.
  revert p rem. induction fuel as [|fuel IH]; intros p rem H; cbn [scan_bytes]; [done|]. destruct (Z.leb_spec 8 rem) as [H8|]; [|done]. destruct (stop p); [done|].
  cbn [negb andb]. pose proof H as (Hr & Hp & _). destruct (scan_chunk p rem 8 H H8 eq_refl) as (Ld & Hs & Hf).
  destruct (byte_chunk m p 0 c ltac:(lia) ltac:(lia)) as [Lx Ex]. change (Z.to_nat 0) with 0%nat in Lx, Ex. rewrite drop_0 in Lx, Ex. change (24 + 0) with 24 in Ex. set (d := take 8 (drop (8 * p) (mem_bits m))) in *.
  rewrite Ex, (chunk_zero 32), run_length_xor, length_map, Ld by (rewrite length_map; lia).
  destruct (Z.eqb_spec (run_length c d) (Z.of_nat 8)) as [E|E]; cbn [negb].
  - apply IH. exact (Hs E).
  - cbn [scan_ok]. rewrite (Hf E). f_equal. pose proof (leading_chunk 32 (map (xorb c) d) ltac:(rewrite length_map; lia)) as L. rewrite length_map, run_length_xor, Ld in L.
    change (Z.of_nat 32) with 32 in *. rewrite L. by destruct (Z.eqb_spec (run_length c d) (Z.of_nat 8)).
Qed.

Lemma word_chunk p : (p + 8 <= length m)%nat -> let d := take 64 (drop (8 * p) (mem_bits m)) in length d = 64%nat /\
  Z.lxor (load_be 8 m p) (if c then 2 ^ 64 - 1 else 0) = bits_value (map (xorb c) d).
Proof.
  intros Hp. cbv zeta. rewrite (load_be_bits 8) by done. change (8 * 8)%nat with 64%nat. set (d := take 64 _).
  assert (length d = 64%nat) as Ld by (unfold d; rewrite length_take, length_drop, length_mem_bits; lia). split; [done|].
  destruct c.
  - change (2 ^ 64 - 1) with (bits_value (replicate 64 true)). rewrite lxor_value by (by rewrite length_replicate). f_equal. rewrite <- Ld.
    clear. induction d as [|b d IH]; [done|]. cbn [length replicate zip_with map]. rewrite IH. by rewrite xorb_comm.
  - rewrite Z.lxor_0_r. f_equal. rewrite (map_ext _ id) by (by intros []). by rewrite map_id.
Qed.
Lemma scan_words_ok fuel p rem : scan_at p rem -> scan_ok (scan_words m bit_count c fuel p rem).
Proof.
  revert p rem. induction fuel as [|fuel IH]; intros p rem H; cbn [scan_words]; [done|]. destruct (Z.leb_spec 64 rem) as [H64|]; [|done].
  pose proof H as (Hr & Hp & _). destruct (scan_chunk p rem 64 H H64 eq_refl) as (Ld & Hs & Hf). destruct (word_chunk p ltac:(lia)) as [_ Ex]. cbv zeta in Ex.
  set (d := take 64 (drop (8 * p) (mem_bits m))) in *. rewrite Ex. pose proof (leading_zero (map (xorb c) d)) as Z0. rewrite run_length_xor, length_map, Ld in Z0.
  destruct (Z.eqb_spec (bits_value (map (xorb c) d)) 0) as [E|E]; cbn [negb].
  - apply IH. exact (Hs (proj1 Z0 E)).
  - cbn [scan_ok]. rewrite Hf by (intros E'; by apply E, Z0). f_equal. pose proof (leading_value (map (xorb c) d)) as L. by rewrite length_map, run_length_xor, Ld in L.
Qed.

Lemma scan_then_ok r f : scan_ok r -> (forall p rem, scan_at p rem -> scan_ok (f p rem)) -> scan_ok (scan_then r f).
Proof. destruct r as [k|[p rem]]; [done|]. intros H Hf. by apply Hf. Qed.

(** The bytes that are left are fewer than eight bits. *)
Lemma scan_bytes_ends fuel p rem : rem <= 8 * Z.of_nat fuel ->
  match scan_bytes (fun _ => false) m bit_count c fuel p rem with inl _ => True | inr (_, rem') => rem' < 8 end.
Proof.
  revert p rem. induction fuel as [|fuel IH]; intros p rem H; cbn [scan_bytes]; [lia|]. destruct (Z.leb_spec 8 rem); cbn [negb andb]; [|lia].
  destruct (negb _); [done|]. apply IH. lia.
Qed.

Lemma memscan_value addr : 0 <= bit_count -> bits_memscan addr m offs bit_count c = run_length c scanned_string.
Proof.
  intros Hn. unfold bits_memscan. destruct (Z.eqb_spec bit_count 0) as [E0|H0]; [unfold scanned_string; rewrite E0; by cbn|]. cbv zeta.
  destruct (offset_split offs Ho) as (Eo & Hr & Hq). set (o := Z.land offs 7) in *. set (p := Z.to_nat (Z.shiftr offs 3)) in *. set (fuel := Z.to_nat bit_count).
  set (r0 := if negb (o =? 0) then _ else _). assert (scan_ok r0) as H1.
  { unfold r0. destruct (Z.eqb_spec o 0) as [Ez|Hz]; cbn [negb].
    - split; [lia|]. split; [lia|]. unfold scanned_string. rewrite Eo. replace (8 * p + Z.to_nat o)%nat with (8 * p)%nat by lia. lia.
    - destruct (byte_chunk m p o c ltac:(lia) Hr) as [Lx Ex]. cbv zeta in Lx, Ex. set (d := drop (Z.to_nat o) (take 8 (drop (8 * p) (mem_bits m)))) in *. rewrite length_map in Lx.
      rewrite Ex. pose proof (leading_chunk 32 (map (xorb c) d) ltac:(rewrite length_map; lia)) as L. change (Z.of_nat 32) with 32 in *.
      rewrite L, length_map, run_length_xor, Lx. pose proof (run_length_range c d) as Rd. rewrite Lx in Rd.
      assert (exists rest, drop (Z.to_nat offs) (mem_bits m) = d ++ rest /\ rest = drop (8 * (p + 1)) (mem_bits m)) as (rest & Es & Erest).
      { eexists. split; [|done]. rewrite Eo, <- drop_drop. set (l := drop (8 * p) (mem_bits m)). replace (8 * (p + 1))%nat with (8 * p + 8)%nat by lia. rewrite <- drop_drop. fold l. unfold d. fold l.
        rewrite <- (take_drop 8 l) at 1. rewrite drop_app_le; [done|]. unfold l. rewrite length_take, length_drop, length_mem_bits. lia. }
      assert (run_length c scanned_string = Z.min (run_length c (d ++ rest)) bit_count) as Er by (unfold scanned_string; rewrite run_length_min, Es; lia).
      rewrite run_length_app, Lx in Er. replace (Z.of_nat (Z.to_nat (8 - o))) with (8 - o) in * by lia.
      destruct (Z.eqb_spec (run_length c d) (8 - o)) as [Ed|Ed].
      + destruct (Z.ltb_spec 32 (8 - o)); [lia|]. cbn [orb]. destruct (Z.leb_spec bit_count (8 - o)) as [Hle|Hgt]; cbn [scan_ok].
        * rewrite Er. pose proof (run_length_range c rest). lia.
        * split; [lia|]. split; [lia|]. rewrite <- Erest, run_length_min, Er. lia.
      + destruct (Z.ltb_spec (run_length c d) (8 - o)); [|lia]. cbn [orb scan_ok]. by rewrite Er. }
  pose proof (scan_then_ok r0 _ H1 (fun p rem => scan_bytes_ok (fun p => (addr + Z.of_nat p) mod 8 =? 0) fuel p rem)) as H2. set (r1 := scan_then r0 _) in *.
  pose proof (scan_then_ok r1 _ H2 (fun p rem => scan_words_ok fuel p rem)) as H3. set (r2 := scan_then r1 _) in *.
  pose proof (scan_then_ok r2 _ H3 (fun p rem => scan_bytes_ok (fun _ => false) fuel p rem)) as H4.
  destruct r2 as [k|[p2 rem2]]; [exact H4|]. cbn [scan_then scan_ok] in *. pose proof H3 as (Hr2 & _). pose proof (scan_bytes_ends fuel p2 rem2 ltac:(unfold fuel; lia)) as Hend.
  destruct (scan_bytes (fun _ => false) m bit_count c fuel p2 rem2) as [k|[p3 rem3]]; [exact H4|]. destruct H4 as (Hr3 & Hp3 & E3). rewrite E3.
  destruct (Z.ltb_spec 0 rem3) as [Hpos|]; [|replace rem3 with 0 by lia; change (Z.to_nat 0) with 0%nat; rewrite take_0; change (run_length c []) with 0; lia].
  destruct (byte_chunk m p3 0 c ltac:(lia) ltac:(lia)) as [Lx Ex]. change (Z.to_nat 0) with 0%nat in Lx, Ex. rewrite drop_0 in Lx, Ex. change (24 + 0) with 24 in Ex.
  rewrite length_map in Lx. rewrite Ex. set (d := take 8 (drop (8 * p3) (mem_bits m))) in *. pose proof (leading_chunk 32 (map (xorb c) d) ltac:(rewrite length_map; lia)) as L. change (Z.of_nat 32) with 32 in *.
  rewrite L, length_map, run_length_xor, Lx. pose proof (run_length_range c d) as Rd. rewrite Lx in Rd.
  replace (take (Z.to_nat rem3) (drop (8 * p3) (mem_bits m))) with (take (Z.to_nat rem3) d) by (unfold d; rewrite take_take; f_equal; lia). rewrite run_length_min.
  change (Z.of_nat (Z.to_nat (8 - 0))) with 8 in *. destruct (Z.eqb_spec (run_length c d) 8); [destruct (Z.ltb_spec 32 rem3); lia|].
  destruct (Z.ltb_spec (run_length c d) rem3); lia.
Qed.
End Scanning.

(** ** [bits_memscan_rev] *)

Lemma rev_same n (b : bool) : rev (replicate n b) = replicate n b.
Proof. induction n as [|n IH]; [done|]. cbn [replicate rev]. rewrite IH. by rewrite <- replicate_S_end. Qed.
Lemma run_length_rev_all c l : run_length c (rev l) = Z.of_nat (length l) <-> run_length c l = Z.of_nat (length l).
Proof.
  rewrite <- (length_rev l) at 1. rewrite !run_length_all, length_rev. split; intros E.
  - apply (f_equal (@rev bool)) in E. rewrite rev_involutive in E. rewrite E at 1. by rewrite rev_same.
  - rewrite E at 1. by rewrite rev_same.
Qed.

(** The lowest bits of a word count their run from the end, or are zero. *)
Lemma trailing_chunk W d v : (length d <= W)%nat -> v = bits_value (replicate (W - length d) false ++ d) ->
  (v =? 0) = (run_length false (rev d) =? Z.of_nat (length d)) /\
  count_trailing_zeroes (Z.of_nat W) v = if run_length false (rev d) =? Z.of_nat (length d) then Z.of_nat W else run_length false (rev d).
Proof.
  intros Hd ->. split.
  - apply eq_true_iff_eq. rewrite !Z.eqb_eq, run_length_rev_all, <- leading_zero, bits_value_app, bits_value_zeros. lia.
  - pose proof (trailing_value (replicate (W - length d) false ++ d)) as T. rewrite length_app, length_replicate, rev_app_distr, run_length_app, length_rev in T.
    replace (Z.of_nat (W - length d + length d)) with (Z.of_nat W) in T by lia. rewrite T.
    assert (run_length false (rev (replicate (W - length d) false)) = Z.of_nat (W - length d)) as ->.
    { rewrite <- (length_replicate (W - length d) false) at 2. apply run_length_rev_all, run_length_all. by rewrite length_replicate. }
    destruct (Z.eqb_spec (run_length false (rev d)) (Z.of_nat (length d))); lia.
Qed.

Lemma bits_of_zero n : bits_of n 0 = replicate n false.
Proof. induction n as [|n IH]; [done|]. rewrite replicate_S_end. cbn [bits_of]. by rewrite <- IH. Qed.

Section ScanningBack.
Context (m : list Z) (Hm : bytes m) (offs bit_count : Z) (c : bool) (Ho : 0 <= offs) (Hl : offs + bit_count <= 8 * Z.of_nat (length m)).
Abbreviation bits_from := (drop (Z.to_nat offs) (mem_bits m)).
Abbreviation whole := (run_length c (rev (take (Z.to_nat bit_count) bits_from))).

(** With [bc] bits to go before the byte [p], only [c] was seen. *)
Definition back_at (p : nat) (res bc : Z) : Prop :=
  (0 <= res /\ 0 <= bc) /\ 8 * Z.of_nat p = offs + bc /\ res + bc = bit_count /\ whole = res + run_length c (rev (take (Z.to_nat bc) bits_from)).

(** The bits of [n] bytes, as the code flips them. *)
Definition flips (n : nat) (x : Z) : Prop := forall d, length d = (8 * n)%nat -> u32 (Z.lxor (bits_value d) x) = bits_value (replicate (32 - 8 * n) false ++ map (xorb c) d).

Lemma back_chunk p res bc n x : back_at p res bc -> (0 < n)%nat -> 8 * Z.of_nat n <= bc -> (8 * n <= 32)%nat -> flips n x ->
  let v := u32 (Z.lxor (load_be n m (p - n)) x) in
  if v =? 0 then back_at (p - n) (res + 8 * Z.of_nat n) (bc - 8 * Z.of_nat n) else whole = count_trailing_zeroes 32 v + res.
Proof.
  intros (H0 & Hp & Hr & E) Hn Hbc H32 Hx. cbv zeta. rewrite load_be_bits by (done || lia). set (d := take (8 * n) (drop (8 * (p - n)) (mem_bits m))).
  assert (length d = (8 * n)%nat) as Ld by (unfold d; rewrite length_take, length_drop, length_mem_bits; lia).
  assert (take (Z.to_nat bc) bits_from = take (Z.to_nat (bc - 8 * Z.of_nat n)) bits_from ++ d) as Es.
  { unfold d. replace (8 * (p - n))%nat with (Z.to_nat offs + Z.to_nat (bc - 8 * Z.of_nat n))%nat by lia. rewrite <- drop_drop, take_take_drop. f_equal. lia. }
  rewrite Es, rev_app_distr, run_length_app, length_rev, Ld in E. rewrite (Hx d Ld).
  destruct (trailing_chunk 32 (map (xorb c) d) (bits_value (replicate (32 - 8 * n) false ++ map (xorb c) d))) as [Ez Ec].
  { rewrite length_map. lia. }
  { by rewrite length_map, Ld. }
  rewrite length_map, <- map_rev, run_length_xor, Ld in Ez, Ec. rewrite Ez. change (Z.of_nat 32) with 32 in Ec. rewrite Ec.
  destruct (Z.eqb_spec (run_length c (rev d)) (Z.of_nat (8 * n))) as [Ed|Ed]; [|lia]. split; [lia|]. split; [lia|]. split; [lia|]. rewrite E. lia.
Qed.

Lemma scan_back_ok n x fuel p res bc : back_at p res bc -> (0 < n)%nat -> (8 * n <= 32)%nat -> flips n x -> bc <= 8 * Z.of_nat n * Z.of_nat fuel ->
  match scan_back n x m fuel p res bc with inl k => k = whole | inr (p', res', bc') => back_at p' res' bc' /\ bc' < 8 * Z.of_nat n /\ bc' <= bc end.
Proof.
  intros H Hn H32 Hx. revert p res bc H. induction fuel as [|fuel IH]; intros p res bc H Hf; cbn [scan_back]; [split; [done|lia]|].
  destruct (Z.leb_spec (8 * Z.of_nat n) bc) as [Hbc|]; [|split; [done|lia]]. pose proof (back_chunk p res bc n x H Hn Hbc H32 Hx) as B. cbv zeta in B.
  destruct (u32 _ =? 0); cbn [negb]; [|done]. specialize (IH _ _ _ B ltac:(lia)). destruct (scan_back _ _ _ _ _ _ _) as [r|[[p' res'] bc']]; [done|]. destruct IH as (? & ? & ?). split; [done|lia].
Qed.

Lemma flips_word : flips 4 (xor_val c).
Proof.
  intros d Ld. change (32 - 8 * 4)%nat with 0%nat. cbn [replicate app]. pose proof (bits_value_of 32 (Z.lxor (bits_value d) (xor_val c))) as V. rewrite bits_of_xor in V.
  change (8 * 4)%nat with 32%nat in Ld. assert (bits_of 32 (bits_value d) = d) as Eb by (rewrite <- Ld; apply bits_of_value). rewrite Eb in V. by rewrite V.
Qed.
Lemma flips_byte : flips 1 (Z.land (xor_val c) 0xff).
Proof.
  intros d Ld. rewrite bits_value_app, bits_value_zeros, Z.mul_0_l, Z.add_0_l. cbn [Nat.mul Nat.add] in Ld.
  assert (Z.lxor (bits_value d) (Z.land (xor_val c) 255) = bits_value (map (xorb c) d)) as ->.
  { destruct c; cbn [xor_val].
    - change (Z.land (-1) 255) with (bits_value (replicate 8 true)). rewrite lxor_value by (by rewrite length_replicate). f_equal. rewrite <- Ld.
      clear. induction d as [|b d IH]; [done|]. cbn [length replicate zip_with map]. rewrite IH. by rewrite xorb_comm.
    - rewrite Z.land_0_l, Z.lxor_0_r. f_equal. rewrite (map_ext _ id) by (by intros []). by rewrite map_id. }
  apply wrapu_small. pose proof (bits_value_range (map (xorb c) d)) as R. rewrite length_map, Ld in R. lia.
Qed.

Lemma memscan_rev_value : 0 <= bit_count -> bits_memscan_rev m offs bit_count c = whole.
Proof.
  intros Hn. unfold bits_memscan_rev. destruct (Z.eqb_spec bit_count 0) as [E0|H0]; [by rewrite E0; cbn|]. cbv zeta.
  destruct (offset_split (offs + bit_count) ltac:(lia)) as (Eo & Hr & Hq). set (o := Z.land (offs + bit_count) 7) in *. set (p := Z.to_nat (Z.shiftr (offs + bit_count) 3)) in *.
  set (k := count_trailing_zeroes 32 _). set (test := negb (o =? 0) && _).
  assert (if test then Z.min k bit_count = whole else back_at p o (bit_count - o)) as H1.
  { unfold test. destruct (Z.eqb_spec o 0) as [Ez|Hz]; cbn [negb andb].
    - rewrite Ez. split; [lia|]. split; [lia|]. split; [lia|]. by rewrite Z.sub_0_r.
    - set (d := take (Z.to_nat o) (drop (8 * p) (mem_bits m))). assert (p < length m)%nat as Hp by lia.
      assert (length d = Z.to_nat o) as Ld by (unfold d; rewrite length_take, length_drop, length_mem_bits; lia).
      assert (d = bits_of (Z.to_nat o) (Z.shiftr (byte_at m p) (8 - o))) as Ed.
      { unfold d. rewrite <- (take_drop 8 (drop (8 * p) (mem_bits m))), take_app_le by (rewrite length_take, length_drop, length_mem_bits; lia). rewrite mem_byte by done.
        rewrite bits_of_part by lia. rewrite Z.shiftr_div_pow2 by lia. do 3 f_equal. lia. }
      assert (k = if run_length c (rev d) =? o then (if c then o else 32) else run_length c (rev d)) as Ek.
      { pose proof (trailing_value (bits_of 32 (Z.lxor (Z.shiftr (byte_at m p) (8 - o)) (xor_val c)))) as T. rewrite length_bits_of, bits_value_of in T. unfold k, wrapu.
        change (Z.of_nat 32) with 32 in T. rewrite T, bits_of_xor, <- map_rev, run_length_xor. replace 32%nat with ((32 - Z.to_nat o) + Z.to_nat o)%nat at 1 by lia.
        rewrite bits_of_app, <- Ed, rev_app_distr, run_length_app, length_rev, Ld. replace (Z.of_nat (Z.to_nat o)) with o by lia.
        destruct (Z.eqb_spec (run_length c (rev d)) o) as [Er|]; [|done]. rewrite Er.
        assert (bits_of (32 - Z.to_nat o) (Z.shiftr (byte_at m p) (8 - o) / 2 ^ o) = replicate (32 - Z.to_nat o) false) as ->.
        { rewrite <- bits_of_zero. f_equal. rewrite Z.shiftr_div_pow2, div_pow2 by lia. replace (8 - o + o) with 8 by lia.
          pose proof (byte_at_ok m p Hm) as B. unfold is_byte in B. by apply Z.div_small. }
        rewrite rev_same. pose proof (run_length_all false (replicate (32 - Z.to_nat o) false)) as A. rewrite length_replicate in A.
        destruct c; [|rewrite (proj2 A eq_refl); lia]. destruct (32 - Z.to_nat o)%nat eqn:E32; [lia|]. cbn. lia. }
      pose proof (run_length_range c (rev d)) as Rd. rewrite length_rev, Ld in Rd. destruct (Z.leb_spec bit_count o) as [Hle|Hgt].
      + rewrite orb_true_r. assert (take (Z.to_nat bit_count) bits_from = drop (Z.to_nat (o - bit_count)) d) as ->.
        { unfold d. rewrite skipn_firstn_comm, drop_drop. f_equal; [lia|f_equal; lia]. }
        assert (rev (drop (Z.to_nat (o - bit_count)) d) = take (Z.to_nat bit_count) (rev d)) as ->.
        { rewrite <- (take_drop (Z.to_nat (o - bit_count)) d) at 2. rewrite rev_app_distr, take_app_length'; [done|]. rewrite length_rev, length_drop. lia. }
        rewrite run_length_min. rewrite Ek. destruct (Z.eqb_spec (run_length c (rev d)) o); [destruct c; lia|lia].
      + rewrite orb_false_r. assert (take (Z.to_nat bit_count) bits_from = take (Z.to_nat (bit_count - o)) bits_from ++ d) as Es.
        { unfold d. replace (8 * p)%nat with (Z.to_nat offs + Z.to_nat (bit_count - o))%nat by lia. rewrite <- drop_drop, take_take_drop. f_equal. lia. }
        assert (whole = if run_length c (rev d) =? o then o + run_length c (rev (take (Z.to_nat (bit_count - o)) bits_from)) else run_length c (rev d)) as Ew.
        { rewrite Es, rev_app_distr, run_length_app, length_rev, Ld. replace (Z.of_nat (Z.to_nat o)) with o by lia. destruct (Z.eqb_spec (run_length c (rev d)) o); lia. }
        rewrite Ek. destruct (Z.eqb_spec (run_length c (rev d)) o) as [E|E].
        * destruct (Z.ltb_spec (if c then o else 32) o); [destruct c; lia|]. split; [lia|]. split; [lia|]. split; [lia|]. exact Ew.
        * destruct (Z.ltb_spec (run_length c (rev d)) o); [|lia]. rewrite Ew. lia. }
  destruct test; [exact H1|].
  pose proof (scan_back_ok 4 (xor_val c) (Z.to_nat (bit_count - o)) p o (bit_count - o) H1 ltac:(lia) ltac:(lia) flips_word ltac:(destruct H1; lia)) as B4.
  destruct (scan_back 4 _ _ _ _ _ _) as [r|[[p1 res1] bc1]]; [exact B4|]. destruct B4 as (H2 & Hb1 & Hb1').
  pose proof (scan_back_ok 1 (Z.land (xor_val c) 0xff) (Z.to_nat (bit_count - o)) p1 res1 bc1 H2 ltac:(lia) ltac:(lia) flips_byte ltac:(lia)) as B1.
  destruct (scan_back 1 _ _ _ _ _ _) as [r|[[p2 res2] bc2]]; [exact B1|]. destruct B1 as ((G0 & G1 & G2 & G3) & Hb2 & _). rewrite G3.
  destruct (Z.ltb_spec 0 bc2) as [Hpos|]; [|replace bc2 with 0 by lia; change (Z.to_nat 0) with 0%nat; rewrite take_0; cbn; lia].
  set (d := take 8 (drop (8 * (p2 - 1)) (mem_bits m))). assert (length d = 8%nat) as Ld by (unfold d; rewrite length_take, length_drop, length_mem_bits; lia).
  assert (byte_at m (p2 - 1) = bits_value d) as Eb.
  { unfold d. rewrite mem_byte, bits_value_of by lia. symmetry. apply Z.mod_small. apply (byte_at_ok m (p2 - 1) Hm). }
  rewrite Eb, flips_byte by done. destruct (trailing_chunk 32 (map (xorb c) d) (bits_value (replicate (32 - 8 * 1) false ++ map (xorb c) d))) as [_ Ec].
  { rewrite length_map. lia. }
  { by rewrite length_map, Ld. }
  rewrite length_map, <- map_rev, run_length_xor, Ld in Ec. change (Z.of_nat 32) with 32 in Ec. rewrite Ec.
  assert (rev (take (Z.to_nat bc2) bits_from) = take (Z.to_nat bc2) (rev d)) as ->.
  { assert (take (Z.to_nat bc2) bits_from = drop (Z.to_nat (8 - bc2)) d) as ->.
    { unfold d. rewrite skipn_firstn_comm, drop_drop. f_equal; [lia|f_equal; lia]. }
    rewrite <- (take_drop (Z.to_nat (8 - bc2)) d) at 2. rewrite rev_app_distr, take_app_length'; [done|]. rewrite length_rev, length_drop. lia. }
  rewrite run_length_min. pose proof (run_length_range c (rev d)) as Rd. rewrite length_rev, Ld in Rd. change (Z.of_nat 8) with 8 in *.
  destruct (Z.eqb_spec (run_length c (rev d)) 8); lia.
Qed.
End ScanningBack.

(** ** The routines on strings anywhere in memory *)

(** The string of [n] bits at a position. *)
Definition string_at (m : list Z) (offs n : Z) : list bool := take (Z.to_nat n) (drop (Z.to_nat offs) (mem_bits m)).
Definition inside (m : list Z) (offs n : Z) : Prop := bytes m /\ 0 <= offs /\ 0 <= n /\ offs + n <= 8 * Z.of_nat (length m).

Lemma length_string m offs n : inside m offs n -> length (string_at m offs n) = Z.to_nat n.
Proof. intros (_ & ? & ? & ?). unfold string_at. rewrite length_take, length_drop, length_mem_bits. lia. Qed.
Lemma compare_shorter k l1 l2 : k = (length l1 `min` length l2)%nat -> compare_bits (take k l1) (take k l2) = compare_bits l1 l2.
Proof.
  intros ->. revert l2. induction l1 as [|b1 l1 IH]; intros [|b2 l2]; try done. cbn [length Nat.min take compare_bits]. destruct (Bool.eqb b1 b2); [apply IH|done].
Qed.

Lemma memcmp_exact m1 o1 m2 o2 n : inside m1 o1 n -> inside m2 o2 n ->
  bits_memcmp m1 o1 m2 o2 n 0 = Some (compare_bits (string_at m1 o1 n) (string_at m2 o2 n), common_bits (string_at m1 o1 n) (string_at m2 o2 n)).
Proof.
  intros (? & ? & Hn & ?) (? & ? & _ & ?). destruct (Z.eqb_spec n 0) as [->|]; [done|]. apply memcmp_value; (done || lia).
Qed.

(** C18. [bits_memcmp] and [bits_lexcmp], which compare words of 32 bits that they shift together
    from two strings at unrelated offsets, find the first difference of the strings, how far they
    agree, and their lexicographic order; their internal checks never fail. *)
Theorem compare_words_exact m1 o1 n1 m2 o2 n2 : inside m1 o1 n1 -> inside m2 o2 n2 ->
  let n := Z.min n1 n2 in
  bits_memcmp m1 o1 m2 o2 n 0 = Some (compare_bits (string_at m1 o1 n) (string_at m2 o2 n), common_bits (string_at m1 o1 n) (string_at m2 o2 n)) /\
  bits_lexcmp m1 o1 n1 m2 o2 n2 = Some (lex_bits (string_at m1 o1 n1) (string_at m2 o2 n2)).
Proof.
  intros I1 I2 n. pose proof (length_string _ _ _ I1) as L1. pose proof (length_string _ _ _ I2) as L2. pose proof I1 as (? & ? & ? & ?). pose proof I2 as (? & ? & ? & ?).
  assert (bits_memcmp m1 o1 m2 o2 n 0 = Some (compare_bits (string_at m1 o1 n) (string_at m2 o2 n), common_bits (string_at m1 o1 n) (string_at m2 o2 n))) as M.
  { apply memcmp_exact; (split; [done|lia]). }
  split; [exact M|]. unfold bits_lexcmp. fold n. rewrite M. cbn [mbind option_bind fst]. f_equal. unfold lex_bits. rewrite L1, L2.
  assert (compare_bits (string_at m1 o1 n) (string_at m2 o2 n) = compare_bits (string_at m1 o1 n1) (string_at m2 o2 n2)) as ->.
  { rewrite <- (compare_shorter (Z.to_nat n) (string_at m1 o1 n1)) by lia. unfold string_at. rewrite !take_take. f_equal; f_equal; lia. }
  assert ((n1 =? n2) = (Z.to_nat n1 =? Z.to_nat n2)%nat /\ (n1 <? n2) = (Z.to_nat n1 <? Z.to_nat n2)%nat) as [-> ->]; [|done].
  split; apply eq_true_iff_eq; rewrite ?Z.eqb_eq, ?Nat.eqb_eq, ?Z.ltb_lt, ?Nat.ltb_lt; lia.
Qed.

(** C19. [bits_memscan] and [bits_memscan_rev], which skip bytes and words, count the bits that equal
    [cmp_to] at the start and at the end of a string, whatever its offset and the alignment of
    the memory. *)
Theorem memscan_exact addr m offs n c : inside m offs n ->
  bits_memscan addr m offs n c = run_length c (string_at m offs n) /\
  bits_memscan_rev m offs n c = run_length c (rev (string_at m offs n)).
Proof. intros (? & ? & ? & ?). split; [by apply memscan_value|by apply memscan_rev_value]. Qed.

(** ** The theorems at work *)

Definition memory1 : list Z := [0xab; 0xcd; 0xef; 0x12; 0x34; 0x56; 0x78; 0x9a; 0xbc; 0xde; 0xf0; 0x11].
(** The same bits three bits later, up to the last byte. *)
Definition memory2 : list Z := [0x15; 0x79; 0xbd; 0xe2; 0x46; 0x8a; 0xcf; 0x13; 0x57; 0x9b; 0xde; 0x03].
Lemma inside_memory m offs n : forallb (fun b => (0 <=? b) && (b <? 256)) m && (0 <=? offs) && (0 <=? n) && (offs + n <=? 8 * Z.of_nat (length m)) = true -> inside m offs n.
Proof.
  rewrite !andb_true_iff, forallb_forall. intros [[[Hm Ho] Hn] Hl]. apply Z.leb_le in Ho, Hn, Hl. split; [|done]. apply List.Forall_forall. intros b Hb. specialize (Hm b Hb).
  apply andb_true_iff in Hm as [?%Z.leb_le ?%Z.ltb_lt]. unfold is_byte. lia.
Qed.

Lemma compare_words_exact_witness : bits_memcmp memory1 0 memory2 3 93 0 = Some (-1, 92) /\ bits_lexcmp memory1 0 80 memory2 3 93 = Some (-1).
Proof.
  split.
  - exact (proj1 (compare_words_exact memory1 0 93 memory2 3 93 ltac:(by apply inside_memory) ltac:(by apply inside_memory))).
  - exact (proj2 (compare_words_exact memory1 0 80 memory2 3 93 ltac:(by apply inside_memory) ltac:(by apply inside_memory))).
Defined.
Lemma memscan_exact_witness : bits_memscan 5 ([0x0f] ++ replicate 20 0xff ++ [0xfb]) 4 172 true = 169 /\ bits_memscan_rev ([0xf0] ++ replicate 12 0) 2 102 false = 100.
Proof.
  split.
  - exact (proj1 (memscan_exact 5 ([0x0f] ++ replicate 20 0xff ++ [0xfb]) 4 172 true ltac:(by apply inside_memory))).
  - exact (proj2 (memscan_exact 0 ([0xf0] ++ replicate 12 0) 2 102 false ltac:(by apply inside_memory))).
Defined.
