(* ===== verification/BitCopy.v ===== *)
(** * Copying strings of bits ([bits_memcpy] of [crypto/common/bitstring.cpp])

    Strings at the same offset within a byte are copied as bytes with two masked ends; others
    go through a register of 64 bits that shifts them.  The two memories do not overlap. *)
From S2P Require Import Prelude BitMem BitCmp.

(** ** The code *)

(** [while (bit_count >= 32)], with [b] bits in the register that are not written yet. *)
Fixpoint copy_words (fuel : nat) (from : list Z) (b : Z) (p : nat) (m : list Z) (to : nat) (acc bit_count : Z) : nat * list Z * nat * Z * Z :=
  match fuel with
  | O => (p, m, to, acc, bit_count)
  | S fuel =>
      if 32 <=? bit_count then
        let acc := Z.lor (u64 (Z.shiftl acc 32)) (load_be 4 from p) in
        copy_words fuel from b (p + 4) (write_bytes m to (be_split 4 (u32 (Z.shiftr acc b)))) (to + 4) acc (bit_count - 32)
      else (p, m, to, acc, bit_count)
  end.
(** [while (bit_count >= 8)], [c] times. *)
Fixpoint copy_bytes (c : nat) (from : list Z) (p : nat) (acc : Z) : nat * Z :=
  match c with O => (p, acc) | S c' => copy_bytes c' from (p + 1) (Z.lor (u64 (Z.shiftl acc 8)) (byte_at from p)) end.
(** [while (b >= 8)], and the bits that are left. *)
Definition flush (m : list Z) (to : nat) (acc b : Z) : list Z :=
  let c := Z.to_nat (b / 8) in
  let m := store_loop c m to acc (b - 8) in
  let b := b - 8 * Z.of_nat c in
  if 0 <? b then <[(to + c)%nat := u8 (Z.lor (Z.land (byte_at m (to + c)) (Z.shiftr 0xff b)) (s32 (Z.shiftl (s32 acc) (8 - b))))]> m else m.

(** [( *to & ~mask) | ( *from & mask)]. *)
Definition masked (m : list Z) (i : nat) (from : list Z) (j : nat) (mask : Z) : list Z :=
  <[i := u8 (Z.lor (Z.land (byte_at m i) (Z.lnot mask)) (Z.land (byte_at from j) mask))]> m.

Definition copy_aligned (m : list Z) (to : nat) (from : list Z) (p : nat) (offs bit_count : Z) : list Z :=
  if bit_count <? 8 then masked m to from p (Z.land (Z.shiftr (-0x100) bit_count) (Z.shiftr 0xff offs))
  else
    let l := Z.to_nat (Z.shiftr bit_count 3) in
    let m :=
      if offs =? 0 then write_bytes m to (take l (drop p from))
      else write_bytes (masked m to from p (Z.shiftr 0xff offs)) (to + 1) (take (l - 1) (drop (p + 1) from)) in
    let r := Z.land bit_count 7 in
    if negb (r =? 0) then masked m (to + l) from (p + l) (Z.shiftr (-0x100) r) else m.

Definition copy_shifted (m : list Z) (to : nat) (to_offs : Z) (from : list Z) (p : nat) (from_offs sz : Z) : list Z :=
  let bit_count := sz + from_offs in
  let b := to_offs in
  let acc := if negb (b =? 0) then Z.shiftr (byte_at m to) (8 - b) else 0 in
  let first := Z.land (byte_at from p) (Z.shiftr 0xff from_offs) in
  if bit_count <? 8 then flush m to (Z.lor (u64 (Z.shiftl acc sz)) (Z.shiftr first (8 - bit_count))) (b + sz)
  else
    let ld := 8 - from_offs in
    let acc := Z.lor (u64 (Z.shiftl acc ld)) first in
    let b := b + ld in
    let '(p, m, to, acc, bit_count) := copy_words (Z.to_nat bit_count) from b (p + 1) m to acc (bit_count - 8) in
    let c := Z.to_nat (bit_count / 8) in
    let (p, acc) := copy_bytes c from p acc in
    let b := b + 8 * Z.of_nat c in
    let bit_count := bit_count - 8 * Z.of_nat c in
    if 0 <? bit_count then flush m to (Z.lor (u64 (Z.shiftl acc bit_count)) (Z.shiftr (byte_at from p) (8 - bit_count))) (b + bit_count)
    else flush m to acc b.

Definition bits_memcpy (m : list Z) (to_offs : Z) (from : list Z) (from_offs bit_count : Z) : list Z :=
  if bit_count <=? 0 then m
  else
    let p := Z.to_nat (Z.shiftr from_offs 3) in
    let to := Z.to_nat (Z.shiftr to_offs 3) in
    let from_offs := Z.land from_offs 7 in
    let to_offs := Z.land to_offs 7 in
    if from_offs =? to_offs then copy_aligned m to from p to_offs (bit_count + from_offs)
    else copy_shifted m to to_offs from p from_offs bit_count.

(** ** The register *)

(** The lowest bits of [acc] are [P]. *)
Definition pending (acc : Z) (P : list bool) : Prop := bits_of (length P) acc = P.

Lemma push acc P k v : pending acc P -> Z.of_nat (length P) + k <= 64 -> 0 <= k -> 0 <= v < 2 ^ k ->
  pending (Z.lor (u64 (Z.shiftl acc k)) v) (P ++ bits_of (Z.to_nat k) v).
Proof.
  unfold pending. intros HP Hl Hk Hv. rewrite length_app, length_bits_of, bits_of_app, Z2Nat.id by done.
  assert (u64 (Z.shiftl acc k) = acc mod 2 ^ (64 - k) * 2 ^ k) as ->.
  { rewrite Z.shiftl_mul_pow2 by lia. unfold wrapu. replace (2 ^ 64) with (2 ^ (64 - k) * 2 ^ k) by (rewrite <- Z.pow_add_r by lia; f_equal; lia).
    by rewrite Z.mul_mod_distr_r by (apply Z.pow_nonzero; lia). }
  rewrite lor_disjoint, Z.div_add_l, (Z.div_small v), Z.add_0_r by lia. f_equal.
  - rewrite <- HP at 2. apply bits_of_congr. apply mod_mod_pow. lia.
  - rewrite Z.add_comm. rewrite <- (bits_of_add (Z.to_nat k) v (acc mod 2 ^ (64 - k))). by rewrite Z2Nat.id.
Qed.

(** What is written of the register, and what stays. *)
Lemma pending_app acc P1 P2 : pending acc (P1 ++ P2) -> bits_of (length P1) (acc / 2 ^ Z.of_nat (length P2)) = P1 /\ pending acc P2.
Proof.
  unfold pending. rewrite length_app, bits_of_app. intros H. apply app_inj_1 in H; [done|]. by rewrite length_bits_of.
Qed.

Lemma flush_byte c acc r : 0 <= r < 8 ->
  bits_of 8 (u8 (Z.lor (Z.land c (Z.shiftr 0xff r)) (s32 (Z.shiftl (s32 acc) (8 - r))))) = drop (8 - Z.to_nat r) (bits_of 8 acc) ++ drop (Z.to_nat r) (bits_of 8 c).
Proof.
  intros Hr. assert (forall i, 0 <= i < 8 -> Z.testbit (s32 (Z.shiftl (s32 acc) (8 - r))) i = if i <? 8 - r then false else Z.testbit acc (i - (8 - r))) as Hy.
  { intros i Hi. rewrite testbit_wraps, Z.shiftl_spec by lia. destruct (Z.ltb_spec i (8 - r)); [by apply Z.testbit_neg_r; lia|by rewrite testbit_wraps by lia]. }
  revert Hy. generalize (s32 (Z.shiftl (s32 acc) (8 - r))). intros y. revert r Hr.
  apply (below_8 (fun r => (forall i, 0 <= i < 8 -> _) -> _)); intros Hy; mask_bits; rewrite !Hy by lia; cbn [Z.ltb Z.compare Pos.compare Pos.compare_cont Z.sub Z.add Z.opp Z.pos_sub Pos.pred_double Pos.add];
    rewrite ?orb_false_r; reflexivity.
Qed.

Lemma flush_stores m to acc b P : bytes m -> pending acc P -> b = Z.of_nat (length P) -> (8 * to + length P <= 8 * length m)%nat -> stores m (8 * to) P (flush m to acc b).
Proof.
  intros Hm HP Hb Hl. unfold flush. pose proof (Z.div_mod b 8 ltac:(lia)) as D. pose proof (Z.mod_pos_bound b 8 ltac:(lia)) as M. pose proof (Z.div_pos b 8 ltac:(lia) ltac:(lia)).
  set (c := Z.to_nat (b / 8)). assert (Z.of_nat c = b / 8) as Ec by (unfold c; lia). set (m1 := store_loop c m to acc (b - 8)). set (r := b - 8 * Z.of_nat c).
  pose proof (stores_loop c m to acc (b - 8) Hm ltac:(lia) ltac:(lia)) as W1. fold m1 in W1. replace (b - 8 + 8 - 8 * Z.of_nat c) with r in W1 by (unfold r; lia).
  assert (0 <= r < 8) as Hr by (unfold r; lia). assert (length P = (8 * c + Z.to_nat r)%nat) as LP by (unfold r; lia).
  unfold pending in HP. rewrite <- HP, LP, bits_of_app, Z2Nat.id by lia. destruct (Z.ltb_spec 0 r).
  - pose proof W1 as (_ & B1 & L1). apply (stores_after _ _ _ _ m1); [done|]. rewrite length_bits_of. replace (8 * to + 8 * c)%nat with (8 * (to + c))%nat by lia.
    apply stores_prefix; [lia|rewrite length_bits_of; lia|]. rewrite length_bits_of.
    replace (bits_of (Z.to_nat r) acc) with (drop (8 - Z.to_nat r) (bits_of 8 acc)) by (rewrite bits_of_drop by lia; f_equal; lia).
    rewrite <- flush_byte by done. apply stores_byte; [done|lia].
  - replace (Z.to_nat r) with 0%nat by lia. by rewrite app_nil_r.
Qed.

(** ** The loops *)

Section Copying.
Context (from : list Z) (Hf : bytes from).

(** The source from a byte on. *)
Definition source (p : nat) : list bool := drop (8 * p) (mem_bits from).
Lemma source_skip p k : source (p + k) = drop (8 * k) (source p).
Proof. unfold source. rewrite drop_drop. f_equal. lia. Qed.
Lemma source_take p k : take (8 * (k + 1)) (source p) = take (8 * k) (source p) ++ take 8 (source (p + k)).
Proof. rewrite source_skip, take_take_drop. f_equal. lia. Qed.
Lemma source_word p k : (8 * p + 8 * k <= 8 * length from)%nat -> bits_of (8 * k) (load_be k from p) = take (8 * k) (source p).
Proof.
  intros Hp. rewrite load_be_bits by (done || lia). fold (source p). set (l := take (8 * k) (source p)).
  assert (8 * k = length l)%nat as E by (unfold l, source; rewrite length_take, length_drop, length_mem_bits; lia). rewrite E at 1. apply bits_of_value.
Qed.

Lemma load_be_range k p : (p + k <= length from)%nat -> 0 <= load_be k from p < 2 ^ (8 * Z.of_nat k).
Proof.
  intros Hp. rewrite load_be_bits by (done || lia). pose proof (bits_value_range (take (8 * k) (drop (8 * p) (mem_bits from)))) as R.
  rewrite length_take, length_drop, length_mem_bits in R. replace ((8 * k) `min` (8 * length from - 8 * p))%nat with (8 * k)%nat in R by lia.
  by replace (8 * Z.of_nat k) with (Z.of_nat (8 * k)) by lia.
Qed.

(** A register that holds the last bits of [P] and of [k] bytes of the source. *)
Definition copied (p : nat) (m : list Z) (to : nat) (P : list bool) (n : Z) (r : nat * list Z * nat * Z * Z) : Prop :=
  let '(p', m', to', acc', n') := r in
  exists k Q P', pending acc' P' /\ length P' = length P /\ stores m (8 * to) Q m' /\ length Q = (8 * k)%nat /\ Q ++ P' = P ++ take (8 * k) (source p) /\
    p' = (p + k)%nat /\ to' = (to + k)%nat /\ n' = n - 8 * Z.of_nat k /\ 0 <= n' < 32.

Lemma copy_words_stop p m to acc P n : bytes m -> pending acc P -> 0 <= n < 32 -> (to <= length m)%nat -> copied p m to P n (p, m, to, acc, n).
Proof.
  intros Hm HP Hn Ht. exists 0%nat, [], P. rewrite !Nat.add_0_r, app_nil_r. split; [done|]. split; [done|]. split; [|repeat split; (done || lia)].
  apply stores_length; [|done]. apply written_nil. rewrite length_mem_bits. lia.
Qed.

Lemma copy_words_spec fuel p m to acc P n : bytes m -> pending acc P -> (length P <= 32)%nat -> (Z.to_nat n / 32 <= fuel)%nat ->
  0 <= n -> (8 * p + Z.to_nat n <= 8 * length from)%nat -> (8 * to + length P + Z.to_nat n <= 8 * length m)%nat ->
  copied p m to P n (copy_words fuel from (Z.of_nat (length P)) p m to acc n).
Proof.
  intros Hm HP Hl. revert p m to acc P n Hm HP Hl. induction fuel as [|fuel IH]; intros p m to acc P n Hm HP Hl Hfuel Hn Hp Ht; cbn [copy_words].
  { apply copy_words_stop; try (done || lia). pose proof (Nat.div_mod (Z.to_nat n) 32 ltac:(lia)). pose proof (Nat.mod_upper_bound (Z.to_nat n) 32 ltac:(lia)). lia. }
  destruct (Z.leb_spec 32 n) as [H32|H32]; [|apply copy_words_stop; (done || lia)].
  set (acc1 := Z.lor _ _). pose proof (load_be_range 4 p ltac:(lia)) as R4. pose proof (push acc P 32 (load_be 4 from p) HP ltac:(lia) ltac:(lia) R4) as HP1. fold acc1 in HP1.
  change (Z.to_nat 32) with (8 * 4)%nat in HP1. rewrite source_word in HP1 by lia. set (T := take (8 * 4) (source p)) in *.
  assert (length T = 32%nat) as LT by (unfold T, source; rewrite length_take, length_drop, length_mem_bits; lia).
  rewrite <- (take_drop 32 (P ++ T)) in HP1. set (Q1 := take 32 (P ++ T)) in *. set (P1 := drop 32 (P ++ T)) in *.
  assert (length Q1 = 32%nat) as LQ by (unfold Q1; rewrite length_take, length_app; lia). assert (length P1 = length P) as LP by (unfold P1; rewrite length_drop, length_app; lia).
  apply pending_app in HP1 as [HQ1 HP1]. rewrite LQ, LP in HQ1.
  set (m1 := write_bytes m to _). assert (stores m (8 * to) Q1 m1) as W1.
  { rewrite <- HQ1. replace (bits_of 32 (acc1 / 2 ^ Z.of_nat (length P))) with (mem_bits (be_split 4 (u32 (Z.shiftr acc1 (Z.of_nat (length P)))))).
    - apply stores_bytes; [done|apply be_split_bytes|rewrite length_be_split; lia].
    - rewrite mem_be_split, Z.shiftr_div_pow2 by lia. apply bits_of_congr. unfold wrapu. by rewrite Z.mod_mod. }
  pose proof W1 as (_ & B1 & L1). specialize (IH (p + 4)%nat m1 (to + 4)%nat acc1 P1 (n - 32) B1 HP1). rewrite LP in IH.
  assert (Z.to_nat (n - 32) / 32 <= fuel)%nat as Hd.
  { replace (Z.to_nat n) with (Z.to_nat (n - 32) + 1 * 32)%nat in Hfuel by lia. rewrite Nat.div_add in Hfuel by lia. lia. }
  specialize (IH Hl Hd ltac:(lia) ltac:(lia) ltac:(lia)). destruct (copy_words _ _ _ _ _ _ _ _) as [[[[p' m'] to'] acc'] n'].
  destruct IH as (k & Q & P' & HP' & LP' & W & LQ' & E & -> & -> & -> & R). exists (4 + k)%nat, (Q1 ++ Q), P'. split; [done|]. split; [lia|].
  split; [apply (stores_after _ _ _ _ m1); [done|]; rewrite LQ; by replace (8 * to + 32)%nat with (8 * (to + 4))%nat by lia|].
  rewrite length_app, <- app_assoc, E. split; [lia|]. split; [|repeat split; lia]. unfold Q1, P1. rewrite app_assoc, take_drop, <- app_assoc. f_equal.
  unfold T. rewrite source_skip, take_take_drop. f_equal. lia.
Qed.

Lemma copy_bytes_spec c p acc P : pending acc P -> Z.of_nat (length P) + 8 * Z.of_nat c <= 64 -> (p + c <= length from)%nat ->
  let '(p', acc') := copy_bytes c from p acc in p' = (p + c)%nat /\ pending acc' (P ++ take (8 * c) (source p)).
Proof.
  revert p acc P. induction c as [|c IH]; intros p acc P HP Hl Hp; cbn [copy_bytes].
  { rewrite app_nil_r. split; [lia|done]. }
  pose proof (byte_at_ok from p Hf) as Hb. unfold is_byte in Hb. pose proof (push acc P 8 (byte_at from p) HP ltac:(lia) ltac:(lia) ltac:(lia)) as HP1.
  change (Z.to_nat 8) with 8%nat in HP1. rewrite <- mem_byte in HP1 by lia. fold (source p) in HP1.
  assert (length (take 8 (source p)) = 8%nat) as L8 by (unfold source; rewrite length_take, length_drop, length_mem_bits; lia).
  specialize (IH (p + 1)%nat _ _ HP1). rewrite length_app, L8 in IH. specialize (IH ltac:(lia) ltac:(lia)). destruct (copy_bytes _ _ _ _) as [p' acc'].
  destruct IH as [-> H]. split; [lia|]. rewrite source_skip, <- app_assoc, take_take_drop in H. by replace (8 * S c)%nat with (8 + 8 * c)%nat by lia.
Qed.

(** The first bits of a byte. *)
Lemma byte_first p k : 0 <= k <= 8 -> (p < length from)%nat ->
  0 <= Z.shiftr (byte_at from p) (8 - k) < 2 ^ k /\ bits_of (Z.to_nat k) (Z.shiftr (byte_at from p) (8 - k)) = take (Z.to_nat k) (source p).
Proof.
  intros Hk Hp. pose proof (byte_at_ok from p Hf) as Hb. unfold is_byte in Hb. rewrite Z.shiftr_div_pow2 by lia. split.
  - assert (0 < 2 ^ (8 - k)) by (apply Z.pow_pos_nonneg; lia). split; [by apply Z.div_pos; [lia|]|]. apply Z.div_lt_upper_bound; [done|].
    rewrite <- Z.pow_add_r by lia. replace (8 - k + k) with 8 by lia. lia.
  - replace (take (Z.to_nat k) (source p)) with (take (Z.to_nat k) (take 8 (source p))) by (rewrite take_take; f_equal; lia).
    unfold source. rewrite mem_byte, bits_of_part by lia. do 3 f_equal. lia.
Qed.

(** The last [k] of the register come from the first bits of the next byte. *)
Lemma push_first acc P p k : pending acc P -> Z.of_nat (length P) + k <= 64 -> 0 <= k <= 8 -> (p < length from)%nat ->
  pending (Z.lor (u64 (Z.shiftl acc k)) (Z.shiftr (byte_at from p) (8 - k))) (P ++ take (Z.to_nat k) (source p)).
Proof. intros HP Hl Hk Hp. destruct (byte_first p k Hk Hp) as [R <-]. apply push; (done || lia). Qed.
End Copying.

(** ** Strings at different offsets *)

Section Between.
Context (from m : list Z) (Hf : bytes from) (Hm : bytes m).

Lemma first_bits p f : 0 <= f < 8 -> (p < length from)%nat -> let first := Z.land (byte_at from p) (Z.shiftr 0xff f) in
  0 <= first < 2 ^ (8 - f) /\ bits_of (Z.to_nat (8 - f)) first = drop (Z.to_nat f) (take 8 (source from p)).
Proof.
  intros Hr Hp. cbv zeta. assert (Z.shiftr 0xff f = Z.ones (8 - f)) as -> by (revert f Hr; apply below_8; reflexivity).
  rewrite Z.land_ones by lia. split; [apply Z.mod_pos_bound, Z.pow_pos_nonneg; lia|]. unfold source. rewrite mem_byte, bits_of_drop by lia.
  replace (8 - Z.to_nat f)%nat with (Z.to_nat (8 - f)) by lia. apply bits_of_congr. rewrite Z2Nat.id by lia. apply Z.mod_mod, Z.pow_nonzero; lia.
Qed.

Lemma first_few p f n : 0 <= f -> 0 <= n -> n + f < 8 -> (p < length from)%nat -> let v := Z.shiftr (Z.land (byte_at from p) (Z.shiftr 0xff f)) (8 - (n + f)) in
  0 <= v < 2 ^ n /\ bits_of (Z.to_nat n) v = take (Z.to_nat n) (drop (Z.to_nat f) (source from p)).
Proof.
  intros Hr Hn Hs Hp. cbv zeta. destruct (first_bits p f ltac:(lia) Hp) as [R E]. cbv zeta in *. set (first := Z.land _ _) in *.
  rewrite Z.shiftr_div_pow2 by lia. assert (0 < 2 ^ (8 - (n + f))) by (apply Z.pow_pos_nonneg; lia). split.
  - split; [by apply Z.div_pos; [lia|]|]. apply Z.div_lt_upper_bound; [done|]. rewrite <- Z.pow_add_r by lia. replace (8 - (n + f) + n) with (8 - f) by lia. lia.
  - replace (8 - (n + f)) with (Z.of_nat (Z.to_nat (8 - f)) - Z.of_nat (Z.to_nat n)) by lia. rewrite <- bits_of_part, E by lia.
    rewrite skipn_firstn_comm, take_take. f_equal. lia.
Qed.

(** The register at the start: the bits before the string. *)
Lemma pending_start to o : 0 <= o < 8 -> (to < length m)%nat ->
  pending (if negb (o =? 0) then Z.shiftr (byte_at m to) (8 - o) else 0) (take (Z.to_nat o) (source m to)) /\ length (take (Z.to_nat o) (source m to)) = Z.to_nat o.
Proof.
  intros Ho Ht. assert (length (take (Z.to_nat o) (source m to)) = Z.to_nat o) as L by (unfold source; rewrite length_take, length_drop, length_mem_bits; lia).
  split; [|done]. unfold pending. rewrite L. destruct (Z.eqb_spec o 0) as [->|]; [done|]. cbn [negb]. apply byte_first; (done || lia).
Qed.

Lemma copy_shifted_stores to o p f n : 0 <= o < 8 -> 0 <= f < 8 -> 0 < n -> 8 * Z.of_nat p + f + n <= 8 * Z.of_nat (length from) ->
  8 * Z.of_nat to + o + n <= 8 * Z.of_nat (length m) ->
  stores m (8 * to) (take (Z.to_nat o) (source m to) ++ take (Z.to_nat n) (drop (Z.to_nat f) (source from p))) (copy_shifted m to o from p f n).
Proof.
  intros Ho Hr Hn Hp Ht. unfold copy_shifted. destruct (pending_start to o Ho ltac:(lia)) as [HP0 L0]. set (acc0 := if negb (o =? 0) then _ else _) in *.
  set (P0 := take (Z.to_nat o) (source m to)) in *. cbv zeta. destruct (Z.ltb_spec (n + f) 8) as [H8|H8].
  - destruct (first_few p f n ltac:(lia) ltac:(lia) H8 ltac:(lia)) as [R E]. cbv zeta in *. pose proof (push acc0 P0 n _ HP0 ltac:(lia) ltac:(lia) R) as HP.
    rewrite E in HP. apply flush_stores; [done|done| |]; rewrite length_app, <- E, length_bits_of; lia.
  - destruct (first_bits p f Hr ltac:(lia)) as [R E]. cbv zeta in *. pose proof (push acc0 P0 (8 - f) _ HP0 ltac:(lia) ltac:(lia) R) as HP1. rewrite E in HP1.
    set (acc1 := Z.lor _ _) in *. set (P1 := P0 ++ _) in *. assert (length P1 = Z.to_nat (o + (8 - f))) as L1 by (unfold P1; rewrite length_app, <- E, length_bits_of; lia).
    pose proof (copy_words_spec from Hf (Z.to_nat (n + f)) (p + 1) m to acc1 P1 (n + f - 8) Hm HP1 ltac:(lia)) as W.
    rewrite L1, Z2Nat.id in W by lia. specialize (W ltac:(pose proof (Nat.Div0.div_le_upper_bound (Z.to_nat (n + f - 8)) 32 (Z.to_nat (n + f)) ltac:(lia)); lia) ltac:(lia) ltac:(lia) ltac:(lia)).
    destruct (copy_words _ _ _ _ _ _ _ _) as [[[[p2 m2] to2] acc2] n2]. destruct W as (k & Q & P2 & HP2 & L2 & W & LQ & EQ & -> & -> & En & Rn). pose proof W as (_ & B2 & Lm2).
    set (c := Z.to_nat (n2 / 8)). pose proof (Z.div_mod n2 8 ltac:(lia)) as D. pose proof (Z.mod_pos_bound n2 8 ltac:(lia)) as M. pose proof (Z.div_pos n2 8 ltac:(lia) ltac:(lia)).
    assert (Z.of_nat c = n2 / 8) as Ec by (unfold c; lia).
    pose proof (copy_bytes_spec from Hf c (p + 1 + k) acc2 P2 HP2 ltac:(lia) ltac:(lia)) as C. destruct (copy_bytes _ _ _ _) as [p3 acc3]. destruct C as [-> HP3].
    set (P3 := P2 ++ _) in *. assert (length P3 = length P2 + 8 * c)%nat as L3 by (unfold P3, source; rewrite length_app, length_take, length_drop, length_mem_bits; lia).
    set (r := n2 - 8 * Z.of_nat c) in *. assert (0 <= r < 8) as Hr8 by (unfold r; lia).
    assert (forall m3, stores m2 (8 * (to + k)) (P3 ++ take (Z.to_nat r) (source from (p + 1 + k + c))) m3 ->
      stores m (8 * to) (P0 ++ take (Z.to_nat n) (drop (Z.to_nat f) (source from p))) m3) as Fin.
    { intros m3 W3. replace (8 * (to + k))%nat with (8 * to + length Q)%nat in W3 by lia. pose proof (stores_after _ _ _ _ _ _ W W3) as W4.
      unfold P3 in W4. rewrite !app_assoc, EQ, <- !app_assoc in W4. unfold P1 in W4. rewrite <- !app_assoc in W4.
      assert (drop (Z.to_nat f) (take 8 (source from p)) ++ take (8 * k) (source from (p + 1)) ++ take (8 * c) (source from (p + 1 + k)) ++ take (Z.to_nat r) (source from (p + 1 + k + c))
        = take (Z.to_nat n) (drop (Z.to_nat f) (source from p))) as <-; [|done].
      rewrite !source_skip, !drop_drop, skipn_firstn_comm. set (S := source from p). change (8 * 1)%nat with 8%nat.
      replace (take (Z.to_nat n) (drop (Z.to_nat f) S)) with (take ((8 - Z.to_nat f) + (8 * k + (8 * c + Z.to_nat r))) (drop (Z.to_nat f) S)) by (f_equal; unfold r; lia).
      rewrite <- !take_take_drop, !drop_drop. repeat first [done | lia | progress f_equal]. }
    destruct (Z.ltb_spec 0 r) as [Hr0|Hr0].
    + apply Fin, flush_stores; [done| | |].
      * apply push_first; (done || lia).
      * rewrite length_app, L3, length_take. unfold source. rewrite length_drop, length_mem_bits. lia.
      * rewrite length_app, L3, length_take. unfold source. rewrite length_drop, length_mem_bits. lia.
    + apply Fin. replace (Z.to_nat r) with 0%nat by lia. rewrite app_nil_r. apply flush_stores; (done || lia).
Qed.
End Between.

(** ** Strings at the same offset *)

Section Aligned.
Context (from m : list Z) (Hf : bytes from) (Hm : bytes m).

Lemma mask_both c d o e : 0 <= o < 8 -> 0 <= e < 8 -> o <= e -> let mask := Z.land (Z.shiftr (-0x100) e) (Z.shiftr 0xff o) in
  bits_of 8 (u8 (Z.lor (Z.land c (Z.lnot mask)) (Z.land d mask))) = take (Z.to_nat o) (bits_of 8 c) ++ drop (Z.to_nat o) (take (Z.to_nat e) (bits_of 8 d)) ++ drop (Z.to_nat e) (bits_of 8 c).
Proof.
  intros Ho He Hoe. revert e He Hoe. revert o Ho. apply (below_8 (fun o => forall e, 0 <= e < 8 -> o <= e -> _)); apply (below_8 (fun e => _ <= e -> _)); intros Hs;
    try (exfalso; lia); clear Hs; cbv zeta; mask_bits; reflexivity.
Qed.
Lemma mask_first c d o : 0 <= o < 8 -> let mask := Z.shiftr 0xff o in
  bits_of 8 (u8 (Z.lor (Z.land c (Z.lnot mask)) (Z.land d mask))) = take (Z.to_nat o) (bits_of 8 c) ++ drop (Z.to_nat o) (bits_of 8 d).
Proof. revert o. apply below_8; cbv zeta; mask_bits; reflexivity. Qed.
Lemma mask_last c d r : 0 <= r < 8 -> let mask := Z.shiftr (-0x100) r in
  bits_of 8 (u8 (Z.lor (Z.land c (Z.lnot mask)) (Z.land d mask))) = take (Z.to_nat r) (bits_of 8 d) ++ drop (Z.to_nat r) (bits_of 8 c).
Proof. revert r. apply below_8; cbv zeta; mask_bits; reflexivity. Qed.

(** The bytes from the first on: its first bits are those of the target. *)
Lemma copy_whole to o p l : 0 <= o < 8 -> (0 < l)%nat -> (p + l <= length from)%nat -> (to + l <= length m)%nat ->
  stores m (8 * to) (take (Z.to_nat o) (source m to) ++ drop (Z.to_nat o) (take (8 * l) (source from p)))
    (if o =? 0 then write_bytes m to (take l (drop p from)) else write_bytes (masked m to from p (Z.shiftr 0xff o)) (to + 1) (take (l - 1) (drop (p + 1) from))).
Proof.
  intros Ho Hl Hp Ht. assert (forall i k, (i + k <= length from)%nat -> mem_bits (take k (drop i from)) = take (8 * k) (source from i)) as T.
  { intros i k Hi. by rewrite mem_bits_take, mem_bits_drop. }
  destruct (Z.eqb_spec o 0) as [->|Ho0].
  - change (stores m (8 * to) (take (8 * l) (source from p)) (write_bytes m to (take l (drop p from)))). rewrite <- T by lia.
    apply stores_bytes; [done|by apply Forall_take, Forall_drop|]. rewrite length_take, length_drop. lia.
  - assert (stores m (8 * to) (take (Z.to_nat o) (source m to) ++ drop (Z.to_nat o) (take 8 (source from p))) (masked m to from p (Z.shiftr 0xff o))) as W1.
    { replace (take (Z.to_nat o) (source m to)) with (take (Z.to_nat o) (take 8 (source m to))) by (rewrite take_take; f_equal; lia).
      unfold source. rewrite !mem_byte, <- mask_first by lia. apply stores_byte; [done|lia]. }
    pose proof W1 as (_ & B1 & L1). pose proof (stores_bytes (masked m to from p (Z.shiftr 0xff o)) (to + 1) (take (l - 1) (drop (p + 1) from)) B1 ltac:(by apply Forall_take, Forall_drop)) as W2.
    rewrite length_take, length_drop, L1 in W2. specialize (W2 ltac:(lia)). rewrite T in W2 by lia.
    assert (length (take (Z.to_nat o) (source m to) ++ drop (Z.to_nat o) (take 8 (source from p))) = 8%nat) as L8.
    { unfold source. rewrite length_app, length_drop, !length_take, !length_drop, !length_mem_bits. lia. }
    replace (8 * (to + 1))%nat with (8 * to + 8)%nat in W2 by lia.
    pose proof (fun new m2 => stores_after _ _ _ new _ m2 W1) as W. rewrite L8 in W. specialize (W _ _ W2). rewrite <- app_assoc in W.
    rewrite source_skip in W. change (8 * 1)%nat with 8%nat in W. rewrite <- (drop_app_le (take 8 (source from p))), take_take_drop in W.
    + by replace (8 + 8 * (l - 1))%nat with (8 * l)%nat in W by lia.
    + unfold source. rewrite length_take, length_drop, length_mem_bits. lia.
Qed.

Lemma copy_aligned_stores to o p n : 0 <= o < 8 -> 0 < n -> 8 * Z.of_nat p + o + n <= 8 * Z.of_nat (length from) -> 8 * Z.of_nat to + o + n <= 8 * Z.of_nat (length m) ->
  stores m (8 * to) (take (Z.to_nat o) (source m to) ++ take (Z.to_nat n) (drop (Z.to_nat o) (source from p))) (copy_aligned m to from p o (n + o)).
Proof.
  intros Ho Hn Hp Ht. rewrite take_drop_commute. replace (Z.to_nat o + Z.to_nat n)%nat with (Z.to_nat (n + o)) by lia. unfold copy_aligned.
  destruct (Z.ltb_spec (n + o) 8).
  - assert (length (take (Z.to_nat o) (source m to) ++ drop (Z.to_nat o) (take (Z.to_nat (n + o)) (source from p))) = Z.to_nat (n + o)) as L.
    { unfold source. rewrite length_app, length_drop, !length_take, !length_drop, !length_mem_bits. lia. }
    apply stores_prefix; [lia|lia|]. rewrite L, <- app_assoc.
    replace (take (Z.to_nat o) (source m to)) with (take (Z.to_nat o) (take 8 (source m to))) by (rewrite take_take; f_equal; lia).
    replace (take (Z.to_nat (n + o)) (source from p)) with (take (Z.to_nat (n + o)) (take 8 (source from p))) by (rewrite take_take; f_equal; lia).
    unfold source. rewrite !mem_byte, <- mask_both by lia. apply stores_byte; [done|lia].
  - destruct (offset_split (n + o) ltac:(lia)) as (E & Hr & Hl). set (l := Z.to_nat (Z.shiftr (n + o) 3)) in *. set (r := Z.land (n + o) 7) in *.
    assert (0 < l)%nat as Hl0 by lia. pose proof (copy_whole to o p l Ho Hl0 ltac:(lia) ltac:(lia)) as W1. cbv zeta. set (m1 := if o =? 0 then _ else _) in *.
    rewrite E. destruct (Z.eqb_spec r 0) as [E0|E0]; cbn [negb]; [rewrite E0 in *; by rewrite Nat.add_0_r|].
    pose proof W1 as (_ & B1 & L1). rewrite <- take_take_drop, drop_app_le, app_assoc by (unfold source; rewrite length_take, length_drop, length_mem_bits; lia).
    apply (stores_after _ _ _ _ m1); [done|]. rewrite length_app, length_drop, !length_take. unfold source. rewrite !length_drop, !length_mem_bits.
    match goal with |- stores _ ?i _ _ => replace i with (8 * (to + l))%nat by lia end. rewrite drop_drop.
    replace (8 * p + 8 * l)%nat with (8 * (p + l))%nat by lia. assert (length (take (Z.to_nat r) (drop (8 * (p + l)) (mem_bits from))) = Z.to_nat r) as L
      by (rewrite length_take, length_drop, length_mem_bits; lia).
    apply stores_prefix; [lia|lia|]. rewrite L.
    replace (take (Z.to_nat r) (drop (8 * (p + l)) (mem_bits from))) with (take (Z.to_nat r) (take 8 (drop (8 * (p + l)) (mem_bits from)))) by (rewrite take_take; f_equal; lia).
    rewrite mem_byte, <- mask_last by lia. apply stores_byte; [done|lia].
Qed.
End Aligned.

(** ** [bits_memcpy] *)

Lemma memcpy_stores m to from fo n : inside m to n -> inside from fo n -> stores m (Z.to_nat to) (string_at from fo n) (bits_memcpy m to from fo n).
Proof.
  intros (Hm & Ht & Hn & Hl) (Hf & Ho & _ & Hlf). unfold bits_memcpy, string_at. destruct (Z.leb_spec n 0).
  { replace n with 0 by lia. apply stores_length; [|done]. apply written_nil. rewrite length_mem_bits. lia. }
  destruct (offset_split to Ht) as (Et & Rt & Qt), (offset_split fo Ho) as (Ef & Rf & Qf).
  set (o := Z.land to 7) in *. set (t := Z.to_nat (Z.shiftr to 3)) in *. set (f := Z.land fo 7) in *. set (p := Z.to_nat (Z.shiftr fo 3)) in *.
  rewrite Et. apply stores_behind; [lia|lia|]. rewrite <- (mem_byte m t) by lia. fold (source m t). rewrite take_take. replace (Z.to_nat o `min` 8)%nat with (Z.to_nat o) by lia.
  rewrite Ef, <- drop_drop. fold (source from p). destruct (Z.eqb_spec f o) as [->|].
  - apply copy_aligned_stores; (done || lia).
  - apply copy_shifted_stores; (done || lia).
Qed.

(** [bits_memcpy] replaces exactly the bits of the target by those of the source, whatever
    their offsets, and a comparison then finds no difference. *)
Theorem memcpy_exact m to from fo n : inside m to n -> inside from fo n -> let m' := bits_memcpy m to from fo n in
  stores m (Z.to_nat to) (string_at from fo n) m' /\ string_at m' to n = string_at from fo n /\ bits_memcmp m' to from fo n 0 = Some (0, n).
Proof.
  intros It If. cbv zeta. pose proof (memcpy_stores m to from fo n It If) as W. split; [done|]. pose proof It as (_ & Ht & Hn & Hl). pose proof W as ((Hw & E) & B & L).
  set (m' := bits_memcpy m to from fo n) in *. pose proof (length_string _ _ _ If) as LS. rewrite length_mem_bits in Hw.
  assert (string_at m' to n = string_at from fo n) as ES.
  { unfold string_at at 1. rewrite E, drop_app_length', take_app_length' by (rewrite ?length_take, ?length_mem_bits; lia). done. }
  split; [done|]. assert (inside m' to n) as I' by (split; [exact B|rewrite L; lia]). rewrite (memcmp_exact _ _ _ _ _ I' If). rewrite ES, common_self, LS, Z2Nat.id by lia. do 2 f_equal.
  pose proof (compare_app (string_at from fo n) [] []) as C. by rewrite !app_nil_r in C.
Qed.

Definition target1 : list Z := replicate 12 0xff.
Lemma memcpy_exact_witness : bits_memcpy target1 5 memory1 3 80 = [0xfa; 0xf3; 0x7b; 0xc4; 0x8d; 0x15; 0x9e; 0x26; 0xaf; 0x37; 0xbf; 0xff]
  /\ bits_memcmp (bits_memcpy target1 5 memory1 3 80) 5 memory1 3 80 0 = Some (0, 80).
Proof.
  split; [by vm_compute|]. exact (proj2 (proj2 (memcpy_exact target1 5 memory1 3 80 ltac:(by apply inside_memory) ltac:(by apply inside_memory)))).
Defined.
