(* ===== verification/Sha256.v ===== *)
(** * SHA-256: the compression function of the GPU kernel and the FIPS 180-4 hash

    Module [Cruncher] models the arithmetic core of [crypto/util/cruncher.h]: the macros
    and [sha256_transform].  Module [Fips] is the reference: the compression function
    over a sliding sixteen-word window, the padding and the digest of a byte message, in
    the words of the standard.  The class [Sha256Lib] is the interface of the streaming
    hash of the OpenSSL library that the miner calls. *)
From S2P Require Import Prelude.

(** ** Words *)

Definition add32 (x y : Z) : Z := u32 (x + y).
Definition not32 (x : Z) : Z := u32 (Z.lnot x).

(** ** [cruncher.h] *)
Module Cruncher.

Definition ROTRIGHT (a b : Z) : Z := Z.lor (Z.shiftr a b) (u32 (Z.shiftl a (32 - b))).
Definition CH (x y z : Z) : Z := Z.lxor (Z.land x y) (Z.land (not32 x) z).
Definition MAJ (x y z : Z) : Z := Z.lxor (Z.lxor (Z.land x y) (Z.land x z)) (Z.land y z).
Definition EP0 (x : Z) : Z := Z.lxor (Z.lxor (ROTRIGHT x 2) (ROTRIGHT x 13)) (ROTRIGHT x 22).
Definition EP1 (x : Z) : Z := Z.lxor (Z.lxor (ROTRIGHT x 6) (ROTRIGHT x 11)) (ROTRIGHT x 25).
Definition SIG0 (x : Z) : Z := Z.lxor (Z.lxor (ROTRIGHT x 7) (ROTRIGHT x 18)) (Z.shiftr x 3).
Definition SIG1 (x : Z) : Z := Z.lxor (Z.lxor (ROTRIGHT x 17) (ROTRIGHT x 19)) (Z.shiftr x 10).

(** The 64 round constants, in the order of the source. *)
Definition ksha : list Z := [
  0x428A2F98; 0x71374491; 0xB5C0FBCF; 0xE9B5DBA5; 0x3956C25B; 0x59F111F1; 0x923F82A4; 0xAB1C5ED5;
  0xD807AA98; 0x12835B01; 0x243185BE; 0x550C7DC3; 0x72BE5D74; 0x80DEB1FE; 0x9BDC06A7; 0xC19BF174;
  0xE49B69C1; 0xEFBE4786; 0x0FC19DC6; 0x240CA1CC; 0x2DE92C6F; 0x4A7484AA; 0x5CB0A9DC; 0x76F988DA;
  0x983E5152; 0xA831C66D; 0xB00327C8; 0xBF597FC7; 0xC6E00BF3; 0xD5A79147; 0x06CA6351; 0x14292967;
  0x27B70A85; 0x2E1B2138; 0x4D2C6DFC; 0x53380D13; 0x650A7354; 0x766A0ABB; 0x81C2C92E; 0x92722C85;
  0xA2BFE8A1; 0xA81A664B; 0xC24B8B70; 0xC76C51A3; 0xD192E819; 0xD6990624; 0xF40E3585; 0x106AA070;
  0x19A4C116; 0x1E376C08; 0x2748774C; 0x34B0BCB5; 0x391C0CB3; 0x4ED8AA4A; 0x5B9CCA4F; 0x682E6FF3;
  0x748F82EE; 0x78A5636F; 0x84C87814; 0x8CC70208; 0x90BEFFFA; 0xA4506CEB; 0xBEF9A3F7; 0xC67178F2].

(** [h256], the initial state. *)
Definition h256 : list Z := [
  0x6A09E667; 0xBB67AE85; 0x3C6EF372; 0xA54FF53A; 0x510E527F; 0x9B05688C; 0x1F83D9AB; 0x5BE0CD19].

(** The message schedule: [m] holds [m[0 .. i-1]]; each step appends [m[i]]. *)
Definition schedule_next (m : list Z) : Z :=
  let i := length m in
  add32 (add32 (add32 (SIG1 (m !!! (i - 2)%nat)) (m !!! (i - 7)%nat))
               (SIG0 (m !!! (i - 15)%nat))) (m !!! (i - 16)%nat).

Fixpoint schedule_loop (n : nat) (m : list Z) : list Z :=
  match n with
  | O => m
  | S n' => schedule_loop n' (m ++ [schedule_next m])
  end.

(** The eight working variables. *)
Record regs := Regs { ra : Z; rb : Z; rc : Z; rd : Z; re : Z; rf : Z; rg : Z; rh : Z }.

Definition regs_of (state : list Z) : regs :=
  Regs (state !!! 0%nat) (state !!! 1%nat) (state !!! 2%nat) (state !!! 3%nat)
       (state !!! 4%nat) (state !!! 5%nat) (state !!! 6%nat) (state !!! 7%nat).

Definition round (k m : Z) (r : regs) : regs :=
  let t1 := add32 (add32 (add32 (add32 (rh r) (EP1 (re r))) (CH (re r) (rf r) (rg r))) k) m in
  let t2 := add32 (EP0 (ra r)) (MAJ (ra r) (rb r) (rc r)) in
  Regs (add32 t1 t2) (ra r) (rb r) (rc r) (add32 (rd r) t1) (re r) (rf r) (rg r).

(** The loop [for (i = 0; i < 64; i += 1)], [n] iterations left. *)
Fixpoint round_loop (n : nat) (m : list Z) (i : nat) (r : regs) : regs :=
  match n with
  | O => r
  | S n' => round_loop n' m (S i) (round (ksha !!! i) (m !!! i) r)
  end.

Definition sha256_transform (data state : list Z) : list Z :=
  let m := schedule_loop 48 (take 16 data) in
  let r := round_loop 64 m 0 (regs_of state) in
  [ add32 (state !!! 0%nat) (ra r); add32 (state !!! 1%nat) (rb r);
    add32 (state !!! 2%nat) (rc r); add32 (state !!! 3%nat) (rd r);
    add32 (state !!! 4%nat) (re r); add32 (state !!! 5%nat) (rf r);
    add32 (state !!! 6%nat) (rg r); add32 (state !!! 7%nat) (rh r) ].

End Cruncher.

(** ** The reference: FIPS 180-4 *)
Module Fips.

(** Rotation, as division and remainder. *)
Definition rotr (n x : Z) : Z := x / 2 ^ n + x mod 2 ^ n * 2 ^ (32 - n).
Definition ch (x y z : Z) : Z := Z.lxor (Z.land x y) (Z.land (2 ^ 32 - 1 - x) z).
Definition maj (x y z : Z) : Z := Z.lxor (Z.land x y) (Z.lxor (Z.land x z) (Z.land y z)).
Definition Sigma0 (x : Z) : Z := Z.lxor (rotr 2 x) (Z.lxor (rotr 13 x) (rotr 22 x)).
Definition Sigma1 (x : Z) : Z := Z.lxor (rotr 6 x) (Z.lxor (rotr 11 x) (rotr 25 x)).
Definition sigma0 (x : Z) : Z := Z.lxor (rotr 7 x) (Z.lxor (rotr 18 x) (x / 2 ^ 3)).
Definition sigma1 (x : Z) : Z := Z.lxor (rotr 17 x) (Z.lxor (rotr 19 x) (x / 2 ^ 10)).

(** The word that enters the sixteen-word window [w] (oldest first) when its head leaves. *)
Definition next_word (w : list Z) : Z :=
  match w with
  | [w0; w1; _; _; _; _; _; _; _; w9; _; _; _; _; w14; _] =>
      (sigma1 w14 + w9 + sigma0 w1 + w0) mod 2 ^ 32
  | _ => 0
  end.

(** One step on (a, ..., h) with round constant [k] and schedule word [w]. *)
Definition step (k w : Z) (v : list Z) : list Z :=
  match v with
  | [a; b; c; d; e; f; g; h] =>
      let t1 := h + Sigma1 e + ch e f g + k + w in
      let t2 := Sigma0 a + maj a b c in
      [ (t1 + t2) mod 2 ^ 32; a; b; c; (d + t1) mod 2 ^ 32; e; f; g ]
  | _ => v
  end.

(** The rounds consume the constants; the window slides by one word each round. *)
Fixpoint rounds (ks w v : list Z) : list Z :=
  match ks with
  | [] => v
  | k :: ks' => rounds ks' (tail w ++ [next_word w]) (step k (hd 0 w) v)
  end.

Definition compress (H block : list Z) : list Z :=
  zip_with (fun x y => (x + y) mod 2 ^ 32) H (rounds Cruncher.ksha block H).

(** Big-endian words of a byte string, and the sixteen-word blocks of a word string. *)
Fixpoint words (n : nat) (l : list Z) : list Z :=
  match n with
  | O => []
  | S n' => be_combine (take 4 l) :: words n' (drop 4 l)
  end.

Fixpoint blocks (n : nat) (l : list Z) : list (list Z) :=
  match n with
  | O => []
  | S n' => take 16 l :: blocks n' (drop 16 l)
  end.

(** Padding: a one bit, the least number of zero bits that completes the message and a
    64-bit length to a multiple of 512 bits, and that length. *)
Definition pad (msg : list Z) : list Z :=
  msg ++ 128 :: replicate (Z.to_nat ((- (Z.of_nat (length msg) + 9)) mod 64)) 0
      ++ be_split 8 (8 * Z.of_nat (length msg)).

Definition block_count (msg : list Z) : nat := Z.to_nat ((Z.of_nat (length msg) + 72) / 64).

Definition hash_words (msg : list Z) : list Z :=
  foldl compress Cruncher.h256 (blocks (block_count msg) (words (16 * block_count msg) (pad msg))).

Definition digest (ws : list Z) : list Z := ws ≫= be_split 4.

Definition sha256 (msg : list Z) : list Z := digest (hash_words msg).

End Fips.

(** ** The two compression functions agree *)

Definition is_word (x : Z) : Prop := 0 <= x < 2 ^ 32.

Lemma add32_word x y : is_word (add32 x y).
Proof. apply wrapu_range. lia. Qed.

Lemma land_word x y : is_word x -> is_word y -> is_word (Z.land x y).
Proof.
  unfold is_word. intros Hx Hy.
  pose proof (Z.land_nonneg x y). rewrite <- (Z.mod_small y (2 ^ 32)) by lia.
  rewrite <- Z.land_ones, Z.land_assoc, Z.land_ones by lia.
  apply Z.mod_pos_bound. lia.
Qed.

Lemma lxor_word x y : is_word x -> is_word y -> is_word (Z.lxor x y).
Proof.
  unfold is_word. intros Hx Hy.
  assert (Z.lxor x y = Z.lxor x y mod 2 ^ 32) as ->; [|apply Z.mod_pos_bound; lia].
  rewrite <- (Z.mod_small x (2 ^ 32)) at 1 by lia. rewrite <- (Z.mod_small y (2 ^ 32)) at 1 by lia.
  rewrite <- !Z.land_ones by lia. apply Z.bits_inj'. intros n Hn.
  rewrite !Z.lxor_spec, !Z.land_spec, Z.lxor_spec. by destruct (Z.testbit x n), (Z.testbit y n), (Z.testbit (Z.ones 32) n).
Qed.

Lemma rotright_rotr x n : is_word x -> 0 < n < 32 -> Cruncher.ROTRIGHT x n = Fips.rotr n x.
Proof.
  intros Hx Hn. unfold Cruncher.ROTRIGHT, Fips.rotr, is_word in *.
  rewrite Z.shiftr_div_pow2, Z.shiftl_mul_pow2 by lia.
  assert (u32 (x * 2 ^ (32 - n)) = x mod 2 ^ n * 2 ^ (32 - n)) as ->.
  { unfold wrapu. replace (2 ^ 32) with (2 ^ n * 2 ^ (32 - n))
      by (rewrite <- Z.pow_add_r by lia; f_equal; lia).
    apply Z.mul_mod_distr_r; pose proof (Z.pow_pos_nonneg 2 n); pose proof (Z.pow_pos_nonneg 2 (32 - n)); lia. }
  rewrite Z.lor_comm, lor_disjoint; [lia|lia|].
  split; [apply Z.div_pos; lia|]. apply Z.div_lt_upper_bound; [lia|].
  rewrite <- Z.pow_add_r by lia. replace (n + (32 - n)) with 32 by lia. lia.
Qed.

Lemma not32_sub x : is_word x -> not32 x = 2 ^ 32 - 1 - x.
Proof.
  intros Hx. unfold not32, wrapu, is_word, Z.lnot in *.
  rewrite <- (Z.mod_small (2 ^ 32 - 1 - x) (2 ^ 32)) by lia.
  replace (2 ^ 32 - 1 - x) with (Z.pred (- x) + 1 * 2 ^ 32) by lia. by rewrite Z.mod_add.
Qed.

Lemma ch_eq x y z : is_word x -> Cruncher.CH x y z = Fips.ch x y z.
Proof. intros Hx. unfold Cruncher.CH, Fips.ch. by rewrite not32_sub. Qed.

Lemma maj_eq x y z : Cruncher.MAJ x y z = Fips.maj x y z.
Proof. unfold Cruncher.MAJ, Fips.maj. by rewrite Z.lxor_assoc. Qed.

Lemma ep0_eq x : is_word x -> Cruncher.EP0 x = Fips.Sigma0 x.
Proof. intros. unfold Cruncher.EP0, Fips.Sigma0. by rewrite !rotright_rotr, Z.lxor_assoc by (done || lia). Qed.

Lemma ep1_eq x : is_word x -> Cruncher.EP1 x = Fips.Sigma1 x.
Proof. intros. unfold Cruncher.EP1, Fips.Sigma1. by rewrite !rotright_rotr, Z.lxor_assoc by (done || lia). Qed.

Lemma sig0_eq x : is_word x -> Cruncher.SIG0 x = Fips.sigma0 x.
Proof.
  intros. unfold Cruncher.SIG0, Fips.sigma0.
  by rewrite !rotright_rotr, Z.shiftr_div_pow2, Z.lxor_assoc by (done || lia).
Qed.

Lemma sig1_eq x : is_word x -> Cruncher.SIG1 x = Fips.sigma1 x.
Proof.
  intros. unfold Cruncher.SIG1, Fips.sigma1.
  by rewrite !rotright_rotr, Z.shiftr_div_pow2, Z.lxor_assoc by (done || lia).
Qed.

(** Nested 32-bit additions are one addition modulo [2 ^ 32]. *)
Lemma add32_add32_l x y z : add32 (add32 x y) z = add32 (x + y) z.
Proof. unfold add32, wrapu. by rewrite Z.add_mod_idemp_l by lia. Qed.

Lemma add32_add32_r x y z : add32 x (add32 y z) = add32 x (y + z).
Proof. unfold add32, wrapu. by rewrite Z.add_mod_idemp_r by lia. Qed.

(** Flatten sums of [add32] from the innermost one. *)
Ltac add32_flat :=
  repeat match goal with
  | |- context [add32 (add32 ?x ?y) ?z] =>
      lazymatch x with context [add32] => fail | _ => rewrite (add32_add32_l x y z) end
  | |- context [add32 ?x (add32 ?y ?z)] =>
      lazymatch y with context [add32] => fail | _ => rewrite (add32_add32_r x y z) end
  end;
  unfold add32, wrapu.

Section Schedule.
Context (block : list Z) (block_length : length block = 16%nat) (block_words : Forall is_word block).

(** The schedule after [n] steps, and the window the reference keeps at step [n]. *)
Local Definition full (n : nat) : list Z := Cruncher.schedule_loop n block.
Local Definition window (n : nat) : list Z := drop n (full n).

Lemma full_S n : full (S n) = full n ++ [Cruncher.schedule_next (full n)].
Proof using Type.
  unfold full. clear. generalize block as m. induction n as [|n IH]; intros m; [done|]. exact (IH _).
Qed.

Lemma full_length n : length (full n) = (16 + n)%nat.
Proof using block_length.
  induction n as [|n IH]; [done|]. rewrite full_S, length_app, IH. simpl. lia.
Qed.

Lemma full_prefix n k : full n `prefix_of` full (n + k).
Proof using Type.
  induction k as [|k IH]; [by rewrite Nat.add_0_r|].
  rewrite Nat.add_succ_r, full_S. by apply prefix_app_r.
Qed.

Lemma full_words n : Forall is_word (full n).
Proof using block_words.
  induction n as [|n IH]; [done|]. rewrite full_S. apply Forall_app; split; [done|].
  apply Forall_singleton, add32_word.
Qed.

Lemma window_length n : length (window n) = 16%nat.
Proof using block_length. unfold window. rewrite length_drop, full_length. lia. Qed.

Lemma window_words n : Forall is_word (window n).
Proof using block_words. apply Forall_drop, full_words. Qed.

Lemma schedule_next_window n : Cruncher.schedule_next (full n) = Fips.next_word (window n).
Proof using block_length block_words.
  pose proof (window_length n) as Hl. pose proof (window_words n) as Hw.
  assert (forall i, (i < 16)%nat -> full n !!! (length (full n) - (16 - i))%nat = window n !!! i) as Hi.
  { intros i Hi. unfold window. rewrite lookup_total_drop, full_length. f_equal. lia. }
  unfold Cruncher.schedule_next. pose proof (Hi 14%nat) as E14. pose proof (Hi 9%nat) as E9.
  pose proof (Hi 1%nat) as E1. pose proof (Hi 0%nat) as E0. cbn [Nat.sub] in *.
  rewrite E14, E9, E1, E0 by lia. clear -Hl Hw.
  generalize dependent (window n). intros w Hl Hw. explode w Hl. forall_split.
  cbn [lookup_total list_lookup_total Fips.next_word]. rewrite sig0_eq, sig1_eq by done.
  by add32_flat.
Qed.

Lemma window_S n : window (S n) = tail (window n) ++ [Fips.next_word (window n)].
Proof using block_length block_words.
  rewrite <- schedule_next_window. unfold window.
  rewrite full_S, drop_app_le by (rewrite full_length; lia).
  rewrite <- Nat.add_1_r, <- drop_drop. by destruct (drop n (full n)).
Qed.

(** The head of the [n]-th window is the [n]-th word of the schedule. *)
Lemma window_head n : (n < 64)%nat -> hd 0 (window n) = full 48 !!! n.
Proof using block_length.
  intros Hn. assert (hd 0 (window n) = full n !!! n) as ->.
  { transitivity (window n !!! 0%nat); [pose proof (window_length n); by destruct (window n)|].
    unfold window. by rewrite lookup_total_drop, Nat.add_0_r. }
  destruct (decide (n <= 48)%nat).
  - destruct (full_prefix n (48 - n)) as [t Ht]. replace (n + (48 - n))%nat with 48%nat in Ht by lia.
    rewrite Ht, lookup_total_app_l; [done|]. rewrite full_length. lia.
  - destruct (full_prefix 48 (n - 48)) as [t Ht]. replace (48 + (n - 48))%nat with n in Ht by lia.
    rewrite Ht, lookup_total_app_l; [done|]. rewrite full_length. lia.
Qed.

Definition regs_list (r : Cruncher.regs) : list Z :=
  let (a, b, c, d, e, f, g, h) := r in [a; b; c; d; e; f; g; h].

Lemma round_step k m r : Forall is_word (regs_list r) ->
  regs_list (Cruncher.round k m r) = Fips.step k m (regs_list r)
  /\ Forall is_word (regs_list (Cruncher.round k m r)).
Proof using Type.
  destruct r as [a b c d e f g h]. unfold Cruncher.round, regs_list, Fips.step.
  cbn [Cruncher.ra Cruncher.rb Cruncher.rc Cruncher.rd Cruncher.re Cruncher.rf Cruncher.rg Cruncher.rh].
  intros Hr. forall_split. rewrite ep1_eq, ep0_eq, ch_eq, maj_eq by done. split.
  - by add32_flat.
  - forall_intro ltac:(done || apply add32_word).
Qed.

(** [n] rounds from round [i] on, with the constants, the window and the schedule named. *)
Lemma rounds_loop n i r ks w m :
  ks = drop i Cruncher.ksha -> w = window i -> m = full 48 ->
  (i + n = 64)%nat -> Forall is_word (regs_list r) ->
  Fips.rounds ks w (regs_list r) = regs_list (Cruncher.round_loop n m i r)
  /\ Forall is_word (regs_list (Cruncher.round_loop n m i r)).
Proof using block_length block_words.
  revert i r ks w. induction n as [|n IH]; intros i r ks w -> -> Em Hi Hr.
  { rewrite drop_ge by (cbn; lia). split; [reflexivity|exact Hr]. }
  destruct (lookup_lt_is_Some_2 Cruncher.ksha i) as [k Hk]; [cbn; lia|].
  rewrite (drop_S _ k i) by done. cbn [Fips.rounds Cruncher.round_loop].
  rewrite (list_lookup_total_correct _ _ _ Hk), <- window_S, window_head, <- Em by lia.
  destruct (round_step k (m !!! i) r Hr) as [<- Hr'].
  apply IH; [reflexivity|reflexivity|exact Em|lia|exact Hr'].
Qed.

End Schedule.

Lemma sha256_transform_words block state :
  length block = 16%nat -> Forall is_word block ->
  length state = 8%nat -> Forall is_word state ->
  Cruncher.sha256_transform block state = Fips.compress state block
  /\ length (Cruncher.sha256_transform block state) = 8%nat
  /\ Forall is_word (Cruncher.sha256_transform block state).
Proof.
  intros Hb Hbw Hs Hsw. unfold Cruncher.sha256_transform, Fips.compress.
  rewrite (take_ge block) by lia. explode state Hs.
  set (st := [x; x0; x1; x2; x3; x4; x5; x6]) in *.
  assert (regs_list (Cruncher.regs_of st) = st) as Est by reflexivity.
  remember (Cruncher.schedule_loop 48 block) as m eqn:Em.
  destruct (rounds_loop block Hb Hbw 64 0 (Cruncher.regs_of st) Cruncher.ksha block m)
    as [E _]; [reflexivity|reflexivity|exact Em|reflexivity|exact Hsw|].
  rewrite Est in E. rewrite E. clear E Em.
  generalize (Cruncher.round_loop 64 m 0 (Cruncher.regs_of st)).
  intros []. split; [reflexivity|split; [reflexivity|]]. forall_intro ltac:(apply add32_word).
Qed.

(** ** The reference on whole messages *)

Lemma compress_word H block : length H = 8%nat -> Forall is_word H ->
  length block = 16%nat -> Forall is_word block ->
  length (Fips.compress H block) = 8%nat /\ Forall is_word (Fips.compress H block).
Proof.
  intros. destruct (sha256_transform_words block H) as [E ?]; [done..|]. by rewrite <- E.
Qed.

Lemma digest_length ws : length (Fips.digest ws) = (4 * length ws)%nat.
Proof.
  unfold Fips.digest. induction ws as [|w ws IH]; [done|].
  rewrite bind_cons, length_app, length_be_split, IH. simpl. lia.
Qed.

Lemma digest_bytes ws : bytes (Fips.digest ws).
Proof.
  unfold Fips.digest. induction ws as [|w ws IH]; [constructor|].
  rewrite bind_cons. apply Forall_app; split; [apply be_split_bytes|done].
Qed.

(** Comparing digests byte by byte is comparing the state words from the first one on. *)
Lemma memcmp_app a b x y : length a = length b ->
  memcmp (a ++ x) (b ++ y) = if memcmp a b =? 0 then memcmp x y else memcmp a b.
Proof.
  revert b. induction a as [|p a IH]; intros [|q b] Hl; try done.
  simpl. destruct (p <? q); [done|]. destruct (q <? p); [done|]. apply IH. simpl in Hl. lia.
Qed.

(** ** The streaming interface of the OpenSSL library

    [SHA256_Init], [SHA256_Update] and [SHA256_Final] are not part of the repository; the
    law states what their documentation promises: the final digest is the SHA-256 of the
    bytes that the updates absorbed, in order. *)
Class Sha256Lib := {
  SHA256_CTX : Type;
  SHA256_Init : SHA256_CTX;
  SHA256_Update : SHA256_CTX -> list Z -> SHA256_CTX;
  SHA256_Final : SHA256_CTX -> list Z;
}.

Class Sha256Spec (L : Sha256Lib) : Prop := {
  sha256_streaming chunks :
    bytes (concat chunks) -> Z.of_nat (length (concat chunks)) < 2 ^ 61 ->
    SHA256_Final (foldl SHA256_Update SHA256_Init chunks) = Fips.sha256 (concat chunks);
}.

(** An implementation that buffers the message: the law can hold. *)
#[export] Instance buffer_lib : Sha256Lib := {|
  SHA256_CTX := list Z; SHA256_Init := []; SHA256_Update := @app Z; SHA256_Final := Fips.sha256 |}.

#[export] Instance buffer_spec : Sha256Spec buffer_lib.
Proof.
  constructor. intros chunks _ _. f_equal. cbn [SHA256_Update SHA256_Init buffer_lib].
  transitivity ([] ++ concat chunks); [|done].
  generalize (@nil Z) as acc. induction chunks as [|c cs IH]; intros acc; simpl.
  - by rewrite app_nil_r.
  - by rewrite IH, (assoc_L (++)).
Qed.

(** ** Property *)

(** C1. The kernel's compression function is that of FIPS 180-4: on a block of sixteen words
    and a state of eight, [sha256_transform] with its 64-word schedule and its nested 32-bit
    sums is the standard's compression over a sliding window, and its result is a state. *)
Theorem sha256_transform_fips block state :
  length block = 16%nat -> Forall is_word block ->
  length state = 8%nat -> Forall is_word state ->
  Cruncher.sha256_transform block state = Fips.compress state block
  /\ length (Cruncher.sha256_transform block state) = 8%nat
  /\ Forall is_word (Cruncher.sha256_transform block state).
Proof. apply sha256_transform_words. Qed.

(** The padded message [abc]: the kernel's function gives the digest of the standard. *)
Lemma sha256_transform_fips_witness :
  Cruncher.sha256_transform (Fips.words 16 (Fips.pad [97; 98; 99])) Cruncher.h256
  = Fips.compress Cruncher.h256 (Fips.words 16 (Fips.pad [97; 98; 99]))
  /\ Fips.digest (Cruncher.sha256_transform (Fips.words 16 (Fips.pad [97; 98; 99])) Cruncher.h256)
     = be_split 32 0xba7816bf8f01cfea414140de5dae2223b00361a396177a9cb410ff61f20015ad.
Proof.
  split; [|vm_compute; reflexivity].
  assert (Forall is_word (Fips.words 16 (Fips.pad [97; 98; 99]))) as Hw.
  { vm_compute Fips.words. forall_intro ltac:(unfold is_word; lia). }
  assert (Forall is_word Cruncher.h256) as Hh by forall_intro ltac:(unfold is_word; lia).
  exact (proj1 (sha256_transform_fips (Fips.words 16 (Fips.pad [97; 98; 99])) Cruncher.h256 eq_refl Hw eq_refl Hh)).
Defined.
