(* ===== verification/MineData.v ===== *)
(** * The message a miner hashes: [crypto/util/Miner.h] and [build_mine_result]

    The packed structures [HData] and [HDataEnv], the increment of the random field, and
    the function of [Miner.cpp] that checks a nonce a GPU reports.  The streaming hash is
    the interface [Sha256Lib]. *)
From S2P Require Import Prelude Sha256.

(** ** The packed structures *)

Record HData := mkHData {
  op : list Z; flags : Z; expire : list Z; myaddr : list Z;
  rdata1 : list Z; pseed : list Z; rdata2 : list Z }.

Record HDataEnv := mkHDataEnv { d1 : Z; d2 : Z; body : HData }.

Definition sizeof_HData : Z := 4 + 1 + 4 + 32 + 32 + 16 + 32.

Definition set_body (f : HData -> HData) (H : HDataEnv) : HDataEnv := mkHDataEnv (d1 H) (d2 H) (f (body H)).

Definition with_expire (e : list Z) (b : HData) : HData :=
  mkHData (op b) (flags b) e (myaddr b) (rdata1 b) (pseed b) (rdata2 b).
Definition with_rdata (r1 r2 : list Z) (b : HData) : HData :=
  mkHData (op b) (flags b) (expire b) (myaddr b) r1 (pseed b) r2.

(** The bytes of the structures in memory; [flags] is a signed byte. *)
Definition body_slice (b : HData) : list Z :=
  op b ++ [u8 (flags b)] ++ expire b ++ myaddr b ++ rdata1 b ++ pseed b ++ rdata2 b.
Definition as_slice (H : HDataEnv) : list Z := d1 H :: d2 H :: body_slice (body H).

(** [set_expire]: the loop runs from index 3 down, taking the low byte of [x] each time. *)
Fixpoint set_expire_loop (n : nat) (x : Z) (e : list Z) : list Z :=
  match n with
  | O => e
  | S i => set_expire_loop i (Z.shiftr x 8) (<[i := Z.land x 255]> e)
  end.
Definition set_expire (x : Z) (b : HData) : HData :=
  with_expire (set_expire_loop 4 x (expire b)) b.

(** [inc]: [for (long i = 31; !(rdata1[i] = ++(rdata2[i])); --i)].  [n] is [i + 1]; with
    [n = 0] the code would write outside the two arrays, which C++ leaves undefined. *)
Fixpoint inc_loop (n : nat) (r1 r2 : list Z) : option (list Z * list Z) :=
  match n with
  | O => None
  | S i =>
      let x := u8 (r2 !!! i + 1) in
      let r2' := <[i := x]> r2 in
      let r1' := <[i := x]> r1 in
      if x =? 0 then inc_loop i r1' r2' else Some (r1', r2')
  end.
Definition inc (b : HData) : option HData :=
  match inc_loop 32 (rdata1 b) (rdata2 b) with
  | Some (r1, r2) => Some (with_rdata r1 r2 b)
  | None => None
  end.

(** [block::StdAddress], as far as [init] reads it. *)
Record StdAddress := mkStdAddress { addr : list Z; workchain : Z; bounceable : bool }.

(** [HDataEnv::init] on a freshly constructed object; [random] is what
    [td::Random::secure_bytes] puts into [rdata1] ([None] in a GPU build, which leaves the
    field zero).  [CHECK] aborts. *)
Definition init (my_address : StdAddress) (seed : list Z) (random : option (list Z)) : option HDataEnv :=
  if (length seed =? 16)%nat then
    let r1 := default (replicate 32 0) random in
    Some (mkHDataEnv 0 (u8 (sizeof_HData * 2))
      (mkHData [77; 105; 110; 101]
        (s8 (s32 (workchain my_address * 4 + Z.b2z (bounceable my_address))))
        (replicate 4 0) (take 32 (addr my_address)) r1 seed r1))
  else None.

(** The layout invariant: every array has its size and holds bytes. *)
Record body_ok (b : HData) : Prop := {
  op_ok : length (op b) = 4%nat /\ bytes (op b);
  expire_ok : length (expire b) = 4%nat /\ bytes (expire b);
  myaddr_ok : length (myaddr b) = 32%nat /\ bytes (myaddr b);
  rdata1_ok : length (rdata1 b) = 32%nat /\ bytes (rdata1 b);
  pseed_ok : length (pseed b) = 16%nat /\ bytes (pseed b);
  rdata2_ok : length (rdata2 b) = 32%nat /\ bytes (rdata2 b);
}.
Definition env_ok (H : HDataEnv) : Prop := is_byte (d1 H) /\ is_byte (d2 H) /\ body_ok (body H).

(** The specification of the message with random field [v] and expiry [e]. *)
Definition candidate_body (b : HData) (v e : Z) : HData :=
  mkHData (op b) (flags b) (be_split 4 e) (myaddr b) (be_split 32 v) (pseed b) (be_split 32 v).
Definition candidate (H : HDataEnv) (v e : Z) : HDataEnv := set_body (fun b => candidate_body b v e) H.

(** ** Lemmas *)

Lemma as_slice_length H : env_ok H -> length (as_slice H) = 123%nat.
Proof.
  intros (_ & _ & [[? _] [? _] [? _] [? _] [? _] [? _]]). unfold as_slice, body_slice.
  simpl. rewrite !length_app. simpl. rewrite !length_app. lia.
Qed.

Lemma as_slice_bytes H : env_ok H -> bytes (as_slice H).
Proof.
  intros (? & ? & [[_ ?] [_ ?] [_ ?] [_ ?] [_ ?] [_ ?]]). unfold as_slice, body_slice.
  do 2 (apply Forall_cons_2; [done|]).
  rewrite !Forall_app. split; [done|]. split; [|done].
  apply Forall_singleton. apply (wrapu_range 8). lia.
Qed.

Lemma with_rdata_ok b r1 r2 : body_ok b -> length r1 = 32%nat -> bytes r1 -> length r2 = 32%nat -> bytes r2 ->
  body_ok (with_rdata r1 r2 b).
Proof. intros []. by constructor. Qed.

Lemma candidate_ok H v e : env_ok H -> env_ok (candidate H v e).
Proof.
  intros (? & ? & []). split; [done|split; [done|]].
  constructor; try done; (split; [apply length_be_split|apply be_split_bytes]).
Qed.

Lemma land_255 x : Z.land x 255 = x mod 256.
Proof. by change 255 with (Z.ones 8); rewrite Z.land_ones by lia. Qed.

Lemma be_split_4 x : be_split 4 x
  = [x / 256 / 256 / 256 mod 256; x / 256 / 256 mod 256; x / 256 mod 256; x mod 256].
Proof. done. Qed.

Lemma set_expire_eq x b : length (expire b) = 4%nat -> set_expire x b = with_expire (be_split 4 x) b.
Proof.
  intros Hl. unfold set_expire. f_equal. remember (expire b) as e eqn:E. clear E.
  explode e Hl. rewrite be_split_4. cbn [set_expire_loop].
  rewrite !land_255, !Z.shiftr_div_pow2 by lia. done.
Qed.

Lemma be_split_mod n x m : 0 <= n -> be_split (Z.to_nat n) (x mod 256 ^ (n + Z.of_nat m)) = be_split (Z.to_nat n) x.
Proof.
  intros Hn. apply be_combine_inj; try apply be_split_bytes; [by rewrite !length_be_split|].
  rewrite !be_combine_split. rewrite Z2Nat.id by lia.
  rewrite Z.pow_add_r by lia. rewrite Z.rem_mul_r by lia.
  rewrite (Z.mul_comm (256 ^ n)), Z.mod_add by lia. apply Z.mod_mod. lia.
Qed.

(** A carry: the bytes from [i] on after adding one to a number whose later bytes are zero. *)
Lemma inc_loop_eq n l k :
  length l = n -> bytes l -> be_combine l + 1 < 256 ^ Z.of_nat n ->
  inc_loop n (l ++ replicate k 0) (l ++ replicate k 0)
  = Some (be_split n (be_combine l + 1) ++ replicate k 0, be_split n (be_combine l + 1) ++ replicate k 0).
Proof.
  revert l k. induction n as [|n IH]; intros l k Hl Hb Hv.
  { destruct l; [|done]. change (be_combine []) with 0 in Hv. simpl in Hv. lia. }
  destruct l as [|b l _] using rev_ind; [done|].
  rewrite length_app in Hl. simpl in Hl. assert (length l = n) as Hn by lia. clear Hl.
  rewrite Forall_app, Forall_singleton in Hb. destruct Hb as [Hb Hx]. unfold is_byte in Hx.
  rewrite be_combine_snoc, Nat2Z.inj_succ, Z.pow_succ_r in * by lia.
  rewrite <- !(assoc_L (++)). cbn [inc_loop].
  rewrite lookup_total_app_r, Hn, Nat.sub_diag by lia. cbn [app lookup_total list_lookup_total].
  rewrite !insert_app_r_alt by lia. rewrite Hn, Nat.sub_diag. cbn [insert list_insert].
  cbn [be_split]. rewrite <- !(assoc_L (++)). unfold wrapu. change (2 ^ 8) with 256.
  destruct (decide (b = 255)) as [->|Hne].
  - cbn [app]. change ((255 + 1) mod 256) with 0. cbn [Z.eqb].
    replace (be_combine l * 256 + 255 + 1) with ((be_combine l + 1) * 256) by lia.
    rewrite Z.div_mul, Z.mod_mul by lia. change (0 :: replicate k 0) with (replicate (S k) 0).
    apply IH; [done|done|]. lia.
  - rewrite Z.mod_small by lia. destruct (Z.eqb_spec (b + 1) 0) as [|_]; [lia|].
    replace (be_combine l * 256 + b + 1) with ((b + 1) + be_combine l * 256) by lia.
    rewrite Z.div_add, Z.mod_add, Z.div_small, Z.mod_small, Z.add_0_l by lia.
    rewrite <- Hn, be_split_combine by done. done.
Qed.

Lemma inc_eq b : length (rdata1 b) = 32%nat -> bytes (rdata1 b) -> rdata2 b = rdata1 b ->
  be_combine (rdata1 b) + 1 < 2 ^ 256 ->
  inc b = Some (with_rdata (be_split 32 (be_combine (rdata1 b) + 1)) (be_split 32 (be_combine (rdata1 b) + 1)) b).
Proof.
  intros Hl Hb E Hv. unfold inc. rewrite E.
  pose proof (inc_loop_eq 32 (rdata1 b) 0 Hl Hb Hv) as H. cbn [replicate] in H.
  rewrite !app_nil_r in H. rewrite H. done.
Qed.

Lemma inc_overflow b : rdata2 b = replicate 32 255 -> rdata1 b = rdata2 b -> inc b = None.
Proof. intros E1 E2. unfold inc. rewrite E2, E1. done. Qed.

(** ** [build_mine_result] ([Miner.cpp]) *)

(** The big-endian number in bytes 24 to 31 of the random field of GPU thread row [vcpu],
    as the code assembles it with 64-bit shifts. *)
Definition rdata_low8 (rdata : list Z) (vcpu : nat) : Z :=
  let at_ i := rdata !!! (32 * vcpu + i)%nat in
  Z.lor (Z.lor (Z.lor (Z.lor (Z.lor (Z.lor (Z.lor
    (u64 (Z.shiftl (at_ 24%nat) (8 * 7))) (u64 (Z.shiftl (at_ 25%nat) (8 * 6))))
    (u64 (Z.shiftl (at_ 26%nat) (8 * 5)))) (u64 (Z.shiftl (at_ 27%nat) (8 * 4))))
    (u64 (Z.shiftl (at_ 28%nat) (8 * 3)))) (u64 (Z.shiftl (at_ 29%nat) (8 * 2))))
    (u64 (Z.shiftl (at_ 30%nat) (8 * 1)))) (at_ 31%nat).

Section BuildMineResult.
Context {L : Sha256Lib}.

(** The message with the reported nonce and expiry time filled in. *)
Definition result_env (H : HDataEnv) (rdata : list Z) (nonce vcpu expired : Z) : HDataEnv :=
  let v := Z.to_nat vcpu in
  let r := u64 (rdata_low8 rdata v + nonce) in
  let r1 := take 24 (drop (32 * v) rdata)
            ++ [u8 (Z.shiftr r (7 * 8)); u8 (Z.shiftr r (6 * 8)); u8 (Z.shiftr r (5 * 8));
                u8 (Z.shiftr r (4 * 8)); u8 (Z.shiftr r (3 * 8)); u8 (Z.shiftr r (2 * 8));
                u8 (Z.shiftr r (1 * 8)); u8 r] in
  set_body (fun b => set_expire expired (with_rdata r1 r1 b)) H.

(** The solution is the body of the message; [None] is "OVERCLOCK DETECTED". *)
Definition build_mine_result (H : HDataEnv) (complexity rdata : list Z) (nonce vcpu expired : Z)
  : option (list Z) :=
  let H' := result_env H rdata nonce vcpu expired in
  let hash := SHA256_Final (SHA256_Update SHA256_Init (as_slice H')) in
  if memcmp hash complexity <? 0 then Some (body_slice (body H')) else None.

End BuildMineResult.

(** The random field of row [vcpu] as a number, its low 64 bits advanced by [nonce]. *)
Definition row (rdata : list Z) (vcpu : nat) : list Z := take 32 (drop (32 * vcpu) rdata).
Definition advance (r : list Z) (nonce : Z) : Z :=
  be_combine (take 24 r) * 2 ^ 64 + (be_combine (drop 24 r) + nonce) mod 2 ^ 64.

Lemma lor_shift_byte k a b : 0 <= k -> 0 <= b < 2 ^ k -> Z.lor (Z.shiftl a k) b = a * 2 ^ k + b.
Proof. intros. by rewrite Z.shiftl_mul_pow2, lor_disjoint by lia. Qed.

Lemma be_combine_8 x0 x1 x2 x3 x4 x5 x6 x7 : bytes [x0; x1; x2; x3; x4; x5; x6; x7] ->
  Z.lor (Z.lor (Z.lor (Z.lor (Z.lor (Z.lor (Z.lor
    (u64 (Z.shiftl x0 56)) (u64 (Z.shiftl x1 48))) (u64 (Z.shiftl x2 40)))
    (u64 (Z.shiftl x3 32))) (u64 (Z.shiftl x4 24))) (u64 (Z.shiftl x5 16)))
    (u64 (Z.shiftl x6 8))) x7 = be_combine [x0; x1; x2; x3; x4; x5; x6; x7].
Proof.
  intros H. forall_split. unfold is_byte in *.
  rewrite !Z.shiftl_mul_pow2 by lia.
  rewrite !wrapu_small by lia. rewrite <- !(Z.lor_assoc).
  rewrite (lor_disjoint 8 x6) by lia.
  rewrite (lor_disjoint 16 x5) by lia.
  rewrite (lor_disjoint 24 x4) by lia.
  rewrite (lor_disjoint 32 x3) by lia.
  rewrite (lor_disjoint 40 x2) by lia.
  rewrite (lor_disjoint 48 x1) by lia.
  rewrite (lor_disjoint 56 x0) by lia.
  unfold be_combine. simpl. lia.
Qed.

Lemma be_split_8 r : 
  [u8 (Z.shiftr r (7 * 8)); u8 (Z.shiftr r (6 * 8)); u8 (Z.shiftr r (5 * 8));
   u8 (Z.shiftr r (4 * 8)); u8 (Z.shiftr r (3 * 8)); u8 (Z.shiftr r (2 * 8));
   u8 (Z.shiftr r (1 * 8)); u8 r] = be_split 8 r.
Proof.
  cbn [be_split app]. unfold wrapu. rewrite !Z.shiftr_div_pow2 by lia.
  rewrite !Z.div_div by lia. done.
Qed.

Lemma row_total rdata vcpu i : (32 * vcpu + 32 <= length rdata)%nat -> (i < 32)%nat ->
  rdata !!! (32 * vcpu + i)%nat = row rdata vcpu !!! i.
Proof.
  intros H Hi. unfold row. rewrite <- lookup_total_drop.
  rewrite <- (take_drop 32 (drop (32 * vcpu) rdata)) at 1.
  apply lookup_total_app_l. rewrite length_take, length_drop. lia.
Qed.

Lemma row_length rdata vcpu : (32 * vcpu + 32 <= length rdata)%nat -> length (row rdata vcpu) = 32%nat.
Proof. intros. unfold row. rewrite length_take, length_drop. lia. Qed.

Lemma row_bytes rdata vcpu : bytes rdata -> bytes (row rdata vcpu).
Proof. intros. by apply Forall_take, Forall_drop. Qed.

Lemma rdata_low8_row rdata vcpu : bytes rdata -> (32 * vcpu + 32 <= length rdata)%nat ->
  rdata_low8 rdata vcpu = be_combine (drop 24 (row rdata vcpu)).
Proof.
  intros Hb Hl. unfold rdata_low8. rewrite !row_total by lia.
  pose proof (row_length _ _ Hl) as Hr. pose proof (row_bytes _ vcpu Hb) as Hrb. clear Hb Hl.
  remember (row rdata vcpu) as l eqn:E. clear E. explode l Hr. forall_split.
  cbn [lookup_total list_lookup_total drop Z.mul Pos.mul].
  apply be_combine_8. forall_intro ltac:(done).
Qed.

Lemma advance_range r nonce : length r = 32%nat -> bytes r -> 0 <= advance r nonce < 2 ^ 256.
Proof.
  intros Hl Hb. unfold advance.
  pose proof (be_combine_range (take 24 r) (Forall_take _ _ _ Hb)) as H1.
  rewrite length_take, Hl in H1. change (256 ^ Z.of_nat (24 `min` 32)) with (2 ^ 192) in H1.
  pose proof (Z.mod_pos_bound (be_combine (drop 24 r) + nonce) (2 ^ 64)). lia.
Qed.

(** The bytes of the advanced row: the nonce only reaches the last eight. *)
Lemma advance_split r nonce : length r = 32%nat -> bytes r ->
  be_split 32 (advance r nonce) = take 24 r ++ be_split 8 (be_combine (drop 24 r) + nonce).
Proof.
  intros Hl Hb. change 32%nat with (24 + 8)%nat. rewrite be_split_app.
  change (256 ^ Z.of_nat 8) with (2 ^ 64). unfold advance.
  pose proof (Z.mod_pos_bound (be_combine (drop 24 r) + nonce) (2 ^ 64) ltac:(lia)). f_equal.
  - rewrite Z.div_add_l, Z.div_small, Z.add_0_r by lia.
    etransitivity; [|by apply be_split_combine, Forall_take]. f_equal. rewrite length_take, Hl. done.
  - change 8%nat with (Z.to_nat 8). etransitivity; [|by apply (be_split_mod 8 _ 0)].
    etransitivity; [symmetry; by apply (be_split_mod 8 _ 0)|]. f_equal.
    change (256 ^ (8 + Z.of_nat 0)) with (2 ^ 64).
    rewrite (Z.add_comm (_ * _)), Z.mod_add by lia. apply Z.mod_mod. lia.
Qed.

(** The message that [build_mine_result] checks is the candidate with the advanced row. *)
Lemma result_env_candidate H rdata nonce vcpu expired :
  env_ok H -> bytes rdata -> 0 <= vcpu -> 32 * vcpu + 32 <= Z.of_nat (length rdata) ->
  result_env H rdata nonce vcpu expired
  = candidate H (advance (row rdata (Z.to_nat vcpu)) nonce) expired.
Proof.
  intros Hok Hb Hv Hl. unfold result_env, candidate, candidate_body. set (v := Z.to_nat vcpu) in *.
  rewrite rdata_low8_row by (done || lia). rewrite be_split_8.
  rewrite advance_split by (by apply row_bytes || by apply row_length; lia).
  set (r := be_combine (drop 24 (row rdata v)) + nonce).
  assert (be_split 8 (u64 r) = be_split 8 r) as -> by apply (be_split_mod 8 r 0 ltac:(lia)).
  assert (take 24 (drop (32 * v) rdata) = take 24 (row rdata v)) as -> by (unfold row; by rewrite take_take).
  unfold set_body. f_equal. rewrite set_expire_eq; [done|]. by destruct Hok as (_ & _ & [? [? _] ? ? ? ?]).
Qed.

(** The digest of a message that [as_slice] produces. *)
Definition env_hash (H : HDataEnv) : list Z := Fips.sha256 (as_slice H).

Lemma block_count_123 l : length l = 123%nat -> Fips.block_count l = 3%nat.
Proof. intros E. unfold Fips.block_count. rewrite E. done. Qed.

Lemma env_hash_bytes H : bytes (env_hash H).
Proof. apply digest_bytes. Qed.

Lemma env_hash_streaming {L : Sha256Lib} {S : Sha256Spec L} H : env_ok H ->
  SHA256_Final (SHA256_Update SHA256_Init (as_slice H)) = env_hash H.
Proof.
  intros Hok. pose proof (sha256_streaming [as_slice H]) as E. cbn [foldl concat] in E.
  rewrite app_nil_r in E. rewrite as_slice_length in E by done.
  apply E; [by apply as_slice_bytes|done].
Qed.

(** The proof-of-work condition: the digest, as a 256-bit number, is below the target. *)
Definition solves (H : HDataEnv) (complexity : list Z) : bool :=
  memcmp (env_hash H) complexity <? 0.

(** ** Properties *)

Section Properties.

(** C2. [HData::inc] counts: from equal random fields holding the 256-bit number [v] it
    stores [v + 1] in both, and it leaves its arrays exactly when [v] is the largest one. *)
Theorem inc_counts b v : rdata1 b = be_split 32 v -> rdata2 b = be_split 32 v -> 0 <= v < 2 ^ 256 ->
  (v + 1 < 2 ^ 256 -> inc b = Some (with_rdata (be_split 32 (v + 1)) (be_split 32 (v + 1)) b))
  /\ (inc b = None <-> v + 1 = 2 ^ 256).
Proof.
  intros E1 E2 Hv. assert (be_combine (rdata1 b) = v) as Ev.
  { rewrite E1, be_combine_split. by apply Z.mod_small. }
  assert (v + 1 < 2 ^ 256 ->
    inc b = Some (with_rdata (be_split 32 (v + 1)) (be_split 32 (v + 1)) b)) as HS.
  { intros Hlt. rewrite <- Ev. apply inc_eq; try rewrite E1; [done|apply be_split_bytes|done|].
    rewrite <- E1, Ev. done. }
  split; [done|split].
  - intros Hn. destruct (decide (v + 1 < 2 ^ 256)); [|lia]. rewrite HS in Hn by done. done.
  - intros Hm. assert (v = 2 ^ 256 - 1) as -> by lia. apply inc_overflow; [|by rewrite E1, E2].
    rewrite E2. reflexivity.
Qed.

Lemma inc_counts_witness :
  inc (mkHData [] 0 [] [] (be_split 32 65535) [] (be_split 32 65535))
  = Some (mkHData [] 0 [] [] (be_split 32 65536) [] (be_split 32 65536)).
Proof. apply (inc_counts (mkHData [] 0 [] [] (be_split 32 65535) [] (be_split 32 65535)) 65535); [reflexivity|reflexivity|lia|lia]. Defined.

Context {L : Sha256Lib} {S : Sha256Spec L}.

(** C3. [build_mine_result] is exact: it hashes the message whose random fields are row
    [vcpu] with its low 64 bits advanced by the nonce (wrapping, no carry above them), and
    returns that message's body if and only if its SHA-256 is below the target. *)
Theorem build_mine_result_correct H complexity rdata nonce vcpu expired :
  env_ok H -> bytes rdata -> 0 <= vcpu -> 32 * vcpu + 32 <= Z.of_nat (length rdata) ->
  let H' := candidate H (advance (row rdata (Z.to_nat vcpu)) nonce) expired in
  build_mine_result H complexity rdata nonce vcpu expired
  = (if solves H' complexity then Some (body_slice (body H')) else None).
Proof.
  intros Hok Hb Hv Hl H'. unfold build_mine_result.
  rewrite result_env_candidate by done. fold H'.
  rewrite env_hash_streaming by by apply candidate_ok. done.
Qed.

End Properties.

(** A message, for the witnesses. *)
Definition sample_env : HDataEnv :=
  default (mkHDataEnv 0 0 (mkHData [] 0 [] [] [] [] []))
    (init (mkStdAddress (replicate 32 7) (-1) true) (replicate 16 9) None).

Lemma sample_env_ok : env_ok sample_env.
Proof. split; [done|split; [done|]]. constructor; (split; [done|]); cbn; forall_intro ltac:(done). Qed.

Lemma build_mine_result_correct_witness :
  exists r, build_mine_result sample_env (replicate 32 255) (replicate 64 1) 5 1 1600000000 = Some r.
Proof.
  eexists. erewrite (build_mine_result_correct sample_env (replicate 32 255) (replicate 64 1) 5 1 1600000000).
  - vm_compute. reflexivity.
  - apply sample_env_ok.
  - apply Forall_replicate. done.
  - lia.
  - simpl. lia.
Defined.
