(* ===== verification/CpuMiner.v ===== *)
(** * The CPU miner: [Miner::run] ([crypto/util/Miner.cpp])

    The loop of [Miner::run] with its cached hash of the message prefix, the guard byte
    that says when the cache is stale, the periodic look at the cancellation token and the
    clock, and the accounting of the hashes.  The reference is a plain search that hashes
    every whole message.  Readings of the environment (token, clocks) are functions of the
    iteration that makes them: the loop reads each at most once per iteration. *)
From S2P Require Import Prelude Sha256 MineData.

(** ** The loop *)

(** What the options and the environment supply.  [clock i] is the value of
    [(unsigned)td::Clocks::system()] at iteration [i]; instants are integers. *)
Record Options := mkOptions {
  complexity : list Z;
  max_iterations : Z;
  expire_at : option Z;
  hashes_computed : option Z;      (* the shared counter, when there is one *)
  token_ : Z -> bool;
  now : Z -> Z;
  clock : Z -> Z;
}.

Definition is_in_past (at_ now : Z) : bool := at_ <=? now.

Definition prefix_size : nat := 72.
Definition head_slice (H : HDataEnv) : list Z := take prefix_size (as_slice H).
Definition tail_slice (H : HDataEnv) : list Z := drop prefix_size (as_slice H).
Definition head_back (H : HDataEnv) : Z := head_slice H !!! (prefix_size - 1)%nat.

(** [None] is the empty optional; the counter is the final value of [hashes_computed]. *)
Inductive outcome :=
| Returned (solution : option (list Z)) (counter : option Z)
| Undefined                        (* [inc] left its arrays *)
| OutOfFuel.

Section Run.
Context {L : Sha256Lib} (options : Options).

Record state := mkState {
  st_H : HDataEnv; st_ctx1 : SHA256_CTX; st_guard : Z;
  st_i : Z; st_i0 : Z; st_counter : option Z }.

(** [if (options.hashes_computed) *options.hashes_computed += i - i0] *)
Definition account (s : state) : option Z :=
  option_map (fun c => u64 (c + (st_i s - st_i0 s))) (st_counter s).

(** The block at the top of the loop body; [inr] is a [break]. *)
Definition refresh (s : state) : state + state :=
  if (Z.land (st_i s) 0xfffff =? 0) || negb (head_back (st_H s) =? st_guard s) then
    if token_ options (st_i s) then inr s
    else
      let s1 := mkState (st_H s) (st_ctx1 s) (st_guard s) (st_i s) (st_i s) (account s) in
      if match expire_at options with Some at_ => is_in_past at_ (now options (st_i s)) | None => false end
      then inr s1
      else
        let H' := set_body (set_expire (u32 (clock options (st_i s) + 900))) (st_H s) in
        inl (mkState H' (SHA256_Update SHA256_Init (head_slice H')) (head_back H')
               (st_i s) (st_i s) (account s))
  else inl s.

Fixpoint run_loop (fuel : nat) (s : state) : outcome :=
  match fuel with
  | O => OutOfFuel
  | S fuel' =>
      if st_i s <? max_iterations options then
        match refresh s with
        | inr s' => Returned None (account s')
        | inl s' =>
            let hash := SHA256_Final (SHA256_Update (st_ctx1 s') (tail_slice (st_H s'))) in
            if memcmp hash (complexity options) <? 0
            then Returned (Some (body_slice (body (st_H s')))) (account s')
            else match inc (body (st_H s')) with
                 | Some b =>
                     run_loop fuel' (mkState (set_body (fun _ => b) (st_H s')) (st_ctx1 s') (st_guard s')
                                       (st_i s' + 1) (st_i0 s') (st_counter s'))
                 | None => Undefined
                 end
        end
      else Returned None (account s)
  end.

(** One step of fuel per iteration and one for the last test of the loop. *)
Definition run_fuel : nat := S (Z.to_nat (max_iterations options)).

Definition run_from (H : HDataEnv) : outcome :=
  run_loop run_fuel (mkState H SHA256_Init (head_back H) 0 0 (hashes_computed options)).

(** [Miner::run]; [None] is a failed [CHECK]. *)
Definition run (my_address : StdAddress) (seed random : list Z) : option outcome :=
  option_map run_from (init my_address seed (Some random)).

End Run.

(** ** The reference search *)

Section Search.
Context (options : Options) (H : HDataEnv) (v : Z).

Definition timed_out (j : Z) : bool :=
  match expire_at options with Some at_ => is_in_past at_ (now options j) | None => false end.

(** The iterations that look at the environment: every [2 ^ 20]th one, and each one whose
    random number ends in 24 zero bits. *)
Definition looks (j : Z) : bool := (j mod 2 ^ 20 =? 0) || ((v + j) mod 2 ^ 24 =? 0).

(** [n] numbers from [v + j] on with the expiry [e]: the solution, if one is reached, and
    how many numbers failed before the search ended. *)
Fixpoint search (n : nat) (j e : Z) : option (Z * Z) * Z :=
  match n with
  | O => (None, j)
  | S n' =>
      if looks j && (token_ options j || timed_out j) then (None, j)
      else
        let e' := if looks j then u32 (clock options j + 900) else e in
        if solves (candidate H (v + j) e') (complexity options) then (Some (v + j, e'), j)
        else search n' (j + 1) e'
  end.

Definition search_outcome (r : option (Z * Z) * Z) : outcome :=
  Returned (option_map (fun p => body_slice (body (candidate H p.1 p.2))) r.1)
           (option_map (fun c => u64 (c + r.2)) (hashes_computed options)).
End Search.

(** ** The cached prefix *)

Lemma candidate_head H x e : env_ok H ->
  head_slice (candidate H x e)
  = [d1 H; d2 H] ++ op (body H) ++ [u8 (flags (body H))] ++ be_split 4 e ++ myaddr (body H)
    ++ be_split 29 (x / 2 ^ 24).
Proof.
  intros (_ & _ & [[Ho _] _ [Hm _] _ _ _]). unfold head_slice, prefix_size, as_slice, body_slice, candidate, set_body, candidate_body.
  cbn [d1 d2 body op flags expire myaddr rdata1 pseed rdata2].
  change (be_split 32 x) with (be_split (29 + 3) x). rewrite be_split_app.
  change (256 ^ Z.of_nat 3) with (2 ^ 24). set (y := be_split 29 _).
  assert (length y = 29%nat) as Hy by apply length_be_split.
  set (l := [d1 H; d2 H] ++ op (body H) ++ [u8 (flags (body H))] ++ be_split 4 e ++ myaddr (body H) ++ y).
  assert (length l = 72%nat) as Hl.
  { unfold l. rewrite !length_app, Ho, Hm, Hy, length_be_split. done. }
  rewrite <- Hl. transitivity (take (length l) (l ++ be_split 3 x ++ pseed (body H) ++ y ++ be_split 3 x)).
  - unfold l. rewrite <- !(assoc_L (++)). done.
  - apply take_app_length.
Qed.

Lemma candidate_head_back H x e : env_ok H -> head_back (candidate H x e) = x / 2 ^ 24 mod 256.
Proof.
  intros Hok. unfold head_back. rewrite candidate_head by done.
  set (z := x / 2 ^ 24). change (be_split 29 z) with (be_split 28 (z / 256) ++ [z mod 256]).
  destruct Hok as (_ & _ & [[Ho _] _ [Hm _] _ _ _]).
  rewrite !(assoc_L (++)). rewrite lookup_total_app_r.
  - rewrite !length_app, Ho, Hm, length_be_split. done.
  - rewrite !length_app, Ho, Hm, length_be_split. simpl. lia.
Qed.

(** Over one increment the guard byte changes exactly when the low 24 bits run over, and
    nothing before it changes otherwise. *)
Lemma guard_step x : 0 <= x ->
  ((x + 1) / 2 ^ 24 mod 256 =? x / 2 ^ 24 mod 256) = negb ((x + 1) mod 2 ^ 24 =? 0)
  /\ ((x + 1) mod 2 ^ 24 <> 0 -> (x + 1) / 2 ^ 24 = x / 2 ^ 24).
Proof.
  intros Hx. pose proof (Z.div_mod x (2 ^ 24) ltac:(lia)) as E.
  pose proof (Z.mod_pos_bound x (2 ^ 24) ltac:(lia)) as Hr.
  set (q := x / 2 ^ 24) in *. set (r := x mod 2 ^ 24) in *.
  destruct (decide (r = 2 ^ 24 - 1)) as [Hm|Hm].
  - assert (x + 1 = (q + 1) * 2 ^ 24) as -> by lia. rewrite Z.div_mul, Z.mod_mul by lia.
    split; [|done]. change (negb (0 =? 0)) with false. apply Z.eqb_neq. intros Ec.
    pose proof (Z.div_mod (q + 1) 256 ltac:(lia)). pose proof (Z.div_mod q 256 ltac:(lia)). lia.
  - assert (x + 1 = (r + 1) + q * 2 ^ 24) as -> by lia. rewrite Z.div_add, Z.mod_add by lia.
    rewrite (Z.div_small (r + 1)), (Z.mod_small (r + 1)), Z.add_0_l by lia. split; [|done].
    rewrite Z.eqb_refl. destruct (Z.eqb_spec (r + 1) 0); [lia|done].
Qed.

Lemma hash_cached {L : Sha256Lib} {S : Sha256Spec L} H : env_ok H ->
  SHA256_Final (SHA256_Update (SHA256_Update SHA256_Init (head_slice H)) (tail_slice H)) = env_hash H.
Proof.
  intros Hok. pose proof (sha256_streaming [head_slice H; tail_slice H]) as E.
  cbn [foldl concat] in E. unfold head_slice, tail_slice in *.
  rewrite app_nil_r, take_drop, as_slice_length in E by done.
  apply E; [by apply as_slice_bytes|done].
Qed.

Lemma candidate_set_expire H x e e' : 
  set_body (set_expire e') (candidate H x e) = candidate H x e'.
Proof. unfold candidate, set_body. f_equal. cbn [body]. by rewrite set_expire_eq by apply length_be_split. Qed.

Lemma candidate_inc H x e : 0 <= x -> x + 1 < 2 ^ 256 ->
  inc (body (candidate H x e)) = Some (body (candidate H (x + 1) e)).
Proof.
  intros Hx Hlt. cbn [candidate set_body body].
  assert (be_combine (be_split 32 x) = x) as Ev.
  { rewrite be_combine_split. apply Z.mod_small. change (256 ^ Z.of_nat 32) with (2 ^ 256). lia. }
  rewrite inc_eq; cbn [candidate_body rdata1 rdata2]; [by rewrite Ev|by rewrite length_be_split
    |apply be_split_bytes|done|by rewrite Ev].
Qed.

(** ** The loop refines the search *)

Section Refinement.
Context {L : Sha256Lib} {S : Sha256Spec L} (options : Options) (H : HDataEnv) (v : Z).
Context (H_ok : env_ok H) (v_nonneg : 0 <= v) (v_bound : v + max_iterations options < 2 ^ 256).

(** The message and the counter at iteration [i]. *)
Record base_inv (e : Z) (s : state) : Prop := {
  inv_H : st_H s = candidate H (v + st_i s) e;
  inv_i : 0 <= st_i s;
  inv_counter : st_counter s = option_map (fun c => u64 (c + st_i0 s)) (hashes_computed options);
}.

(** The cached context and the guard are those of the number [x]. *)
Definition cached (e x : Z) (s : state) : Prop :=
  st_ctx1 s = SHA256_Update SHA256_Init (head_slice (candidate H x e))
  /\ st_guard s = head_back (candidate H x e).

(** At the top of the body the cache belongs to the previous iteration, if there was one. *)
Definition loop_inv (e : Z) (s : state) : Prop :=
  base_inv e s /\ (0 < st_i s -> cached e (v + st_i s - 1) s).

Lemma account_inv e s : base_inv e s ->
  account s = option_map (fun c => u64 (c + st_i s)) (hashes_computed options).
Proof using Type.
  intros I. unfold account. rewrite (inv_counter _ _ I). destruct (hashes_computed options) as [c|]; [|done].
  simpl. f_equal. unfold wrapu. rewrite Z.add_mod_idemp_l by lia. f_equal. lia.
Qed.

Lemma looks_guard e s : loop_inv e s ->
  (Z.land (st_i s) 0xfffff =? 0) || negb (head_back (st_H s) =? st_guard s) = looks v (st_i s).
Proof using H_ok v_nonneg.
  intros [I C]. unfold looks. change 0xfffff with (Z.ones 20). rewrite Z.land_ones by lia.
  destruct (decide (st_i s = 0)) as [E|Hne]; [by rewrite E|].
  pose proof (inv_i _ _ I). destruct C as [_ ->]; [lia|].
  rewrite (inv_H _ _ I), !candidate_head_back by done.
  destruct (guard_step (v + st_i s - 1)) as [G _]; [lia|].
  rewrite (Z.sub_add 1) in G. rewrite G. by rewrite negb_involutive.
Qed.

(** What the block at the top of the body establishes, in the terms of the search. *)
Lemma refresh_spec e s : loop_inv e s ->
  if looks v (st_i s) && (token_ options (st_i s) || timed_out options (st_i s))
  then exists s', refresh options s = inr s' /\
       account s' = option_map (fun c => u64 (c + st_i s)) (hashes_computed options)
  else exists s', refresh options s = inl s' /\ st_i s' = st_i s /\
       let e' := if looks v (st_i s) then u32 (clock options (st_i s) + 900) else e in
       base_inv e' s' /\ cached e' (v + st_i s) s'.
Proof using H_ok v_nonneg.
  intros HI. pose proof HI as [I C]. pose proof (account_inv _ _ I) as Ha.
  unfold refresh. rewrite (looks_guard e) by done.
  destruct (looks v (st_i s)) eqn:El; simpl.
  - destruct (token_ options (st_i s)); simpl; [by eauto|].
    fold (timed_out options (st_i s)). destruct (timed_out options (st_i s)).
    + eexists; split; [done|]. unfold account at 1. cbn [st_counter st_i st_i0]. rewrite Ha.
      destruct (hashes_computed options); [|done]. simpl. f_equal.
      rewrite Z.sub_diag, Z.add_0_r. apply wrapu_small, wrapu_range. lia.
    + eexists; split; [done|]. simpl. split; [done|].
      rewrite (inv_H _ _ I), candidate_set_expire.
      split; [|done]. by destruct I.
  - exists s. split; [done|]. split; [done|]. split; [done|].
    unfold looks in El. apply orb_false_iff in El as [E1 E2].
    destruct (decide (st_i s = 0)) as [E|Hne]; [by rewrite E in E1|].
    pose proof (inv_i _ _ I). destruct C as [Hc Hg]; [lia|].
    destruct (guard_step (v + st_i s - 1)) as [_ G]; [lia|].
    rewrite (Z.sub_add 1) in G. apply Z.eqb_neq in E2. specialize (G E2).
    unfold cached. rewrite Hc, Hg, !candidate_head_back, !candidate_head by done. by rewrite G.
Qed.

Lemma run_loop_search n e s : loop_inv e s -> Z.of_nat n = max_iterations options - st_i s ->
  run_loop options (Datatypes.S n) s = search_outcome options H (search options H v n (st_i s) e).
Proof using H_ok v_nonneg v_bound S.
  revert e s. induction n as [|n IH]; intros e s HI Hn.
  { cbn [run_loop]. destruct (Z.ltb_spec (st_i s) (max_iterations options)); [lia|].
    destruct HI as [I _]. by rewrite (account_inv e) by done. }
  pose proof HI as [I _]. pose proof (inv_i _ _ I).
  remember (Datatypes.S n) as m eqn:Em. cbn [run_loop]. subst m. cbn [search].
  destruct (Z.ltb_spec (st_i s) (max_iterations options)); [|lia].
  pose proof (refresh_spec e s HI) as Hr.
  destruct (looks v (st_i s) && _).
  { destruct Hr as (s' & -> & ->). done. }
  destruct Hr as (s' & -> & Ei & I' & [Hc Hg]).
  remember (if looks v (st_i s) then _ else e) as e' eqn:He'. clear He'.
  rewrite Hc, (inv_H _ _ I'), Ei, hash_cached by by apply candidate_ok.
  fold (solves (candidate H (v + st_i s) e') (complexity options)).
  destruct (solves _ _).
  { unfold search_outcome. simpl. by rewrite (account_inv e'), Ei by done. }
  rewrite candidate_inc by lia.
  erewrite (IH e'); [cbn [st_i]; reflexivity| |cbn [st_i]; lia].
  split; [constructor|]; cbn [st_H st_i st_counter st_i0 st_ctx1 st_guard].
  - unfold set_body, candidate. f_equal. by rewrite Z.add_assoc.
  - lia.
  - by rewrite (inv_counter _ _ I').
  - intros _. replace (v + (st_i s + 1) - 1) with (v + st_i s) by lia. done.
Qed.
End Refinement.

(** ** Properties *)

Lemma init_candidate my_address seed random :
  length seed = 16%nat -> bytes seed -> (32 <= length (addr my_address))%nat -> bytes (addr my_address) ->
  length random = 32%nat -> bytes random ->
  exists H, init my_address seed (Some random) = Some H /\ env_ok H /\ H = candidate H (be_combine random) 0.
Proof.
  intros Hs Hsb Ha Hab Hr Hrb. unfold init. rewrite Hs. simpl. eexists; split; [done|]. split.
  - split; [done|]. split; [done|]. constructor; simpl; try done.
    + split; [done|]. forall_intro ltac:(done).
    + split; [done|]. forall_intro ltac:(done).
    + split; [rewrite length_take; lia|by apply Forall_take].
  - assert (be_split 32 (be_combine random) = random) as E by (rewrite <- Hr; by apply be_split_combine).
    unfold candidate, set_body, candidate_body.
    cbn [d1 d2 body op flags myaddr pseed default]. by rewrite E.
Qed.

(** The expiry a candidate carries when the search is never told to stop. *)
Fixpoint expiry (options : Options) (v : Z) (j : nat) : Z :=
  match j with
  | O => u32 (clock options 0 + 900)
  | S j' => if looks v (Z.of_nat j) then u32 (clock options (Z.of_nat j) + 900) else expiry options v j'
  end.

Lemma expiry_S options v j : expiry options v j =
  if looks v (Z.of_nat j) then u32 (clock options (Z.of_nat j) + 900) else expiry options v (pred j).
Proof. by destruct j. Qed.

(** A solution of the search is a number in its range that solves, the failures before it
    are counted, and an unsuccessful search stops at most at the end of its range. *)
Lemma search_sound options H v n j e :
  match search options H v n j e with
  | (Some (x, e'), k) => j <= k < j + Z.of_nat n /\ x = v + k /\ solves (candidate H x e') (complexity options) = true
  | (None, k) => j <= k <= j + Z.of_nat n
  end.
Proof.
  revert j e. induction n as [|n IH]; intros j e; cbn [search]; [lia|].
  destruct (_ && _); [lia|]. remember (if looks v j then _ else e) as e' eqn:E. clear E.
  destruct (solves _ _) eqn:Hs; [split; [lia|done]|].
  specialize (IH (j + 1) e'). destruct (search _ _ _ _ _ _) as [[[x e'']|] k].
  - destruct IH as (? & -> & ?). split; [lia|done].
  - lia.
Qed.

Section Undisturbed.
Context (options : Options) (H : HDataEnv) (v : Z).
Context (undisturbed : forall j, token_ options j = false /\ timed_out options j = false).

Definition good (j : nat) : bool := solves (candidate H (v + Z.of_nat j) (expiry options v j)) (complexity options).

Lemma search_step n j :
  search options H v (S n) (Z.of_nat j) (expiry options v (pred j)) =
  if good j then (Some (v + Z.of_nat j, expiry options v j), Z.of_nat j)
  else search options H v n (Z.of_nat (S j)) (expiry options v (pred (S j))).
Proof using undisturbed.
  cbn [search]. destruct (undisturbed (Z.of_nat j)) as [-> ->]. rewrite andb_false_r.
  rewrite <- expiry_S. unfold good. rewrite Nat2Z.inj_succ. done.
Qed.

Lemma search_first m n j : (forall i, (j <= i < j + m)%nat -> good i = false) -> good (j + m) = true -> (m < n)%nat ->
  search options H v n (Z.of_nat j) (expiry options v (pred j))
  = (Some (v + Z.of_nat (j + m), expiry options v (j + m)), Z.of_nat (j + m)).
Proof using undisturbed.
  revert n j. induction m as [|m IH]; intros [|n] j Hbad Hgood Hlt; try lia; rewrite search_step.
  - rewrite Nat.add_0_r in *. by rewrite Hgood.
  - rewrite Hbad by lia. rewrite (IH n (S j)).
    + by rewrite Nat.add_succ_comm.
    + intros i Hi. apply Hbad. lia.
    + by rewrite <- Nat.add_succ_comm in Hgood.
    + lia.
Qed.

Lemma search_none n j : (forall i, (j <= i < j + n)%nat -> good i = false) ->
  search options H v n (Z.of_nat j) (expiry options v (pred j)) = (None, Z.of_nat (j + n)).
Proof using undisturbed.
  revert j. induction n as [|n IH]; intros j Hbad; [by rewrite Nat.add_0_r|].
  rewrite search_step, Hbad by lia. rewrite IH; [by rewrite Nat.add_succ_comm|].
  intros i Hi. apply Hbad. lia.
Qed.
End Undisturbed.

Lemma run_from_search {L : Sha256Lib} {S : Sha256Spec L} options H v :
  env_ok H -> H = candidate H v 0 -> 0 <= v -> v + max_iterations options < 2 ^ 256 ->
  0 <= max_iterations options -> 
  (forall c, hashes_computed options = Some c -> 0 <= c < 2 ^ 64) ->
  run_from options H
  = search_outcome options H (search options H v (Z.to_nat (max_iterations options)) 0 0).
Proof.
  intros Hok Hc Hv Hb Hm Hcnt. unfold run_from, run_fuel.
  rewrite (run_loop_search options H v Hok Hv Hb _ 0).
  - done.
  - split; [|cbn; lia]. constructor; cbn; [by rewrite Z.add_0_r|lia|].
    destruct (hashes_computed options) as [c|] eqn:E; [|done]. simpl.
    by rewrite Z.add_0_r, wrapu_small by by apply Hcnt.
  - cbn. lia.
Qed.

Section Properties.
Context {L : Sha256Lib} {S : Sha256Spec L} (options : Options).
Context (my_address : StdAddress) (seed random : list Z).

(** What the callers supply: fields of their sizes, a bound on the iterations that keeps
    the random field from running over, a counter that is a 64-bit value. *)
Definition run_pre : Prop :=
  (length seed = 16%nat /\ bytes seed) /\ ((32 <= length (addr my_address))%nat /\ bytes (addr my_address)) /\
  (length random = 32%nat /\ bytes random) /\
  0 <= max_iterations options < 2 ^ 63 /\
  be_combine random + max_iterations options < 2 ^ 256 /\
  (forall c, hashes_computed options = Some c -> 0 <= c < 2 ^ 64).

(** C4. [Miner::run], with its cached prefix hash and guard byte, is the plain search that
    hashes every whole message: it ends within its fuel, never increments out of bounds,
    returns the body the search finds and adds to the shared counter exactly the numbers
    that failed. *)
Theorem run_refines_search : run_pre ->
  exists H, init my_address seed (Some random) = Some H /\
    run options my_address seed random
    = Some (search_outcome options H
        (search options H (be_combine random) (Z.to_nat (max_iterations options)) 0 0)).
Proof using S.
  intros ([Hs Hsb] & [Ha Hab] & [Hr Hrb] & Hm & Hb & Hc).
  destruct (init_candidate my_address seed random) as (H & Ei & Hok & EH); try done.
  exists H. split; [done|]. unfold run. rewrite Ei. cbn [option_map]. f_equal.
  pose proof (be_combine_range random Hrb). apply run_from_search; try done; lia.
Qed.

(** C5. A body that [Miner::run] returns is a proof of work: it is the body of a candidate
    whose random number is in the searched range and whose SHA-256 is below the target. *)
Theorem run_solution_valid b c : run_pre ->
  run options my_address seed random = Some (Returned (Some b) c) ->
  exists H x e, init my_address seed (Some random) = Some H /\
    b = body_slice (body (candidate H x e)) /\
    be_combine random <= x < be_combine random + max_iterations options /\
    memcmp (Fips.sha256 (0 :: 242 :: b)) (complexity options) < 0.
Proof using S.
  intros ([Hs Hsb] & [Ha Hab] & [Hr Hrb] & Hm & Hb & Hc).
  destruct (init_candidate my_address seed random) as (H & Ei & Hok & EH); try done.
  unfold run. rewrite Ei. cbn [option_map]. pose proof (be_combine_range random Hrb).
  rewrite (run_from_search options H (be_combine random)); try done; try lia.
  unfold search_outcome. intros E. injection E as E _.
  pose proof (search_sound options H (be_combine random) (Z.to_nat (max_iterations options)) 0 0) as Hx.
  destruct (search _ _ _ _ _ _) as [[[x e]|] k]; [|done]. cbn [fst snd option_map] in E. injection E as <-.
  destruct Hx as (? & -> & Hsol). exists H, (be_combine random + k), e.
  split; [done|]. split; [done|]. split; [lia|]. unfold solves in Hsol. apply Z.ltb_lt in Hsol.
  assert (d1 H = 0 /\ d2 H = 242) as [E1 E2].
  { unfold init in Ei. rewrite Hs in Ei. by injection Ei as <-. }
  unfold env_hash, as_slice in Hsol. cbn [candidate set_body d1 d2] in Hsol.
  rewrite E1, E2 in Hsol. exact Hsol.
Qed.

(** C6. Left undisturbed, [Miner::run] finds the first solution there is: it returns the
    body of the least candidate number that solves, or nothing after counting all of the
    range when none does. *)
Theorem run_finds_first : run_pre ->
  (forall j, token_ options j = false /\ timed_out options j = false) ->
  exists H, init my_address seed (Some random) = Some H /\
  (forall m, (m < Z.to_nat (max_iterations options))%nat ->
     (forall i, (i < m)%nat -> good options H (be_combine random) i = false) ->
     good options H (be_combine random) m = true ->
     run options my_address seed random
     = Some (Returned (Some (body_slice (body (candidate H (be_combine random + Z.of_nat m)
                               (expiry options (be_combine random) m)))))
               (option_map (fun c => u64 (c + Z.of_nat m)) (hashes_computed options)))) /\
  ((forall i, (i < Z.to_nat (max_iterations options))%nat -> good options H (be_combine random) i = false) ->
     run options my_address seed random
     = Some (Returned None
               (option_map (fun c => u64 (c + max_iterations options)) (hashes_computed options)))).
Proof using S.
  intros ([Hs Hsb] & [Ha Hab] & [Hr Hrb] & Hm & Hb & Hc) Hu.
  destruct (init_candidate my_address seed random) as (H & Ei & Hok & EH); try done.
  exists H. split; [done|]. set (n := Z.to_nat (max_iterations options)) in *.
  pose proof (be_combine_range random Hrb).
  assert (run options my_address seed random
    = Some (search_outcome options H (search options H (be_combine random) n 0 0))) as ->.
  { unfold run. rewrite Ei. cbn [option_map]. f_equal. apply run_from_search; try done; lia. }
  assert (search options H (be_combine random) n 0 0
    = search options H (be_combine random) n (Z.of_nat 0) (expiry options (be_combine random) (pred 0))) as ->.
  { destruct n; [done|]. by cbn. }
  split.
  - intros m Hlt Hbad Hgood. rewrite (search_first options H _ Hu m n 0); try done.
    intros i Hi. apply Hbad. lia.
  - intros Hbad. rewrite (search_none options H _ Hu n 0); [|intros i Hi; apply Hbad; lia].
    unfold search_outcome. simpl. unfold n. by rewrite Z2Nat.id by lia.
Qed.
End Properties.

(** Inputs for the witnesses: one digest in sixteen is below the target. *)
Definition sample_options : Options :=
  mkOptions (16 :: replicate 31 0) 40 (Some 100) (Some 7) (fun _ => false) (fun _ => 5) (fun _ => 1600000000).
Definition sample_address : StdAddress := mkStdAddress (replicate 32 7) (-1) true.

Definition sample_random : list Z := replicate 31 1 ++ [2].

Lemma sample_pre : run_pre sample_options sample_address (replicate 16 9) sample_random.
Proof.
  split; [split; [done|by apply Forall_replicate]|]. split; [split; [simpl; lia|by apply Forall_replicate]|].
  split; [split; [done|apply Forall_app; split; [by apply Forall_replicate|by forall_intro ltac:(done)]]|].
  split; [cbn; lia|]. split; [vm_compute; done|].
  intros c E. injection E as <-. lia.
Qed.

Lemma run_refines_search_witness :
  exists H, init sample_address (replicate 16 9) (Some sample_random) = Some H /\
    run sample_options sample_address (replicate 16 9) sample_random
    = Some (search_outcome sample_options H (search sample_options H (be_combine sample_random) 40 0 0)).
Proof.
  destruct (run_refines_search sample_options sample_address (replicate 16 9) sample_random sample_pre)
    as (H & E1 & E2). exists H. split; [exact E1|exact E2].
Defined.

Lemma run_finds_first_witness : exists b,
  run sample_options sample_address (replicate 16 9) sample_random = Some (Returned (Some b) (Some (7 + 8))).
Proof.
  destruct (run_finds_first sample_options sample_address (replicate 16 9) sample_random sample_pre)
    as (H & E & Hfirst & _); [split; reflexivity|].
  eexists. rewrite (Hfirst 8%nat); [reflexivity|cbn; lia| |].
  - intros i Hi. injection E as <-. repeat (destruct i as [|i]; [vm_compute; reflexivity|]). lia.
  - injection E as <-. vm_compute. reflexivity.
Defined.

Definition sample_body : list Z :=
  match run sample_options sample_address (replicate 16 9) sample_random with
  | Some (Returned (Some b) _) => b
  | _ => []
  end.

Lemma sample_run :
  run sample_options sample_address (replicate 16 9) sample_random
  = Some (Returned (Some sample_body) (Some 15)).
Proof. vm_compute. reflexivity. Qed.

Lemma run_solution_valid_witness : exists H x e,
  init sample_address (replicate 16 9) (Some sample_random) = Some H /\
  sample_body = body_slice (body (candidate H x e)) /\
  be_combine sample_random <= x < be_combine sample_random + max_iterations sample_options /\
  memcmp (Fips.sha256 (0 :: 242 :: sample_body)) (complexity sample_options) < 0.
Proof.
  exact (run_solution_valid sample_options sample_address (replicate 16 9) sample_random
           sample_body (Some 15) sample_pre sample_run).
Defined.
