(* ===== verification/Kernel.v ===== *)
(** * The GPU miner: [crypto/util/cruncher.h] and its OpenCL host

    The preparation of the kernel's constant data, the kernel, the concurrent publication
    of a result by the threads of one launch, [OpenCL::scan_hash] and the host loop
    [SHA256::run].  The kernel's arithmetic is that of module [Sha256.Cruncher]; the host
    is little-endian, as the code's pointer casts suppose. *)
From S2P Require Import Prelude Sha256 MineData.

(** ** Preparing the message *)

Definition MAX_GPU_THREADS : Z := 16.

Record ThreadData := mkThreadData { t_state : list Z; t_rdata : list Z }.
Record MsgData := mkMsgData { m_pseed : list Z; m_thrdata : list ThreadData; m_target : list Z }.

(** A 32-bit little-endian load at byte [off]. *)
Definition load32 (l : list Z) (off : nat) : Z :=
  Z.lor (Z.lor (Z.lor (l !!! off) (Z.shiftl (l !!! (off + 1)%nat) 8))
    (Z.shiftl (l !!! (off + 2)%nat) 16)) (Z.shiftl (l !!! (off + 3)%nat) 24).

(** [bitcredit_be32enc]: the four bytes stored at [pp]. *)
Definition bitcredit_be32enc (x : Z) : list Z :=
  [Z.land (Z.shiftr x 24) 0xff; Z.land (Z.shiftr x 16) 0xff; Z.land (Z.shiftr x 8) 0xff; Z.land x 0xff].

(** [bitcredit_be32enc(&word, *((const uint32_t * )(l + off)))], and the word read back. *)
Definition enc_word (l : list Z) (off : nat) : Z := load32 (bitcredit_be32enc (load32 l off)) 0.

(** The body of the loop over the GPU threads. *)
Definition prepare_thread (expired : Z) (data thr_rdata : list Z) : ThreadData :=
  let word1 := enc_word data (4 * 0x1) in
  let wordA := enc_word data (4 * 0xA) in
  let shadata :=
    [enc_word data 0;
     Z.lor (Z.land word1 0xFFFFFF00) (Z.shiftr expired 24);
     Z.lor (u32 (Z.shiftl expired 8)) (data !!! 11%nat)]
    ++ map (fun i => enc_word data (4 * i)) (seq 0x3 7)
    ++ [Z.lor (Z.land wordA 0xFFFFFF00) (thr_rdata !!! 0%nat)]
    ++ map (fun j => enc_word thr_rdata (1 + 4 * j)) (seq 0 5) in
  let word28 := enc_word thr_rdata 28 in
  let word16 := enc_word data (4 * 0x16) in
  mkThreadData (Cruncher.sha256_transform shadata Cruncher.h256)
    (map (fun j => enc_word thr_rdata (21 + 4 * j)) (seq 0 2)
     ++ [Z.lor (u32 (Z.shiftl word28 8)) (data !!! 75%nat);
         Z.lor (Z.land word16 0xFFFFFF00) (thr_rdata !!! 0%nat)]
     ++ map (fun j => enc_word thr_rdata (1 + 4 * j)) (seq 0 5)).

(** [None] when the loop would write past [thrdata[MAX_GPU_THREADS]]. *)
Definition bitcredit_prepare_msg (gpu_threads expired : Z) (data target rdata : list Z) : option MsgData :=
  if gpu_threads <=? MAX_GPU_THREADS then
    Some (mkMsgData
      (map (fun i => enc_word data (76 + 4 * i)) (seq 0 3))
      (map (fun t => prepare_thread expired data (drop (t * 32) rdata)) (seq 0 (Z.to_nat gpu_threads)))
      (map (fun i => enc_word target (4 * i)) (seq 0 8)))
  else None.

(** ** The kernel *)

(** The nonce a thread tries and the words of its second block. *)
Definition kernel_rdata (t : ThreadData) (nonce : Z) : Z :=
  u64 (Z.lor (Z.lor (u64 (Z.shiftl (t_rdata t !!! 0%nat) 56)) (u64 (Z.shiftl (t_rdata t !!! 1%nat) 24)))
         (Z.shiftr (t_rdata t !!! 2%nat) 8) + nonce).

Definition kernel_block (m_pseed : list Z) (t : ThreadData) (nonce : Z) : list Z :=
  let rdata := kernel_rdata t nonce in
  let rdata6 := Z.lor (u32 (Z.shiftr rdata 56)) (Z.land (t_rdata t !!! 0%nat) 0xFFFFFF00) in
  let rdata7 := u32 (Z.shiftr rdata 24) in
  let rdata10 := Z.lor (u32 (Z.shiftl rdata 8)) 0x80 in
  let rdata8 := Z.lor (u32 (Z.shiftl rdata 8)) (Z.land (t_rdata t !!! 2%nat) 0xFF) in
  [rdata6; rdata7; rdata8; m_pseed !!! 0%nat; m_pseed !!! 1%nat; m_pseed !!! 2%nat;
   t_rdata t !!! 3%nat; t_rdata t !!! 4%nat; t_rdata t !!! 5%nat; t_rdata t !!! 6%nat;
   t_rdata t !!! 7%nat; t_rdata t !!! 8%nat; rdata6; rdata7; rdata10; 0].

Definition length_block : list Z := replicate 15 0 ++ [0x3d8].

Definition kernel_state (m : MsgData) (t : ThreadData) (nonce : Z) : list Z :=
  Cruncher.sha256_transform length_block
    (Cruncher.sha256_transform (kernel_block (m_pseed m) t nonce) (t_state t)).

(** The comparison loop over the state words. *)
Fixpoint words_below (state target : list Z) : bool :=
  match state, target with
  | s :: state', t :: target' =>
      if t <? s then false else if s <? t then true else words_below state' target'
  | _, _ => false
  end.

(** What thread ([idx], [vcpu]) decides before it touches the shared result. *)
Definition thread_nonce (start_nonce idx : Z) : Z := u64 (start_nonce + idx).
Definition thread_hit (m : MsgData) (start_nonce idx : Z) (vcpu : nat) : bool :=
  match m_thrdata m !! vcpu with
  | Some t => words_below (kernel_state m t (thread_nonce start_nonce idx)) (m_target m)
  | None => false
  end.

(** ** Words of bytes *)

Lemma lor_add k a b : 0 <= k -> 0 <= b < 2 ^ k -> Z.lor b (Z.shiftl a k) = b + Z.shiftl a k.
Proof. intros. rewrite Z.lor_comm, Z.shiftl_mul_pow2, lor_disjoint by lia. lia. Qed.

Lemma load32_4 a b c d : bytes [a; b; c; d] -> load32 [a; b; c; d] 0 = a + b * 2 ^ 8 + c * 2 ^ 16 + d * 2 ^ 24.
Proof.
  intros H. forall_split. unfold is_byte in *. unfold load32. cbn [lookup_total list_lookup_total Nat.add].
  rewrite (lor_add 8 b a), (lor_add 16 c), (lor_add 24 d); rewrite ?Z.shiftl_mul_pow2 by lia; try lia.
Qed.

Lemma enc_word_4 a b c d : bytes [a; b; c; d] -> enc_word [a; b; c; d] 0 = be_combine [a; b; c; d].
Proof.
  intros H. unfold enc_word. rewrite (load32_4 a b c d) by done. forall_split. unfold is_byte in *.
  unfold bitcredit_be32enc. rewrite !land_255, !Z.shiftr_div_pow2 by lia.
  set (x := a + b * 2 ^ 8 + c * 2 ^ 16 + d * 2 ^ 24).
  assert (x / 2 ^ 24 mod 256 = d) as -> by (unfold x; Z.div_mod_to_equations; lia).
  assert (x / 2 ^ 16 mod 256 = c) as -> by (unfold x; Z.div_mod_to_equations; lia).
  assert (x / 2 ^ 8 mod 256 = b) as -> by (unfold x; Z.div_mod_to_equations; lia).
  assert (x mod 256 = a) as -> by (unfold x; Z.div_mod_to_equations; lia).
  rewrite load32_4 by (forall_intro ltac:(unfold is_byte; lia)).
  unfold be_combine. simpl. lia.
Qed.

Lemma enc_word_eq l off : bytes l -> (off + 4 <= length l)%nat ->
  enc_word l off = be_combine (take 4 (drop off l)).
Proof.
  intros Hb Hl. assert (enc_word l off = enc_word (take 4 (drop off l)) 0) as ->.
  { unfold enc_word. f_equal. f_equal. unfold load32.
    assert (forall k, (k < 4)%nat -> l !!! (off + k)%nat = take 4 (drop off l) !!! (0 + k)%nat) as E.
    { intros k Hk. rewrite <- lookup_total_drop. rewrite <- (take_drop 4 (drop off l)) at 1.
      apply lookup_total_app_l. rewrite length_take, length_drop. lia. }
    pose proof (E 0%nat) as E0. rewrite !Nat.add_0_r in E0. rewrite !E, E0 by lia. done. }
  assert (length (take 4 (drop off l)) = 4%nat) as H4 by (rewrite length_take, length_drop; lia).
  assert (bytes (take 4 (drop off l))) as Hb4 by by apply Forall_take, Forall_drop.
  remember (take 4 (drop off l)) as w eqn:E. clear E Hb Hl. explode w H4.
  by apply enc_word_4.
Qed.

Lemma be_combine_4 a b c d : be_combine [a; b; c; d] = a * 2 ^ 24 + b * 2 ^ 16 + c * 2 ^ 8 + d.
Proof. unfold be_combine. simpl. lia. Qed.

Lemma be_combine_4_word a b c d : bytes [a; b; c; d] -> is_word (be_combine [a; b; c; d]).
Proof. apply be_combine_range. Qed.

(** Replacing the last byte of a word, as the code does with a mask. *)
Lemma word_mask a b c d e : bytes [a; b; c; d] -> is_byte e ->
  Z.lor (Z.land (be_combine [a; b; c; d]) 0xFFFFFF00) e = be_combine [a; b; c; e].
Proof.
  intros H He. pose proof (be_combine_4_word _ _ _ _ H) as Hw. forall_split. unfold is_byte, is_word in *.
  change 0xFFFFFF00 with (2 ^ 32 - 2 ^ 8). rewrite (land_high 8) by lia.
  rewrite lor_disjoint by lia. rewrite !be_combine_4.
  assert ((a * 2 ^ 24 + b * 2 ^ 16 + c * 2 ^ 8 + d) / 2 ^ 8 = a * 2 ^ 16 + b * 2 ^ 8 + c) as ->
    by (Z.div_mod_to_equations; lia). lia.
Qed.

(** Shifting a word left by a byte and filling in the new last byte. *)
Lemma word_shift a b c d e : bytes [a; b; c; d] -> is_byte e ->
  Z.lor (u32 (Z.shiftl (be_combine [a; b; c; d]) 8)) e = be_combine [b; c; d; e].
Proof.
  intros H He. forall_split. unfold is_byte in *. rewrite Z.shiftl_mul_pow2, !be_combine_4 by lia.
  assert (u32 ((a * 2 ^ 24 + b * 2 ^ 16 + c * 2 ^ 8 + d) * 2 ^ 8) = (b * 2 ^ 16 + c * 2 ^ 8 + d) * 2 ^ 8) as ->.
  { unfold wrapu. Z.div_mod_to_equations. lia. }
  rewrite lor_disjoint by lia. lia.
Qed.

(** ** The kernel hashes the candidate message *)

(** The 64-bit number in eight bytes, cut into the words of the second block. *)
Lemma nonce_words y0 y1 y2 y3 y4 y5 y6 y7 : bytes [y0; y1; y2; y3; y4; y5; y6; y7] ->
  let N := be_combine [y0; y1; y2; y3; y4; y5; y6; y7] in
  u32 (Z.shiftr N 56) = y0 /\ u32 (Z.shiftr N 24) = be_combine [y1; y2; y3; y4]
  /\ u32 (Z.shiftl N 8) = be_combine [y5; y6; y7] * 2 ^ 8.
Proof.
  intros H N. forall_split. unfold is_byte in *. rewrite !Z.shiftr_div_pow2, Z.shiftl_mul_pow2 by lia.
  assert (N = ((y0 * 2 ^ 32 + be_combine [y1; y2; y3; y4]) * 2 ^ 24 + be_combine [y5; y6; y7])) as ->.
  { unfold N, be_combine. simpl. lia. }
  pose proof (be_combine_range [y1; y2; y3; y4]) as R1. pose proof (be_combine_range [y5; y6; y7]) as R2.
  simpl length in R1, R2.
  assert (bytes [y1; y2; y3; y4]) as B1 by (forall_intro ltac:(done)).
  assert (bytes [y5; y6; y7]) as B2 by (forall_intro ltac:(done)).
  specialize (R1 B1). specialize (R2 B2).
  set (p := be_combine [y1; y2; y3; y4]) in *. set (q := be_combine [y5; y6; y7]) in *.
  clearbody p q. change (256 ^ Z.of_nat 4) with (2 ^ 32) in *. change (256 ^ Z.of_nat 3) with (2 ^ 24) in *.
  unfold wrapu. split; [|split]; Z.div_mod_to_equations; lia.
Qed.

(** The nonce's start value, read from the first three prepared words. *)
Lemma start_words a b c d e f g h i j k l : bytes [a; b; c; d] -> bytes [e; f; g; h] -> bytes [i; j; k; l] ->
  Z.lor (Z.lor (u64 (Z.shiftl (be_combine [a; b; c; d]) 56)) (u64 (Z.shiftl (be_combine [e; f; g; h]) 24)))
    (Z.shiftr (be_combine [i; j; k; l]) 8)
  = be_combine [d; e; f; g; h; i; j; k].
Proof.
  intros H1 H2 H3. pose proof (be_combine_4_word _ _ _ _ H2) as Hw. forall_split. unfold is_byte, is_word in *.
  rewrite !Z.shiftl_mul_pow2, Z.shiftr_div_pow2 by lia.
  assert (be_combine [i; j; k; l] / 2 ^ 8 = be_combine [i; j; k]) as ->.
  { unfold be_combine. simpl. Z.div_mod_to_equations. lia. }
  assert (u64 (be_combine [a; b; c; d] * 2 ^ 56) = d * 2 ^ 56) as ->.
  { rewrite be_combine_4. unfold wrapu. Z.div_mod_to_equations. lia. }
  rewrite wrapu_small by lia.
  assert (0 <= be_combine [i; j; k] < 2 ^ 24) by (unfold be_combine; simpl; lia).
  rewrite <- Z.lor_assoc, (lor_disjoint 24), (lor_disjoint 56) by lia.
  unfold be_combine. simpl. lia.
Qed.

(** The three blocks of a padded 123-byte message. *)
Lemma hash_words_123 l : length l = 123%nat ->
  Fips.hash_words l =
  Fips.compress (Fips.compress (Fips.compress Cruncher.h256 (Fips.words 16 l))
    (Fips.words 16 (drop 64 l ++ [128; 0; 0; 0; 0]))) length_block.
Proof.
  intros Hl. unfold Fips.hash_words. rewrite block_count_123 by done. unfold Fips.pad. rewrite Hl.
  change (Z.to_nat ((- (Z.of_nat 123 + 9)) mod 64)) with 60%nat.
  change (be_split 8 (8 * Z.of_nat 123)) with [0; 0; 0; 0; 0; 0; 3; 216].
  explode l Hl. reflexivity.
Qed.

(** The expiry time, spread over two words. *)
Lemma expired_words expired e0 e1 e2 e3 m : is_word expired -> be_split 4 expired = [e0; e1; e2; e3] -> is_byte m ->
Z.shiftr expired 24 = e0 /\ Z.lor (u32 (Z.shiftl expired 8)) m = be_combine [e1; e2; e3; m].
Proof.
intros Hx E Hm. assert (expired = be_combine [e0; e1; e2; e3]) as Ev.
{ rewrite <- E, be_combine_split. symmetry. by apply Z.mod_small. }
pose proof (be_split_bytes 4 expired) as Hb. rewrite E in Hb. rewrite Ev. split; [|by apply word_shift].
forall_split. unfold is_byte in *. rewrite Z.shiftr_div_pow2, be_combine_4 by lia.
Z.div_mod_to_equations. lia.
Qed.

(** The first block and the words the kernel keeps of the rest of the message. *)
Lemma prepare_thread_words H r expired nonce :
  env_ok H -> length r = 32%nat -> bytes r -> is_word expired ->
  prepare_thread expired (as_slice H) r
  = mkThreadData (Cruncher.sha256_transform (Fips.words 16 (as_slice (candidate H (advance r nonce) expired))) Cruncher.h256)
      (map (fun j => be_combine (take 4 (drop (21 + 4 * j) r))) (seq 0 2)
       ++ [be_combine (drop 29 r ++ take 1 (pseed (body H)));
           be_combine (drop 13 (pseed (body H)) ++ take 1 r)]
       ++ map (fun j => be_combine (take 4 (drop (1 + 4 * j) r))) (seq 0 5)).
Proof.
  intros H_ok r_length r_bytes expired_word. unfold prepare_thread. pose proof (as_slice_bytes H H_ok) as Hd. pose proof (as_slice_length H H_ok) as Hl.
  rewrite !(enc_word_eq (as_slice H)) by (done || lia).
  rewrite !(enc_word_eq r) by (done || lia).
  cbn [map seq app].
  rewrite !(enc_word_eq (as_slice H)) by (done || lia).
  rewrite !(enc_word_eq r) by (done || lia).
  unfold candidate, candidate_body, set_body. rewrite advance_split by done. clear Hl Hd.
  pose proof (be_split_bytes 4 expired) as He. pose proof (length_be_split 4 expired) as Hel.
  destruct (be_split 4 expired) as [|e0 [|e1 [|e2 [|e3 [|]]]]] eqn:Ee; try discriminate Hel.
  clear Hel. destruct H as [h1 h2 [o f x m a p b]].
  destruct H_ok as (Hh1 & Hh2 & [[Ho Hob] [Hx Hxb] [Hm Hmb] [Ha Hab] [Hp Hpb] [Hb Hbb]]).
  cbn [body d1 d2 op flags expire myaddr rdata1 pseed rdata2] in *.
  unfold as_slice, body_slice. cbn [body d1 d2 op flags expire myaddr rdata1 pseed rdata2].
  assert (is_byte (u8 f)) as Hf by (apply (wrapu_range 8); lia).
  revert Hf. generalize (u8 f). clear f. intros f Hf.
  explode o Ho. explode x Hx. explode m Hm. explode a Ha. explode p Hp. explode b Hb. explode r r_length.
  forall_split.
  cbn [app take drop lookup_total list_lookup_total Nat.mul Nat.add Fips.words].
  match goal with |- context [Z.lor (u32 (Z.shiftl expired 8)) ?m] =>
    destruct (expired_words expired e0 e1 e2 e3 m) as [E1 E2]; [done..|] end.
  rewrite E1, E2, !word_mask, !word_shift; try done; forall_intro ltac:(done).
Qed.

Lemma candidate_tail H x e : env_ok H ->
  drop 64 (as_slice (candidate H x e)) = drop 21 (be_split 32 x) ++ pseed (body H) ++ be_split 32 x.
Proof.
  intros (_ & _ & [[Ho _] _ [Hm _] _ _ _]).
  unfold candidate, candidate_body, set_body, as_slice, body_slice.
  cbn [body d1 d2 op flags expire myaddr rdata1 pseed rdata2].
  set (l := [d1 H; d2 H] ++ op (body H) ++ [u8 (flags (body H))] ++ be_split 4 e ++ myaddr (body H)).
  assert (length l = 43%nat) as Hl by (unfold l; rewrite !length_app, Ho, Hm, length_be_split; done).
  transitivity (drop 64 (l ++ be_split 32 x ++ pseed (body H) ++ be_split 32 x)).
  - unfold l. by rewrite <- !(assoc_L (++)).
  - rewrite drop_app_ge, Hl by lia. apply drop_app_le. rewrite length_be_split. lia.
Qed.

(** The words of [pseed] that the preparation stores. *)
Lemma prepare_pseed H : env_ok H ->
  map (fun i => enc_word (as_slice H) (76 + 4 * i)) (seq 0 3)
  = map (fun i => be_combine (take 4 (drop (1 + 4 * i) (pseed (body H))))) (seq 0 3).
Proof.
  intros H_ok. pose proof (as_slice_bytes H H_ok) as Hd. pose proof (as_slice_length H H_ok) as Hl.
  cbn [map seq]. rewrite !(enc_word_eq (as_slice H)) by (done || lia). clear Hd Hl.
  destruct H_ok as (_ & _ & [[Ho _] [Hx _] [Hm _] [Ha _] [Hp _] _]). unfold as_slice, body_slice.
  set (l := [d1 H; d2 H] ++ op (body H) ++ [u8 (flags (body H))] ++ expire (body H) ++ myaddr (body H) ++ rdata1 (body H)).
  assert (length l = 75%nat) as Hl by (unfold l; rewrite !length_app, Ho, Hx, Hm, Ha; done).
  assert (d1 H :: d2 H :: op (body H) ++ [u8 (flags (body H))] ++ expire (body H) ++ myaddr (body H)
    ++ rdata1 (body H) ++ pseed (body H) ++ rdata2 (body H) = l ++ pseed (body H) ++ rdata2 (body H)) as ->.
  { unfold l. by rewrite <- !(assoc_L (++)). }
  rewrite !(drop_app_ge l), Hl by lia. clearbody l.
  revert Hp. generalize (pseed (body H)). intros p Hp. explode p Hp. reflexivity.
Qed.

(** The second block, from the row, the seed and the nonce. *)
Lemma kernel_block_words st p r nonce :
  length p = 16%nat -> bytes p -> length r = 32%nat -> bytes r ->
  kernel_block (map (fun i => be_combine (take 4 (drop (1 + 4 * i) p))) (seq 0 3))
    (mkThreadData st
      (map (fun j => be_combine (take 4 (drop (21 + 4 * j) r))) (seq 0 2)
       ++ [be_combine (drop 29 r ++ take 1 p); be_combine (drop 13 p ++ take 1 r)]
       ++ map (fun j => be_combine (take 4 (drop (1 + 4 * j) r))) (seq 0 5))) nonce
  = Fips.words 16 ((drop 21 (be_split 32 (advance r nonce)) ++ p ++ be_split 32 (advance r nonce)) ++ [128; 0; 0; 0; 0]).
Proof.
  intros Hp Hpb Hr Hrb. rewrite advance_split by done.
  set (N := be_combine (drop 24 r) + nonce).
  pose proof (be_split_bytes 8 N) as Hy. pose proof (length_be_split 8 N) as Hyl.
  assert (u64 N = be_combine (be_split 8 N)) as HN by (symmetry; apply be_combine_split).
  unfold N in HN at 1. clearbody N. revert Hy Hyl HN. generalize (be_split 8 N). clear N. intros y Hy Hyl HN.
  explode y Hyl. explode p Hp. explode r Hr.
  unfold kernel_block, kernel_rdata.
  cbn [t_rdata map seq app take drop lookup_total list_lookup_total Nat.mul Nat.add Fips.words] in *.
  forall_split.
  rewrite start_words by (forall_intro ltac:(done)). rewrite HN.
  match type of HN with _ = be_combine [?a; ?b; ?c; ?d; ?e; ?f; ?g; ?h] =>
    destruct (nonce_words a b c d e f g h) as (E1 & E2 & E3); [forall_intro ltac:(done)|] end.
  cbv zeta in E1, E2, E3. rewrite E1, E2, E3.
  assert (forall a b c d, bytes [a; b; c] -> is_byte d -> Z.lor (be_combine [a; b; c] * 2 ^ 8) d = be_combine [a; b; c; d]) as L3.
  { intros a b c d Ha Hd. unfold is_byte in Hd. rewrite lor_disjoint by lia. unfold be_combine. simpl. lia. }
  assert (forall a b c d, bytes [a; b; c; d] -> Z.land (be_combine [a; b; c; d]) 0xFF = d) as L4.
  { intros a b c d Ha. forall_split. unfold is_byte in *. rewrite land_255, be_combine_4. Z.div_mod_to_equations. lia. }
  assert (forall a b c d e, bytes [a; b; c; d] -> is_byte e ->
    Z.lor e (Z.land (be_combine [a; b; c; d]) 0xFFFFFF00) = be_combine [a; b; c; e]) as L5.
  { intros a b c d e Ha Hb. rewrite Z.lor_comm. by apply word_mask. }
  rewrite L4 by (forall_intro ltac:(done)). rewrite !L3 by (done || forall_intro ltac:(done)).
  rewrite L5 by (done || forall_intro ltac:(done)). reflexivity.
Qed.

Lemma words_word n l : (length l = 4 * n)%nat -> bytes l -> length (Fips.words n l) = n /\ Forall is_word (Fips.words n l).
Proof.
  revert l. induction n as [|n IH]; intros l Hl Hb; [done|].
  destruct (IH (drop 4 l)) as [E F]; [rewrite length_drop; lia|by apply Forall_drop|].
  cbn [Fips.words length]. split; [by rewrite E|]. constructor; [|done].
  pose proof (be_combine_range (take 4 l) (Forall_take _ _ _ Hb)) as R.
  rewrite length_take in R. replace (4 `min` length l)%nat with 4%nat in R by lia. exact R.
Qed.

Lemma words_take n l k : (4 * n <= k)%nat -> Fips.words n (take k l) = Fips.words n l.
Proof.
  revert l k. induction n as [|n IH]; intros l k Hk; [done|]. cbn [Fips.words].
  rewrite take_take, Nat.min_l by lia. f_equal.
  rewrite skipn_firstn_comm. apply IH. lia.
Qed.

Lemma h256_words : length Cruncher.h256 = 8%nat /\ Forall is_word Cruncher.h256.
Proof. split; [done|]. forall_intro ltac:(unfold is_word; lia). Qed.

Lemma length_block_words : length length_block = 16%nat /\ Forall is_word length_block.
Proof.
  split; [done|]. apply Forall_app; split; [by apply Forall_replicate|]. forall_intro ltac:(unfold is_word; lia).
Qed.

(** What the kernel computes for one nonce: the state words of the candidate's SHA-256. *)
Lemma kernel_state_words H r expired nonce m :
  env_ok H -> length r = 32%nat -> bytes r -> is_word expired ->
  m_pseed m = map (fun i => enc_word (as_slice H) (76 + 4 * i)) (seq 0 3) ->
  kernel_state m (prepare_thread expired (as_slice H) r) nonce
  = Fips.hash_words (as_slice (candidate H (advance r nonce) expired)).
Proof.
  intros H_ok Hr Hb He Hps. rewrite (prepare_thread_words _ _ _ nonce) by done.
  unfold kernel_state. rewrite Hps, prepare_pseed by done.
  pose proof H_ok as (_ & _ & [_ _ _ _ [Hp Hpb] _]).
  rewrite kernel_block_words by done. rewrite <- candidate_tail with (e := expired) by done.
  cbn [t_state]. set (c := candidate H (advance r nonce) expired).
  assert (env_ok c) as Hc by by apply candidate_ok.
  pose proof (as_slice_length c Hc) as Hl. pose proof (as_slice_bytes c Hc) as Hcb.
  rewrite hash_words_123 by done.
  destruct (words_word 16 (take 64 (as_slice c))) as [L1 F1]; [rewrite length_take; lia|by apply Forall_take|].
  rewrite words_take in L1, F1 by lia.
  destruct (words_word 16 (drop 64 (as_slice c) ++ [128; 0; 0; 0; 0])) as [L2 F2].
  { rewrite length_app, length_drop, Hl. done. }
  { apply Forall_app; split; [by apply Forall_drop|]. forall_intro ltac:(done). }
  destruct h256_words as [L0 F0].
  generalize dependent (Fips.words 16 (as_slice c)). intros b1 L1 F1.
  generalize dependent (Fips.words 16 (drop 64 (as_slice c) ++ [128; 0; 0; 0; 0])). intros b2 L2 F2.
  destruct (sha256_transform_words b1 Cruncher.h256) as (E1 & L3 & F3); [assumption..|]. rewrite <- E1.
  generalize dependent (Cruncher.sha256_transform b1 Cruncher.h256). intros s1 _ L3 F3.
  destruct (sha256_transform_words b2 s1) as (E2 & L4 & F4); [assumption..|]. rewrite <- E2.
  generalize dependent (Cruncher.sha256_transform b2 s1). intros s2 _ L4 F4.
  destruct (sha256_transform_words length_block s2) as (E3 & _); [apply length_block_words..|assumption|assumption|exact E3].
Qed.

(** ** The word comparison and [memcmp] agree *)

Lemma memcmp_split4 a b : is_word a -> is_word b ->
  memcmp (be_split 4 a) (be_split 4 b) = if a <? b then -1 else if b <? a then 1 else 0.
Proof.
  intros Ha Hb. rewrite memcmp_compare by (apply be_split_bytes || by rewrite !length_be_split).
  rewrite !be_combine_split. change (256 ^ Z.of_nat 4) with (2 ^ 32).
  by rewrite (Z.mod_small a), (Z.mod_small b).
Qed.

Lemma words_below_memcmp ws ts : length ws = length ts -> Forall is_word ws -> Forall is_word ts ->
  words_below ws ts = (memcmp (Fips.digest ws) (Fips.digest ts) <? 0).
Proof.
  revert ts. induction ws as [|w ws IH]; intros [|t ts] Hl Hw Ht; try done.
  apply Forall_cons_1 in Hw as [Hw Hws]. apply Forall_cons_1 in Ht as [Ht Hts].
  cbn [words_below]. unfold Fips.digest. rewrite !bind_cons, memcmp_app, memcmp_split4 by (done || by rewrite !length_be_split).
  destruct (Z.ltb_spec t w), (Z.ltb_spec w t); try lia; try done.
  simpl. apply IH; [simpl in Hl; lia|done|done].
Qed.

(** ** One launch: threads that share the result *)

Definition UINT64_MAX : Z := 2 ^ 64 - 1.
Definition UINT32_MAX : Z := 2 ^ 32 - 1.

Record DevHashResult := mkDev { dev_nonce : Z; dev_vcpu : Z; dev_found : Z }.

(** Where a thread is: before its [atomicAdd], between it and the two stores of the thread
    that saw zero, or at the end. *)
Inductive pc := Computing | StoringNonce | StoringVcpu | Done.

#[export] Instance pc_eq_dec : EqDecision pc.
Proof. solve_decision. Defined.

Section Launch.
Context (hit : Z -> nat -> bool) (nonce_of : Z -> Z).

(** A thread is its two global ids and its program counter. *)
Record thread := mkThread { th_idx : Z; th_vcpu : nat; th_pc : pc }.
Record launch := mkLaunch { l_result : DevHashResult; l_threads : list thread }.

Definition at_pc (t : thread) (p : pc) : thread := mkThread (th_idx t) (th_vcpu t) p.
Definition th_hit (t : thread) : bool := hit (th_idx t) (th_vcpu t).

(** The next atomic action of thread [t]: the new result and program counter. *)
Definition thread_action (t : thread) (r : DevHashResult) : option (DevHashResult * pc) :=
  match th_pc t with
  | Computing =>
      if th_hit t then
        Some (mkDev (dev_nonce r) (dev_vcpu r) (u32 (dev_found r + 1)),
              if dev_found r =? 0 then StoringNonce else Done)
      else Some (r, Done)
  | StoringNonce => Some (mkDev (nonce_of (th_idx t)) (dev_vcpu r) (dev_found r), StoringVcpu)
  | StoringVcpu => Some (mkDev (dev_nonce r) (Z.of_nat (th_vcpu t)) (dev_found r), Done)
  | Done => None
  end.

Definition step_thread (i : nat) (s : launch) : option launch :=
  match l_threads s !! i with
  | Some t =>
      match thread_action t (l_result s) with
      | Some (r, p) => Some (mkLaunch r (<[i := at_pc t p]> (l_threads s)))
      | None => None
      end
  | None => None
  end.

(** A schedule is the sequence of the threads that act. *)
Fixpoint run_schedule (sched : list nat) (s : launch) : option launch :=
  match sched with
  | [] => Some s
  | i :: sched' => match step_thread i s with Some s' => run_schedule sched' s' | None => None end
  end.

Definition finished (s : launch) : bool := forallb (fun t => bool_decide (th_pc t = Done)) (l_threads s).

(** A thread that has published a hit, for the counter. *)
Definition counted (t : thread) : bool := th_hit t && negb (bool_decide (th_pc t = Computing)).

(** How far the winning thread [w] has come with its two stores. *)
Definition stores (w : thread) (r : DevHashResult) : Prop :=
  match th_pc w with
  | Computing => False
  | StoringNonce => dev_nonce r = UINT64_MAX /\ dev_vcpu r = UINT32_MAX
  | StoringVcpu => dev_nonce r = nonce_of (th_idx w) /\ dev_vcpu r = UINT32_MAX
  | Done => dev_nonce r = nonce_of (th_idx w) /\ dev_vcpu r = Z.of_nat (th_vcpu w)
  end.

Definition idle (t : thread) : Prop := th_pc t = Computing \/ th_pc t = Done.

Record launch_inv (s : launch) : Prop := {
  inv_found : dev_found (l_result s) = count_if counted (l_threads s);
  inv_quiet : dev_found (l_result s) = 0 ->
    dev_nonce (l_result s) = UINT64_MAX /\ dev_vcpu (l_result s) = UINT32_MAX /\ Forall idle (l_threads s);
  inv_winner : dev_found (l_result s) <> 0 ->
    exists i w, l_threads s !! i = Some w /\ th_hit w = true /\ stores w (l_result s)
      /\ forall j t, j <> i -> l_threads s !! j = Some t -> idle t;
}.

(** Reading the thread list after thread [i] moved. *)
Lemma moved_other (l : list thread) i t p j u : (<[i := at_pc t p]> l) !! j = Some u -> j <> i -> l !! j = Some u.
Proof using Type. intros Hu Hj. by rewrite list_lookup_insert_ne in Hu. Qed.

Lemma moved_idle (l : list thread) i t p : Forall idle l -> p = Computing \/ p = Done -> Forall idle (<[i := at_pc t p]> l).
Proof using Type. intros Hl Hp. by apply Forall_insert. Qed.

(** A move that leaves the result alone and ends the thread, or keeps it idle. *)
Lemma quiet_move i t s r :
  launch_inv s -> l_threads s !! i = Some t -> th_pc t = Computing ->
  r = mkDev (dev_nonce (l_result s)) (dev_vcpu (l_result s)) (dev_found (l_result s) + Z.b2z (th_hit t)) ->
  (th_hit t = true -> dev_found (l_result s) <> 0) ->
  launch_inv (mkLaunch r (<[i := at_pc t Done]> (l_threads s))).
Proof using Type.
  intros [If Iq Iw] Et Ep -> Hh.
  pose proof (count_if_insert counted (l_threads s) i t (at_pc t Done) Et) as Hcount.
  pose proof (count_if_range counted (l_threads s)) as Hc.
  assert (counted t = false) as Ct by (unfold counted; rewrite Ep; by rewrite andb_false_r).
  assert (counted (at_pc t Done) = th_hit t) as Cd by (unfold counted; simpl; by rewrite andb_true_r).
  rewrite Ct, Cd in Hcount. constructor; cbn [l_result l_threads dev_found dev_nonce dev_vcpu].
  - rewrite Hcount, If. simpl. lia.
  - intros H0. destruct (th_hit t); simpl in H0; [lia|]. destruct Iq as (? & ? & ?); [lia|].
    split; [done|split; [done|]]. apply moved_idle; [done|by right].
  - intros H0. destruct Iw as (w & u & Eu & Hu & Hs & Ho).
    { destruct (th_hit t); simpl in H0; [by apply Hh|lia]. }
    exists w, u. destruct (decide (i = w)) as [->|Hne].
    { rewrite Et in Eu. injection Eu as <-. unfold stores in Hs. by rewrite Ep in Hs. }
    split; [by rewrite list_lookup_insert_ne|]. split; [done|]. split; [done|].
    intros j v Hj Hv. destruct (decide (j = i)) as [->|Hji].
    + rewrite list_lookup_insert_eq in Hv by by eapply lookup_lt_Some. injection Hv as <-. by right.
    + by eapply Ho, moved_other.
Qed.

(** A move of the winner [t]: no other thread is past its [atomicAdd] and still storing. *)
Lemma winner_move i t s r p :
  launch_inv s -> l_threads s !! i = Some t -> th_hit t = true ->
  (forall j u, j <> i -> l_threads s !! j = Some u -> idle u) ->
  p <> Computing -> 0 < dev_found r ->
  dev_found r = dev_found (l_result s) + (if bool_decide (th_pc t = Computing) then 1 else 0) ->
  stores (at_pc t p) r ->
  launch_inv (mkLaunch r (<[i := at_pc t p]> (l_threads s))).
Proof using Type.
  intros [If Iq Iw] Et Hh Ho Hp Hpos Hf Hs.
  pose proof (count_if_insert counted (l_threads s) i t (at_pc t p) Et) as Hcount.
  assert (counted (at_pc t p) = true) as Cp.
  { unfold counted, th_hit in *. simpl. rewrite Hh. by rewrite bool_decide_eq_false_2. }
  assert (Z.b2z (counted t) = 1 - (if bool_decide (th_pc t = Computing) then 1 else 0)) as Ct.
  { unfold counted. rewrite Hh. by destruct (bool_decide _). }
  rewrite Cp, Ct in Hcount. simpl in Hcount.
  constructor; cbn [l_result l_threads]; [lia|lia|].
  intros _. exists i, (at_pc t p).
  split; [apply list_lookup_insert_eq; by eapply lookup_lt_Some|]. split; [done|]. split; [done|].
  intros j u Hj Hu. eapply Ho; [exact Hj|]. by eapply moved_other.
Qed.

(** The winner is the only thread that is still storing. *)
Lemma storing_is_winner i t s :
  launch_inv s -> l_threads s !! i = Some t -> ~ idle t ->
  th_hit t = true /\ stores t (l_result s) /\ 0 < dev_found (l_result s)
  /\ forall j u, j <> i -> l_threads s !! j = Some u -> idle u.
Proof using Type.
  intros [If Iq Iw] Et Hn. pose proof (count_if_range counted (l_threads s)) as Hc.
  destruct (decide (dev_found (l_result s) = 0)) as [E0|Hne].
  - destruct (Iq E0) as (_ & _ & Hi). rewrite Forall_lookup in Hi. by destruct Hn; eapply Hi.
  - destruct (Iw Hne) as (w & u & Eu & Hu & Hs & Ho). destruct (decide (i = w)) as [->|Hd].
    + rewrite Et in Eu. injection Eu as <-. split; [done|]. split; [done|]. split; [lia|done].
    + by destruct Hn; eapply Ho.
Qed.

Lemma step_inv i s s' : Z.of_nat (length (l_threads s)) < 2 ^ 32 ->
  launch_inv s -> step_thread i s = Some s' ->
  launch_inv s' /\ length (l_threads s') = length (l_threads s).
Proof using Type.
  intros Hlen I. unfold step_thread. destruct (l_threads s !! i) as [t|] eqn:Et; [|done].
  destruct (thread_action t (l_result s)) as [[r p]|] eqn:Ea; [|done].
  intros E. injection E as <-. cbn [l_threads]. split; [|by rewrite length_insert].
  pose proof (count_if_range counted (<[i := at_pc t p]> (l_threads s))) as Hc. rewrite length_insert in Hc.
  pose proof (count_if_insert counted (l_threads s) i t (at_pc t p) Et) as Hcount.
  unfold thread_action in Ea. destruct (th_pc t) eqn:Ep.
  - destruct (th_hit t) eqn:Hh.
    2:{ injection Ea as <- <-. apply quiet_move; [done|done|done| |by rewrite Hh].
        rewrite Hh. simpl. rewrite Z.add_0_r. by destruct (l_result s). }
    assert (u32 (dev_found (l_result s) + 1) = dev_found (l_result s) + 1) as Ew.
    { apply wrapu_small. pose proof (inv_found _ I) as If. pose proof (count_if_range counted (l_threads s)).
      assert (counted t = false) as Ct by (unfold counted; rewrite Ep; by rewrite andb_false_r).
      assert (counted (at_pc t p) = true) as Cp.
      { unfold counted, th_hit in *. simpl. rewrite Hh. injection Ea as _ <-. by destruct (_ =? _). }
      rewrite Ct, Cp in Hcount. simpl in Hcount. lia. }
    rewrite Ew in Ea. destruct (Z.eqb_spec (dev_found (l_result s)) 0) as [E0|Hne]; injection Ea as <- <-.
    + destruct (inv_quiet _ I E0) as (E1 & E2 & Hi). apply winner_move; simpl; try done.
      * intros j u _ Hu. rewrite Forall_lookup in Hi. by eapply Hi.
      * lia.
      * rewrite Ep. by rewrite bool_decide_eq_true_2.
    + apply quiet_move; [done|done|done| |done]. by rewrite Hh.
  - destruct (storing_is_winner i t s I Et) as (Hh & Hs & Hpos & Ho).
    { intros [E|E]; rewrite Ep in E; done. }
    unfold stores in Hs. rewrite Ep in Hs. injection Ea as <- <-.
    apply winner_move; simpl; try done; [rewrite Ep; simpl; lia|]. split; [done|]. apply Hs.
  - destruct (storing_is_winner i t s I Et) as (Hh & Hs & Hpos & Ho).
    { intros [E|E]; rewrite Ep in E; done. }
    unfold stores in Hs. rewrite Ep in Hs. injection Ea as <- <-.
    apply winner_move; simpl; try done; [rewrite Ep; simpl; lia|]. split; [apply Hs|done].
  - done.
Qed.

Lemma schedule_inv sched s s' : Z.of_nat (length (l_threads s)) < 2 ^ 32 ->
  launch_inv s -> run_schedule sched s = Some s' -> launch_inv s'.
Proof using Type.
  revert s. induction sched as [|i sched IH]; intros s Hl I E; [by injection E as <-|].
  cbn [run_schedule] in E. destruct (step_thread i s) as [s1|] eqn:Es; [|done].
  destruct (step_inv i s s1 Hl I Es) as [I1 L1]. eapply IH; [|exact I1|exact E]. by rewrite L1.
Qed.

(** Threads keep their ids. *)
Lemma schedule_ids sched s s' : run_schedule sched s = Some s' ->
  map (fun t => (th_idx t, th_vcpu t)) (l_threads s') = map (fun t => (th_idx t, th_vcpu t)) (l_threads s).
Proof using Type.
  revert s. induction sched as [|i sched IH]; intros s E; [by injection E as <-|].
  cbn [run_schedule] in E. destruct (step_thread i s) as [s1|] eqn:Es; [|done].
  rewrite (IH s1) by done. unfold step_thread in Es.
  destruct (l_threads s !! i) as [t|] eqn:Et; [|done].
  destruct (thread_action t (l_result s)) as [[r p]|]; [|done]. injection Es as <-. cbn [l_threads].
  rewrite list_fmap_insert. apply list_insert_id. by rewrite list_lookup_fmap, Et.
Qed.

(** Every thread has at most three actions left. *)
Definition pc_work (p : pc) : nat :=
  match p with Computing => 3 | StoringNonce => 2 | StoringVcpu => 1 | Done => 0 end.
Definition work (l : list thread) : nat := sum_list_with (fun t => pc_work (th_pc t)) l.

Lemma work_insert (l : list thread) i t p : l !! i = Some t ->
  (work (<[i := at_pc t p]> l) + pc_work (th_pc t) = work l + pc_work p)%nat.
Proof using Type.
  revert i. induction l as [|u l IH]; intros [|i] Hi; try done; unfold work in *; simpl in *.
  - injection Hi as ->. lia.
  - specialize (IH i Hi). lia.
Qed.

Lemma step_work i s s' : step_thread i s = Some s' -> (work (l_threads s') < work (l_threads s))%nat.
Proof using Type.
  unfold step_thread. destruct (l_threads s !! i) as [t|] eqn:Et; [|done].
  destruct (thread_action t (l_result s)) as [[r p]|] eqn:Ea; [|done].
  intros E. injection E as <-. cbn [l_threads]. pose proof (work_insert _ i t p Et) as W.
  unfold thread_action in Ea. destruct (th_pc t); [destruct (th_hit t); [destruct (_ =? _)|]| | |done];
    injection Ea as _ <-; simpl in W; lia.
Qed.

Lemma schedule_work sched s s' : run_schedule sched s = Some s' ->
  (length sched + work (l_threads s') <= work (l_threads s))%nat.
Proof using Type.
  revert s. induction sched as [|i sched IH]; intros s E; [injection E as <-; simpl; lia|].
  cbn [run_schedule] in E. destruct (step_thread i s) as [s1|] eqn:Es; [|done].
  apply step_work in Es. specialize (IH s1 E). simpl. lia.
Qed.

Lemma step_progress s : finished s = false -> exists i s', step_thread i s = Some s'.
Proof using Type.
  unfold finished. intros Hf.
  assert (exists i t, l_threads s !! i = Some t /\ th_pc t <> Done) as (i & t & Et & Hp).
  { induction (l_threads s) as [|u l IH]; [done|]. simpl in Hf.
    destruct (decide (th_pc u = Done)) as [E|E].
    - rewrite bool_decide_eq_true_2 in Hf by done. destruct (IH Hf) as (i & t & ? & ?). by exists (S i), t.
    - by exists 0%nat, u. }
  exists i. unfold step_thread. rewrite Et. unfold thread_action.
  destruct (th_pc t); [destruct (th_hit t)| | |done]; by eexists.
Qed.

Lemma schedule_finishes s : exists sched s', run_schedule sched s = Some s' /\ finished s' = true.
Proof using Type.
  remember (work (l_threads s)) as n eqn:En. revert s En.
  induction n as [n IH] using lt_wf_ind. intros s ->. destruct (finished s) eqn:Ef.
  - by exists [], s.
  - destruct (step_progress s Ef) as (i & s1 & Es). pose proof (step_work _ _ _ Es).
    destruct (IH _ ltac:(eassumption) s1 eq_refl) as (sched & s' & E & Hf).
    exists (i :: sched), s'. cbn [run_schedule]. by rewrite Es.
Qed.

(** The launch of a list of thread ids, as [scan_hash] initialises the result. *)
Definition launch_of (ids : list (Z * nat)) : launch :=
  mkLaunch (mkDev UINT64_MAX UINT32_MAX 0) (map (fun p => mkThread p.1 p.2 Computing) ids).

Lemma launch_of_inv ids : launch_inv (launch_of ids).
Proof using Type.
  constructor; cbn [launch_of l_result l_threads dev_found dev_nonce dev_vcpu]; [|intros _|done].
  - induction ids as [|p ids IH]; [done|]. simpl. unfold counted at 1. simpl. rewrite andb_false_r. done.
  - split; [done|split; [done|]]. apply Forall_map, Forall_true. intros p. by left.
Qed.

(** The result of a finished launch. *)
Lemma launch_result ids sched s : Z.of_nat (length ids) < 2 ^ 32 ->
  run_schedule sched (launch_of ids) = Some s -> finished s = true ->
  dev_found (l_result s) = count_if (fun p => hit p.1 p.2) ids /\
  (dev_found (l_result s) = 0 -> l_result s = mkDev UINT64_MAX UINT32_MAX 0) /\
  (dev_found (l_result s) <> 0 -> exists idx vcpu, (idx, vcpu) ∈ ids /\ hit idx vcpu = true /\
     dev_nonce (l_result s) = nonce_of idx /\ dev_vcpu (l_result s) = Z.of_nat vcpu).
Proof using Type.
  intros Hl E Hf. pose proof (schedule_ids _ _ _ E) as Hids.
  assert (launch_inv s) as I.
  { eapply schedule_inv; [|apply launch_of_inv|exact E]. cbn [launch_of l_threads]. by rewrite length_map. }
  cbn [launch_of l_threads] in Hids. rewrite map_map in Hids. cbn [th_idx th_vcpu] in Hids.
  assert (map (fun p : Z * nat => (p.1, p.2)) ids = ids) as Eid.
  { clear. induction ids as [|[a b] ids IH]; simpl; [done|by rewrite IH]. }
  rewrite Eid in Hids. clear Eid.
  assert (Forall (fun t => th_pc t = Done) (l_threads s)) as Hdone.
  { unfold finished in Hf. rewrite forallb_forall in Hf. apply Forall_forall. intros t Ht.
    pose proof (Hf t Ht) as Hd. by apply bool_decide_eq_true in Hd. }
  split; [|split].
  - rewrite (inv_found _ I), <- Hids. clear -Hdone. induction (l_threads s) as [|t l IH]; [done|].
    apply Forall_cons_1 in Hdone as [Hd Hl]. simpl. rewrite (IH Hl). f_equal. f_equal.
    unfold counted, th_hit. rewrite Hd. by rewrite bool_decide_eq_false_2, andb_true_r.
  - intros E0. destruct (inv_quiet _ I E0) as (E1 & E2 & _). destruct (l_result s). by simpl in *; subst.
  - intros Hne. destruct (inv_winner _ I Hne) as (i & w & Ew & Hw & Hs & _).
    rewrite Forall_lookup in Hdone. unfold stores in Hs. rewrite (Hdone i w Ew) in Hs.
    exists (th_idx w), (th_vcpu w). split; [|by split].
    rewrite <- Hids. apply list_elem_of_lookup. exists i. by rewrite list_lookup_fmap, Ew.
Qed.
End Launch.

(** ** [OpenCL::scan_hash] *)

Record HashResult := mkHashResult { hr_nonce : Z; hr_vcpu : Z }.

(** The global work: [threads / gpu_threads] times [gpu_threads] thread ids. *)
Definition global_work (gpu_threads threads : Z) : list (Z * nat) :=
  flat_map (fun vcpu => map (fun idx => (Z.of_nat idx, vcpu)) (seq 0 (Z.to_nat (threads / gpu_threads))))
    (seq 0 (Z.to_nat gpu_threads)).

(** The host's reading of the device result. *)
Definition host_result (r : DevHashResult) : HashResult :=
  mkHashResult (dev_nonce r) (if dev_vcpu r =? UINT32_MAX then UINT64_MAX else dev_vcpu r).

(** [scan_hash] returns what some complete schedule of the threads leaves.  A launch of no
    threads leaves the empty result (OpenCL before 2.1 refuses it). *)
Definition scan_hash (m : MsgData) (gpu_threads threads start_nonce : Z) (hr : HashResult) : Prop :=
  let start := start_nonce / gpu_threads in
  exists sched s,
    run_schedule (thread_hit m start) (thread_nonce start) sched (launch_of (global_work gpu_threads threads)) = Some s
    /\ finished s = true /\ hr = host_result (l_result s).

(** The host takes a result for a find when both fields differ from [UINT64_MAX]. *)
Definition is_find (hr : HashResult) : bool :=
  negb (hr_nonce hr =? UINT64_MAX) && negb (hr_vcpu hr =? UINT64_MAX).

(** ** The launch decides whether a nonce of its range solves *)

Lemma target_words target : length target = 32%nat -> bytes target ->
  let ts := map (fun i => enc_word target (4 * i)) (seq 0 8) in
  length ts = 8%nat /\ Forall is_word ts /\ Fips.digest ts = target.
Proof.
  intros Hl Hb ts. unfold ts. cbn [map seq]. rewrite !(enc_word_eq target) by (done || lia). clear ts.
  explode target Hl. cbn [take drop Nat.mul Nat.add]. forall_split. unfold Fips.digest. rewrite !bind_cons.
  assert (forall a b c d, is_byte a -> is_byte b -> is_byte c -> is_byte d ->
    is_word (be_combine [a; b; c; d]) /\ be_split 4 (be_combine [a; b; c; d]) = [a; b; c; d]) as W.
  { intros a b c d Ha Hb Hc Hd. assert (bytes [a; b; c; d]) as B by (forall_intro ltac:(done)).
    split; [by apply be_combine_4_word|by apply (be_split_combine [a; b; c; d])]. }
  split; [done|]. split; [forall_intro ltac:(by apply W)|].
  rewrite !(fun a b c d Ha Hb Hc Hd => proj2 (W a b c d Ha Hb Hc Hd)) by done. done.
Qed.

Lemma hash_words_word c : env_ok c ->
  length (Fips.hash_words (as_slice c)) = 8%nat /\ Forall is_word (Fips.hash_words (as_slice c)).
Proof.
  intros Hc. pose proof (as_slice_length c Hc) as Hl. pose proof (as_slice_bytes c Hc) as Hcb.
  rewrite hash_words_123 by done.
  destruct (words_word 16 (take 64 (as_slice c))) as [L1 F1]; [rewrite length_take; lia|by apply Forall_take|].
  rewrite words_take in L1, F1 by lia.
  destruct (words_word 16 (drop 64 (as_slice c) ++ [128; 0; 0; 0; 0])) as [L2 F2].
  { rewrite length_app, length_drop, Hl. done. }
  { apply Forall_app; split; [by apply Forall_drop|]. forall_intro ltac:(done). }
  destruct h256_words as [L0 F0].
  destruct (compress_word Cruncher.h256 (Fips.words 16 (as_slice c))) as [L3 F3]; [assumption..|].
  destruct (compress_word _ _ L3 F3 L2 F2) as [L4 F4].
  apply compress_word; [exact L4|exact F4|apply length_block_words..].
Qed.

Section Scan.
Context (H : HDataEnv) (H_ok : env_ok H).
Context (target rdata : list Z) (gpu_threads expired : Z).
Context (target_length : length target = 32%nat) (target_bytes : bytes target).
Context (gpu_range : 1 <= gpu_threads <= MAX_GPU_THREADS) (expired_word : is_word expired).
Context (rdata_length : length rdata = Z.to_nat (32 * gpu_threads)) (rdata_bytes : bytes rdata).

(** The message of thread row [vcpu] at [nonce]. *)
Definition gpu_candidate (vcpu : nat) (nonce : Z) : HDataEnv :=
  candidate H (advance (row rdata vcpu) nonce) expired.

Lemma prepare_row v : (v < Z.to_nat gpu_threads)%nat ->
  prepare_thread expired (as_slice H) (drop (v * 32) rdata) = prepare_thread expired (as_slice H) (row rdata v).
Proof using rdata_length rdata_bytes gpu_range target_length.
  intros Hv. unfold prepare_thread, row. rewrite (Nat.mul_comm v 32).
  set (d := drop (32 * v) rdata).
  assert (32 <= length d)%nat as Hd by (unfold d; rewrite length_drop; lia).
  assert (bytes d) as Hdb by by apply Forall_drop.
  assert (d !!! 0%nat = take 32 d !!! 0%nat) as ->.
  { by destruct d. }
  assert (forall off, (off <= 28)%nat -> enc_word d off = enc_word (take 32 d) off) as E.
  { intros off Ho. rewrite !enc_word_eq; try done; try lia.
    - rewrite skipn_firstn_comm, take_take. f_equal. f_equal. lia.
    - by apply Forall_take.
    - rewrite length_take. lia. }
  cbn [map seq]. rewrite !E by lia. done.
Qed.

Lemma thread_hit_solves m start idx vcpu :
  bitcredit_prepare_msg gpu_threads expired (as_slice H) target rdata = Some m ->
  (vcpu < Z.to_nat gpu_threads)%nat ->
  thread_hit m start idx vcpu = solves (gpu_candidate vcpu (thread_nonce start idx)) target.
Proof using H_ok target_length target_bytes gpu_range expired_word rdata_length rdata_bytes.
  unfold bitcredit_prepare_msg. destruct (Z.leb_spec gpu_threads MAX_GPU_THREADS); [|lia].
  intros Em Hv. injection Em as Em. subst m. unfold thread_hit. cbn [m_thrdata].
  rewrite list_lookup_fmap, lookup_seq_lt by done. cbn [fmap option_fmap option_map Nat.add m_target].
  rewrite prepare_row by done.
  set (m := mkMsgData _ _ _). set (n := thread_nonce start idx).
  assert (32 * vcpu + 32 <= length rdata)%nat as Hrow by lia.
  rewrite (kernel_state_words H (row rdata vcpu) expired n m); try done; [|by apply row_length|by apply row_bytes].
  destruct (target_words target) as (Lt & Ft & Et); [done..|]. cbv zeta in Lt, Ft, Et.
  assert (env_ok (gpu_candidate vcpu n)) as Hc by by apply candidate_ok.
  destruct (hash_words_word _ Hc) as [Lw Fw].
  etransitivity; [apply (words_below_memcmp _ _ (eq_trans Lw (eq_sym Lt)) Fw Ft)|].
  unfold solves, env_hash, Fips.sha256. by rewrite Et.
Qed.

Lemma global_work_in threads idx v : (idx, v) ∈ global_work gpu_threads threads <->
  0 <= idx < threads / gpu_threads /\ (v < Z.to_nat gpu_threads)%nat.
Proof using Type.
  clear -gpu_threads. unfold global_work. rewrite list_elem_of_In, in_flat_map. split.
  - intros (w & Hw & Hi). apply in_map_iff in Hi as (i & Ei & Hi). injection Ei as <- <-.
    apply in_seq in Hw, Hi. lia.
  - intros [Hi Hv]. exists v. split; [apply in_seq; lia|]. apply in_map_iff. exists (Z.to_nat idx).
    split; [f_equal; lia|]. apply in_seq. lia.
Qed.

Lemma global_work_length threads : 0 <= threads ->
  Z.of_nat (length (global_work gpu_threads threads)) = gpu_threads * (threads / gpu_threads).
Proof using gpu_range.
  clear -gpu_range. intros Ht. unfold global_work. set (k := Z.to_nat (threads / gpu_threads)).
  assert (forall l : list nat, length (flat_map (fun vcpu => map (fun idx => (Z.of_nat idx, vcpu)) (seq 0 k)) l)
    = (length l * k)%nat) as E.
  { induction l as [|v l IH]; [done|]. simpl. rewrite length_app, length_map, length_seq, IH. lia. }
  rewrite E, length_seq. pose proof (Z.div_pos threads gpu_threads ltac:(lia) ltac:(lia)). lia.
Qed.

(** A launch finds a solution exactly when its range of nonces holds one, and it reports
    the nonce and the row of one. *)
Lemma scan_hash_spec m threads start_nonce hr :
  bitcredit_prepare_msg gpu_threads expired (as_slice H) target rdata = Some m ->
  0 <= threads < 2 ^ 32 -> 0 <= start_nonce < 2 ^ 63 ->
  scan_hash m gpu_threads threads start_nonce hr ->
  let start := start_nonce / gpu_threads in
  if is_find hr
  then exists v, hr_vcpu hr = Z.of_nat v /\ (v < Z.to_nat gpu_threads)%nat
       /\ start <= hr_nonce hr < start + threads / gpu_threads
       /\ solves (gpu_candidate v (hr_nonce hr)) target = true
  else forall v nonce, (v < Z.to_nat gpu_threads)%nat -> start <= nonce < start + threads / gpu_threads ->
       solves (gpu_candidate v nonce) target = false.
Proof using H_ok target_length target_bytes gpu_range expired_word rdata_length rdata_bytes.
  intros Em Ht Hs (sched & s & Er & Hf & ->) start. fold start in Er.
  unfold MAX_GPU_THREADS in gpu_range.
  assert (0 <= start < 2 ^ 63) as Hstart.
  { unfold start. split; [apply Z.div_pos; lia|]. apply Z.div_lt_upper_bound; [lia|nia]. }
  assert (0 <= threads / gpu_threads < 2 ^ 32) as Hdiv.
  { split; [apply Z.div_pos; lia|]. apply Z.div_lt_upper_bound; [lia|nia]. }
  assert (forall idx, 0 <= idx < threads / gpu_threads -> thread_nonce start idx = start + idx) as Hnonce.
  { intros idx Hi. apply wrapu_small. lia. }
  assert (Z.of_nat (length (global_work gpu_threads threads)) < 2 ^ 32) as Hlen.
  { rewrite global_work_length by lia. pose proof (Z.mul_div_le threads gpu_threads ltac:(lia)). lia. }
  destruct (launch_result _ _ _ _ _ Hlen Er Hf)
    as (Hcount & H0 & H1).
  unfold is_find, host_result. cbn [hr_nonce hr_vcpu].
  destruct (decide (dev_found (l_result s) = 0)) as [E0|Hne].
  - rewrite (H0 E0). cbn. intros v nonce Hv Hn.
    destruct (solves (gpu_candidate v nonce) target) eqn:Es; [|done].
    rewrite Hcount in E0. assert (0 < count_if (fun p => thread_hit m start p.1 p.2) (global_work gpu_threads threads)); [|lia].
    apply (count_if_mem _ _ (nonce - start, v)).
    + apply global_work_in. lia.
    + cbn [fst snd]. rewrite thread_hit_solves, Hnonce by (done || lia).
      by replace (start + (nonce - start)) with nonce by lia.
  - destruct (H1 Hne) as (idx & v & Hin & Hhit & -> & ->).
    apply global_work_in in Hin as [Hi Hv]. rewrite thread_hit_solves in Hhit by done.
    rewrite Hnonce in * by done. unfold UINT64_MAX, UINT32_MAX.
    destruct (Z.eqb_spec (Z.of_nat v) (2 ^ 32 - 1)); [lia|].
    destruct (Z.eqb_spec (start + idx) (2 ^ 64 - 1)); [lia|].
    destruct (Z.eqb_spec (Z.of_nat v) (2 ^ 64 - 1)); [lia|]. cbn [negb andb].
    exists v. split; [done|]. split; [done|]. split; [lia|done].
Qed.
End Scan.

(** ** Properties *)

Section Properties.
Context (H : HDataEnv) (target rdata : list Z) (gpu_threads expired : Z).

(** What the callers supply: a well-formed message, a 32-byte target, a 32-byte row of
    random bytes for each of at most sixteen GPU threads, and a 32-bit expiry time. *)
Definition gpu_pre : Prop :=
  env_ok H /\ (length target = 32%nat /\ bytes target) /\ 1 <= gpu_threads <= MAX_GPU_THREADS /\
  is_word expired /\ (length rdata = Z.to_nat (32 * gpu_threads) /\ bytes rdata).

(** C7. The kernel hashes the message it stands for: with the data that
    [bitcredit_prepare_msg] loads, the two compressions of GPU row [vcpu] at [nonce] end
    in the SHA-256 state of the whole candidate message, and the comparison of words
    decides whether its digest is below the target. *)
Theorem kernel_hashes_candidate vcpu nonce : gpu_pre -> (vcpu < Z.to_nat gpu_threads)%nat ->
  exists m t, bitcredit_prepare_msg gpu_threads expired (as_slice H) target rdata = Some m /\
    m_thrdata m !! vcpu = Some t /\
    Fips.digest (kernel_state m t nonce) = Fips.sha256 (as_slice (gpu_candidate H rdata expired vcpu nonce)) /\
    words_below (kernel_state m t nonce) (m_target m) = solves (gpu_candidate H rdata expired vcpu nonce) target.
Proof.
  intros (H_ok & [Ht Htb] & Hg & He & [Hr Hrb]) Hv.
  destruct (bitcredit_prepare_msg gpu_threads expired (as_slice H) target rdata) as [m|] eqn:Em.
  2:{ unfold bitcredit_prepare_msg in Em. destruct (Z.leb_spec gpu_threads MAX_GPU_THREADS); [done|lia]. }
  pose proof Em as Em'. unfold bitcredit_prepare_msg in Em'.
  destruct (gpu_threads <=? MAX_GPU_THREADS); [|done]. injection Em' as Em'.
  exists m, (prepare_thread expired (as_slice H) (drop (vcpu * 32) rdata)). split; [done|].
  rewrite <- Em'. cbn [m_thrdata m_target].
  rewrite list_lookup_fmap, lookup_seq_lt by done. split; [done|]. rewrite Em'.
  rewrite (prepare_row H target rdata gpu_threads expired) by done.
  assert (32 * vcpu + 32 <= length rdata)%nat as Hrow by lia.
  assert (m_pseed m = map (fun i => enc_word (as_slice H) (76 + 4 * i)) (seq 0 3)) as Ep by by rewrite <- Em'.
  rewrite (kernel_state_words H (row rdata vcpu) expired nonce m H_ok (row_length _ _ Hrow) (row_bytes _ _ Hrb) He Ep).
  split; [reflexivity|].
  destruct (target_words target Ht Htb) as (Lt & Ft & Et). cbv zeta in Lt, Ft, Et.
  destruct (hash_words_word (gpu_candidate H rdata expired vcpu nonce) (candidate_ok _ _ _ H_ok)) as [Lw Fw].
  etransitivity; [apply (words_below_memcmp _ _ (eq_trans Lw (eq_sym Lt)) Fw Ft)|].
  unfold solves, env_hash, Fips.sha256. by rewrite Et.
Qed.

(** C8. Whatever the interleaving of the threads of a launch, every schedule is finite and
    can be completed, and a complete one leaves a consistent result: the counter is the
    number of hits, and either it is zero and nothing was stored, or the nonce and the
    row stored belong to one and the same thread, which hit. *)
Theorem launch_publishes_one_hit (hit : Z -> nat -> bool) (nonce_of : Z -> Z) ids sched s :
  Z.of_nat (length ids) < 2 ^ 32 ->
  run_schedule hit nonce_of sched (launch_of ids) = Some s ->
  (length sched <= 3 * length ids)%nat /\
  (exists sched' s', run_schedule hit nonce_of (sched ++ sched') (launch_of ids) = Some s' /\ finished s' = true) /\
  (finished s = true ->
     dev_found (l_result s) = count_if (fun p => hit p.1 p.2) ids /\
     if dev_found (l_result s) =? 0 then l_result s = mkDev UINT64_MAX UINT32_MAX 0
     else exists idx vcpu, (idx, vcpu) ∈ ids /\ hit idx vcpu = true /\
          dev_nonce (l_result s) = nonce_of idx /\ dev_vcpu (l_result s) = Z.of_nat vcpu).
Proof.
  intros Hl E. split; [|split].
  - pose proof (schedule_work _ _ _ _ _ E) as W.
    assert (work (l_threads (launch_of ids)) = 3 * length ids)%nat as Ew; [|lia].
    unfold work. cbn [launch_of l_threads]. clear. induction ids as [|p ids IH]; [done|].
    simpl. simpl in IH. lia.
  - destruct (schedule_finishes hit nonce_of s) as (sched' & s' & E' & Hf). exists sched', s'.
    split; [|done]. revert E. generalize (launch_of ids). induction sched as [|i sched IH]; intros s0 E.
    + by injection E as ->.
    + cbn [run_schedule app] in *. destruct (step_thread hit nonce_of i s0); [by apply IH|done].
  - intros Hf. destruct (launch_result _ _ _ _ _ Hl E Hf) as (Hc & H0 & H1). split; [done|].
    destruct (Z.eqb_spec (dev_found (l_result s)) 0); auto.
Qed.

(** C9. A launch is an exact test of its range of nonces: [scan_hash] reports a solution
    if and only if one of the rows has one there, and what it reports is a solution. *)
Theorem scan_hash_exact m threads start_nonce hr : gpu_pre ->
  bitcredit_prepare_msg gpu_threads expired (as_slice H) target rdata = Some m ->
  0 <= threads < 2 ^ 32 -> 0 <= start_nonce < 2 ^ 63 ->
  scan_hash m gpu_threads threads start_nonce hr ->
  let start := start_nonce / gpu_threads in
  let in_range nonce := start <= nonce < start + threads / gpu_threads in
  (is_find hr = true -> exists v, hr_vcpu hr = Z.of_nat v /\ (v < Z.to_nat gpu_threads)%nat /\
     in_range (hr_nonce hr) /\ solves (gpu_candidate H rdata expired v (hr_nonce hr)) target = true) /\
  (is_find hr = false <-> forall v nonce, (v < Z.to_nat gpu_threads)%nat -> in_range nonce ->
     solves (gpu_candidate H rdata expired v nonce) target = false).
Proof.
  intros (H_ok & [Ht Htb] & Hg & He & [Hr Hrb]) Em Hth Hs Hscan start in_range.
  pose proof (scan_hash_spec H H_ok target rdata gpu_threads expired Ht Htb Hg He Hr Hrb m threads start_nonce hr Em Hth Hs Hscan) as P.
  cbv zeta in P. fold start in P. destruct (is_find hr) eqn:Ef.
  - destruct P as (v & Ev & Hv & Hn & Hsol). split; [intros _; by exists v|].
    split; [done|]. intros Hno. by rewrite Hno in Hsol.
  - split; [done|]. split; [intros _; exact P|done].
Qed.
End Properties.

(** Inputs for the witnesses: two rows, and a target that one digest in two meets. *)
Definition sample_target : list Z := 128 :: replicate 31 0.
Definition sample_rdata : list Z := replicate 32 1 ++ replicate 32 2.

Lemma sample_gpu_pre : gpu_pre sample_env sample_target sample_rdata 2 1600000000.
Proof.
  split; [apply sample_env_ok|]. split; [split; [done|by apply Forall_cons_2, Forall_replicate]|].
  split; [done|]. split; [done|]. split; [done|].
  apply Forall_app; split; by apply Forall_replicate.
Qed.

Lemma kernel_hashes_candidate_witness : exists m t,
  bitcredit_prepare_msg 2 1600000000 (as_slice sample_env) sample_target sample_rdata = Some m /\
  m_thrdata m !! 1%nat = Some t /\
  Fips.digest (kernel_state m t 5) = Fips.sha256 (as_slice (gpu_candidate sample_env sample_rdata 1600000000 1 5)) /\
  words_below (kernel_state m t 5) (m_target m) = solves (gpu_candidate sample_env sample_rdata 1600000000 1 5) sample_target.
Proof. exact (kernel_hashes_candidate sample_env sample_target sample_rdata 2 1600000000 1 5 sample_gpu_pre ltac:(vm_compute; lia)). Defined.

(** Two threads that hit race: the second to add sees one and leaves the result alone. *)
Lemma launch_publishes_one_hit_witness : exists s,
  run_schedule (fun _ _ => true) (fun i => i + 10) [1%nat; 0%nat; 1%nat; 1%nat] (launch_of [(0, 0%nat); (1, 1%nat)]) = Some s
  /\ l_result s = mkDev 11 1 2 /\ finished s = true
  /\ dev_found (l_result s) = count_if (fun _ => true) [(0, 0%nat); (1, 1%nat)].
Proof.
  eexists. split; [reflexivity|]. split; [reflexivity|]. split; [reflexivity|].
  exact (proj1 (proj2 (proj2 (launch_publishes_one_hit (fun _ _ => true) (fun i => i + 10) [(0, 0%nat); (1, 1%nat)]
    [1%nat; 0%nat; 1%nat; 1%nat] _ eq_refl eq_refl)) eq_refl)).
Defined.

Definition sample_msg : MsgData :=
  default (mkMsgData [] [] [])
    (bitcredit_prepare_msg 2 1600000000 (as_slice sample_env) sample_target sample_rdata).

Lemma sample_scan : scan_hash sample_msg 2 4 0 (mkHashResult 1 0).
Proof.
  exists [0%nat; 1%nat; 2%nat; 3%nat; 1%nat; 1%nat]. eexists.
  split; [vm_compute; reflexivity|]. split; reflexivity.
Qed.

Lemma scan_hash_exact_witness : exists v,
  0 = Z.of_nat v /\ (v < Z.to_nat 2)%nat /\ 0 / 2 <= 1 < 0 / 2 + 4 / 2 /\
  solves (gpu_candidate sample_env sample_rdata 1600000000 v 1) sample_target = true.
Proof.
  exact (proj1 (scan_hash_exact sample_env sample_target sample_rdata 2 1600000000 sample_msg 4 0
    (mkHashResult 1 0) sample_gpu_pre eq_refl ltac:(lia) ltac:(lia) sample_scan) eq_refl).
Defined.
