(* ===== verification/GpuHost.v ===== *)
(** * The OpenCL host loop: [SHA256::run] ([crypto/util/opencl/sha256.cpp])

    The loop that launches the kernel over successive ranges of nonces, checks what a
    launch reports with [build_mine_result] and keeps the counters.  A launch is the
    relation [Kernel.scan_hash]; the loop takes the result of its [k]-th launch from a
    function, about which the theorems assume that relation. *)
From S2P Require Import Prelude Sha256 MineData Kernel.

(** The options the loop reads; [g_token k] and [g_now k] are what it sees after launch [k]. *)
Record GpuOptions := mkGpuOptions {
  g_complexity : list Z;
  g_max_iterations : Z;
  g_expire_at : option Z;
  g_hashes_computed : option Z;
  g_instant_hashes_computed : option Z;
  g_token : nat -> bool;
  g_now : nat -> Z;
  g_factor : Z;
  g_expire_base : Z;
  g_gpu_threads : Z;
}.

(** [td::uint64 throughput]: the comparison converts [max_iterations] to unsigned. *)
Definition throughput (o : GpuOptions) : Z :=
  let t := u64 (2 ^ 19 * g_factor o) in
  if u64 (g_max_iterations o) <? t then u64 (g_max_iterations o) else t.

Definition add_counter (c : option Z) (n : Z) : option Z := option_map (fun x => u64 (x + n)) c.

Record host_state := mkHost { h_i : Z; h_counter : option Z; h_instant : option Z }.

Inductive host_outcome :=
| HostReturned (solution : option (list Z)) (s : host_state)
| HostOutOfFuel.

Section Host.
Context {L : Sha256Lib} (o : GpuOptions) (H : HDataEnv) (rdata : list Z).
Context (launch_hash : nat -> Z -> HashResult).

(** What the loop does with the result of a launch: the counters and the checked solution. *)
Definition take_result (hr : HashResult) (s : host_state) : option (list Z) * host_state :=
  if is_find hr then
    let n := u64 (hr_nonce hr * hr_vcpu hr) in
    (build_mine_result H (g_complexity o) rdata (hr_nonce hr) (hr_vcpu hr) (g_expire_base o),
     mkHost (h_i s) (add_counter (h_counter s) n) (option_map (fun _ => n) (h_instant s)))
  else (None, s).

Fixpoint host_loop (fuel : nat) (k : nat) (s : host_state) : host_outcome :=
  match fuel with
  | O => HostOutOfFuel
  | S fuel' =>
      if h_i s <? g_max_iterations o then
        match take_result (launch_hash k (h_i s)) s with
        | (Some r, s1) => HostReturned (Some r) s1
        | (None, s1) =>
            let s2 := mkHost (s64 (u64 (h_i s1) + throughput o)) (add_counter (h_counter s1) (throughput o)) (h_instant s1) in
            if g_token o k then HostReturned None s2
            else if match g_expire_at o with Some at_ => at_ <=? g_now o k | None => false end
            then HostReturned None s2
            else host_loop fuel' (S k) s2
        end
      else HostReturned None s
  end.

Definition host_run (fuel : nat) : host_outcome :=
  host_loop fuel 0 (mkHost 0 (g_hashes_computed o) (option_map (fun _ => throughput o) (g_instant_hashes_computed o))).
End Host.

(** ** The loop *)

Lemma throughput_range o : 0 < g_max_iterations o < 2 ^ 63 -> 1 <= g_factor o < 2 ^ 13 ->
  1 <= throughput o < 2 ^ 32.
Proof.
  intros Hm Hf. unfold throughput. rewrite !wrapu_small by lia.
  destruct (Z.ltb_spec (g_max_iterations o) (2 ^ 19 * g_factor o)); lia.
Qed.

Section HostLoop.
Context {L : Sha256Lib} {S : Sha256Spec L} (o : GpuOptions) (H : HDataEnv) (rdata : list Z).
Context (launch_hash : nat -> Z -> HashResult).

(** The callers' obligations, a bound that keeps [i] in range, and what a launch is. *)
Record host_pre (m : MsgData) : Prop := {
  pre_gpu : gpu_pre H (g_complexity o) rdata (g_gpu_threads o) (g_expire_base o);
  pre_msg : bitcredit_prepare_msg (g_gpu_threads o) (g_expire_base o) (as_slice H) (g_complexity o) rdata = Some m;
  pre_max : 0 < g_max_iterations o < 2 ^ 63;
  pre_factor : 1 <= g_factor o < 2 ^ 13;
  pre_counter : forall c, g_hashes_computed o = Some c -> 0 <= c < 2 ^ 64;
  pre_room : g_max_iterations o + throughput o < 2 ^ 63;
  pre_launch : forall k i, 0 <= i < 2 ^ 63 ->
    scan_hash m (g_gpu_threads o) (throughput o) i (launch_hash k i);
}.

Definition host_solves (v : nat) (nonce : Z) : bool :=
  solves (gpu_candidate H rdata (g_expire_base o) v nonce) (g_complexity o).

(** The nonces of launch [k]: from [k * throughput / gpu_threads] on. *)
Definition launch_range (k : nat) (nonce : Z) : Prop :=
  let start := Z.of_nat k * throughput o / g_gpu_threads o in
  start <= nonce < start + throughput o / g_gpu_threads o.

Definition undisturbed : Prop := forall k, g_token o k = false /\
  match g_expire_at o with Some at_ => at_ <=? g_now o k | None => false end = false.

Definition counter_after (k : nat) (extra : Z) : option Z :=
  option_map (fun c => u64 (c + (Z.of_nat k * throughput o + extra))) (g_hashes_computed o).

(** The state at the top of the [k]-th iteration. *)
Record host_inv (k : nat) (s : host_state) : Prop := {
  hinv_i : h_i s = Z.of_nat k * throughput o;
  hinv_counter : h_counter s = counter_after k 0;
}.

Lemma counter_add k n x : h_counter x = counter_after k 0 ->
  add_counter (h_counter x) n = counter_after k n.
Proof using Type.
  intros E. rewrite E. unfold add_counter, counter_after. destruct (g_hashes_computed o) as [c|]; [|done].
  cbn [option_map]. f_equal. unfold wrapu. rewrite Z.add_mod_idemp_l by lia. f_equal. lia.
Qed.

Lemma counter_next k : counter_after k (throughput o) = counter_after (Datatypes.S k) 0.
Proof using Type.
  unfold counter_after. destruct (g_hashes_computed o); [|done]. simpl option_map. do 2 f_equal. lia.
Qed.

(** A find is always confirmed: the check on the host agrees with the kernel. *)
Lemma launch_confirmed m k s : host_pre m -> 0 <= h_i s < 2 ^ 63 ->
  let hr := launch_hash k (h_i s) in
  let start := h_i s / g_gpu_threads o in
  let n := throughput o / g_gpu_threads o in
  if is_find hr
  then exists v, hr_vcpu hr = Z.of_nat v /\ (v < Z.to_nat (g_gpu_threads o))%nat
    /\ start <= hr_nonce hr < start + n /\ host_solves v (hr_nonce hr) = true
    /\ (take_result o H rdata hr s).1
       = Some (body_slice (body (gpu_candidate H rdata (g_expire_base o) v (hr_nonce hr))))
  else (forall v nonce, (v < Z.to_nat (g_gpu_threads o))%nat -> start <= nonce < start + n ->
          host_solves v nonce = false)
       /\ take_result o H rdata hr s = (None, s).
Proof using S.
  intros [(H_ok & [Ht Htb] & Hg & He & [Hr Hrb]) Em Hm Hf Hc Hroom Hl] Hi hr start n.
  pose proof (throughput_range o ltac:(lia) Hf) as Htp. unfold MAX_GPU_THREADS in Hg.
  pose proof (scan_hash_spec H H_ok (g_complexity o) rdata (g_gpu_threads o) (g_expire_base o) Ht Htb Hg He Hr Hrb
    m (throughput o) (h_i s) hr Em ltac:(lia) Hi (Hl k (h_i s) Hi)) as P.
  cbv zeta in P. fold start n in P. unfold take_result. destruct (is_find hr); [|split; [exact P|done]].
  destruct P as (v & Ev & Hv & Hn & Hsol). exists v. split; [done|]. split; [done|]. split; [done|].
  split; [exact Hsol|]. cbn [fst]. unfold build_mine_result.
  rewrite Ev, result_env_candidate by (done || lia). rewrite Nat2Z.id.
  rewrite env_hash_streaming by by apply candidate_ok.
  unfold solves in Hsol. fold (gpu_candidate H rdata (g_expire_base o) v (hr_nonce hr)). by rewrite Hsol.
Qed.

(** What the loop promises from iteration [k] on. *)
Definition host_post (k : nat) (r : host_outcome) : Prop :=
  match r with
  | HostReturned (Some b) s => exists j v nonce, (k <= j)%nat /\ Z.of_nat j * throughput o < g_max_iterations o /\
      (v < Z.to_nat (g_gpu_threads o))%nat /\ launch_range j nonce /\ host_solves v nonce = true /\
      b = body_slice (body (gpu_candidate H rdata (g_expire_base o) v nonce)) /\
      h_counter s = counter_after j (u64 (nonce * Z.of_nat v))
  | HostReturned None s => undisturbed ->
      forall j v nonce, (k <= j)%nat -> Z.of_nat j * throughput o < g_max_iterations o ->
      (v < Z.to_nat (g_gpu_threads o))%nat -> launch_range j nonce -> host_solves v nonce = false
  | HostOutOfFuel => False
  end.

Lemma host_loop_post m fuel k s : host_pre m -> host_inv k s ->
  g_max_iterations o - h_i s < Z.of_nat fuel -> 0 < Z.of_nat fuel ->
  host_post k (host_loop o H rdata launch_hash fuel k s).
Proof using S.
  intros P. pose proof (throughput_range o ltac:(destruct P; lia) (pre_factor _ P)) as Htp.
  revert k s. induction fuel as [|fuel IH]; intros k s [Ei Ec] Hfuel Hpos; [lia|].
  cbn [host_loop]. destruct (Z.ltb_spec (h_i s) (g_max_iterations o)) as [Hlt|Hge].
  2:{ intros _ j v nonce Hj Hjm. nia. }
  pose proof (pre_room _ P).
  pose proof (launch_confirmed m k s P ltac:(nia)) as C. cbv zeta in C.
  set (hr := launch_hash k (h_i s)) in *.
  destruct (is_find hr) eqn:Ef.
  - destruct C as (v & Ev & Hv & Hn & Hsol & Et).
    assert ((take_result o H rdata hr s).2 =
      mkHost (h_i s) (add_counter (h_counter s) (u64 (hr_nonce hr * hr_vcpu hr)))
        (option_map (fun _ => u64 (hr_nonce hr * hr_vcpu hr)) (h_instant s))) as Es.
    { unfold take_result. by rewrite Ef. }
    destruct (take_result o H rdata hr s) as [r s1]. cbn [fst snd] in Et, Es. subst r s1.
    exists k, v, (hr_nonce hr). split; [lia|]. split; [lia|]. split; [done|].
    split; [unfold launch_range; rewrite <- Ei; done|]. split; [done|]. split; [done|].
    cbn [h_counter]. rewrite Ev. by apply counter_add.
  - destruct C as [Hno ->].
    assert (s64 (u64 (h_i s) + throughput o) = Z.of_nat (Datatypes.S k) * throughput o) as Enext.
    { rewrite wrapu_small, wraps_small by lia. lia. }
    set (s2 := mkHost _ _ _).
    assert (host_inv (Datatypes.S k) s2) as I2.
    { constructor; [exact Enext|]. cbn [s2 h_counter]. by rewrite (counter_add k), counter_next. }
    assert (host_post (Datatypes.S k) (host_loop o H rdata launch_hash fuel (Datatypes.S k) s2) ->
      host_post k (host_loop o H rdata launch_hash fuel (Datatypes.S k) s2)) as Hstep.
    { intros Q. destruct (host_loop _ _ _ _ _ _ _) as [[b|] s3|]; [| |done].
      - destruct Q as (j & v & nonce & Hj & Q). exists j, v, nonce. split; [lia|exact Q].
      - intros U j v nonce Hj Hjm Hv Hr. destruct (decide (j = k)) as [->|Hne].
        + apply Hno; [done|]. unfold launch_range in Hr. by rewrite <- Ei in Hr.
        + eapply (Q U); [|exact Hjm|exact Hv|exact Hr]. lia. }
    destruct (g_token o k) eqn:Etok.
    { intros U. destruct (U k) as [E _]. by rewrite E in Etok. }
    destruct (match g_expire_at o with Some at_ => at_ <=? g_now o k | None => false end) eqn:Eexp.
    { intros U. destruct (U k) as [_ E]. by rewrite E in Eexp. }
    apply Hstep, IH; [exact I2| |]; cbn [s2 h_i]; lia.
Qed.
End HostLoop.

(** ** Properties *)

Section Properties.
Context {L : Sha256Lib} {S : Sha256Spec L} (o : GpuOptions) (H : HDataEnv) (rdata : list Z).
Context (launch_hash : nat -> Z -> HashResult) (m : MsgData).

(** One iteration per launch at most, and one for the last test. *)
Definition host_fuel : nat := Datatypes.S (Z.to_nat (g_max_iterations o)).

(** C10. The GPU host loop is a sound and complete search: it ends; a body it returns is a
    proof of work of one of its launches, and the counter it leaves is that of the earlier
    launches plus the product of the nonce and the row; and when it returns nothing
    without having been told to stop, no nonce of any launch solves for any row. *)
Theorem host_run_correct : host_pre o H rdata launch_hash m ->
  match host_run o H rdata launch_hash host_fuel with
  | HostReturned (Some b) s => exists j v nonce, Z.of_nat j * throughput o < g_max_iterations o /\
      (v < Z.to_nat (g_gpu_threads o))%nat /\ launch_range o j nonce /\
      host_solves o H rdata v nonce = true /\
      b = body_slice (body (gpu_candidate H rdata (g_expire_base o) v nonce)) /\
      h_counter s = counter_after o j (u64 (nonce * Z.of_nat v))
  | HostReturned None _ => undisturbed o ->
      forall j v nonce, Z.of_nat j * throughput o < g_max_iterations o ->
      (v < Z.to_nat (g_gpu_threads o))%nat -> launch_range o j nonce -> host_solves o H rdata v nonce = false
  | HostOutOfFuel => False
  end.
Proof using S.
  intros P. pose proof (host_loop_post o H rdata launch_hash m host_fuel 0
    (mkHost 0 (g_hashes_computed o) (option_map (fun _ => throughput o) (g_instant_hashes_computed o))) P) as Q.
  unfold host_run. pose proof (pre_max _ _ _ _ _ P) as Hm.
  assert (host_post o H rdata 0 (host_loop o H rdata launch_hash host_fuel 0
    (mkHost 0 (g_hashes_computed o) (option_map (fun _ => throughput o) (g_instant_hashes_computed o))))) as R.
  { apply Q; unfold host_fuel; cbn [h_i]; [|lia|lia]. constructor; [done|]. cbn [h_counter].
    unfold counter_after. destruct (g_hashes_computed o) as [c|] eqn:Ec; [|done]. cbn [option_map].
    f_equal. rewrite wrapu_small; [lia|]. pose proof (pre_counter _ _ _ _ _ P c Ec). lia. }
  clear Q. destruct (host_loop _ _ _ _ _ _ _) as [[b|] s|]; [| |exact R].
  - destruct R as (j & v & nonce & _ & R). exists j, v, nonce. exact R.
  - intros U j v nonce Hj Hv Hr. eapply (R U); [|exact Hj|exact Hv|exact Hr]. lia.
Qed.

(** C11. A launch's find is never discarded: whenever the kernel of any launch reports a
    nonce, [build_mine_result] recomputes the hash on the host, agrees and returns the
    solution, so the "OVERCLOCK DETECTED" branch is dead for a device that computes what
    the kernel says. *)
Theorem find_confirmed k s : host_pre o H rdata launch_hash m -> 0 <= h_i s < 2 ^ 63 ->
  let hr := launch_hash k (h_i s) in
  is_find hr = true ->
  exists b, build_mine_result H (g_complexity o) rdata (hr_nonce hr) (hr_vcpu hr) (g_expire_base o) = Some b
    /\ memcmp (Fips.sha256 (d1 H :: d2 H :: b)) (g_complexity o) < 0.
Proof using S.
  intros P Hi hr Ef. pose proof (launch_confirmed o H rdata launch_hash m k s P Hi) as C.
  cbv zeta in C. fold hr in C. rewrite Ef in C. destruct C as (v & Ev & Hv & Hn & Hsol & Et).
  eexists. split.
  - unfold take_result in Et. rewrite Ef in Et. exact Et.
  - unfold host_solves, solves in Hsol. by apply Z.ltb_lt in Hsol.
Qed.

(** A find in row 0 adds nothing to the counters, whatever its nonce: the code adds the
    product of the nonce and the row number. *)
Lemma find_row_zero_uncounted nonce s : 0 <= nonce < UINT64_MAX ->
  (forall c, h_counter s = Some c -> 0 <= c < 2 ^ 64) ->
  h_counter (take_result o H rdata (mkHashResult nonce 0) s).2 = h_counter s /\
  h_instant (take_result o H rdata (mkHashResult nonce 0) s).2 = option_map (fun _ => 0) (h_instant s).
Proof using Type.
  intros Hn Hc. unfold take_result, is_find. cbn [hr_nonce hr_vcpu].
  destruct (Z.eqb_spec nonce UINT64_MAX); [lia|]. cbn [negb andb Z.eqb UINT64_MAX]. simpl snd.
  rewrite Z.mul_0_r. change (u64 0) with 0. cbn [h_counter h_instant]. split; [|done].
  destruct (h_counter s) as [c|]; [|done]. simpl. f_equal. rewrite Z.add_0_r. by apply wrapu_small, Hc.
Qed.
End Properties.

(** A run for the witnesses: one launch of four threads, which finds nonce 1 in row 0. *)
Definition sample_gpu_options : GpuOptions :=
  mkGpuOptions sample_target 4 None (Some 100) (Some 0) (fun _ => false) (fun _ => 0) 1 1600000000 2.

(** A device that runs its threads one after the other. *)
Section Sequential.
Context (hit : Z -> nat -> bool) (nonce_of : Z -> Z).

Fixpoint first_active (l : list thread) : option nat :=
  match l with
  | [] => None
  | t :: l' => if bool_decide (th_pc t = Done) then option_map Datatypes.S (first_active l') else Some 0%nat
  end.

Fixpoint drive (fuel : nat) (s : launch) : launch :=
  match fuel with
  | O => s
  | S fuel' =>
      match first_active (l_threads s) with
      | Some i => match step_thread hit nonce_of i s with Some s' => drive fuel' s' | None => s end
      | None => s
      end
  end.

Lemma first_active_spec l :
  match first_active l with
  | Some i => exists t, l !! i = Some t /\ th_pc t <> Done
  | None => forallb (fun t => bool_decide (th_pc t = Done)) l = true
  end.
Proof using Type.
  induction l as [|t l IH]; [done|]. cbn [first_active forallb].
  destruct (bool_decide (th_pc t = Done)) eqn:E.
  - destruct (first_active l) as [i|]; cbn [option_map]; [|done]. exact IH.
  - exists t. split; [done|]. by apply bool_decide_eq_false in E.
Qed.

Lemma drive_spec fuel s : (work (l_threads s) <= fuel)%nat ->
  exists sched, run_schedule hit nonce_of sched s = Some (drive fuel s) /\ finished (drive fuel s) = true.
Proof using Type.
  revert s. induction fuel as [|fuel IH]; intros s Hw.
  - exists []. split; [done|]. cbn [drive]. unfold finished. pose proof (first_active_spec (l_threads s)) as F.
    destruct (first_active (l_threads s)) as [i|]; [|done]. destruct F as (t & Et & Hp).
    pose proof (work_insert _ i t Done Et). destruct (th_pc t); simpl in *; lia || done.
  - cbn [drive]. pose proof (first_active_spec (l_threads s)) as F.
    destruct (first_active (l_threads s)) as [i|]; [|by exists []]. destruct F as (t & Et & Hp).
    assert (exists s1, step_thread hit nonce_of i s = Some s1) as (s1 & E1).
    { unfold step_thread. rewrite Et. unfold thread_action. destruct (th_pc t); [destruct (th_hit hit t)| | |done]; by eexists. }
    rewrite E1. pose proof (step_work _ _ _ _ _ E1). destruct (IH s1 ltac:(lia)) as (sched & E & Hf).
    exists (i :: sched). cbn [run_schedule]. by rewrite E1.
Qed.
End Sequential.

(** [scan_hash] on that device. *)
Definition sequential_scan (m : MsgData) (gpu_threads threads : Z) (_ : nat) (start_nonce : Z) : HashResult :=
  let start := start_nonce / gpu_threads in
  let s := launch_of (global_work gpu_threads threads) in
  host_result (l_result (drive (thread_hit m start) (thread_nonce start) (work (l_threads s)) s)).

Lemma sequential_scan_spec m gpu_threads threads k i :
  scan_hash m gpu_threads threads i (sequential_scan m gpu_threads threads k i).
Proof.
  unfold scan_hash, sequential_scan. set (s := launch_of _).
  destruct (drive_spec (thread_hit m (i / gpu_threads)) (thread_nonce (i / gpu_threads)) (work (l_threads s)) s) as (sched & E & Hf); [done|].
  by exists sched, (drive (thread_hit m (i / gpu_threads)) (thread_nonce (i / gpu_threads)) (work (l_threads s)) s).
Qed.

Lemma sample_host_pre : host_pre sample_gpu_options sample_env sample_rdata (sequential_scan sample_msg 2 4) sample_msg.
Proof.
  constructor; cbn [sample_gpu_options g_complexity g_gpu_threads g_expire_base g_max_iterations g_factor g_hashes_computed].
  - apply sample_gpu_pre.
  - reflexivity.
  - lia.
  - lia.
  - intros c E. injection E as <-. lia.
  - reflexivity.
  - intros k i _. apply sequential_scan_spec.
Qed.

Lemma host_run_correct_witness : exists b s,
  host_run sample_gpu_options sample_env sample_rdata (sequential_scan sample_msg 2 4) 5 = HostReturned (Some b) s /\
  exists j v nonce, Z.of_nat j * 4 < 4 /\ (v < 2)%nat /\
    host_solves sample_gpu_options sample_env sample_rdata v nonce = true /\
    b = body_slice (body (gpu_candidate sample_env sample_rdata 1600000000 v nonce)).
Proof.
  pose proof (host_run_correct sample_gpu_options sample_env sample_rdata (sequential_scan sample_msg 2 4) sample_msg sample_host_pre) as P.
  change (host_fuel sample_gpu_options) with 5%nat in P.
  destruct (host_run sample_gpu_options sample_env sample_rdata (sequential_scan sample_msg 2 4) 5) as [[b|] s|] eqn:E.
  - exists b, s. split; [reflexivity|]. destruct P as (j & v & nonce & P1 & P2 & _ & P3 & P4 & _).
    exists j, v, nonce. split; [exact P1|]. split; [exact P2|]. split; [exact P3|exact P4].
  - exfalso. vm_compute in E. discriminate E.
  - exfalso. exact P.
Defined.

Lemma find_confirmed_witness : exists b,
  build_mine_result sample_env sample_target sample_rdata 1 0 1600000000 = Some b
  /\ memcmp (Fips.sha256 (0 :: 242 :: b)) sample_target < 0.
Proof.
  assert (sequential_scan sample_msg 2 4 0 0 = mkHashResult 1 0) as E by (vm_compute; reflexivity).
  pose proof (find_confirmed sample_gpu_options sample_env sample_rdata (sequential_scan sample_msg 2 4) sample_msg 0
    (mkHost 0 None None) sample_host_pre ltac:(cbn; lia)) as P.
  cbv zeta in P. cbn [h_i] in P. rewrite E in P. exact (P eq_refl).
Defined.
