(* ===== verification/BigInt.v ===== *)
(** * Big integers: [AnyIntView] of [crypto/common/bigint.hpp]

    A number is a list of signed 64-bit digits in base [2 ^ 52], least significant first;
    the empty list is the invalid number (NaN).  The capacity ([max_size]) is an argument.
    This file holds the digit operations with their 64-bit wrap-around, the value of a
    number, its normal form, and the operations that are linear in the digits:
    normalisation, comparison, addition, subtraction, negation, conversion to a word. *)
From S2P Require Import Prelude.

(** ** Constants of [BigIntInfo] *)

Definition word_shift : Z := 52.
Definition word_bits : Z := 64.
Definition Base : Z := 2 ^ 52.
Definition Half : Z := 2 ^ 51.
Definition MaxDenorm : Z := 2 ^ 11.

(** [word_cnt] of [BigInt256] and of its [DoubleInt]. *)
Definition word_cnt : nat := 5.
Definition double_word_cnt : nat := 10.

Abbreviation digits := (list Z).
Abbreviation NaN := (@nil Z).

Definition is_valid (x : digits) : bool := match x with [] => false | _ => true end.
Definition top_word (x : digits) : Z := List.last x 0.

(** The quiet NaN of the word-valued results, [0x80000000] and [~0ULL << 63]. *)
Definition sgn_nan : Z := - 2 ^ 31.
Definition word_nan : Z := - 2 ^ 63.

Definition sgn (x : digits) : Z :=
  if is_valid x then (if 0 <? top_word x then 1 else if top_word x <? 0 then -1 else 0) else sgn_nan.

(** ** Normalisation *)

Definition low_word (v : Z) : Z := Z.land v (Base - 1) - Half.

(** The second loop of [normalize_bool_any]: the digits and the carry. *)
Fixpoint norm_loop (val : Z) (x : digits) : digits * Z :=
  match x with
  | [] => ([], val)
  | d :: x' =>
      let v := s64 (val + s64 (d + Half)) in
      let (r, c) := norm_loop (Z.shiftr v word_shift) x' in
      (low_word v :: r, c)
  end.

(** The first loop skips the digits that are already in range. *)
Fixpoint norm_skip (x : digits) : digits * Z :=
  match x with
  | d :: x' =>
      if (d <? Half) && (- Half <=? d)
      then let (r, c) := norm_skip x' in (d :: r, c)
      else norm_loop 0 x
  | [] => ([], 0)
  end.

(** [while (val)] with room for [room] more digits; [None] is an overflow of the capacity. *)
Fixpoint norm_grow (room : nat) (val : Z) : option digits :=
  if val =? 0 then Some []
  else match room with
       | O => None
       | S room' =>
           let v := s64 (val + Half) in
           option_map (cons (low_word v)) (norm_grow room' (Z.shiftr v word_shift))
       end.

(** [while (size() > 1 && !digits[size() - 1]) dec_size()] *)
Fixpoint strip (x : digits) : digits :=
  match x with
  | [] => []
  | d :: x' => match strip x' with [] => if d =? 0 then [] else [d] | t => d :: t end
  end.
Definition trim (x : digits) : digits := match x with [] => [] | d :: x' => d :: strip x' end.

Definition normalize_bool_any (max : nat) (x : digits) : digits :=
  match x with
  | [] => NaN
  | _ =>
      let (r, c) := norm_skip x in
      match norm_grow (max - length x) c with
      | Some t => trim (r ++ t)
      | None => NaN
      end
  end.

(** ** Linear operations *)

(** [digits[i] += y.digits[i]] over the shorter of the two, then the rest of the longer. *)
Fixpoint add_digits (f : Z -> Z -> Z) (x y : digits) : digits :=
  match x, y with
  | a :: x', b :: y' => s64 (f a b) :: add_digits f x' y'
  | [], _ => map (fun b => s64 (f 0 b)) y
  | _, [] => x
  end.

Definition addsub_any (f : Z -> Z -> Z) (max : nat) (x y : digits) : digits :=
  if (length y <=? length x)%nat then
    if is_valid y then add_digits f x y else NaN
  else if negb (is_valid x) then NaN
  else if (max <? length y)%nat then NaN
  else add_digits f x y.

Definition add_any : nat -> digits -> digits -> digits := addsub_any Z.add.
Definition sub_any : nat -> digits -> digits -> digits := addsub_any Z.sub.

Definition negate_any (x : digits) : digits := map (fun d => s64 (- d)) x.
Definition mul_tiny_any (y : Z) (x : digits) : digits := map (fun d => s64 (d * y)) x.

(** [add_tiny] and [logical_not] write [digits[0]] also of an invalid number, whose size
    stays 0. *)
Definition add_tiny (y : Z) (x : digits) : digits :=
  match x with [] => [] | d :: x' => s64 (d + y) :: x' end.
Definition logical_not (x : digits) : digits :=
  match x with [] => [] | d :: x' => Z.lnot d :: map (fun e => s64 (- e)) x' end.

(** ** Powers of two *)

Definition set_pow2_any (max : nat) (exponent : Z) : digits :=
  if (exponent <? 0) || (Z.of_nat max * word_shift <=? exponent) then NaN
  else
    let k := Z.to_nat (exponent / word_shift) in
    let rem := exponent mod word_shift in
    if (rem =? word_shift - 1) && (k + 1 <? max)%nat then replicate k 0 ++ [- Half; 1]
    else replicate k 0 ++ [Z.shiftl 1 rem].

(** [factor << dm.rem] is a shift of a 32-bit [int]: a shift by 32 or more is undefined,
    which is [None] here. *)
Definition add_pow2_any (max : nat) (exponent factor : Z) (x : digits) : option digits :=
  if (exponent <? 0) || (Z.of_nat max * word_shift <=? exponent) then Some NaN
  else if negb (is_valid x) then Some x
  else
    let k := Z.to_nat (exponent / word_shift) in
    let rem := exponent mod word_shift in
    let x' := x ++ replicate (S k - length x) 0 in
    if rem <? 32 then Some (<[k := s64 (x' !!! k + s32 (Z.shiftl factor rem))]> x') else None.

(** [set_any]: a number that is too long is cut; the result says whether it fitted. *)
Definition set_any (max : nat) (y : digits) : bool * digits :=
  if (length y <=? max)%nat then (true, y) else (false, take max y).

(** ** Comparison *)

(** The loop from the top digit down, on the digits in that order. *)
Fixpoint cmp_down (x y : digits) : Z :=
  match x, y with
  | a :: x', b :: y' => if a <? b then -1 else if b <? a then 1 else cmp_down x' y'
  | _, _ => 0
  end.

Definition cmp_any (x y : digits) : Z :=
  if (length y <? length x)%nat then (if top_word x <? 0 then -1 else 1)
  else if (length x <? length y)%nat then (if 0 <? top_word y then -1 else 1)
  else cmp_down (rev x) (rev y).

Definition cmp_any_word (x : digits) (y : Z) : Z :=
  match x with
  | _ :: _ :: _ => if top_word x <? 0 then -1 else 1
  | [d] => if d <? y then -1 else if y <? d then 1 else 0
  | [] => sgn_nan
  end.

Definition eq_any (x y : digits) : bool := (length y =? length x)%nat && bool_decide (x = y).
Definition eq_any_word (x : digits) (y : Z) : bool := match x with [d] => d =? y | _ => false end.

(** [sgn_un_any]: the sign of a number whose digits need not be in range. *)
Fixpoint sgn_un_loop (v : Z) (rest : digits) : Z :=
  match rest with
  | [] => if 0 <? v then 1 else if v <? 0 then -1 else 0
  | w :: rest' =>
      let v := s64 (Z.shiftl v word_shift) in
      if s64 (- v + MaxDenorm) <=? w then 1
      else if w <=? s64 (- v - MaxDenorm) then -1
      else sgn_un_loop (s64 (v + w)) rest'
  end.

Definition sgn_un_any (x : digits) : Z :=
  match rev x with
  | [] => 0
  | [v] => if 0 <? v then 1 else if v <? 0 then -1 else 0
  | v :: rest =>
      if MaxDenorm <=? v then 1 else if v <=? - MaxDenorm then -1 else sgn_un_loop v rest
  end.

(** ** Conversion to a word *)

(** The loop over the middle digits; the last digit is compared with what is left. *)
Fixpoint to_long_loop (w v : Z) (rest : digits) : Z :=
  match rest with
  | [] => v
  | [d] => if w =? d then v else word_nan
  | d :: rest' =>
      let w := s64 (w - d) in
      if Z.land w (Base - 1) =? 0 then to_long_loop (Z.shiftr w word_shift) v rest' else word_nan
  end.

Definition to_long_any (x : digits) : Z :=
  match x with
  | [] => word_nan
  | [d] => d
  | d0 :: d1 :: _ =>
      let v := s64 (d0 + s64 (Z.shiftl d1 word_shift)) in
      let w := s64 (Z.shiftr (s64 (Z.land v (Base - 1) - d0)) word_shift + Z.shiftr v word_shift) in
      to_long_loop w v (tail x)
  end.

(** [is_odd_any] and [get_bit_any]. *)
Definition is_odd_any (x : digits) : bool := match x with [] => false | d :: _ => Z.odd d end.

(** The sign of the digits below index [i], from the first nonzero one down. *)
Fixpoint borrow_below (rest : digits) : bool :=
  match rest with
  | [] => false
  | d :: rest' => if d <? 0 then true else if 0 <? d then false else borrow_below rest'
  end.

Definition get_bit_any (x : digits) (bit : Z) : bool :=
  if negb (is_valid x) then false
  else if Z.of_nat (length x) * word_shift <=? bit then sgn x <? 0
  else if bit <? word_shift then Z.testbit (x !!! 0%nat) bit
  else
    let i := Z.to_nat (bit / word_shift) in
    let d := x !!! i - (if borrow_below (rev (take i x)) then 1 else 0) in
    Z.testbit d (bit mod word_shift).

(** ** Bits a number needs *)

Definition unsigned_fits_bits_any (x : digits) (nbits : Z) : bool :=
  if negb (is_valid x) then false
  else if sgn x <? 0 then false
  else if sgn x =? 0 then true
  else if Z.of_nat (length x) * word_shift <=? nbits then true
  else if nbits <? 0 then false
  else
    let k := Z.to_nat (nbits / word_shift) in
    let rem := nbits mod word_shift in
    (* [while (--k >= 0)]: the first nonzero lower digit decides *)
    let below := borrow_below (rev (take k x)) in
    if (k + 2 <=? length x)%nat then
      if negb ((length x =? k + 2)%nat && (rem =? word_shift - 1)) then false
      else if negb (x !!! (k + 1)%nat =? 1) then false
      else if - Half <? x !!! k then false
      else if x !!! k <? - Half then true
      else below
    else if (length x <=? k)%nat then true
    else if Z.shiftl 1 rem <? x !!! k then false
    else if x !!! k <? Z.shiftl 1 rem then true
    else below.

(** The final loop of [signed_fits_bits_any] for the sign [s]. *)
Fixpoint signed_below (s : Z) (rest : digits) : bool :=
  match rest with
  | [] => s <? 0
  | d :: rest' => if d <? 0 then 0 <? s else if 0 <? d then s <? 0 else signed_below s rest'
  end.

Definition signed_fits_bits_any (x : digits) (nbits : Z) : bool :=
  if negb (is_valid x) then false
  else if Z.of_nat (length x) * word_shift <? nbits then true
  else
    let s := sgn x in
    if s =? 0 then true
    else if nbits <=? 0 then false
    else
      let k := Z.to_nat ((nbits - 1) / word_shift) in
      let rem := (nbits - 1) mod word_shift in
      let val := if 0 <? s then x !!! k else s64 (- (x !!! k)) in
      let below := signed_below s (rev (take k x)) in
      if (length x <=? k)%nat then true
      else if (k + 2 <=? length x)%nat then
        if negb ((length x =? k + 2)%nat && (rem =? word_shift - 1)) then false
        else if negb (x !!! (k + 1)%nat =? s) then false
        else if - Half <? val then false
        else if val <? - Half then true
        else below
      else if Z.shiftl 1 rem <? val then false
      else if val <? Z.shiftl 1 rem then true
      else below.

(** ** Values and normal forms *)

Fixpoint value (x : digits) : Z :=
  match x with [] => 0 | d :: x' => d + Base * value x' end.

Definition in_range (d : Z) : Prop := - Half <= d < Half.

(** Digits small enough for one more sum of digits not to wrap. *)
Definition digit_ok (d : Z) : Prop := - 2 ^ 61 <= d <= 2 ^ 61.

(** A normal number: digits in range, and no zero on top of another digit. *)
Definition normal (x : digits) : Prop :=
  x <> [] /\ Forall in_range x /\ (length x = 1%nat \/ top_word x <> 0).

(** The least and the largest value of [n] digits in range. *)
Fixpoint lo (n : nat) : Z := match n with O => 0 | S n' => - Half + Base * lo n' end.
Fixpoint hi (n : nat) : Z := match n with O => 0 | S n' => Half - 1 + Base * hi n' end.

Lemma value_app x y : value (x ++ y) = value x + Base ^ Z.of_nat (length x) * value y.
Proof.
  induction x as [|d x IH]; [simpl; lia|]. cbn [app value length]. rewrite IH.
  rewrite Nat2Z.inj_succ, Z.pow_succ_r by lia. lia.
Qed.

Lemma value_snoc x d : value (x ++ [d]) = value x + Base ^ Z.of_nat (length x) * d.
Proof. rewrite value_app. cbn [value]. lia. Qed.

Lemma value_zeros k : value (replicate k 0) = 0.
Proof. induction k as [|k IH]; [done|]. cbn [replicate value]. lia. Qed.

Lemma Base_pos k : 0 < Base ^ Z.of_nat k.
Proof. apply Z.pow_pos_nonneg; unfold Base; lia. Qed.

Lemma lo_hi n : hi n - lo n = Base ^ Z.of_nat n - 1 /\ lo n <= 0 <= hi n.
Proof.
  induction n as [|n [IH1 IH2]]; [done|]. rewrite Nat2Z.inj_succ, Z.pow_succ_r by lia.
  cbn [lo hi]. unfold Half, Base in *. lia.
Qed.

Lemma value_range x : Forall in_range x -> lo (length x) <= value x <= hi (length x).
Proof.
  induction 1 as [|d x Hd Hx IH]; [done|]. cbn [length value lo hi]. unfold in_range, Half, Base in *. lia.
Qed.

Lemma value_bound x : Forall in_range x -> - Base ^ Z.of_nat (length x) < value x < Base ^ Z.of_nat (length x).
Proof. intros Hx. pose proof (value_range x Hx). pose proof (lo_hi (length x)). lia. Qed.

(** Digits in range are determined by the value, one by one. *)
Lemma digit_unique d v d' v' : in_range d -> in_range d' -> d + Base * v = d' + Base * v' -> d = d' /\ v = v'.
Proof. unfold in_range, Half, Base. intros. lia. Qed.

(** The sign of a number is that of its top digit. *)
Lemma value_top x t : Forall in_range x -> t <> 0 -> 0 < t * value (x ++ [t]).
Proof.
  intros Hx Ht. rewrite value_snoc. pose proof (value_bound x Hx). pose proof (Base_pos (length x)). nia.
Qed.

Lemma top_word_snoc x t : top_word (x ++ [t]) = t.
Proof. unfold top_word. apply List.last_last. Qed.

Lemma normal_snoc x : normal x -> exists y t, x = y ++ [t] /\ Forall in_range y /\ in_range t /\ (y = [] \/ t <> 0).
Proof.
  intros (Hne & Hr & Ht). destruct x as [|t y _] using rev_ind; [done|].
  rewrite Forall_app, Forall_singleton in Hr. destruct Hr as [Hy Hd]. exists y, t. split; [done|].
  split; [done|]. split; [done|]. rewrite length_app, top_word_snoc in Ht. simpl in Ht.
  destruct Ht as [Hl|Ht]; [left|by right]. destruct y; [done|]. simpl in Hl. lia.
Qed.

Lemma sgn_value x : normal x -> sgn x = Z.sgn (value x).
Proof.
  intros Hn. destruct (normal_snoc x Hn) as (y & t & -> & Hy & Ht & Hz).
  unfold sgn. rewrite top_word_snoc. assert (is_valid (y ++ [t]) = true) as -> by by destruct y.
  destruct (decide (t = 0)) as [->|Hne].
  - destruct Hz as [->|]; [done|done].
  - pose proof (value_top y t Hy Hne).
    destruct (Z.ltb_spec 0 t); [rewrite Z.sgn_pos; nia|].
    destruct (Z.ltb_spec t 0); [rewrite Z.sgn_neg; nia|lia].
Qed.

Lemma normal_unique x y : normal x -> normal y -> value x = value y -> x = y.
Proof.
  intros Hx Hy. destruct Hx as (Hx0 & Hxr & Hxt), Hy as (Hy0 & Hyr & Hyt).
  revert y Hy0 Hyr Hyt. induction x as [|d x IH]; intros [|e y] Hy0 Hyr Hyt E; try done.
  apply Forall_cons_1 in Hxr as [Hd Hxr]. apply Forall_cons_1 in Hyr as [He Hyr].
  cbn [value] in E. destruct (digit_unique _ _ _ _ Hd He E) as [-> E']. f_equal.
  assert (forall l f, Forall in_range l -> (length (f :: l) = 1%nat \/ top_word (f :: l) <> 0) -> l <> [] -> value l <> 0) as Hnz.
  { intros l f Hl Ht Hne. destruct l as [|t l _] using rev_ind; [done|].
    rewrite Forall_app in Hl. destruct Hl as [Hl _]. destruct Ht as [Ht|Ht].
    - rewrite length_cons, length_app in Ht. simpl in Ht. lia.
    - change (f :: l ++ [t]) with ((f :: l) ++ [t]) in Ht. rewrite top_word_snoc in Ht.
      pose proof (value_top l t Hl Ht). nia. }
  destruct x as [|d' x], y as [|e' y]; [done| | |].
  - destruct (Hnz _ _ Hyr Hyt ltac:(done)). by rewrite <- E'.
  - destruct (Hnz _ _ Hxr Hxt ltac:(done)). by rewrite E'.
  - apply IH; try done.
    + destruct Hxt as [?|Hxt]; [done|]. by right.
    + destruct Hyt as [?|Hyt]; [done|]. by right.
Qed.

(** ** Normalisation: correctness *)

Lemma low_word_eq v : low_word v = v mod Base - Half.
Proof. unfold low_word, Base. change (2 ^ 52 - 1) with (Z.ones 52). by rewrite Z.land_ones. Qed.

Lemma shiftr_word v : Z.shiftr v word_shift = v / Base.
Proof. unfold word_shift. by rewrite Z.shiftr_div_pow2. Qed.

Lemma low_word_range v : in_range (low_word v).
Proof. rewrite low_word_eq. unfold in_range, Half, Base. pose proof (Z.mod_pos_bound v (2 ^ 52)). lia. Qed.

Lemma low_word_carry v : low_word v + Base * Z.shiftr v word_shift = v - Half.
Proof. rewrite low_word_eq, shiftr_word. pose proof (Z.div_mod v Base). unfold Base in *. lia. Qed.

Lemma s64_small x : - 2 ^ 63 <= x < 2 ^ 63 -> s64 x = x.
Proof. apply (wraps_small 64). lia. Qed.

Lemma norm_loop_spec x val : Forall digit_ok x -> - 2 ^ 13 <= val <= 2 ^ 13 ->
  let (r, c) := norm_loop val x in
  length r = length x /\ Forall in_range r /\ - 2 ^ 13 <= c <= 2 ^ 13
  /\ value r + Base ^ Z.of_nat (length x) * c = val + value x.
Proof.
  revert val. induction x as [|d x IH]; intros val Hx Hv.
  - cbn. split; [done|]. split; [constructor|]. lia.
  - apply Forall_cons_1 in Hx as [Hd Hx]. unfold digit_ok in Hd. cbn [norm_loop].
    rewrite (s64_small (d + Half)), s64_small by (unfold Half; lia).
    set (v := val + (d + Half)). pose proof (low_word_carry v) as Hc. pose proof (low_word_range v) as Hr.
    assert (- 2 ^ 13 <= Z.shiftr v word_shift <= 2 ^ 13) as Hcv.
    { rewrite shiftr_word. unfold v, Half, Base. split; [apply Z.div_le_lower_bound; lia|].
      apply Z.lt_succ_r, Z.div_lt_upper_bound; lia. }
    specialize (IH _ Hx Hcv). destruct (norm_loop (Z.shiftr v word_shift) x) as [r c].
    destruct IH as (Hl & Hrr & Hcc & Hval). split; [simpl; lia|]. split; [by constructor|]. split; [done|].
    cbn [value length]. rewrite Nat2Z.inj_succ, Z.pow_succ_r by lia.
    apply (f_equal (Z.mul Base)) in Hval. assert (v = val + (d + Half)) as Ev by done. clearbody v. lia.
Qed.

Lemma norm_skip_eq x : norm_skip x = norm_loop 0 x.
Proof.
  induction x as [|d x IH]; [done|]. cbn [norm_skip].
  destruct (Z.ltb_spec d Half); [|done]. destruct (Z.leb_spec (- Half) d); [|done]. cbn [andb].
  rewrite IH. cbn [norm_loop]. assert (s64 (0 + s64 (d + Half)) = d + Half) as ->.
  { unfold Half in *. rewrite !s64_small by (rewrite ?s64_small by lia; lia). lia. }
  rewrite low_word_eq, shiftr_word, Z.mod_small, Z.div_small by (unfold Half, Base in *; lia).
  destruct (norm_loop 0 x). f_equal. f_equal. lia.
Qed.

Lemma norm_grow_spec room val : - 2 ^ 13 <= val <= 2 ^ 13 ->
  match norm_grow room val with
  | Some t => Forall in_range t /\ (length t <= room)%nat /\ value t = val
  | None => forall t, Forall in_range t -> (length t <= room)%nat -> value t <> val
  end.
Proof.
  revert val. induction room as [|room IH]; intros val Hv; cbn [norm_grow]; destruct (Z.eqb_spec val 0) as [->|Hne].
  - split; [constructor|]. done.
  - intros [|] _ Hl; [cbn; lia|simpl in Hl; lia].
  - split; [constructor|]. split; [simpl; lia|done].
  - rewrite s64_small by (unfold Half; lia). set (v := val + Half).
    pose proof (low_word_carry v) as Hc. pose proof (low_word_range v) as Hr.
    assert (- 2 ^ 13 <= Z.shiftr v word_shift <= 2 ^ 13) as Hcv.
    { rewrite shiftr_word. unfold v, Half, Base. split; [apply Z.div_le_lower_bound; lia|].
      apply Z.lt_succ_r, Z.div_lt_upper_bound; lia. }
    assert (v = val + Half) as Ev by done. clearbody v.
    specialize (IH _ Hcv). destruct (norm_grow room (Z.shiftr v word_shift)) as [t|]; cbn [option_map].
    + destruct IH as (Ht & Hl & E). split; [by constructor|]. split; [simpl; lia|]. cbn [value]. rewrite E. lia.
    + intros [|d t] Ht Hl E; [cbn in E; lia|]. apply Forall_cons_1 in Ht as [Hd Ht]. cbn [value] in E.
      destruct (digit_unique (low_word v) (Z.shiftr v word_shift) d (value t)) as [_ E']; [done|done|lia|].
      simpl in Hl. by apply (IH t Ht ltac:(lia)).
Qed.

Lemma strip_spec x : value (strip x) = value x /\ (length (strip x) <= length x)%nat /\
  (Forall in_range x -> Forall in_range (strip x)) /\ (strip x <> [] -> top_word (strip x) <> 0).
Proof.
  induction x as [|d x (IHv & IHl & IHr & IHt)]; [done|]. cbn [strip value length].
  destruct (strip x) as [|e y] eqn:E.
  - cbn [value] in IHv. destruct (Z.eqb_spec d 0) as [->|Hne].
    + split; [simpl; lia|]. split; [simpl; lia|]. split; [constructor|done].
    + split; [cbn [value]; lia|]. split; [simpl; lia|].
      split; [intros Hx; apply Forall_cons_1 in Hx as [? _]; by apply Forall_singleton|done].
  - split; [cbn [value] in *; lia|]. split; [simpl in *; lia|].
    split; [intros Hx; apply Forall_cons_1 in Hx as [? Hx]; constructor; [done|by apply IHr]|].
    intros _. apply IHt. done.
Qed.

Lemma trim_spec x : x <> [] -> Forall in_range x ->
  normal (trim x) /\ value (trim x) = value x /\ (length (trim x) <= length x)%nat.
Proof.
  destruct x as [|d x]; [done|]. intros _ Hx. apply Forall_cons_1 in Hx as [Hd Hx].
  destruct (strip_spec x) as (Hv & Hl & Hr & Ht). cbn [trim value length]. split; [|split; lia].
  split; [done|]. split; [constructor; auto|]. destruct (strip x) as [|e y] eqn:E; [by left|right].
  by apply Ht.
Qed.

(** [n]-digit representability is an interval. *)
Lemma representable n v : lo n <= v <= hi n <-> exists x, length x = n /\ Forall in_range x /\ value x = v.
Proof.
  split.
  - revert v. induction n as [|n IH]; intros v Hv.
    + exists []. split; [done|]. split; [constructor|]. cbn in *. lia.
    + cbn [lo hi] in Hv. set (q := (v + Half) / Base).
      pose proof (Z.div_mod (v + Half) Base ltac:(unfold Base; lia)) as E.
      pose proof (Z.mod_pos_bound (v + Half) Base ltac:(unfold Base; lia)) as M. fold q in E.
      destruct (IH q) as (x & Hl & Hx & Hq).
      { unfold Half, Base in *. nia. }
      exists ((v + Half) mod Base - Half :: x). split; [simpl; lia|]. split.
      * constructor; [unfold in_range; unfold Half, Base in *; lia|done].
      * cbn [value]. lia.
  - intros (x & <- & Hx & <-). by apply value_range.
Qed.

Lemma lo_hi_mono n m : (n <= m)%nat -> lo m <= lo n /\ hi n <= hi m.
Proof.
  revert m. induction n as [|n IH]; intros m Hm; [apply lo_hi|]. destruct m as [|m]; [lia|].
  destruct (IH m ltac:(lia)). cbn [lo hi]. unfold Base. lia.
Qed.

(** What stands above as many digits in range is determined by the value. *)
Lemma high_unique a b u w : Forall in_range a -> Forall in_range b -> length a = length b ->
  value a + Base ^ Z.of_nat (length b) * u = value b + Base ^ Z.of_nat (length b) * w -> u = w.
Proof.
  revert b. induction a as [|e a IH]; intros [|f b] Ha Hb Hlab E; try done; [cbn in E; lia|].
  apply Forall_cons_1 in Ha as [He Ha]. apply Forall_cons_1 in Hb as [Hf Hb].
  cbn [value length] in E. rewrite Nat2Z.inj_succ, Z.pow_succ_r in E by lia.
  destruct (digit_unique e (value a + Base ^ Z.of_nat (length b) * u) f (value b + Base ^ Z.of_nat (length b) * w))
    as [_ E']; [done|done|lia|]. apply (IH b); try done. simpl in Hlab. lia.
Qed.

(** Normalisation keeps the value when the capacity can hold it, and gives NaN otherwise. *)
Lemma normalize_spec max x : x <> [] -> (length x <= max)%nat -> Forall digit_ok x ->
  if decide (lo max <= value x <= hi max)
  then normal (normalize_bool_any max x) /\ (length (normalize_bool_any max x) <= max)%nat
       /\ value (normalize_bool_any max x) = value x
  else normalize_bool_any max x = NaN.
Proof.
  intros Hne Hl Hx. unfold normalize_bool_any. destruct x as [|d x]; [done|].
  set (l := d :: x) in *. clearbody l. clear d x. rewrite norm_skip_eq.
  pose proof (norm_loop_spec l 0 Hx ltac:(lia)) as N. destruct (norm_loop 0 l) as [r c].
  destruct N as (Hrl & Hr & Hc & Hv). pose proof (norm_grow_spec (max - length l) c Hc) as G.
  destruct (norm_grow (max - length l) c) as [t|].
  - destruct G as (Ht & Htl & Htv).
    assert (value (r ++ t) = value l) as Ev by (rewrite value_app, Hrl, Htv; lia).
    destruct (trim_spec (r ++ t)) as (Hn & Hvv & Hll).
    { destruct r; [|done]. destruct l; [done|]. simpl in Hrl. lia. }
    { by apply Forall_app. }
    rewrite length_app in Hll.
    rewrite decide_True; [split; [done|]; split; [lia|]; by rewrite Hvv|].
    rewrite <- Ev, <- Hvv. destruct Hn as (_ & Hnr & _). pose proof (value_range _ Hnr).
    pose proof (lo_hi_mono (length (trim (r ++ t))) max ltac:(lia)). lia.
  - rewrite decide_False; [done|]. intros Hrep. apply representable in Hrep as (y & Hyl & Hyr & Hyv).
    apply (G (drop (length l) y)); [by apply Forall_drop|rewrite length_drop; lia|].
    rewrite <- (take_drop (length l) y) in Hyv. rewrite value_app in Hyv.
    assert (length (take (length l) y) = length r) as Hlen by (rewrite length_take; lia).
    apply (high_unique (take (length l) y) r); [by apply Forall_take|done|done|].
    rewrite Hlen, Hrl in Hyv. rewrite Hrl. lia.
Qed.

(** Numbers of capacity [max]: normal and no longer than that. *)
Definition wf (max : nat) (x : digits) : Prop := normal x /\ (length x <= max)%nat.
(** Valid results of capacity [max], and NaN. *)
Definition wf_or_nan (max : nat) (x : digits) : Prop := x = NaN \/ wf max x.

Lemma wf_digit_ok max x : wf max x -> Forall digit_ok x.
Proof.
  intros [(_ & Hr & _) _]. eapply Forall_impl; [|exact Hr]. unfold in_range, digit_ok, Half. lia.
Qed.

(** The shape of every arithmetic result: exact, or NaN when the capacity is exceeded. *)
Definition exact_or_nan (max : nat) (v : Z) (x : digits) : Prop :=
  if decide (lo max <= v <= hi max) then wf max x /\ value x = v else x = NaN.

Lemma normalize_exact max x v : x <> [] -> (length x <= max)%nat -> Forall digit_ok x -> value x = v ->
  exact_or_nan max v (normalize_bool_any max x).
Proof.
  intros Hne Hl Hx <-. pose proof (normalize_spec max x Hne Hl Hx) as N. unfold exact_or_nan, wf.
  destruct (decide _); [|done]. by destruct N as (? & ? & ?).
Qed.

(** ** Linear operations: correctness *)

Lemma add_digits_spec f x y : (f = Z.add \/ f = Z.sub) -> Forall in_range x -> Forall in_range y ->
  value (add_digits f x y) = f (value x) (value y) /\ Forall digit_ok (add_digits f x y)
  /\ length (add_digits f x y) = (length x `max` length y)%nat.
Proof.
  intros Hf. revert y. induction x as [|a x IH]; intros y Hx Hy.
  - destruct y as [|b y]; [destruct Hf as [-> | ->]; done|].
    cbn [add_digits]. generalize dependent (b :: y). clear b y. intros y Hy.
    induction Hy as [|b y Hb Hy IHy]; [destruct Hf as [-> | ->]; done|]. cbn [map value length].
    destruct IHy as (E & Hd & Hl). rewrite E. unfold in_range, Half in Hb.
    rewrite s64_small by (destruct Hf as [-> | ->]; lia). cbn [value].
    split; [destruct Hf as [-> | ->]; lia|].
    split; [constructor; [unfold digit_ok; destruct Hf as [-> | ->]; lia|done]|]. simpl in *. lia.
  - apply Forall_cons_1 in Hx as [Ha Hx]. unfold in_range, Half in Ha. destruct y as [|b y].
    + cbn [add_digits value]. split; [destruct Hf as [-> | ->]; lia|]. split; [|simpl; lia].
      constructor; [unfold digit_ok; lia|]. eapply Forall_impl; [|exact Hx]. unfold in_range, digit_ok, Half. lia.
    + apply Forall_cons_1 in Hy as [Hb Hy]. unfold in_range, Half in Hb.
      destruct (IH y Hx Hy) as (E & Hd & Hl). cbn [add_digits value length]. rewrite E.
      rewrite s64_small by (destruct Hf as [-> | ->]; lia).
      split; [destruct Hf as [-> | ->]; lia|].
      split; [constructor; [unfold digit_ok; destruct Hf as [-> | ->]; lia|done]|]. simpl in *. lia.
Qed.

Lemma addsub_any_eq f max x y : wf max x -> wf max y -> addsub_any f max x y = add_digits f x y.
Proof.
  intros [(Hx & _) Hxl] [(Hy & _) Hyl]. unfold addsub_any. assert (is_valid y = true) as -> by by destruct y.
  assert (is_valid x = true) as -> by by destruct x. destruct (_ <=? _)%nat; [done|].
  by destruct (Nat.ltb_spec max (length y)); [lia|].
Qed.

Lemma addsub_exact f max x y : (f = Z.add \/ f = Z.sub) -> wf max x -> wf max y ->
  exact_or_nan max (f (value x) (value y)) (normalize_bool_any max (addsub_any f max x y)).
Proof.
  intros Hf Hx Hy. rewrite addsub_any_eq by done. destruct Hx as [(Hx0 & Hx & _) Hxl], Hy as [(_ & Hy & _) Hyl].
  destruct (add_digits_spec f x y Hf Hx Hy) as (E & Hd & Hl). apply normalize_exact; [|lia|done|done].
  destruct (add_digits f x y); [|done]. destruct x; [done|]. simpl in Hl. lia.
Qed.

Lemma addsub_nan f max x y : x = NaN \/ y = NaN -> normalize_bool_any max (addsub_any f max x y) = NaN.
Proof.
  unfold addsub_any. intros [-> | ->].
  - destruct y; [done|]. done.
  - done.
Qed.

Lemma negate_spec x : Forall in_range x ->
  value (negate_any x) = - value x /\ Forall digit_ok (negate_any x) /\ length (negate_any x) = length x.
Proof.
  induction 1 as [|d x Hd Hx (E & Hok & Hl)]; [done|]. unfold in_range, Half in Hd.
  unfold negate_any in *. cbn [map value length]. rewrite s64_small by lia. rewrite E, Hl.
  split; [lia|]. split; [|done]. constructor; [unfold digit_ok; lia|done].
Qed.

Lemma negate_exact max x : wf max x -> exact_or_nan max (- value x) (normalize_bool_any max (negate_any x)).
Proof.
  intros [(Hx0 & Hx & _) Hxl]. destruct (negate_spec x Hx) as (E & Hok & Hl).
  apply normalize_exact; [by destruct x|lia|done|done].
Qed.

Lemma add_tiny_exact max x y : wf max x -> - 2 ^ 60 <= y <= 2 ^ 60 ->
  exact_or_nan max (value x + y) (normalize_bool_any max (add_tiny y x)).
Proof.
  intros [(Hx0 & Hx & _) Hxl] Hy. destruct x as [|d x]; [done|]. apply Forall_cons_1 in Hx as [Hd Hx].
  unfold in_range, Half in Hd. cbn [add_tiny]. rewrite s64_small by lia.
  apply normalize_exact; [done|done| |cbn [value]; lia].
  constructor; [unfold digit_ok; lia|]. eapply Forall_impl; [|exact Hx]. unfold in_range, digit_ok, Half. lia.
Qed.

Lemma logical_not_exact max x : wf max x ->
  exact_or_nan max (- value x - 1) (normalize_bool_any max (logical_not x)).
Proof.
  intros [(Hx0 & Hx & _) Hxl]. destruct x as [|d x]; [done|]. apply Forall_cons_1 in Hx as [Hd Hx].
  destruct (negate_spec x Hx) as (E & Hok & Hl). unfold in_range, Half in Hd. cbn [logical_not].
  apply normalize_exact; [done| | |].
  - cbn [length] in *. unfold negate_any in Hl. lia.
  - constructor; [unfold digit_ok, Z.lnot; lia|done].
  - cbn [value]. unfold negate_any in E. rewrite E. unfold Z.lnot. lia.
Qed.

(** ** Comparison: correctness *)

(** Of two numbers with equally many digits below, the top digits decide. *)
Lemma top_decides x y a b : Forall in_range x -> Forall in_range y -> length x = length y -> a < b ->
  value (x ++ [a]) < value (y ++ [b]).
Proof.
  intros Hx Hy Hl Hab. rewrite !value_snoc, Hl. pose proof (value_range x Hx) as Rx. pose proof (value_range y Hy) as Ry.
  rewrite Hl in Rx. pose proof (lo_hi (length y)). pose proof (Base_pos (length y)). nia.
Qed.

Lemma cmp_down_spec x y : Forall in_range x -> Forall in_range y -> length x = length y ->
  cmp_down (rev x) (rev y) = match Z.compare (value x) (value y) with Lt => -1 | Eq => 0 | Gt => 1 end.
Proof.
  revert y. induction x as [|a x IH] using rev_ind; intros y Hx Hy Hl.
  - destruct y; [done|simpl in Hl; lia].
  - destruct y as [|b y _] using rev_ind; [rewrite length_app in Hl; simpl in Hl; lia|].
    rewrite !length_app in Hl. simpl in Hl. assert (length x = length y) as Hl' by lia.
    apply Forall_app in Hx as [Hx _]. apply Forall_app in Hy as [Hy _].
    rewrite !rev_app_distr. cbn [rev app cmp_down].
    destruct (Z.ltb_spec a b) as [Hlt|Hge].
    { pose proof (top_decides x y a b Hx Hy Hl' Hlt). by destruct (Z.compare_spec (value (x ++ [a])) (value (y ++ [b]))); try lia. }
    destruct (Z.ltb_spec b a) as [Hlt|Hge'].
    { pose proof (top_decides y x b a Hy Hx (eq_sym Hl') Hlt). by destruct (Z.compare_spec (value (x ++ [a])) (value (y ++ [b]))); try lia. }
    assert (a = b) as -> by lia. rewrite (IH y Hx Hy Hl'). rewrite !value_snoc, Hl'.
    destruct (Z.compare_spec (value x) (value y)), (Z.compare_spec (value x + Base ^ Z.of_nat (length y) * b) (value y + Base ^ Z.of_nat (length y) * b)); lia.
Qed.

(** A number with more digits is larger in magnitude. *)
Lemma longer_decides x y : normal x -> normal y -> (length y < length x)%nat ->
  top_word x <> 0 /\ (0 < top_word x -> value y < value x) /\ (top_word x < 0 -> value x < value y).
Proof.
  intros Hx (Hy0 & Hy & _) Hl. destruct (normal_snoc x Hx) as (z & t & -> & Hz & Ht & Hor). rewrite top_word_snoc.
  rewrite length_app in Hl. simpl in Hl.
  assert (t <> 0) as Hne.
  { destruct Hor as [->|?]; [|done]. destruct y; [done|simpl in Hl; lia]. }
  rewrite value_snoc. pose proof (value_range z Hz). pose proof (value_range y Hy).
  pose proof (lo_hi_mono (length y) (length z) ltac:(lia)). pose proof (lo_hi (length z)).
  pose proof (Base_pos (length z)). split; [done|]. split; intros; nia.
Qed.

Lemma cmp_any_value x y : normal x -> normal y ->
  cmp_any x y = match Z.compare (value x) (value y) with Lt => -1 | Eq => 0 | Gt => 1 end.
Proof.
  intros Hx Hy. unfold cmp_any. destruct (Nat.ltb_spec (length y) (length x)) as [Hlt|Hge].
  { destruct (longer_decides x y Hx Hy Hlt) as (H0 & H1 & H2).
    destruct (Z.ltb_spec (top_word x) 0), (Z.compare_spec (value x) (value y)); try lia. }
  destruct (Nat.ltb_spec (length x) (length y)) as [Hlt|Hge'].
  { destruct (longer_decides y x Hy Hx Hlt) as (H0 & H1 & H2).
    destruct (Z.ltb_spec 0 (top_word y)), (Z.compare_spec (value x) (value y)); try lia. }
  destruct Hx as (_ & Hx & _), Hy as (_ & Hy & _). apply cmp_down_spec; try done. lia.
Qed.

Lemma eq_any_value x y : normal x -> normal y -> eq_any x y = (value x =? value y).
Proof.
  intros Hx Hy. unfold eq_any. destruct (Z.eqb_spec (value x) (value y)) as [E|Hne].
  - rewrite (normal_unique x y Hx Hy E). rewrite Nat.eqb_refl, bool_decide_eq_true_2; done.
  - rewrite bool_decide_eq_false_2 by (intros ->; done). apply andb_false_r.
Qed.

(** ** Conversion to a word: correctness *)

Lemma to_long_loop_step w v d e rest :
  to_long_loop w v (d :: e :: rest)
  = let w := s64 (w - d) in
    if Z.land w (Base - 1) =? 0 then to_long_loop (Z.shiftr w word_shift) v (e :: rest) else word_nan.
Proof. done. Qed.

Lemma to_long_loop_spec rest w v : rest <> [] -> Forall in_range rest -> - 2 ^ 52 <= w <= 2 ^ 52 ->
  to_long_loop w v rest = if w =? value rest then v else word_nan.
Proof.
  intros Hne Hr. revert w. induction Hr as [|d rest Hd Hr IH]; intros w Hw; [done|].
  unfold in_range, Half in Hd. destruct rest as [|e rest].
  - cbn [to_long_loop value]. by rewrite Z.mul_0_r, Z.add_0_r.
  - rewrite to_long_loop_step. cbv zeta. rewrite s64_small by lia.
    change (value (d :: e :: rest)) with (d + Base * value (e :: rest)).
    unfold Base at 1. change (2 ^ 52 - 1) with (Z.ones 52). rewrite Z.land_ones by lia.
    pose proof (Z.div_mod (w - d) Base ltac:(unfold Base; lia)) as E. change (2 ^ 52) with Base.
    destruct (Z.eqb_spec ((w - d) mod Base) 0) as [E0|H0].
    + rewrite shiftr_word, IH; [|done|].
      2:{ unfold Base in *. split; [apply Z.div_le_lower_bound; lia|apply Z.lt_succ_r, Z.div_lt_upper_bound; lia]. }
      destruct (Z.eqb_spec ((w - d) / Base) (value (e :: rest))), (Z.eqb_spec w (d + Base * value (e :: rest))); try done.
      * unfold Base in *. lia.
      * unfold Base in *. lia.
    + destruct (Z.eqb_spec w (d + Base * value (e :: rest))) as [Ew|]; [|done].
      exfalso. apply H0. replace (w - d) with (value (e :: rest) * Base) by lia.
      apply Z.mod_mul. unfold Base. lia.
Qed.

Lemma to_long_value x : normal x ->
  to_long_any x = if decide (- 2 ^ 63 <= value x < 2 ^ 63) then value x else word_nan.
Proof.
  intros (Hne & Hr & _). destruct x as [|d0 [|d1 x]]; [done| |].
  - apply Forall_cons_1 in Hr as [Hd _]. unfold in_range, Half in Hd. cbn [value].
    rewrite decide_True by lia. cbn. lia.
  - cbn [to_long_any tail]. set (rest := d1 :: x) in *. pose proof Hr as Hr'. apply Forall_cons_1 in Hr as [Hd0 Hr].
    assert (in_range d1) as Hd1 by by apply Forall_cons_1 in Hr as [? _].
    unfold in_range, Half in Hd0, Hd1.
    set (v := s64 (d0 + s64 (Z.shiftl d1 word_shift))).
    assert (exists k, v = d0 + Base * value rest + k * 2 ^ 64) as [k Ek].
    { unfold v. destruct (wraps_congr 64 (Z.shiftl d1 word_shift) ltac:(lia)) as [k1 E1].
      destruct (wraps_congr 64 (d0 + s64 (Z.shiftl d1 word_shift)) ltac:(lia)) as [k2 E2].
      rewrite E2, E1. unfold word_shift. rewrite Z.shiftl_mul_pow2 by lia. unfold rest. cbn [value].
      destruct x as [|d2 x]; cbn [value].
      - exists (k1 + k2). unfold Base. lia.
      - exists (k1 + k2 - 2 ^ 40 * (d2 + Base * value x)). unfold Base. lia. }
    assert (- 2 ^ 63 <= v < 2 ^ 63) as Hv by apply (wraps_range 64 _ ltac:(lia)).
    assert (v mod Base = d0 mod Base) as Em.
    { rewrite Ek. replace (d0 + Base * value rest + k * 2 ^ 64) with (d0 + (value rest + k * 2 ^ 12) * Base)
        by (unfold Base; lia). apply Z.mod_add. unfold Base. lia. }
    assert (exists q, v mod Base - d0 = q * Base /\ - 2 <= q <= 2) as (q & Eq & Hq).
    { rewrite Em. pose proof (Z.div_mod d0 Base ltac:(unfold Base; lia)). exists (- (d0 / Base)).
      split; [lia|]. unfold Base in *.
      pose proof (Z.div_le_lower_bound d0 (2 ^ 52) (-1) ltac:(lia) ltac:(lia)).
      pose proof (Z.div_lt_upper_bound d0 (2 ^ 52) 1 ltac:(lia) ltac:(lia)). lia. }
    assert (- 2 ^ 11 <= v / Base < 2 ^ 11) as Hvb.
    { unfold Base. split; [apply Z.div_le_lower_bound; lia|apply Z.div_lt_upper_bound; lia]. }
    assert (s64 (Z.shiftr (s64 (Z.land v (Base - 1) - d0)) word_shift + Z.shiftr v word_shift) = q + v / Base) as ->.
    { unfold Base at 1. change (2 ^ 52 - 1) with (Z.ones 52). rewrite Z.land_ones by lia. change (2 ^ 52) with Base.
      rewrite Eq, !shiftr_word. rewrite (s64_small (q * Base)) by (unfold Base; lia).
      rewrite Z.div_mul by (unfold Base; lia). rewrite s64_small by lia. done. }
    rewrite to_long_loop_spec by (done || unfold rest || lia).
    assert ((q + v / Base) * Base = v - d0) as Hqv.
    { pose proof (Z.div_mod v Base ltac:(unfold Base; lia)). lia. }
    change (value (d0 :: rest)) with (d0 + Base * value rest).
    destruct (Z.eqb_spec (q + v / Base) (value rest)) as [E|E], (decide (- 2 ^ 63 <= d0 + Base * value rest < 2 ^ 63)); try done.
    + rewrite <- E. lia.
    + exfalso. rewrite <- E in *. lia.
    + exfalso. apply E. assert (k = 0) as -> by lia. unfold Base in *. lia.
Qed.

(** ** Properties *)

(** The value of a number that may be NaN. *)
Definition value_of (x : digits) : option Z := if is_valid x then Some (value x) else None.
