(* ===== verification/BigIntOps.v ===== *)
(** * Big integers: bit sizes, shifts, products ([crypto/common/bigint.hpp], continued)

    The operations of [AnyIntView] that look at single bits or mix digits, and what they
    compute: the tests for a number of bits, the shifts, the product, the bitwise
    operations and the remainder modulo a power of two. *)
From S2P Require Import Prelude BigInt.

(** ** Numbers of bits *)

Lemma lo_bound n : 4 * - lo n <= 3 * Base ^ Z.of_nat n - 3.
Proof.
  induction n as [|n IH]; [done|]. rewrite Nat2Z.inj_succ, Z.pow_succ_r by lia.
  cbn [lo]. unfold Half, Base in *. lia.
Qed.

(** A number below [Base ^ k] in digits in range is at most three quarters of it. *)
Lemma value_three_quarters x : Forall in_range x ->
  - 3 * Base ^ Z.of_nat (length x) < 4 * value x < 3 * Base ^ Z.of_nat (length x).
Proof.
  intros Hx. pose proof (value_range x Hx). pose proof (lo_bound (length x)). pose proof (lo_hi (length x)).
  pose proof (Base_pos (length x)). assert (hi (length x) <= - lo (length x)); [|lia].
  clear. induction (length x) as [|n IH]; [done|]. cbn [lo hi]. unfold Half, Base. lia.
Qed.

Lemma borrow_below_spec l : Forall in_range l -> borrow_below (rev l) = (value l <? 0).
Proof.
  induction l as [|d l IH] using rev_ind; intros Hl; [done|].
  apply Forall_app in Hl as [Hl _]. rewrite rev_app_distr. cbn [rev app borrow_below].
  destruct (Z.ltb_spec d 0).
  { pose proof (value_top l d Hl ltac:(lia)). symmetry. apply Z.ltb_lt. nia. }
  destruct (Z.ltb_spec 0 d).
  { pose proof (value_top l d Hl ltac:(lia)). symmetry. apply Z.ltb_ge. nia. }
  assert (d = 0) as -> by lia. rewrite IH by done. rewrite value_snoc. f_equal. lia.
Qed.

Lemma signed_below_spec s l : Forall in_range l -> s = 1 \/ s = -1 ->
  signed_below s (rev l) = (s * value l <? 0) || ((value l =? 0) && (s <? 0)).
Proof.
  intros Hl Hs. induction l as [|d l IH] using rev_ind.
  { cbn. rewrite Z.mul_0_r. by destruct Hs as [-> | ->]. }
  apply Forall_app in Hl as [Hl _]. specialize (IH Hl). rewrite rev_app_distr. cbn [rev app signed_below].
  destruct (decide (d = 0)) as [->|Hd].
  { cbn [Z.ltb Z.compare]. rewrite value_snoc, IH, Z.mul_0_r, Z.add_0_r. done. }
  pose proof (value_top l d Hl Hd) as Hv. set (v := value (l ++ [d])) in *. clearbody v.
  destruct (Z.ltb_spec d 0), (Z.ltb_spec 0 d), (Z.eqb_spec v 0); try lia; try nia;
    destruct Hs as [-> | ->]; cbn [Z.ltb Z.compare]; symmetry;
    rewrite ?andb_false_l, ?orb_false_r; (apply Z.ltb_lt; nia) || (apply Z.ltb_ge; nia).
Qed.

(** [k] low digits, one digit and the rest. *)
Lemma split_at (x : digits) k : (k < length x)%nat ->
  exists l d u, x = l ++ d :: u /\ length l = k /\ x !!! k = d /\ take k x = l.
Proof.
  intros Hk. destruct (lookup_lt_is_Some_2 x k Hk) as [d Hd]. exists (take k x), d, (drop (S k) x).
  split; [by rewrite take_drop_middle|]. split; [rewrite length_take; lia|].
  split; [by apply list_lookup_total_correct|done].
Qed.

Lemma value_split l d u : value (l ++ d :: u) = value l + Base ^ Z.of_nat (length l) * (d + Base * value u).
Proof. by rewrite value_app. Qed.

Lemma pow2_digits n : 0 <= n -> 2 ^ n = 2 ^ (n mod 52) * Base ^ (n / 52).
Proof.
  intros Hn. unfold Base. rewrite <- Z.pow_mul_r by (try apply Z.div_pos; lia).
  rewrite <- Z.pow_add_r; [f_equal; pose proof (Z.div_mod n 52); lia|apply Z.mod_pos_bound; lia|].
  pose proof (Z.div_pos n 52). lia.
Qed.

Lemma Base_mono a b : (a <= b)%nat -> Base ^ Z.of_nat a <= Base ^ Z.of_nat b.
Proof. intros. apply Z.pow_le_mono_r; [unfold Base; lia|lia]. Qed.

(** The comparison of a positive number [s * value x] with [2 ^ rem * Base ^ k], by cases on
    the number of digits; [E] is what the digits below [k] contribute. *)
Lemma bits_one_digit s l d rem : s = 1 \/ s = -1 -> Forall in_range l -> 0 <= rem ->
  let k := Z.of_nat (length l) in let P := 2 ^ rem * Base ^ k in let V := s * value (l ++ [d]) in
  (2 ^ rem < s * d -> P < V) /\ (s * d < 2 ^ rem -> V < P) /\ (s * d = 2 ^ rem -> V - P = s * value l).
Proof.
  intros Hs Hl Hr k P V. pose proof (value_bound l Hl). pose proof (Base_pos (length l)).
  unfold V, P, k. rewrite value_snoc. set (B := Base ^ Z.of_nat (length l)) in *. clearbody B.
  assert (- B < s * value l < B) by (destruct Hs as [-> | ->]; lia).
  replace (s * (value l + B * d)) with (s * value l + B * (s * d)) by lia.
  set (e := s * d) in *. set (p := 2 ^ rem) in *. clearbody e p. split; [|split]; intros; nia.
Qed.

(** Two digits and more: only a top digit of one over a [-Half] can stay at the bound. *)
Lemma bits_more_digits s l d u rem : s = 1 \/ s = -1 -> Forall in_range (l ++ d :: u) -> 0 <= rem < 52 ->
  0 < s * value u ->
  let k := Z.of_nat (length l) in let P := 2 ^ rem * Base ^ k in let V := s * value (l ++ d :: u) in
  (s * value u <> 1 \/ rem <> 51 -> P < V) /\
  (s * value u = 1 -> rem = 51 -> V - P = (Half + s * d) * Base ^ k + s * value l).
Proof.
  intros Hs Hx Hr Hpos k P V. apply Forall_app in Hx as [Hl Hx]. apply Forall_cons_1 in Hx as [Hd Hx].
  pose proof (value_bound l Hl). pose proof (Base_pos (length l)). unfold V, P, k. rewrite value_split.
  set (B := Base ^ Z.of_nat (length l)) in *. clearbody B.
  assert (- B < s * value l < B) by (destruct Hs as [-> | ->]; lia).
  replace (s * (value l + B * (d + Base * value u))) with (s * value l + B * (s * d + Base * (s * value u))) by lia.
  assert (- Half <= s * d <= Half) by (unfold in_range in Hd; destruct Hs as [-> | ->]; lia).
  set (e := s * d) in *. set (w := s * value u) in *. set (E := s * value l) in *. clearbody e w E.
  assert (0 < 2 ^ rem <= 2 ^ 51) as Hp by (split; [lia|apply Z.pow_le_mono_r; lia]).
  split.
  - intros Hor. assert (2 ^ rem + 1 <= e + Base * w); [|unfold Half, Base in *; nia].
    destruct Hor as [Hw|Hrem].
    + unfold Half, Base in *. nia.
    + assert (2 ^ rem <= 2 ^ 50) by (apply Z.pow_le_mono_r; lia). unfold Half, Base in *. nia.
  - intros -> ->. unfold Half, Base. lia.
Qed.

Lemma top_word_app l u : u <> [] -> top_word (l ++ u) = top_word u.
Proof.
  intros Hu. destruct u as [|t v _] using rev_ind; [done|]. by rewrite (assoc_L (++)), !top_word_snoc.
Qed.

(** The digits above [l] have the sign of the whole number. *)
Lemma tail_sign s l u : Forall in_range (l ++ u) -> u <> [] -> top_word u <> 0 -> (s = 1 \/ s = -1) ->
  0 < s * value (l ++ u) -> 0 < s * value u /\ (s * value u = 1 <-> u = [s]).
Proof.
  intros Hr Hu Ht Hs Hpos. pose proof Hr as Hr'. apply Forall_app in Hr as [_ Hru].
  destruct u as [|t v _] using rev_ind; [done|]. rewrite top_word_snoc in Ht.
  apply Forall_app in Hru as [Hv _]. pose proof (value_top v t Hv Ht) as T.
  rewrite (assoc_L (++)) in Hr', Hpos. apply Forall_app in Hr' as [Hlv _].
  pose proof (value_top (l ++ v) t Hlv Ht) as T'.
  assert (0 < s * value (v ++ [t])) as Hp by (destruct Hs as [-> | ->]; nia).
  split; [done|]. split; intros E.
  - pose proof (value_three_quarters v Hv) as Q. rewrite value_snoc in E, T.
    destruct v as [|e v]; [cbn in *; f_equal; destruct Hs as [-> | ->]; lia|].
    pose proof (Base_mono 1 (length (e :: v)) ltac:(simpl; lia)) as M.
    set (B := Base ^ Z.of_nat (length (e :: v))) in *. clearbody B.
    change (Base ^ Z.of_nat 1) with Base in M. unfold Base in M. destruct Hs as [-> | ->]; nia.
  - rewrite E. cbn. destruct Hs as [-> | ->]; lia.
Qed.

Definition fits_signed (v n : Z) : Prop := - 2 ^ (n - 1) <= v < 2 ^ (n - 1).

Lemma signed_fits_bits_value x n : normal x -> 1 <= n ->
  signed_fits_bits_any x n = true <-> fits_signed (value x) n.
Proof.
  intros Hn Hn1. pose proof Hn as (Hx0 & Hr & Htop). unfold signed_fits_bits_any, fits_signed.
  assert (is_valid x = true) as -> by by destruct x. cbn [negb].
  pose proof (value_bound x Hr) as Hvb.
  set (P := 2 ^ (n - 1)).
  destruct (Z.ltb_spec (Z.of_nat (length x) * word_shift) n) as [Hlong|Hshort].
  { assert (Base ^ Z.of_nat (length x) <= P) as HP; [|split; [lia|done]].
    unfold Base, P. rewrite <- Z.pow_mul_r by lia. apply Z.pow_le_mono_r; unfold word_shift in *; lia. }
  rewrite (sgn_value x Hn). destruct (Z.eqb_spec (Z.sgn (value x)) 0) as [E0|Hs0].
  { assert (value x = 0) as -> by lia. pose proof (Z.pow_pos_nonneg 2 (n - 1) ltac:(lia) ltac:(lia)). split; [lia|done]. }
  destruct (Z.leb_spec n 0); [lia|].
  remember (Z.sgn (value x)) as s eqn:Es.
  assert (s = 1 \/ s = -1) as Hs by lia. assert (0 < s * value x) as Hpos by lia. clear Es Hs0.
  assert (- P <= value x < P <-> (s * value x < P \/ s = -1 /\ s * value x = P)) as ->.
  { pose proof (Z.pow_pos_nonneg 2 (n - 1) ltac:(lia) ltac:(lia)). destruct Hs as [-> | ->]; lia. }
  unfold word_shift in *. set (k := Z.to_nat ((n - 1) / 52)). set (rem := (n - 1) mod 52).
  assert (P = 2 ^ rem * Base ^ Z.of_nat k) as EP.
  { unfold P, rem, k. rewrite Z2Nat.id by (apply Z.div_pos; lia). apply pow2_digits. lia. }
  assert (0 <= rem < 52) as Hrem by (apply Z.mod_pos_bound; lia). clearbody P k rem.
  destruct (Nat.leb_spec (length x) k) as [Hle|Hgt].
  { split; [intros _; left|done]. pose proof (Base_mono (length x) k Hle). pose proof (Z.pow_pos_nonneg 2 rem).
    rewrite EP. destruct Hs as [-> | ->]; nia. }
  destruct (split_at x k Hgt) as (l & d & u & -> & Hlk & Hd & Htk). rewrite Htk, Hd.
  pose proof Hr as Hr'. apply Forall_app in Hr' as [Hl Hdu]. apply Forall_cons_1 in Hdu as [Hdr Hu].
  assert ((if 0 <? s then d else s64 (- d)) = s * d) as ->.
  { unfold in_range, Half in Hdr. destruct Hs as [-> | ->]; cbn [Z.ltb Z.compare]; [lia|rewrite s64_small; lia]. }
  rewrite signed_below_spec by done. rewrite Z.shiftl_mul_pow2, Z.mul_1_l by lia. subst k.
  rewrite length_app, length_cons.
  destruct u as [|u0 u].
  - (* no digit above *)
    destruct (bits_one_digit s l d rem Hs Hl ltac:(lia)) as (B1 & B2 & B3). rewrite <- EP in *.
    destruct (Nat.leb_spec (length l + 2) (length l + S (length (@nil Z)))) as [Hc|_]; [simpl in Hc; lia|].
    destruct (Z.ltb_spec (2 ^ rem) (s * d)) as [H1|H1]; [split; [done|intros [?|[_ ?]]; lia]|].
    destruct (Z.ltb_spec (s * d) (2 ^ rem)) as [H2|H2]; [split; [intros _; left; lia|done]|].
    specialize (B3 ltac:(lia)). rewrite orb_true_iff, andb_true_iff, !Z.ltb_lt, Z.eqb_eq.
    destruct Hs as [-> | ->]; lia.
  - (* digits above *)
    assert (top_word (u0 :: u) <> 0) as Ht.
    { destruct Htop as [Htop|Htop]; [rewrite length_app in Htop; simpl in Htop; lia|].
      change (l ++ d :: u0 :: u) with (l ++ [d] ++ u0 :: u) in Htop.
      by rewrite (assoc_L (++)), top_word_app in Htop. }
    assert (Forall in_range ((l ++ [d]) ++ u0 :: u)) as Hr2 by by rewrite <- (assoc_L (++)).
    destruct (tail_sign s (l ++ [d]) (u0 :: u) Hr2 ltac:(done) Ht Hs) as [Hup Hu1].
    { by rewrite <- (assoc_L (++)). }
    destruct (bits_more_digits s l d (u0 :: u) rem Hs Hr Hrem Hup) as (B1 & B2). rewrite <- EP in *.
    rewrite lookup_total_app_r by lia. replace (length l + 1 - length l)%nat with 1%nat by lia.
    cbn [lookup_total list_lookup_total].
    destruct (Nat.leb_spec (length l + 2) (length l + S (length (u0 :: u)))) as [_|Hc]; [|simpl in Hc; lia].
    destruct (decide (s * value (u0 :: u) = 1 /\ rem = 51)) as [[E1 E2]|Hno].
    + apply Hu1 in E1 as Eu. injection Eu as -> ->. specialize (B2 E1 E2). subst rem.
      replace (length l + S (length [s]) =? length l + 2)%nat with true by (symmetry; apply Nat.eqb_eq; simpl; lia).
      rewrite !Z.eqb_refl. cbn [andb negb]. pose proof (value_bound l Hl). pose proof (Base_pos (length l)).
      set (B := Base ^ Z.of_nat (length l)) in *. clearbody B.
      destruct (Z.ltb_spec (- Half) (s * d)) as [G1|G1]; [split; [done|]; destruct Hs as [-> | ->]; nia|].
      unfold in_range in Hdr. destruct (Z.ltb_spec (s * d) (- Half)) as [G2|G2]; [destruct Hs as [-> | ->]; nia|].
      rewrite orb_true_iff, andb_true_iff, !Z.ltb_lt, Z.eqb_eq. assert (s * d = - Half) as E3 by lia.
      rewrite E3 in B2. destruct Hs as [-> | ->]; lia.
    + assert (P < s * value (l ++ d :: u0 :: u)) as HP by (apply B1; destruct (decide (s * value (u0 :: u) = 1)); tauto).
      split; [|destruct Hs as [-> | ->]; lia].
      destruct (negb _) eqn:E1; [done|]. apply negb_false_iff, andb_true_iff in E1 as [E1 E2].
      apply Nat.eqb_eq in E1. simpl in E1. destruct u; [|simpl in E1; lia].
      apply Z.eqb_eq in E2. destruct (Z.eqb_spec u0 s) as [->|]; [|done].
      destruct Hno. split; [by apply Hu1|lia].
Qed.

Lemma unsigned_fits_bits_value x n : normal x -> 0 <= n ->
  unsigned_fits_bits_any x n = true <-> 0 <= value x < 2 ^ n.
Proof.
  intros Hn Hn0. pose proof Hn as (Hx0 & Hr & Htop). unfold unsigned_fits_bits_any.
  assert (is_valid x = true) as -> by by destruct x. cbn [negb].
  pose proof (value_bound x Hr) as Hvb. rewrite (sgn_value x Hn).
  pose proof (Z.pow_pos_nonneg 2 n ltac:(lia) ltac:(lia)) as HPpos.
  destruct (Z.ltb_spec (Z.sgn (value x)) 0); [split; [done|lia]|].
  destruct (Z.eqb_spec (Z.sgn (value x)) 0); [split; [lia|done]|].
  assert (0 < 1 * value x) as Hpos by lia.
  destruct (Z.leb_spec (Z.of_nat (length x) * word_shift) n) as [Hlong|Hshort].
  { assert (Base ^ Z.of_nat (length x) <= 2 ^ n) as HP; [|split; [lia|done]].
    unfold Base. rewrite <- Z.pow_mul_r by lia. apply Z.pow_le_mono_r; unfold word_shift in *; lia. }
  destruct (Z.ltb_spec n 0); [lia|]. unfold word_shift in *.
  set (k := Z.to_nat (n / 52)). set (rem := n mod 52).
  assert (2 ^ n = 2 ^ rem * Base ^ Z.of_nat k) as EP.
  { unfold rem, k. rewrite Z2Nat.id by (apply Z.div_pos; lia). by apply pow2_digits. }
  assert (0 <= rem < 52) as Hrem by (apply Z.mod_pos_bound; lia).
  assert (k < length x)%nat as Hk.
  { unfold k. pose proof (Z.div_lt_upper_bound n 52 (Z.of_nat (length x)) ltac:(lia) ltac:(lia)).
    pose proof (Z.div_pos n 52 ltac:(lia) ltac:(lia)). lia. }
  clearbody k rem. set (P := 2 ^ n) in *. clearbody P.
  destruct (split_at x k Hk) as (l & d & u & -> & Hlk & Hd & Htk). rewrite Htk, Hd.
  pose proof Hr as Hr'. apply Forall_app in Hr' as [Hl Hdu]. apply Forall_cons_1 in Hdu as [Hdr Hu].
  rewrite borrow_below_spec by done. rewrite Z.shiftl_mul_pow2, Z.mul_1_l by lia. subst k.
  rewrite length_app, length_cons. destruct u as [|u0 u].
  - destruct (bits_one_digit 1 l d rem ltac:(by left) Hl ltac:(lia)) as (B1 & B2 & B3). rewrite <- EP, ?Z.mul_1_l in *.
    destruct (Nat.leb_spec (length l + 2) (length l + S (length (@nil Z)))) as [Hc|_]; [simpl in Hc; lia|].
    destruct (Nat.leb_spec (length l + S (length (@nil Z))) (length l)); [lia|].
    destruct (Z.ltb_spec (2 ^ rem) d) as [H2|H2]; [split; [done|lia]|].
    destruct (Z.ltb_spec d (2 ^ rem)) as [H3|H3]; [split; [intros _; lia|done]|].
    specialize (B3 ltac:(lia)). rewrite Z.ltb_lt. lia.
  - assert (top_word (u0 :: u) <> 0) as Ht.
    { destruct Htop as [Htop|Htop]; [rewrite length_app in Htop; simpl in Htop; lia|].
      change (l ++ d :: u0 :: u) with (l ++ [d] ++ u0 :: u) in Htop.
      by rewrite (assoc_L (++)), top_word_app in Htop. }
    assert (Forall in_range ((l ++ [d]) ++ u0 :: u)) as Hr2 by by rewrite <- (assoc_L (++)).
    destruct (tail_sign 1 (l ++ [d]) (u0 :: u) Hr2 ltac:(done) Ht ltac:(by left)) as [Hup Hu1].
    { by rewrite <- (assoc_L (++)). }
    destruct (bits_more_digits 1 l d (u0 :: u) rem ltac:(by left) Hr Hrem Hup) as (B1 & B2). rewrite <- EP, ?Z.mul_1_l in *.
    rewrite lookup_total_app_r by lia. replace (length l + 1 - length l)%nat with 1%nat by lia.
    cbn [lookup_total list_lookup_total].
    destruct (Nat.leb_spec (length l + 2) (length l + S (length (u0 :: u)))) as [_|Hc]; [|simpl in Hc; lia].
    destruct (decide (value (u0 :: u) = 1 /\ rem = 51)) as [[E1 E2]|Hno].
    + apply Hu1 in E1 as Eu. injection Eu as -> ->. specialize (B2 E1 E2). subst rem.
      replace (length l + S (length [1%Z]) =? length l + 2)%nat with true by (symmetry; apply Nat.eqb_eq; simpl; lia).
      change (51 =? 52 - 1) with true. change (1 =? 1) with true. cbn [andb negb]. pose proof (value_bound l Hl). pose proof (Base_pos (length l)).
      set (B := Base ^ Z.of_nat (length l)) in *. clearbody B.
      destruct (Z.ltb_spec (- Half) d) as [G1|G1]; [split; [done|nia]|].
      unfold in_range in Hdr. destruct (Z.ltb_spec d (- Half)) as [G2|G2]; [lia|].
      rewrite Z.ltb_lt. assert (d = - Half) as E3 by lia. rewrite E3 in *. lia.
    + assert (P < value (l ++ d :: u0 :: u)) as HP.
      { apply B1. destruct (decide (value (u0 :: u) = 1)); tauto. }
      split; [|lia].
      destruct (negb _) eqn:E1; [done|]. apply negb_false_iff, andb_true_iff in E1 as [E1 E2].
      apply Nat.eqb_eq in E1. simpl in E1. destruct u; [|simpl in E1; lia].
      apply Z.eqb_eq in E2. destruct (Z.eqb_spec u0 1) as [->|]; [|done].
      destruct Hno. split; [by apply Hu1|lia].
Qed.

(** ** Products *)

(** [add_mul(&digits[i + 1], &digits[i], yv, zv)]: the 128-bit product, cut at 52 bits. *)
Definition add_mul_at (i : nat) (yv zv : Z) (x : digits) : digits :=
  let p := yv * zv in
  let x1 := <[i := s64 (x !!! i + Z.land p (Base - 1))]> x in
  <[S i := s64 (x1 !!! S i + s64 (Z.shiftr p word_shift))]> x1.

(** The inner loop over [z], for the digit [yv] at position [i]. *)
Fixpoint add_mul_row (i : nat) (yv : Z) (z x : digits) : digits :=
  match z with
  | [] => x
  | zv :: z' => add_mul_row (S i) yv z' (add_mul_at i yv zv x)
  end.

Fixpoint add_mul_rows (i : nat) (y z x : digits) : digits :=
  match y with
  | [] => x
  | yv :: y' => add_mul_rows (S i) y' z (add_mul_row i yv z x)
  end.

(** [while (size() < n) digits[inc_size()] = 0] *)
Definition grow_to (n : nat) (x : digits) : digits := x ++ replicate (n - length x) 0.

(** The case with no room for the high part of the top product. *)
Definition add_mul_full (x y z : digits) : digits :=
  let yn := length y in
  let zn := length z in
  let x1 := add_mul_rows 0 (take (yn - 1) y) z (grow_to (yn + zn - 1) x) in
  let x2 := add_mul_row (yn - 1) (top_word y) (take (zn - 1) z) x1 in
  let p := top_word y * top_word z in
  let i := (yn - 1 + (zn - 1))%nat in
  let hi := s64 (Z.shiftr p word_shift) in
  let x3 := <[i := s64 (x2 !!! i + Z.land p (Base - 1))]> x2 in
  if negb (hi =? 0) && negb (hi =? -1) then NaN
  else
    let t := (length x3 - 1)%nat in
    <[t := s64 (x3 !!! t + s64 (Z.shiftl hi word_shift))]> x3.

Definition add_mul_any (max : nat) (x y z : digits) : digits :=
  if negb (is_valid y) || negb (is_valid z) || negb (is_valid x) then NaN
  else
    let rn := (length y + length z)%nat in
    if (max + 1 <? rn)%nat then NaN
    else if (rn <? max + 1)%nat then add_mul_rows 0 y z (grow_to rn x)
    else add_mul_full x y z.

(** Changing one digit changes the value by its weight. *)
Lemma value_insert (x : digits) i d : (i < length x)%nat ->
  value (<[i := d]> x) = value x + Base ^ Z.of_nat i * (d - x !!! i).
Proof.
  revert i. induction x as [|e x IH]; intros [|i] Hi; simpl in Hi; try lia.
  - cbn [insert list_insert value lookup_total list_lookup_total Z.of_nat]. rewrite Z.pow_0_r. lia.
  - cbn [insert list_insert value]. change ((e :: x) !!! S i) with (x !!! i).
    change (list_insert i d x) with (<[i := d]> x). rewrite IH by lia.
    rewrite Nat2Z.inj_succ, Z.pow_succ_r by lia. lia.
Qed.

(** Digits whose magnitude is at most [b]. *)
Definition bounded (b d : Z) : Prop := - b <= d <= b.

Lemma bounded_lookup b (x : digits) i : Forall (bounded b) x -> (i < length x)%nat -> bounded b (x !!! i).
Proof.
  intros Hx Hi. destruct (lookup_lt_is_Some_2 x i Hi) as [d Hd].
  rewrite (list_lookup_total_correct _ _ _ Hd). rewrite Forall_lookup in Hx. by eapply Hx.
Qed.

Lemma bounded_mono b c x : b <= c -> Forall (bounded b) x -> Forall (bounded c) x.
Proof. intros Hbc Hx. eapply Forall_impl; [|exact Hx]. unfold bounded. lia. Qed.

Lemma land_Base p : Z.land p (Base - 1) = p mod Base.
Proof. unfold Base. change (2 ^ 52 - 1) with (Z.ones 52). by rewrite Z.land_ones. Qed.

Lemma product_parts yv zv : in_range yv -> in_range zv ->
  0 <= Z.land (yv * zv) (Base - 1) <= 2 ^ 52 /\ - 2 ^ 51 <= Z.shiftr (yv * zv) word_shift <= 2 ^ 51
  /\ Z.land (yv * zv) (Base - 1) + Base * Z.shiftr (yv * zv) word_shift = yv * zv.
Proof.
  unfold in_range, Half. intros Hy Hz. rewrite land_Base, shiftr_word.
  pose proof (Z.div_mod (yv * zv) Base ltac:(unfold Base; lia)). pose proof (Z.mod_pos_bound (yv * zv) Base ltac:(unfold Base; lia)).
  split; [unfold Base in *; lia|]. split; [|lia]. unfold Base.
  assert (- 2 ^ 102 <= yv * zv <= 2 ^ 102) by nia.
  split; [apply Z.div_le_lower_bound; lia|apply Z.lt_succ_r, Z.div_lt_upper_bound; lia].
Qed.

Lemma add_mul_at_spec i yv zv x b : in_range yv -> in_range zv -> Forall (bounded b) x -> 0 <= b <= 2 ^ 60 ->
  (S i < length x)%nat ->
  value (add_mul_at i yv zv x) = value x + Base ^ Z.of_nat i * (yv * zv)
  /\ Forall (bounded (b + 2 ^ 52)) (add_mul_at i yv zv x) /\ length (add_mul_at i yv zv x) = length x.
Proof.
  intros Hy Hz Hx Hb Hi. unfold add_mul_at. destruct (product_parts yv zv Hy Hz) as (Hl & Hh & E).
  set (pl := Z.land (yv * zv) (Base - 1)) in *. set (ph := Z.shiftr (yv * zv) word_shift) in *. clearbody pl ph.
  pose proof (bounded_lookup b x i Hx ltac:(lia)) as Bi. pose proof (bounded_lookup b x (S i) Hx Hi) as BSi.
  unfold bounded in Bi, BSi. rewrite (s64_small (x !!! i + pl)) by lia.
  rewrite list_lookup_total_insert_ne by lia. rewrite (s64_small ph), s64_small by (rewrite ?s64_small; lia).
  split; [|split].
  - rewrite !value_insert by (rewrite ?length_insert; lia). rewrite list_lookup_total_insert_ne by lia.
    rewrite Nat2Z.inj_succ, Z.pow_succ_r by lia. rewrite <- E. lia.
  - apply Forall_insert; [apply Forall_insert; [apply (bounded_mono b); [lia|done]|]|]; unfold bounded; lia.
  - by rewrite !length_insert.
Qed.

Lemma add_mul_row_spec i yv z x b : in_range yv -> Forall in_range z -> Forall (bounded b) x -> 0 <= b ->
  b + Z.of_nat (length z) * 2 ^ 52 <= 2 ^ 60 -> (i + length z < length x)%nat ->
  value (add_mul_row i yv z x) = value x + Base ^ Z.of_nat i * (yv * value z)
  /\ Forall (bounded (b + Z.of_nat (length z) * 2 ^ 52)) (add_mul_row i yv z x)
  /\ length (add_mul_row i yv z x) = length x.
Proof.
  intros Hy Hz. revert i x b. induction Hz as [|zv z Hzv Hz IH]; intros i x b Hx Hb Hbb Hi.
  - cbn [add_mul_row value length]. split; [lia|]. split; [apply (bounded_mono b); [lia|done]|done].
  - cbn [add_mul_row length] in *.
    destruct (add_mul_at_spec i yv zv x b Hy Hzv Hx ltac:(lia) ltac:(lia)) as (E & Hbd & Hl).
    destruct (IH (S i) (add_mul_at i yv zv x) (b + 2 ^ 52) Hbd ltac:(lia) ltac:(lia) ltac:(lia)) as (E' & Hbd' & Hl').
    split; [|split].
    + rewrite E', E. cbn [value]. rewrite Nat2Z.inj_succ, Z.pow_succ_r by lia. lia.
    + eapply bounded_mono; [|exact Hbd']. lia.
    + by rewrite Hl'.
Qed.

Lemma add_mul_rows_spec i y z x b : Forall in_range y -> Forall in_range z -> Forall (bounded b) x -> 0 <= b ->
  b + Z.of_nat (length y * length z) * 2 ^ 52 <= 2 ^ 60 -> (y = [] \/ (i + length y + length z <= length x)%nat) ->
  value (add_mul_rows i y z x) = value x + Base ^ Z.of_nat i * (value y * value z)
  /\ Forall (bounded (b + Z.of_nat (length y * length z) * 2 ^ 52)) (add_mul_rows i y z x)
  /\ length (add_mul_rows i y z x) = length x.
Proof.
  intros Hy Hz. revert i x b. induction Hy as [|yv y Hyv Hy IH]; intros i x b Hx Hb Hbb Hi.
  - cbn [add_mul_rows value length]. split; [lia|]. split; [apply (bounded_mono b); [lia|done]|done].
  - destruct Hi as [|Hi]; [done|]. cbn [add_mul_rows length] in *.
    destruct (add_mul_row_spec i yv z x b Hyv Hz Hx Hb ltac:(lia) ltac:(lia)) as (E & Hbd & Hl).
    destruct (IH (S i) (add_mul_row i yv z x) (b + Z.of_nat (length z) * 2 ^ 52) Hbd ltac:(lia) ltac:(lia)) as (E' & Hbd' & Hl').
    { destruct y; [by left|right]. rewrite Hl. simpl in *. lia. }
    split; [|split].
    + rewrite E', E. cbn [value]. rewrite Nat2Z.inj_succ, Z.pow_succ_r by lia. lia.
    + eapply bounded_mono; [|exact Hbd']. lia.
    + by rewrite Hl'.
Qed.

(** The magnitude of a normal number is at least a quarter of its top weight. *)
Lemma normal_magnitude x : normal x -> value x <> 0 ->
  exists t l, x = l ++ [t] /\ Forall in_range l /\ in_range t /\ t <> 0 /\
    (4 * Z.abs t - 3) * Base ^ Z.of_nat (length l) < 4 * Z.abs (value x).
Proof.
  intros Hn Hv. destruct (normal_snoc x Hn) as (l & t & -> & Hl & Ht & Hor). exists t, l.
  assert (t <> 0) as Hne.
  { destruct Hor as [->|?]; [|done]. intros ->. done. }
  split; [done|]. split; [done|]. split; [done|]. split; [done|].
  pose proof (value_three_quarters l Hl) as Q. pose proof (value_top l t Hl Hne) as T.
  rewrite value_snoc in *. pose proof (Base_pos (length l)). set (B := Base ^ Z.of_nat (length l)) in *. clearbody B.
  destruct (Z.abs_spec t) as [[? ->]|[? ->]], (Z.abs_spec (value l + B * t)) as [[? ->]|[? ->]]; nia.
Qed.

Lemma grow_to_zero n : (1 <= n)%nat -> value (grow_to n [0]) = 0 /\ length (grow_to n [0]) = n /\ Forall (bounded 0) (grow_to n [0]).
Proof.
  intros Hn. unfold grow_to. cbn [length]. split; [cbn [app value]; rewrite value_zeros; lia|].
  split; [rewrite length_app, length_replicate; simpl; lia|].
  apply Forall_app; split; [apply Forall_singleton; unfold bounded; lia|]. apply Forall_replicate. unfold bounded. lia.
Qed.

Lemma bounded_digit_ok x : Forall (bounded (2 ^ 60)) x -> Forall digit_ok x.
Proof. intros Hx. eapply Forall_impl; [|exact Hx]. unfold bounded, digit_ok. lia. Qed.

Lemma add_mul_rows_snoc i y t z x : add_mul_rows i (y ++ [t]) z x = add_mul_row (i + length y) t z (add_mul_rows i y z x).
Proof.
  revert i x. induction y as [|e y IH]; intros i x; cbn [add_mul_rows app length]; [by rewrite Nat.add_0_r|].
  rewrite IH. by rewrite Nat.add_succ_comm.
Qed.

Lemma zero_length x : normal x -> value x = 0 -> length x = 1%nat.
Proof.
  intros Hx E. rewrite (normal_unique x [0] Hx); [done| |done].
  split; [done|]. split; [by apply Forall_singleton|by left].
Qed.

(** Seven digits in all, or a top product beyond one digit: more than 257 bits. *)
Lemma product_too_long y z : normal y -> normal z -> (length y <= 5)%nat -> (length z <= 5)%nat ->
  (6 < length y + length z)%nat -> ~ (- 2 ^ 256 <= value y * value z < 2 ^ 256).
Proof.
  intros Hy Hz Hyl Hzl Hbig.
  destruct (decide (value y = 0)) as [E|Hvy]; [apply (zero_length y Hy) in E; lia|].
  destruct (decide (value z = 0)) as [E|Hvz]; [apply (zero_length z Hz) in E; lia|].
  destruct (normal_magnitude y Hy Hvy) as (ty & ly & -> & _ & _ & Hty & My).
  destruct (normal_magnitude z Hz Hvz) as (tz & lz & -> & _ & _ & Htz & Mz).
  rewrite !length_app in Hbig. simpl in Hbig.
  assert (Base ^ 5 <= Base ^ Z.of_nat (length ly) * Base ^ Z.of_nat (length lz)) as HB.
  { rewrite <- Z.pow_add_r by lia. apply Z.pow_le_mono_r; [unfold Base; lia|lia]. }
  set (a := value (ly ++ [ty])) in *. set (b := value (lz ++ [tz])) in *. clearbody a b.
  pose proof (Base_pos (length ly)). pose proof (Base_pos (length lz)).
  set (A := Base ^ Z.of_nat (length ly)) in *. set (C := Base ^ Z.of_nat (length lz)) in *. clearbody A C.
  assert (A < 4 * Z.abs a) by nia. assert (C < 4 * Z.abs b) by nia.
  assert (A * C < 16 * Z.abs (a * b)) by (rewrite Z.abs_mul; nia).
  change (Base ^ 5) with (16 * 2 ^ 256) in HB. lia.
Qed.

Lemma product_top_overflow y z ly lz ty tz : normal y -> normal z -> y = ly ++ [ty] -> z = lz ++ [tz] ->
  (length ly + length lz = 4)%nat -> Z.shiftr (ty * tz) word_shift <> 0 -> Z.shiftr (ty * tz) word_shift <> -1 ->
  ~ (- 2 ^ 256 <= value y * value z < 2 ^ 256).
Proof.
  intros Hy Hz Ey Ez Hl H0 H1. rewrite shiftr_word in *.
  pose proof (Z.div_mod (ty * tz) Base ltac:(unfold Base; lia)) as D.
  pose proof (Z.mod_pos_bound (ty * tz) Base ltac:(unfold Base; lia)) as M.
  assert (2 ^ 52 <= Z.abs ty * Z.abs tz) as Hp by (rewrite <- Z.abs_mul; unfold Base in *; nia).
  pose proof Hy as (_ & Hyr & _). pose proof Hz as (_ & Hzr & _).
  assert (in_range ty /\ in_range tz) as [Rty Rtz].
  { subst. apply Forall_app in Hyr as [_ Hyr]. apply Forall_app in Hzr as [_ Hzr].
    by rewrite Forall_singleton in Hyr, Hzr. }
  assert (ty <> 0 /\ tz <> 0) as [Hty Htz] by (split; intros ->; simpl in Hp; rewrite ?Z.mul_0_r in Hp; lia).
  assert (value y <> 0) as Hvy.
  { subst y. apply Forall_app in Hyr as [Hyr _]. pose proof (value_top ly ty Hyr Hty). nia. }
  assert (value z <> 0) as Hvz.
  { subst z. apply Forall_app in Hzr as [Hzr _]. pose proof (value_top lz tz Hzr Htz). nia. }
  destruct (normal_magnitude y Hy Hvy) as (ty' & ly' & Ey' & _ & _ & _ & My).
  destruct (normal_magnitude z Hz Hvz) as (tz' & lz' & Ez' & _ & _ & _ & Mz).
  rewrite Ey in Ey'. apply app_inj_tail in Ey' as [<- <-]. rewrite Ez in Ez'. apply app_inj_tail in Ez' as [<- <-].
  assert (Base ^ Z.of_nat (length ly) * Base ^ Z.of_nat (length lz) = 2 ^ 208) as HB.
  { rewrite <- Z.pow_add_r by lia. replace (Z.of_nat (length ly) + Z.of_nat (length lz)) with 4 by lia. done. }
  pose proof (Base_pos (length ly)). pose proof (Base_pos (length lz)).
  set (A := Base ^ Z.of_nat (length ly)) in *. set (C := Base ^ Z.of_nat (length lz)) in *. clearbody A C.
  unfold in_range, Half in Rty, Rtz.
  set (a := Z.abs ty) in *. set (b := Z.abs tz) in *. assert (1 <= a <= 2 ^ 51) by lia. assert (1 <= b <= 2 ^ 51) by lia.
  assert (2 <= a) by nia. assert (2 <= b) by nia. clearbody a b.
  assert (2 ^ 52 <= (4 * a - 3) * (4 * b - 3)) as Hab by nia.
  set (u := Z.abs (value y)) in *. set (w := Z.abs (value z)) in *.
  assert (2 ^ 256 < u * w) as Hbig; [|unfold u, w in Hbig; rewrite <- Z.abs_mul in Hbig; lia].
  assert (0 < u) by lia. assert (0 < w) by lia. clearbody u w.
  assert ((4 * a - 3) * (4 * b - 3) * (A * C) < 16 * (u * w)) as Hprod; [|rewrite HB in Hprod; nia].
  set (p := (4 * a - 3) * A) in *. set (q := (4 * b - 3) * C) in *.
  assert (0 < p) by (unfold p; nia). assert (0 < q) by (unfold q; nia).
  replace ((4 * a - 3) * (4 * b - 3) * (A * C)) with (p * q) by (unfold p, q; lia). clearbody p q. nia.
Qed.

Lemma add_mul_full_spec ly ty lz tz : Forall in_range ly -> Forall in_range lz -> in_range ty -> in_range tz ->
  (length ly + length lz = 4)%nat ->
  let r := add_mul_full [0] (ly ++ [ty]) (lz ++ [tz]) in
  (r = NaN /\ Z.shiftr (ty * tz) word_shift <> 0 /\ Z.shiftr (ty * tz) word_shift <> -1) \/
  (length r = 5%nat /\ Forall digit_ok r /\ value r = value (ly ++ [ty]) * value (lz ++ [tz])).
Proof.
  intros Hly Hlz Rty Rtz Hl. unfold add_mul_full. rewrite !top_word_snoc, !length_app. cbn [length].
  rewrite !Nat.add_sub, !take_app_length.
  replace (length ly + 1 + (length lz + 1) - 1)%nat with 5%nat by lia.
  destruct (grow_to_zero 5 ltac:(lia)) as (G0 & G1 & G2).
  assert (Forall in_range (lz ++ [tz])) as Rz by (apply Forall_app; split; [done|by apply Forall_singleton]).
  assert (Z.of_nat (length ly * length (lz ++ [tz])) * 2 ^ 52 <= 20 * 2 ^ 52) as Hb1.
  { rewrite length_app. simpl. nia. }
  destruct (add_mul_rows_spec 0 ly (lz ++ [tz]) (grow_to 5 [0]) 0 Hly Rz G2 ltac:(lia) ltac:(lia)) as (E1 & B1 & L1).
  { destruct ly; [by left|right]. rewrite length_app, G1. simpl in *. lia. }
  apply (bounded_mono _ (20 * 2 ^ 52)) in B1; [|lia].
  destruct (add_mul_row_spec (length ly) ty lz (add_mul_rows 0 ly (lz ++ [tz]) (grow_to 5 [0])) (20 * 2 ^ 52) Rty Hlz B1
    ltac:(lia) ltac:(lia) ltac:(rewrite L1, G1; lia)) as (E2 & B2 & L2).
  apply (bounded_mono _ (30 * 2 ^ 52)) in B2; [|lia].
  set (x2 := add_mul_row _ _ _ _) in *. rewrite L1, G1 in L2. clearbody x2.
  assert (length ly + length lz = 4)%nat as -> by lia.
  destruct (product_parts ty tz Rty Rtz) as (Pl & Ph & EP).
  set (pl := Z.land (ty * tz) (Base - 1)) in *. set (ph := Z.shiftr (ty * tz) word_shift) in *. clearbody pl ph.
  rewrite (s64_small ph) by lia.
  destruct (Z.eqb_spec ph 0) as [H0|H0], (Z.eqb_spec ph (-1)) as [H1|H1]; cbn [negb andb];
    try (exfalso; lia); try (left; by split; [done|split]); right.
  all: pose proof (bounded_lookup _ _ 4%nat B2 ltac:(lia)) as B4; unfold bounded in B4.
  all: rewrite !length_insert, L2; change (5 - 1)%nat with 4%nat.
  all: rewrite list_lookup_total_insert_eq, list_insert_insert_eq by lia.
  all: rewrite (s64_small (Z.shiftl ph word_shift)) by (unfold word_shift; rewrite Z.shiftl_mul_pow2 by lia; lia).
  all: assert (Z.shiftl ph word_shift = Base * ph) as -> by (unfold word_shift, Base; rewrite Z.shiftl_mul_pow2 by lia; lia).
  all: rewrite (s64_small (x2 !!! 4%nat + pl)), s64_small by (unfold Base; lia).
  all: split; [done|split].
  1,3: apply Forall_insert; [|unfold digit_ok, Base; lia]; apply bounded_digit_ok; apply (bounded_mono (30 * 2 ^ 52)); [lia|done].
  all: rewrite value_insert by lia; rewrite E2, E1, G0, !value_snoc.
  all: assert (Base ^ Z.of_nat 4 = Base ^ Z.of_nat (length ly) * Base ^ Z.of_nat (length lz)) as EB
    by (rewrite <- Z.pow_add_r by lia; f_equal; lia).
  all: rewrite EB; change (Z.of_nat 0) with 0; rewrite Z.pow_0_r.
  all: set (A := Base ^ Z.of_nat (length ly)) in *; set (C := Base ^ Z.of_nat (length lz)) in *.
  all: replace (x2 !!! 4%nat + pl + Base * ph - x2 !!! 4%nat) with (ty * tz) by lia; lia.
Qed.

(** The product of two normal numbers of [BigInt256] before normalisation: exact whenever
    it is not given up, and given up only when it does not fit in 257 bits. *)
Lemma add_mul_any_spec y z : wf 5 y -> wf 5 z ->
  let r := add_mul_any 5 [0] y z in
  (r = NaN /\ ~ (- 2 ^ 256 <= value y * value z < 2 ^ 256)) \/
  (r <> NaN /\ (length r <= 5)%nat /\ Forall digit_ok r /\ value r = value y * value z).
Proof.
  intros [Hy Hyl] [Hz Hzl]. unfold add_mul_any.
  pose proof Hy as (Hy0 & Hyr & _). pose proof Hz as (Hz0 & Hzr & _).
  assert (is_valid y = true) as -> by by destruct y. assert (is_valid z = true) as -> by by destruct z. cbn [is_valid negb orb].
  assert (1 <= length y)%nat by (destruct y; [done|simpl; lia]). assert (1 <= length z)%nat by (destruct z; [done|simpl; lia]).
  destruct (Nat.ltb_spec (5 + 1) (length y + length z)) as [Hbig|Hsmall].
  { left. split; [done|]. by apply product_too_long. }
  destruct (Nat.ltb_spec (length y + length z) (5 + 1)) as [Hroom|Hfull].
  - right. destruct (grow_to_zero (length y + length z) ltac:(lia)) as (G0 & G1 & G2).
    destruct (add_mul_rows_spec 0 y z (grow_to (length y + length z) [0]) 0 Hyr Hzr G2) as (E & B & L).
    { lia. } { nia. } { right. rewrite G1. lia. }
    rewrite G1 in L. split; [intros E0; rewrite E0 in L; simpl in L; lia|]. split; [lia|]. split.
    + apply bounded_digit_ok. eapply bounded_mono; [|exact B]. nia.
    + rewrite E, G0. change (Z.of_nat 0) with 0. rewrite Z.pow_0_r. lia.
  - destruct (normal_snoc y Hy) as (ly & ty & -> & Hly & Rty & _).
    destruct (normal_snoc z Hz) as (lz & tz & -> & Hlz & Rtz & _).
    rewrite !length_app in Hfull, Hsmall. simpl in Hfull, Hsmall.
    destruct (add_mul_full_spec ly ty lz tz Hly Hlz Rty Rtz ltac:(lia)) as [(E & F0 & F1)|(L & D & E)].
    + left. split; [exact E|]. eapply product_top_overflow; [exact Hy|exact Hz|done|done|lia|exact F0|exact F1].
    + right. split; [intros E0; by rewrite E0 in L|]. split; [lia|done].
Qed.

(** [operator*] of [RefInt256]: exact when the product fits in 257 bits. *)
Lemma mul_exact y z : wf 5 y -> wf 5 z ->
  let r := normalize_bool_any 5 (add_mul_any 5 [0] y z) in
  (r = NaN \/ (wf 5 r /\ value r = value y * value z)) /\
  (- 2 ^ 256 <= value y * value z < 2 ^ 256 -> wf 5 r /\ value r = value y * value z).
Proof.
  intros Hy Hz r. unfold r. destruct (add_mul_any_spec y z Hy Hz) as [(-> & Hno)|(Hne & Hl & Hd & E)].
  - split; [by left|]. intros; done.
  - pose proof (normalize_exact 5 _ _ Hne Hl Hd E) as X. unfold exact_or_nan in X.
    destruct (decide _) as [Hin|Hout]; [split; [by right|done]|].
    split; [by left|]. intros Hfit. destruct Hout.
    assert (lo 5 <= - 2 ^ 256) by done. assert (2 ^ 256 <= hi 5) by done. lia.
Qed.
