(* ===== verification/BigIntShift.v ===== *)
(** * Big integers: shifts and remainders by powers of two ([crypto/common/bigint.hpp]) *)
From S2P Require Import Prelude BigInt BigIntOps.

(** ** Left shift *)

(** The digit loop of [lshift_any]: the digits and the last carry. *)
Fixpoint lshift_loop (r v : Z) (x : digits) : digits * Z :=
  match x with
  | [] => ([], v)
  | w :: x' =>
      let mask := Z.shiftr Base r - 1 in
      let v := s64 (v + s64 (Z.shiftl (Z.land w mask) r)) in
      let (t, c) := lshift_loop r (Z.shiftr w (word_shift - r)) x' in
      (v :: t, c)
  end.

Definition lshift_any (max : nat) (x : digits) (exponent : Z) : digits :=
  if exponent <? 0 then NaN
  else if exponent =? 0 then x
  else
    let q := Z.to_nat (exponent / word_shift) in
    let r := exponent mod word_shift in
    if (max <? length x + q)%nat then NaN
    else if r =? 0 then replicate q 0 ++ x
    else
      let (t, v) := lshift_loop r 0 x in
      if v =? 0 then replicate q 0 ++ t
      else if (length x + q <? max)%nat then replicate q 0 ++ t ++ [v]
      else if negb (v =? -1) then NaN
      else
        let i := (length t - 1)%nat in
        replicate q 0 ++ <[i := s64 (t !!! i + s64 (Z.shiftl v word_shift))]> t.

(** ** Right shift *)

(** Dividing the low digits away: [v += digits[i]; v >>= word_shift]. *)
Fixpoint rshift_low (v : Z) (x : digits) : Z :=
  match x with
  | [] => v
  | d :: x' => rshift_low (Z.shiftr (s64 (v + d)) word_shift) x'
  end.

(** The digit loop over the digits above [digits[q]]. *)
Fixpoint rshift_loop (r v : Z) (x : digits) : digits :=
  match x with
  | [] => [v]
  | w :: x' =>
      let mask := Z.shiftl 1 r - 1 in
      s64 (v + s64 (Z.shiftl (Z.land w mask) (word_shift - r))) :: rshift_loop r (Z.shiftr w r) x'
  end.

(** Dividing the word [v] by [2 ^ r] in the given rounding mode. *)
Definition round_word (round_mode r v : Z) : Z :=
  if round_mode =? 0 then Z.shiftr (s64 (Z.shiftr v (r - 1) + 1)) 1
  else s64 (Z.shiftr v r + Z.b2z (0 <? round_mode)).

Definition rshift_any (x : digits) (exponent round_mode : Z) : digits :=
  if exponent <? 0 then NaN
  else if exponent =? 0 then x
  else if Z.of_nat (length x) * word_shift + word_bits - word_shift <? exponent then
    if round_mode =? 0 then [0]
    else if round_mode <? 0 then (if sgn x <? 0 then [-1] else [0])
    else (if 0 <? sgn x then [1] else [0])
  else
    let q := Z.to_nat (exponent / word_shift) in
    let r := exponent mod word_shift in
    let half := (round_mode =? 0) && (r =? 0) in
    let x := if half then <[(q - 1)%nat := s64 (x !!! (q - 1)%nat + Half)]> x else x in
    let round_mode := if half then -1 else round_mode in
    let v := rshift_low (if 0 <? round_mode then -1 else 0) (take q x) in
    match drop q x with
    | [] => [round_word round_mode r v]
    | d :: rest =>
        if r =? 0 then s64 (d + s64 (v + Z.b2z (0 <? round_mode))) :: rest
        else rshift_loop r (round_word round_mode r (s64 (v + d))) rest
    end.

(** ** Left shift: correctness *)

Lemma lshift_loop_spec r v x : 0 < r < 52 -> - 2 ^ 51 <= v <= 2 ^ 51 -> Forall in_range x ->
  let (t, c) := lshift_loop r v x in
  length t = length x /\ Forall (bounded (2 ^ 53)) t /\ - 2 ^ 51 <= c <= 2 ^ 51
  /\ value t + Base ^ Z.of_nat (length x) * c = v + 2 ^ r * value x
  /\ (x <> [] -> c = Z.shiftr (top_word x) (word_shift - r)).
Proof.
  intros Hr Hv Hx. revert v Hv. induction Hx as [|w x Hw Hx IH]; intros v Hv.
  { cbn. split; [done|]. split; [constructor|]. split; [lia|]. split; [lia|done]. }
  cbn [lshift_loop]. unfold in_range, Half in Hw.
  assert (Z.land w (Z.shiftr Base r - 1) = w mod 2 ^ (52 - r)) as ->.
  { unfold Base. rewrite Z.shiftr_div_pow2 by lia.
    replace (2 ^ 52 / 2 ^ r - 1) with (Z.ones (52 - r)); [by rewrite Z.land_ones by lia|].
    rewrite Z.ones_equiv. unfold Z.pred. rewrite <- Z.pow_sub_r by lia. lia. }
  unfold word_shift. rewrite Z.shiftr_div_pow2, Z.shiftl_mul_pow2 by lia.
  pose proof (Z.pow_pos_nonneg 2 r ltac:(lia) ltac:(lia)) as Hp. pose proof (Z.pow_pos_nonneg 2 (52 - r) ltac:(lia) ltac:(lia)) as Hq.
  assert (2 ^ (52 - r) * 2 ^ r = Base) as HB by (unfold Base; rewrite <- Z.pow_add_r by lia; f_equal; lia).
  pose proof (Z.div_mod w (2 ^ (52 - r)) ltac:(lia)) as D. pose proof (Z.mod_pos_bound w (2 ^ (52 - r)) ltac:(lia)) as M.
  set (m := w mod 2 ^ (52 - r)) in *. set (c0 := w / 2 ^ (52 - r)) in *.
  assert (- 2 ^ 51 <= c0 <= 2 ^ 51) as Hc0 by nia.
  assert (0 <= m * 2 ^ r < Base) as Hm by nia.
  rewrite (s64_small (m * 2 ^ r)), s64_small by (unfold Base in Hm; lia).
  specialize (IH c0 Hc0). destruct (lshift_loop r c0 x) as [t c].
  destruct IH as (Hl & Ht & Hc & E & Etop). split; [simpl; lia|].
  split; [constructor; [unfold bounded, Base in *; lia|done]|]. split; [done|]. split.
  - cbn [value length]. rewrite Nat2Z.inj_succ, Z.pow_succ_r by lia.
    apply (f_equal (Z.mul Base)) in E. rewrite D. clearbody m c0. nia.
  - intros _. destruct x as [|e x].
    + cbn [length value] in E. change (Z.of_nat 0) with 0 in E. rewrite Z.pow_0_r in E.
      assert (c = c0) as -> by (destruct t; [cbn in E; lia|done]). unfold c0, top_word. cbn [List.last].
      by rewrite Z.shiftr_div_pow2 by lia.
    + rewrite Etop by done. unfold word_shift. done.
Qed.

(** What is outside the range of [n] digits stays outside when [q] zero digits come below. *)
Lemma lo_hi_add q n : lo (q + n) = lo q + Base ^ Z.of_nat q * lo n /\ hi (q + n) = hi q + Base ^ Z.of_nat q * hi n.
Proof.
  induction q as [|q [IH1 IH2]]; [simpl; lia|]. cbn [Nat.add lo hi]. rewrite IH1, IH2.
  rewrite Nat2Z.inj_succ, Z.pow_succ_r by lia. lia.
Qed.

Lemma shifted_out q n v : v < lo n \/ hi n < v -> ~ (lo (q + n) <= Base ^ Z.of_nat q * v <= hi (q + n)).
Proof.
  intros Hv. destruct (lo_hi_add q n) as [-> ->]. pose proof (lo_hi q). pose proof (Base_pos q).
  set (Q := Base ^ Z.of_nat q) in *. clearbody Q. destruct Hv as [Hv|Hv]; intros Hbad.
  - pose proof (Z.mul_le_mono_nonneg_l v (lo n - 1) Q ltac:(lia) ltac:(lia)). lia.
  - pose proof (Z.mul_le_mono_nonneg_l (hi n + 1) v Q ltac:(lia) ltac:(lia)). lia.
Qed.

(** A normal number is out of the range of fewer digits, and so are its multiples. *)
Lemma normal_out x m p : normal x -> value x <> 0 -> length x = S m -> 1 <= p ->
  value x * p < lo m \/ hi m < value x * p.
Proof.
  intros Hn Hnz Hl Hp. destruct (normal_snoc x Hn) as (l & t & -> & Hlr & Ht & Hor).
  assert (t <> 0) as Hne by (destruct Hor as [->|?]; [intros ->; done|done]).
  rewrite length_app in Hl. simpl in Hl. assert (m = length l) as -> by lia.
  pose proof (lo_hi (length l)). pose proof (value_range l Hlr). rewrite value_snoc.
  pose proof (Base_pos (length l)). set (L := Base ^ Z.of_nat (length l)) in *. clearbody L.
  destruct (decide (0 < t)).
  - right. assert (hi (length l) < value l + L * t) by nia. nia.
  - left. assert (value l + L * t < lo (length l)) by nia. nia.
Qed.

(** A top digit whose high part is neither 0 nor -1 leaves the range when shifted. *)
Lemma top_part_out x r : normal x -> 0 < r < 52 ->
  Z.shiftr (top_word x) (52 - r) <> 0 -> Z.shiftr (top_word x) (52 - r) <> -1 ->
  value x * 2 ^ r < lo (length x) \/ hi (length x) < value x * 2 ^ r.
Proof.
  intros Hn Hr H0 H1. destruct (normal_snoc x Hn) as (l & t & -> & Hlr & Ht & Hor).
  rewrite top_word_snoc in *. rewrite Z.shiftr_div_pow2 in * by lia.
  pose proof (Z.pow_pos_nonneg 2 r ltac:(lia) ltac:(lia)) as Hp. pose proof (Z.pow_pos_nonneg 2 (52 - r) ltac:(lia) ltac:(lia)) as Hq.
  assert (2 ^ (52 - r) * 2 ^ r = Base) as HB by (unfold Base; rewrite <- Z.pow_add_r by lia; f_equal; lia).
  assert (2 ^ r <= 2 ^ 51) as Hr51 by (apply Z.pow_le_mono_r; lia).
  pose proof (Z.div_mod t (2 ^ (52 - r)) ltac:(lia)) as D. pose proof (Z.mod_pos_bound t (2 ^ (52 - r)) ltac:(lia)) as M.
  rewrite length_app. cbn [length]. destruct (lo_hi_add (length l) 1) as [-> ->]. cbn [lo hi].
  pose proof (value_three_quarters l Hlr) as Q. pose proof (lo_hi (length l)) as LH. rewrite value_snoc.
  pose proof (Base_pos (length l)). set (L := Base ^ Z.of_nat (length l)) in *. clearbody L.
  set (A := 2 ^ (52 - r)) in *. set (P := 2 ^ r) in *. clearbody A P. unfold Half, Base in *.
  destruct (decide (0 < t / A)).
  - right. assert (A <= t) by nia. assert ((4 * A - 3) * L < 4 * (value l + L * t)) by nia.
    assert ((4 * A - 3) * L * P < 4 * (value l + L * t) * P) by nia.
    assert ((4 * A - 3) * L * P = (4 * 2 ^ 52 - 3 * P) * L) by nia. nia.
  - left. assert (t <= - A - 1) by nia. assert (4 * (value l + L * t) < - (4 * A + 1) * L) by nia.
    assert (4 * (value l + L * t) * P < - (4 * A + 1) * L * P) by nia.
    assert ((4 * A + 1) * L * P = (4 * 2 ^ 52 + P) * L) by nia. nia.
Qed.

Lemma value_shifted q x : value (replicate q 0 ++ x) = Base ^ Z.of_nat q * value x.
Proof. rewrite value_app, value_zeros, length_replicate. lia. Qed.

Lemma digits_zeros q x : Forall digit_ok x -> Forall digit_ok (replicate q 0 ++ x).
Proof. intros. apply Forall_app; split; [|done]. apply Forall_replicate. unfold digit_ok. lia. Qed.

Lemma pow2_52 e : 0 <= e -> 2 ^ e = Base ^ Z.of_nat (Z.to_nat (e / 52)) * 2 ^ (e mod 52).
Proof. intros He. rewrite Z2Nat.id by (apply Z.div_pos; lia). rewrite (pow2_digits e He). lia. Qed.

Lemma bounded_53_ok x : Forall (bounded (2 ^ 53)) x -> Forall digit_ok x.
Proof. intros Hx. apply bounded_digit_ok. by apply (bounded_mono (2 ^ 53)). Qed.

(** [<<=] followed by normalisation multiplies by a power of two, or gives NaN when the
    result does not fit the capacity. *)
Lemma lshift_exact max x e : wf max x -> 0 <= e -> value x <> 0 ->
  exact_or_nan max (value x * 2 ^ e) (normalize_bool_any max (lshift_any max x e)).
Proof.
  intros Hwf He Hnz. pose proof Hwf as [Hn Hl]. pose proof Hn as (Hx0 & Hxr & _).
  unfold lshift_any. destruct (Z.ltb_spec e 0); [lia|].
  destruct (Z.eqb_spec e 0) as [->|He0].
  { apply normalize_exact; [done|lia|by eapply wf_digit_ok|lia]. }
  unfold word_shift. rewrite pow2_52 by lia. set (q := Z.to_nat (e / 52)). set (r := e mod 52).
  assert (0 <= r < 52) as Hr by (apply Z.mod_pos_bound; lia). clearbody q r.
  pose proof (Z.pow_pos_nonneg 2 r ltac:(lia) ltac:(lia)) as Hp.
  assert (value x * (Base ^ Z.of_nat q * 2 ^ r) = Base ^ Z.of_nat q * (value x * 2 ^ r)) as -> by lia.
  destruct (Nat.ltb_spec max (length x + q)) as [Hbig|Hfit].
  { unfold exact_or_nan. rewrite decide_False; [done|].
    destruct (length x) as [|n] eqn:En; [by destruct x|]. intros Hin.
    apply (shifted_out q n (value x * 2 ^ r)); [apply normal_out; [done|done|done|lia]|].
    pose proof (lo_hi_mono max (q + n) ltac:(lia)). lia. }
  destruct (Z.eqb_spec r 0) as [->|Hr0].
  { apply normalize_exact; [by destruct q, x|rewrite length_app, length_replicate; lia|by apply digits_zeros; eapply wf_digit_ok|].
    rewrite value_shifted. lia. }
  pose proof (lshift_loop_spec r 0 x ltac:(lia) ltac:(lia) Hxr) as S. destruct (lshift_loop r 0 x) as [t v].
  destruct S as (Htl & Htd & Hv & E & Etop). specialize (Etop Hx0). rewrite Z.mul_comm in E.
  assert (1 <= length t)%nat as Ht1 by (rewrite Htl; destruct x; [done|simpl; lia]).
  assert (forall q (u : digits), u <> [] -> replicate q 0 ++ u <> []) as Hne by (intros [|] []; done).
  destruct (Z.eqb_spec v 0) as [->|Hv0].
  { apply normalize_exact; [apply Hne; destruct t; [simpl in Ht1; lia|done]|rewrite length_app, length_replicate; lia|by apply digits_zeros, bounded_53_ok|].
    rewrite value_shifted. f_equal. lia. }
  destruct (Nat.ltb_spec (length x + q) max).
  { apply normalize_exact; [apply Hne; destruct t; [simpl in Ht1; lia|done]|rewrite !length_app, length_replicate; simpl; lia| |].
    - apply digits_zeros, Forall_app; split; [by apply bounded_53_ok|]. apply Forall_singleton. unfold digit_ok. lia.
    - rewrite value_shifted, value_snoc, Htl. f_equal. lia. }
  assert (max = q + length x)%nat as Hfull by lia.
  destruct (Z.eqb_spec v (-1)) as [->|Hv1]; cbn [negb].
  - pose proof (bounded_lookup _ t (length t - 1) Htd ltac:(lia)) as Hb. unfold bounded in Hb.
    change (s64 (Z.shiftl (-1) 52)) with (- 2 ^ 52).
    rewrite (s64_small (t !!! (length t - 1)%nat + - 2 ^ 52)) by lia.
    apply normalize_exact.
    + apply Hne. intros E0. apply (f_equal length) in E0. rewrite length_insert in E0. simpl in E0. lia.
    + rewrite length_app, length_replicate, length_insert. lia.
    + apply digits_zeros, Forall_insert; [by apply bounded_53_ok|unfold digit_ok; lia].
    + rewrite value_shifted, value_insert by lia. f_equal. rewrite <- Htl in E.
      replace (length t) with (S (length t - 1)) in E by lia. rewrite Nat2Z.inj_succ, Z.pow_succ_r in E by lia.
      unfold Base in *. lia.
  - unfold exact_or_nan. rewrite decide_False; [done|]. rewrite Hfull. apply shifted_out.
    apply top_part_out; [done|lia|unfold word_shift in Etop; by rewrite <- Etop..].
Qed.

(** ** Right shift: correctness *)

(** The quotient by [2 ^ e] in the rounding mode: floor, nearest (halves up), ceiling. *)
Definition round_shift (round_mode e v : Z) : Z :=
  if round_mode =? 0 then (v + 2 ^ (e - 1)) / 2 ^ e
  else if round_mode <? 0 then v / 2 ^ e
  else - ((- v) / 2 ^ e).

Lemma rshift_low_spec v x : - 2 ^ 52 <= v <= 2 ^ 52 -> Forall (bounded (2 ^ 53)) x ->
  rshift_low v x = (v + value x) / Base ^ Z.of_nat (length x) /\ - 2 ^ 52 <= rshift_low v x <= 2 ^ 52.
Proof.
  intros Hv Hx. revert v Hv. induction Hx as [|d x Hd Hx IH]; intros v Hv.
  { cbn [rshift_low value length]. change (Z.of_nat 0) with 0. rewrite Z.pow_0_r, Z.div_1_r. lia. }
  unfold bounded in Hd. cbn [rshift_low]. rewrite s64_small by lia. rewrite shiftr_word.
  assert (- 2 ^ 52 <= (v + d) / Base <= 2 ^ 52) as Hq.
  { unfold Base. split; [apply Z.div_le_lower_bound; lia|apply Z.lt_succ_r, Z.div_lt_upper_bound; lia]. }
  destruct (IH _ Hq) as [E R]. split; [|done]. rewrite E. cbn [value length].
  rewrite Nat2Z.inj_succ, Z.pow_succ_r by lia.
  rewrite <- Z.div_div by (try apply Base_pos; unfold Base; lia).
  f_equal. replace (v + (d + Base * value x)) with ((v + d) + value x * Base) by lia.
  rewrite Z.div_add by (unfold Base; lia). done.
Qed.

Lemma mask_mod w r : 0 <= r -> Z.land w (Z.shiftl 1 r - 1) = w mod 2 ^ r.
Proof.
  intros Hr. rewrite Z.shiftl_mul_pow2, Z.mul_1_l by lia.
  replace (2 ^ r - 1) with (Z.ones r); [by rewrite Z.land_ones|]. rewrite Z.ones_equiv. lia.
Qed.

Lemma rshift_loop_spec r v x : 0 < r < 52 -> - 2 ^ 54 <= v <= 2 ^ 54 -> Forall in_range x ->
  value (rshift_loop r v x) = v + 2 ^ (52 - r) * value x /\ Forall digit_ok (rshift_loop r v x)
  /\ length (rshift_loop r v x) = S (length x).
Proof.
  intros Hr Hv Hx. revert v Hv. induction Hx as [|w x Hw Hx IH]; intros v Hv.
  { cbn [rshift_loop value length]. split; [lia|]. split; [apply Forall_singleton; unfold digit_ok; lia|done]. }
  unfold in_range, Half in Hw. cbn [rshift_loop]. rewrite mask_mod by lia. unfold word_shift.
  rewrite Z.shiftr_div_pow2, Z.shiftl_mul_pow2 by lia.
  pose proof (Z.pow_pos_nonneg 2 r ltac:(lia) ltac:(lia)) as Hp. pose proof (Z.pow_pos_nonneg 2 (52 - r) ltac:(lia) ltac:(lia)) as Hq.
  assert (2 ^ r * 2 ^ (52 - r) = Base) as HB by (unfold Base; rewrite <- Z.pow_add_r by lia; f_equal; lia).
  pose proof (Z.div_mod w (2 ^ r) ltac:(lia)) as D. pose proof (Z.mod_pos_bound w (2 ^ r) ltac:(lia)) as M.
  assert (- 2 ^ 54 <= w / 2 ^ r <= 2 ^ 54) as Hc by nia.
  assert (0 <= w mod 2 ^ r * 2 ^ (52 - r) < Base) as Hm by nia.
  rewrite (s64_small (w mod 2 ^ r * 2 ^ (52 - r))), s64_small by (unfold Base in Hm; lia).
  destruct (IH _ Hc) as (E & Hd & Hl). cbn [value length]. split; [|split; [|lia]].
  - rewrite E. set (m := w mod 2 ^ r) in *. set (c := w / 2 ^ r) in *. rewrite D. clearbody m c. nia.
  - constructor; [unfold digit_ok, Base in *; lia|done].
Qed.

(** Rounding a word, with the correction that the ceiling starts from -1. *)
Lemma round_word_spec m r v : - 2 ^ 54 <= v <= 2 ^ 54 -> 0 <= r < 64 -> (m = 0 -> 0 < r) ->
  round_word m r v = (if m =? 0 then (v + 2 ^ (r - 1)) / 2 ^ r else v / 2 ^ r + Z.b2z (0 <? m))
  /\ - 2 ^ 54 <= round_word m r v <= 2 ^ 54 + 1.
Proof.
  intros Hv Hr Hm. unfold round_word.
  assert (forall k, 0 <= k -> - 2 ^ 54 <= v / 2 ^ k <= 2 ^ 54) as Hd.
  { intros k Hk. pose proof (Z.pow_pos_nonneg 2 k ltac:(lia) Hk).
    split; [apply Z.div_le_lower_bound; nia|apply Z.lt_succ_r, Z.div_lt_upper_bound; nia]. }
  destruct (Z.eqb_spec m 0) as [->|Hm0].
  - rewrite !Z.shiftr_div_pow2 by lia. pose proof (Hd (r - 1) ltac:(lia)). rewrite s64_small by lia.
    assert ((v / 2 ^ (r - 1) + 1) / 2 ^ 1 = (v + 2 ^ (r - 1)) / 2 ^ r) as ->.
    { pose proof (Z.pow_pos_nonneg 2 (r - 1) ltac:(lia) ltac:(lia)).
      replace (2 ^ r) with (2 ^ (r - 1) * 2 ^ 1) by (rewrite <- Z.pow_add_r by lia; f_equal; lia).
      rewrite <- Z.div_div by lia. f_equal. rewrite <- (Z.mul_1_l (2 ^ (r - 1))) at 2. rewrite Z.div_add by lia. done. }
    split; [done|]. pose proof (Z.pow_pos_nonneg 2 (r - 1) ltac:(lia) ltac:(lia)).
    replace (2 ^ r) with (2 * 2 ^ (r - 1)) by (rewrite <- Z.pow_succ_r by lia; f_equal; lia).
    split; [apply Z.div_le_lower_bound; nia|apply Z.lt_succ_r, Z.div_lt_upper_bound; nia].
  - rewrite Z.shiftr_div_pow2 by lia. pose proof (Hd r ltac:(lia)).
    rewrite s64_small by (destruct (0 <? m); simpl; lia). split; [done|]. destruct (0 <? m); simpl; lia.
Qed.

(** The word or number that the code rounds after dropping [low]. *)
Definition round_value (m r w : Z) : Z :=
  if m =? 0 then (w + 2 ^ (r - 1)) / 2 ^ r else w / 2 ^ r + Z.b2z (0 <? m).

Lemma round_value_shift m r w k : 0 < r ->
  round_value m r (w + 2 ^ r * k) = round_value m r w + k.
Proof.
  intros Hr. unfold round_value. pose proof (Z.pow_pos_nonneg 2 r ltac:(lia) ltac:(lia)).
  destruct (m =? 0).
  - replace (w + 2 ^ r * k + 2 ^ (r - 1)) with (w + 2 ^ (r - 1) + k * 2 ^ r) by lia. by rewrite Z.div_add by lia.
  - replace (w + 2 ^ r * k) with (w + k * 2 ^ r) by lia. rewrite Z.div_add by lia. lia.
Qed.

(** The part of [rshift_any] after the choice of the rounding mode. *)
Definition rshift_digits (m r v : Z) (high : digits) : digits :=
  match high with
  | [] => [round_word m r v]
  | d :: rest =>
      if r =? 0 then s64 (d + s64 (v + Z.b2z (0 <? m))) :: rest
      else rshift_loop r (round_word m r (s64 (v + d))) rest
  end.

Lemma rshift_digits_spec m r v high : - 2 ^ 52 <= v <= 2 ^ 52 -> 0 <= r < 52 -> (m = 0 -> 0 < r) -> Forall in_range high ->
  value (rshift_digits m r v high) = round_value m r (v + value high)
  /\ Forall digit_ok (rshift_digits m r v high) /\ rshift_digits m r v high <> []
  /\ (length (rshift_digits m r v high) <= length high `max` 1)%nat.
Proof.
  intros Hv Hr Hm Hh. unfold rshift_digits. destruct high as [|d rest].
  - destruct (round_word_spec m r v ltac:(lia) ltac:(lia) Hm) as [E B].
    cbn [value]. rewrite E. split; [unfold round_value; rewrite !Z.add_0_r; lia|].
    rewrite <- E. split; [apply Forall_singleton; unfold digit_ok; lia|]. split; [done|simpl; lia].
  - apply Forall_cons_1 in Hh as [Hd Hrest]. unfold in_range, Half in Hd.
    destruct (Z.eqb_spec r 0) as [->|Hr0].
    + rewrite (s64_small (v + _)) by (destruct (0 <? m); simpl; lia).
      rewrite s64_small by (destruct (0 <? m); simpl; lia). unfold round_value.
      destruct (Z.eqb_spec m 0); [lia|]. cbn [value]. rewrite Z.pow_0_r, Z.div_1_r.
      split; [lia|]. split; [constructor; [unfold digit_ok; destruct (0 <? m); simpl; lia|]|split; [done|simpl; lia]].
      eapply Forall_impl; [|exact Hrest]. unfold in_range, digit_ok, Half. lia.
    + rewrite s64_small by lia.
      destruct (round_word_spec m r (v + d) ltac:(lia) ltac:(lia) Hm) as [E B]. rewrite E.
      fold (round_value m r (v + d)) in *. rewrite E in B.
      assert (- 2 ^ 54 <= round_value m r (v + d) <= 2 ^ 54) as B'.
      { unfold round_value. pose proof (Z.pow_pos_nonneg 2 r ltac:(lia) ltac:(lia)) as Hp.
        pose proof (Z.pow_pos_nonneg 2 (r - 1) ltac:(lia) ltac:(lia)) as Hp1.
        assert (2 ^ r = 2 * 2 ^ (r - 1)) as Hpp by (rewrite <- Z.pow_succ_r by lia; f_equal; lia).
        destruct (m =? 0).
        - split; [apply Z.div_le_lower_bound; nia|apply Z.lt_succ_r, Z.div_lt_upper_bound; nia].
        - assert (- 2 ^ 53 <= (v + d) / 2 ^ r <= 2 ^ 53).
          { split; [apply Z.div_le_lower_bound; nia|apply Z.lt_succ_r, Z.div_lt_upper_bound; nia]. }
          destruct (0 <? m); simpl; lia. }
      destruct (rshift_loop_spec r (round_value m r (v + d)) rest ltac:(lia) B' Hrest) as (Ev & Hok & Hl).
      split; [|split; [done|split; [intros E0; by rewrite E0 in Hl|simpl; lia]]].
      rewrite Ev. cbn [value].
      assert (Base = 2 ^ r * 2 ^ (52 - r)) as HB by (unfold Base; rewrite <- Z.pow_add_r by lia; f_equal; lia).
      replace (v + (d + Base * value rest)) with (v + d + 2 ^ r * (2 ^ (52 - r) * value rest)) by (rewrite HB; lia).
      by rewrite round_value_shift by lia.
Qed.

Lemma ceil_div v p : 0 < p -> (v - 1) / p + 1 = - ((- v) / p).
Proof.
  intros Hp. pose proof (Z.div_mod (- v) p ltac:(lia)) as D. pose proof (Z.mod_pos_bound (- v) p Hp) as M.
  symmetry. assert ((v - 1) / p = - ((- v) / p) - 1) as ->; [|lia].
  symmetry. apply Z.div_unique with (r := p - 1 - (- v) mod p); [left; lia|lia].
Qed.

(** Splitting a shift by [e] bits into dropped digits and a shift of the rest. *)
Lemma rshift_split m e q r v0 low high x : - 2 ^ 52 <= v0 <= 2 ^ 52 -> x = low ++ high -> length low = q ->
  Forall (bounded (2 ^ 53)) low -> Forall in_range high -> 0 <= r < 52 -> (m = 0 -> 0 < r) ->
  v0 = (if 0 <? m then -1 else 0) -> 2 ^ e = Base ^ Z.of_nat q * 2 ^ r -> 0 <= e ->
  value (rshift_digits m r (rshift_low v0 low) high) = round_shift m e (value x)
  /\ Forall digit_ok (rshift_digits m r (rshift_low v0 low) high)
  /\ rshift_digits m r (rshift_low v0 low) high <> []
  /\ (length (rshift_digits m r (rshift_low v0 low) high) <= length high `max` 1)%nat.
Proof.
  intros Hv -> Hl Hlow Hhigh Hr Hm Ev Ee He.
  destruct (rshift_low_spec v0 low Hv Hlow) as [El Bl].
  destruct (rshift_digits_spec m r (rshift_low v0 low) high Bl Hr Hm Hhigh) as (E & Hrest).
  split; [|exact Hrest]. rewrite E, El, Hl, value_app, Hl. clear E El Hrest Bl.
  pose proof (Base_pos q) as HB. pose proof (Z.pow_pos_nonneg 2 r ltac:(lia) ltac:(lia)) as Hp.
  set (Q := Base ^ Z.of_nat q) in *. clearbody Q. set (V := value low + Q * value high).
  assert ((v0 + value low) / Q + value high = (v0 + V) / Q) as ->.
  { unfold V. replace (v0 + (value low + Q * value high)) with (v0 + value low + value high * Q) by lia.
    by rewrite Z.div_add by lia. }
  unfold round_value, round_shift. destruct (Z.eqb_spec m 0) as [->|Hm0].
  - cbn in Ev. subst v0. rewrite Z.add_0_l. specialize (Hm eq_refl).
    assert (2 ^ (e - 1) = Q * 2 ^ (r - 1)) as E1.
    { assert (1 <= e) by (destruct (Z.eq_dec e 0) as [->|]; [|lia]; pose proof (Z.pow_gt_1 2 r ltac:(lia)); simpl in Ee; nia).
      assert (2 * 2 ^ (e - 1) = 2 * (Q * 2 ^ (r - 1))); [|lia].
      replace (2 * 2 ^ (e - 1)) with (2 ^ e) by (rewrite <- Z.pow_succ_r by lia; f_equal; lia).
      rewrite Ee. replace (2 ^ r) with (2 * 2 ^ (r - 1)) by (rewrite <- Z.pow_succ_r by lia; f_equal; lia). lia. }
    rewrite E1, Ee, <- Z.div_div by lia. f_equal. rewrite (Z.mul_comm Q), Z.div_add by lia. done.
  - rewrite Z.div_div, <- Ee by lia. destruct (Z.ltb_spec m 0), (Z.ltb_spec 0 m); try lia; subst v0.
    + simpl. rewrite Z.add_0_l, Z.add_0_r. done.
    + rewrite <- ceil_div by lia. simpl. f_equal. f_equal. lia.
Qed.

(** A rounded quotient lies between zero and the number. *)
Lemma round_shift_between m e v : 1 <= e -> Z.min v 0 <= round_shift m e v <= Z.max v 0.
Proof.
  intros He. unfold round_shift. assert (2 ^ e = 2 * 2 ^ (e - 1)) as Ee by (rewrite <- Z.pow_succ_r by lia; f_equal; lia).
  pose proof (Z.pow_pos_nonneg 2 (e - 1) ltac:(lia) ltac:(lia)) as Hp. rewrite Ee. set (p := 2 ^ (e - 1)) in *. clearbody p.
  destruct (m =? 0); [|destruct (m <? 0)].
  - split; [apply Z.div_le_lower_bound; nia|apply Z.lt_succ_r, Z.div_lt_upper_bound; nia].
  - split; [apply Z.div_le_lower_bound; nia|apply Z.lt_succ_r, Z.div_lt_upper_bound; nia].
  - assert (Z.min (- v) 0 <= (- v) / (2 * p) <= Z.max (- v) 0); [|lia].
    split; [apply Z.div_le_lower_bound; nia|apply Z.lt_succ_r, Z.div_lt_upper_bound; nia].
Qed.

(** A shift that drops more than all the bits leaves the sign. *)
Lemma round_shift_far m e v : 0 < e -> - 2 ^ (e - 1) < v < 2 ^ (e - 1) ->
  round_shift m e v = if m =? 0 then 0 else if m <? 0 then (if v <? 0 then -1 else 0) else (if 0 <? v then 1 else 0).
Proof.
  intros He Hv. unfold round_shift. assert (2 ^ e = 2 * 2 ^ (e - 1)) as Ee by (rewrite <- Z.pow_succ_r by lia; f_equal; lia).
  rewrite Ee. set (p := 2 ^ (e - 1)) in *. clearbody p.
  destruct (m =? 0); [|destruct (m <? 0)].
  - apply Z.div_small. lia.
  - destruct (Z.ltb_spec v 0); [symmetry; apply Z.div_unique with (r := v + 2 * p); lia|apply Z.div_small; lia].
  - destruct (Z.ltb_spec 0 v).
    + assert ((- v) / (2 * p) = -1) as ->; [symmetry; apply Z.div_unique with (r := 2 * p - v); lia|lia].
    + rewrite Z.div_small by lia. lia.
Qed.

Lemma in_range_bounded x : Forall in_range x -> Forall (bounded (2 ^ 53)) x.
Proof. intros Hx. eapply Forall_impl; [|exact Hx]. unfold in_range, bounded, Half. lia. Qed.

(** The digit list that [rshift_any] computes before normalisation. *)
Lemma rshift_any_value x e m : normal x -> 0 < e ->
  let r := rshift_any x e m in
  r <> [] /\ Forall digit_ok r /\ (length r <= length x)%nat /\ value r = round_shift m e (value x).
Proof.
  intros Hn He r. pose proof Hn as (Hx0 & Hxr & _).
  assert (1 <= length x)%nat as Hx1 by (destruct x; [done|simpl; lia]). unfold r, rshift_any. clear r.
  destruct (Z.ltb_spec e 0); [lia|]. destruct (Z.eqb_spec e 0); [lia|].
  unfold word_shift, word_bits. destruct (Z.ltb_spec (Z.of_nat (length x) * 52 + 64 - 52) e) as [Hfar|Hnear].
  { pose proof (value_bound x Hxr) as Hb.
    assert (Base ^ Z.of_nat (length x) <= 2 ^ (e - 1)) as Hbe.
    { unfold Base. rewrite <- Z.pow_mul_r by lia. apply Z.pow_le_mono_r; lia. }
    rewrite round_shift_far by lia. rewrite (sgn_value x Hn).
    assert (forall d, - 1 <= d <= 1 -> [d] <> [] /\ Forall digit_ok [d] /\ (length [d] <= length x)%nat /\ value [d] = d) as W.
    { intros d Hd. split; [done|]. split; [apply Forall_singleton; unfold digit_ok; lia|]. split; [simpl; lia|cbn; lia]. }
    destruct (m =? 0); [by apply W|]. destruct (m <? 0).
    - destruct (Z.ltb_spec (Z.sgn (value x)) 0), (Z.ltb_spec (value x) 0); try lia; by apply W.
    - destruct (Z.ltb_spec 0 (Z.sgn (value x))), (Z.ltb_spec 0 (value x)); try lia; by apply W. }
  set (q := Z.to_nat (e / 52)). set (rr := e mod 52).
  assert (2 ^ e = Base ^ Z.of_nat q * 2 ^ rr) as Ee by (apply pow2_52; lia).
  assert (0 <= rr < 52) as Hr by (apply Z.mod_pos_bound; lia).
  assert (e = 52 * Z.of_nat q + rr) as Eq.
  { unfold q, rr. rewrite Z2Nat.id by (apply Z.div_pos; lia). apply Z.div_mod. lia. }
  clearbody q rr. assert (q <= length x)%nat as Hq by lia.
  assert (length (drop q x) `max` 1 <= length x)%nat as Hlen by (rewrite length_drop; lia).
  destruct (Z.eqb_spec m 0) as [->|Hm0]; [destruct (Z.eqb_spec rr 0) as [->|Hr0]|]; cbn [andb].
  - (* halves are added to the highest dropped digit *)
    assert (1 <= q)%nat as Hq1 by lia. set (x' := <[_ := _]> x).
    pose proof (bounded_lookup _ x (q - 1) (in_range_bounded x Hxr) ltac:(lia)) as Hd. unfold bounded in Hd.
    assert (Forall (bounded (2 ^ 53)) (take q x')) as Hlow.
    { apply Forall_take, Forall_insert; [by apply in_range_bounded|].
      rewrite s64_small by (unfold Half; lia). destruct (lookup_lt_is_Some_2 x (q - 1) ltac:(lia)) as [d Ed].
      rewrite (list_lookup_total_correct _ _ _ Ed). rewrite Forall_lookup in Hxr. specialize (Hxr _ _ Ed).
      unfold in_range, bounded, Half in *. lia. }
    assert (drop q x' = drop q x) as Hdrop by (apply drop_insert_lt; lia). rewrite Hdrop.
    destruct (rshift_split (-1) e q 0 0 (take q x') (drop q x) x' ltac:(lia)) as (Ev & Hok & Hne & Hl); try done; try lia.
    { by rewrite <- Hdrop, take_drop. }
    { rewrite length_take. unfold x'. rewrite length_insert. lia. }
    { by apply Forall_drop. }
    unfold rshift_digits in *. cbn [Z.ltb Z.compare Z.eqb] in *.
    split; [exact Hne|]. split; [exact Hok|]. split; [lia|]. rewrite Ev.
    unfold x'. rewrite value_insert, s64_small by (unfold Half; lia). unfold round_shift. cbn [Z.eqb Z.ltb Z.compare].
    f_equal. f_equal. replace (x !!! (q - 1)%nat + Half - x !!! (q - 1)%nat) with Half by lia.
    unfold Base, Half. rewrite <- Z.pow_mul_r, <- Z.pow_add_r by lia. f_equal. lia.
  - destruct (rshift_split 0 e q rr 0 (take q x) (drop q x) x ltac:(lia)) as (Ev & Hok & Hne & Hl); try done; try lia.
    { by rewrite take_drop. } { rewrite length_take. lia. } { by apply Forall_take, in_range_bounded. } { by apply Forall_drop. }
    unfold rshift_digits in *. destruct (Z.eqb_spec rr 0); [lia|]. cbn [Z.ltb Z.compare] in *.
    split; [exact Hne|]. split; [exact Hok|]. split; [lia|exact Ev].
  - set (v0 := if 0 <? m then -1 else 0).
    assert (v0 = (if 0 <? m then -1 else 0)) as Ev0 by done.
    destruct (rshift_split m e q rr v0 (take q x) (drop q x) x) as (Ev & Hok & Hne & Hl); try done; try lia.
    { unfold v0. destruct (0 <? m); lia. }
    { by rewrite take_drop. } { rewrite length_take. lia. } { by apply Forall_take, in_range_bounded. } { by apply Forall_drop. }
    unfold rshift_digits in *.
    split; [exact Hne|]. split; [exact Hok|]. split; [lia|exact Ev].
Qed.

(** [rshift] divides by a power of two in the rounding mode; the result always fits. *)
Lemma rshift_exact max x e m : wf max x -> 0 <= e ->
  let r := normalize_bool_any max (rshift_any x e m) in
  wf max r /\ value r = if e =? 0 then value x else round_shift m e (value x).
Proof.
  intros Hwf He. pose proof Hwf as [Hn Hl]. pose proof Hn as (Hx0 & Hxr & _).
  assert (forall y v, y <> [] -> (length y <= max)%nat -> Forall digit_ok y -> value y = v ->
    Z.min (value x) 0 <= v <= Z.max (value x) 0 -> wf max (normalize_bool_any max y) /\ value (normalize_bool_any max y) = v) as Hfin.
  { intros y v Hy Hyl Hok Hv Hb. pose proof (normalize_exact max y v Hy Hyl Hok Hv) as N. unfold exact_or_nan in N.
    destruct (decide _) as [|Hno]; [done|]. destruct Hno.
    pose proof (value_range x Hxr). pose proof (lo_hi_mono _ _ Hl). pose proof (lo_hi max). lia. }
  destruct (Z.eqb_spec e 0) as [->|He0].
  - cbn. apply Hfin; [done|done|by eapply wf_digit_ok|done|lia].
  - destruct (rshift_any_value x e m Hn ltac:(lia)) as (H1 & H2 & H3 & H4).
    apply Hfin; [done|lia|done|done|]. apply round_shift_between. lia.
Qed.
