(* ===== verification/BigIntLog.v ===== *)
(** * Big integers: bitwise operations ([log_op_any] of [crypto/common/bigint.hpp])

    The two numbers are read as infinite two's complement bit strings, one window of
    [word_shift] bits at a time; [cx] and [cy] carry the borrows of the signed digits, [cz]
    the carry of the result, which is written back as digits in range. *)
From S2P Require Import Prelude BigInt BigIntOps.

(** ** The operations [LogOpAnd], [LogOpOr], [LogOpXor] *)

Record LogOp := { log_fun : Z -> Z -> Z; neutral : Z; zero : Z; has_zero : bool }.

Definition LogOpAnd : LogOp := {| log_fun := Z.land; neutral := -1; zero := 0; has_zero := true |}.
Definition LogOpOr : LogOp := {| log_fun := Z.lor; neutral := 0; zero := -1; has_zero := true |}.
Definition LogOpXor : LogOp := {| log_fun := Z.lxor; neutral := 0; zero := -1; has_zero := false |}.

(** ** The loop *)

(** One digit: the digits [a] and [b] are added to the carries. *)
Definition log_step (L : LogOp) (cx cy cz a b : Z) : Z * Z * Z * Z :=
  let cx := s64 (cx + a) in
  let cy := s64 (cy + b) in
  let cz := s64 (cz + s64 (Z.land (log_fun L cx cy) (Base - 1) + Half)) in
  (Z.shiftr cx word_shift, Z.shiftr cy word_shift, Z.shiftr cz word_shift, s64 (Z.land cz (Base - 1) - Half)).

(** Both numbers while both have digits, then the longer one alone; the result keeps the
    three carries. *)
Fixpoint log_loop (L : LogOp) (cx cy cz : Z) (x y : digits) : digits * (Z * Z * Z) :=
  match x, y with
  | a :: x', b :: y' =>
      let '(cx, cy, cz, d) := log_step L cx cy cz a b in
      let (r, c) := log_loop L cx cy cz x' y' in (d :: r, c)
  | a :: x', [] =>
      let '(cx, cy, cz, d) := log_step L cx cy cz a 0 in
      let (r, c) := log_loop L cx cy cz x' [] in (d :: r, c)
  | [], y =>
      (fix rest (cx cy cz : Z) (y : digits) : digits * (Z * Z * Z) :=
         match y with
         | b :: y' =>
             let '(cx, cy, cz, d) := log_step L cx cy cz 0 b in
             let (r, c) := rest cx cy cz y' in (d :: r, c)
         | [] => ([], (cx, cy, cz))
         end) cx cy cz y
  end.

(** The cases decided by a single digit that is [zero] or [neutral]. *)
Definition log_shortcut (L : LogOp) (max : nat) (x y : digits) : option digits :=
  match x, y with
  | [a], _ =>
      if has_zero L && (a =? zero L) then Some x
      else if a =? neutral L then Some (if (length y <=? max)%nat then y else NaN)
      else match y with
           | [b] => if has_zero L && (b =? zero L) then Some [zero L] else if b =? neutral L then Some x else None
           | _ => None
           end
  | _, [b] => if has_zero L && (b =? zero L) then Some [zero L] else if b =? neutral L then Some x else None
  | _, _ => None
  end.

(** Here [y] fits the capacity, as it does for two numbers of one type: the loop over the
    digits of [y] beyond [max_size()] is empty. *)
Definition log_op_any (L : LogOp) (max : nat) (x y : digits) : digits :=
  match log_shortcut L max x y with
  | Some r => r
  | None =>
      if negb (is_valid y) || negb (is_valid x) then NaN
      else
        let '(r, (cx, cy, cz)) := log_loop L 0 0 0 x y in
        let cz := s64 (cz + log_fun L cx cy) in
        if cz =? 0 then trim r
        else if (length y <=? length x)%nat && (length x <? max)%nat then r ++ [cz]
        else NaN
  end.

(** ** Correctness *)

Definition known_op (L : LogOp) : Prop := L = LogOpAnd \/ L = LogOpOr \/ L = LogOpXor.

Lemma log_shiftr L a b : known_op L -> log_fun L (a / Base) (b / Base) = log_fun L a b / Base.
Proof.
  unfold Base. intros [-> | [-> | ->]]; cbn [log_fun LogOpAnd LogOpOr LogOpXor]; rewrite <- !Z.shiftr_div_pow2 by lia; symmetry.
  - apply Z.shiftr_land.
  - apply Z.shiftr_lor.
  - apply Z.shiftr_lxor.
Qed.

Lemma log_mod L a b c d : known_op L -> a mod Base = c mod Base -> b mod Base = d mod Base ->
  log_fun L a b mod Base = log_fun L c d mod Base.
Proof.
  unfold Base. intros HL Ha Hb. apply Z.bits_inj'. intros i Hi.
  destruct (Z.ltb_spec i 52) as [Hlt|Hge]; [|by rewrite !Z.mod_pow2_bits_high by lia].
  rewrite !Z.mod_pow2_bits_low by lia.
  assert (forall u, Z.testbit u i = Z.testbit (u mod 2 ^ 52) i) as B by (intros; by rewrite Z.mod_pow2_bits_low by lia).
  destruct HL as [-> | [-> | ->]]; cbn [log_fun LogOpAnd LogOpOr LogOpXor];
    rewrite ?Z.land_spec, ?Z.lor_spec, ?Z.lxor_spec, (B a), (B b), (B c), (B d), Ha, Hb; done.
Qed.

(** One window of bits, and the numbers above it. *)
Lemma log_split L w v X Y : known_op L ->
  log_fun L (w + Base * X) (v + Base * Y) = log_fun L w v mod Base + Base * log_fun L (w / Base + X) (v / Base + Y).
Proof.
  intros HL. rewrite (Z.div_mod (log_fun L (w + Base * X) (v + Base * Y)) Base) by (unfold Base; lia).
  rewrite <- log_shiftr by done. rewrite Z.add_comm. f_equal.
  - apply log_mod; [done| |]; rewrite Z.mul_comm, Z.mod_add by (unfold Base; lia); done.
  - f_equal. f_equal; rewrite (Z.mul_comm Base), Z.div_add by (unfold Base; lia); done.
Qed.

Definition borrow (c : Z) : Prop := c = -1 \/ c = 0.
Definition carry (c : Z) : Prop := c = 0 \/ c = 1.

Lemma log_step_spec L cx cy cz a b X Y : known_op L -> borrow cx -> borrow cy -> carry cz -> in_range a -> in_range b ->
  let '(cx', cy', cz', d) := log_step L cx cy cz a b in
  borrow cx' /\ borrow cy' /\ carry cz' /\ in_range d /\
  d + Base * (cz' + log_fun L (cx' + X) (cy' + Y)) = cz + log_fun L (cx + a + Base * X) (cy + b + Base * Y).
Proof.
  intros HL Hx Hy Hz Ha Hb. unfold log_step, in_range, borrow, carry, Half in *.
  rewrite (s64_small (cx + a)), (s64_small (cy + b)) by lia.
  rewrite log_split, !land_Base, !shiftr_word by done.
  assert (0 <= log_fun L (cx + a) (cy + b) mod Base < Base) as HM by (apply Z.mod_pos_bound; unfold Base; lia).
  set (m := log_fun L (cx + a) (cy + b) mod Base) in *. clearbody m. unfold Base in HM.
  rewrite (s64_small (m + _)) by lia. rewrite (s64_small (cz + _)) by lia.
  assert (0 <= (cz + (m + 2 ^ 51)) mod Base < Base) as HM2 by (apply Z.mod_pos_bound; unfold Base; lia).
  pose proof (Z.div_mod (cz + (m + 2 ^ 51)) Base ltac:(unfold Base; lia)) as E.
  set (q := (cz + (m + 2 ^ 51)) / Base) in *. set (p := (cz + (m + 2 ^ 51)) mod Base) in *. clearbody q p.
  unfold Base in HM2. rewrite s64_small by lia.
  assert (forall c e, c = -1 \/ c = 0 -> - 2 ^ 51 <= e < 2 ^ 51 -> (c + e) / Base = -1 \/ (c + e) / Base = 0) as D.
  { intros c e Hc He. unfold Base. pose proof (Z.div_le_lower_bound (c + e) (2 ^ 52) (-1) ltac:(lia) ltac:(lia)).
    pose proof (Z.div_lt_upper_bound (c + e) (2 ^ 52) 1 ltac:(lia) ltac:(lia)). lia. }
  split; [by apply D|]. split; [by apply D|]. split; [unfold Base in E; lia|]. split; [lia|]. lia.
Qed.

Lemma log_loop_nil L cx cy cz b y :
  log_loop L cx cy cz [] (b :: y) =
  let '(cx, cy, cz, d) := log_step L cx cy cz 0 b in let (r, c) := log_loop L cx cy cz [] y in (d :: r, c).
Proof. done. Qed.

Definition log_post L cx cy cz x y (res : digits * (Z * Z * Z)) : Prop :=
  let '(r, (cx', cy', cz')) := res in
  borrow cx' /\ borrow cy' /\ carry cz' /\ Forall in_range r /\ length r = (length x `max` length y)%nat /\
  value r + Base ^ Z.of_nat (length r) * (cz' + log_fun L cx' cy') = cz + log_fun L (cx + value x) (cy + value y).

Lemma log_post_cons L cx cy cz a b x y x0 y0 : known_op L -> borrow cx -> borrow cy -> carry cz -> in_range a -> in_range b ->
  value x0 = a + Base * value x -> value y0 = b + Base * value y ->
  (length x0 `max` length y0 = S (length x `max` length y))%nat ->
  (forall cx cy cz, borrow cx -> borrow cy -> carry cz -> log_post L cx cy cz x y (log_loop L cx cy cz x y)) ->
  log_post L cx cy cz x0 y0 (let '(cx, cy, cz, d) := log_step L cx cy cz a b in
                             let (r, c) := log_loop L cx cy cz x y in (d :: r, c)).
Proof.
  intros HL Hx Hy Hz Ha Hb Ex Ey El IH. pose proof (log_step_spec L cx cy cz a b (value x) (value y) HL Hx Hy Hz Ha Hb) as S.
  destruct (log_step L cx cy cz a b) as [[[cx' cy'] cz'] d]. destruct S as (Hx' & Hy' & Hz' & Hd & E).
  specialize (IH cx' cy' cz' Hx' Hy' Hz'). destruct (log_loop L cx' cy' cz' x y) as [r [[c1 c2] c3]].
  destruct IH as (H1 & H2 & H3 & Hr & Hl & Ev). cbn [log_post].
  split; [done|]. split; [done|]. split; [done|]. split; [by constructor|]. split; [simpl; lia|].
  rewrite Ex, Ey. rewrite !Z.add_assoc in *. rewrite <- E, <- Ev.
  cbn [value length]. rewrite Nat2Z.inj_succ, Z.pow_succ_r by lia. lia.
Qed.

Lemma log_loop_spec L x y : known_op L -> Forall in_range x -> Forall in_range y ->
  forall cx cy cz, borrow cx -> borrow cy -> carry cz -> log_post L cx cy cz x y (log_loop L cx cy cz x y).
Proof.
  intros HL Hx. revert y. induction Hx as [|a x Ha Hx IHx].
  - intros y Hy. induction Hy as [|b y Hb Hy IHy]; intros cx cy cz Hcx Hcy Hcz.
    + cbn. rewrite !Z.add_0_r. split; [done|]. split; [done|]. split; [done|]. split; [done|]. split; [done|]. lia.
    + rewrite log_loop_nil. apply log_post_cons; try done; cbn [value]; lia.
  - intros [|b y] Hy cx cy cz Hcx Hcy Hcz.
    + cbn [log_loop]. apply log_post_cons; try done; [simpl; lia|]. intros. by apply IHx.
    + apply Forall_cons_1 in Hy as [Hb Hy]. cbn [log_loop]. apply log_post_cons; try done. intros. by apply IHx.
Qed.

(** The digits of the longer number bound the result when the second one is longer. *)
Definition log_capacity (max : nat) (x y : digits) : nat := if (length y <=? length x)%nat then max else length y.

(** A number in range that needs the digit above is out of the smaller capacity. *)
Lemma top_out r c max : Forall in_range r -> in_range c -> c <> 0 -> (max <= length r)%nat ->
  ~ (lo max <= value (r ++ [c]) <= hi max).
Proof.
  intros Hr Hc Hc0 Hl. rewrite value_snoc. pose proof (value_range r Hr). pose proof (lo_hi_mono max (length r) Hl).
  pose proof (lo_hi (length r)). pose proof (lo_hi max). pose proof (Base_pos (length r)). nia.
Qed.

Lemma exact_intro max v r : wf max r -> value r = v -> exact_or_nan max v r.
Proof.
  intros Hw Hv. unfold exact_or_nan. pose proof Hw as [(_ & Hr & _) Hl]. rewrite decide_True; [done|].
  subst v. pose proof (value_range r Hr). pose proof (lo_hi_mono _ _ Hl). lia.
Qed.

Lemma value_one d : value [d] = d.
Proof. cbn [value]. lia. Qed.

Lemma log_neutral L v : known_op L -> log_fun L (neutral L) v = v /\ log_fun L v (neutral L) = v.
Proof.
  intros [-> | [-> | ->]]; cbn [log_fun neutral LogOpAnd LogOpOr LogOpXor].
  - split; [apply Z.land_m1_l|apply Z.land_m1_r].
  - split; [apply Z.lor_0_l|apply Z.lor_0_r].
  - split; [apply Z.lxor_0_l|apply Z.lxor_0_r].
Qed.

Lemma log_zero L v : known_op L -> has_zero L = true ->
  log_fun L (zero L) v = zero L /\ log_fun L v (zero L) = zero L.
Proof.
  intros [-> | [-> | ->]] Hz; cbn [log_fun zero LogOpAnd LogOpOr LogOpXor]; [| |done].
  - split; [apply Z.land_0_l|apply Z.land_0_r].
  - split; [apply Z.lor_m1_l|apply Z.lor_m1_r].
Qed.

Lemma wf_one max d : (1 <= max)%nat -> in_range d -> wf max [d].
Proof. intros. split; [|done]. split; [done|]. split; [by apply Forall_singleton|by left]. Qed.

Lemma wf_length max x : wf max x -> (1 <= length x <= max)%nat.
Proof. intros [(Hx & _) Hl]. destruct x; [done|simpl in *; lia]. Qed.

Lemma zero_in_range L : known_op L -> in_range (zero L).
Proof. intros [-> | [-> | ->]]; cbn; unfold in_range, Half; lia. Qed.

Lemma log_shortcut_exact L max x y r : known_op L -> wf max x -> wf max y -> log_shortcut L max x y = Some r ->
  wf (log_capacity max x y) r /\ value r = log_fun L (value x) (value y).
Proof.
  intros HL Hx Hy. pose proof (wf_length max x Hx) as Lx. pose proof (wf_length max y Hy) as Ly.
  assert ((length x = 1 \/ length y = 1)%nat -> wf (log_capacity max x y) x /\ (length x = 1%nat -> wf (log_capacity max x y) y)) as Wxy.
  { unfold log_capacity. destruct (Nat.leb_spec (length y) (length x)); [done|].
    intros Hl. destruct Hx as [Hx _], Hy as [Hy _]. split; [split; [done|lia]|split; [done|lia]]. }
  assert (wf (log_capacity max x y) [zero L]) as Wz.
  { apply wf_one; [|by apply zero_in_range]. unfold log_capacity. destruct (_ <=? _)%nat; lia. }
  assert (forall a b, wf (log_capacity max x y) x -> y = [b] -> value x = a ->
    (if has_zero L && (b =? zero L) then Some [zero L] else if b =? neutral L then Some x else None) = Some r ->
    wf (log_capacity max x y) r /\ value r = log_fun L a (value y)) as Hshort.
  { intros a b Wx -> <-. rewrite (value_one b).
    pose proof (fun v H => proj2 (log_zero L v HL H)) as Z2. pose proof (proj2 (log_neutral L (value x) HL)) as N2.
    destruct (has_zero L); destruct (Z.eqb_spec b (zero L)) as [Eb|]; cbn [andb].
    { intros [= <-]. by rewrite Eb, value_one, Z2. }
    all: destruct (Z.eqb_spec b (neutral L)) as [En|]; [|done]; intros [= <-]; by rewrite En, N2. }
  destruct x as [|a [|a' x]]; [simpl in Lx; lia| |].
  - specialize (Wxy (or_introl eq_refl)) as [Wx Wy]. specialize (Wy eq_refl). cbn [log_shortcut]. rewrite (value_one a).
    pose proof (fun v H => proj1 (log_zero L v HL H)) as Z1. pose proof (proj1 (log_neutral L (value y) HL)) as N1.
    destruct (has_zero L) eqn:Hz; destruct (Z.eqb_spec a (zero L)) as [Ea|]; cbn [andb].
    { intros [= <-]. by rewrite Ea, Z1, value_one. }
    all: destruct (Z.eqb_spec a (neutral L)) as [En|]; [destruct (Nat.leb_spec (length y) max); [|lia];
      intros [= <-]; by rewrite En, N1|].
    all: destruct y as [|b [|]]; try done; apply Hshort; by rewrite ?value_one.
  - destruct y as [|b [|]]; try done. cbn [log_shortcut]. apply Hshort; [|done|done]. apply Wxy. by right.
Qed.

(** The result is the bitwise operation on the values, within the capacity. *)
Lemma log_op_exact L max x y : known_op L -> wf max x -> wf max y ->
  exact_or_nan (log_capacity max x y) (log_fun L (value x) (value y)) (log_op_any L max x y).
Proof.
  intros HL Hx Hy. unfold log_op_any. destruct (log_shortcut L max x y) as [r|] eqn:Es.
  { destruct (log_shortcut_exact L max x y r HL Hx Hy Es). by apply exact_intro. }
  pose proof (wf_length max x Hx) as Lx. pose proof (wf_length max y Hy) as Ly.
  assert (is_valid x = true) as -> by (destruct x; [simpl in Lx; lia|done]).
  assert (is_valid y = true) as -> by (destruct y; [simpl in Ly; lia|done]). cbn [negb orb].
  destruct Hx as [(_ & Hx & _) _], Hy as [(_ & Hy & _) _].
  pose proof (log_loop_spec L x y HL Hx Hy 0 0 0 ltac:(by right) ltac:(by right) ltac:(by left)) as S.
  destruct (log_loop L 0 0 0 x y) as [r [[cx cy] cz]]. destruct S as (Hcx & Hcy & Hcz & Hr & Hl & Ev).
  rewrite !Z.add_0_l in Ev.
  assert (- 1 <= log_fun L cx cy <= 0) as Hf.
  { destruct HL as [-> | [-> | ->]], Hcx as [-> | ->], Hcy as [-> | ->]; split; vm_compute; discriminate. }
  assert (- 1 <= cz + log_fun L cx cy <= 1) as Hc by (unfold carry in Hcz; lia). rewrite s64_small by lia.
  set (c := cz + log_fun L cx cy) in *. clearbody c. rewrite <- Ev. unfold log_capacity.
  destruct (Z.eqb_spec c 0) as [->|Hc0].
  - rewrite Z.mul_0_r, Z.add_0_r. destruct (trim_spec r) as (Hn & Hv & Hlt); [destruct r; [simpl in *; lia|done]|done|].
    apply exact_intro; [split; [done|]|done]. destruct (Nat.leb_spec (length y) (length x)); lia.
  - assert (in_range c) as Hcr by (unfold in_range, Half; lia). rewrite <- value_snoc.
    destruct (Nat.leb_spec (length y) (length x)) as [Hle|Hgt]; cbn [andb];
      [destruct (Nat.ltb_spec (length x) max) as [Hlt|Hge]|].
    + apply exact_intro; [|done]. split; [|rewrite length_app; simpl; lia].
      split; [by destruct r|]. split; [by apply Forall_app; split; [|apply Forall_singleton]|]. right. by rewrite top_word_snoc.
    + unfold exact_or_nan. rewrite decide_False; [done|]. apply top_out; [done|done|done|lia].
    + unfold exact_or_nan. rewrite decide_False; [done|]. apply top_out; [done|done|done|lia].
Qed.
