(* ===== verification/BigIntBits.v ===== *)
(** * Integers written as bits: [export_bits_any] of [crypto/common/bigint.hpp]

    A number is written to memory as a string of bits, digit by digit, in bytes from the last
    to the first, with the bits around the string left as they are. *)
From S2P Require Import Prelude BitMem BigInt BigIntOps BigIntShift.

(** ** Writing *)

Section Exporting.
(** The byte where the string starts, the offset of its first bit there, and the byte that the
    sign of the number repeats. *)
Context (b : nat) (o s : Z).

Definition top_mask : Z := Z.land (Z.shiftr 0xff00 o) 0xff.

(** One byte of [v], with [n] bytes left to write: the first byte keeps the bits before the
    string; behind it, only the sign may follow. *)
Definition put (v : Z) (st : nat * list Z) : option (nat * list Z) :=
  let (n, m) := st in
  match n with
  | S (S n' as n1) => Some (n1, <[(b + n1)%nat := u8 v]> m)
  | S O =>
      if Z.land (Z.lxor (u8 v) s) top_mask =? 0
      then Some (O, <[b := u8 (Z.lor (Z.land (byte_at m b) top_mask) (Z.land (s32 v) (Z.lnot top_mask)))]> m) else None
  | O => if u8 v =? s then Some st else None
  end.
End Exporting.

(** The digits of a number as a stream of bytes, from the lowest on, each of which is put
    somewhere. *)
Section Streams.
Context {T : Type} (put : Z -> T -> option T).

(** [while (k >= 8)], as many times as [k] allows, and the loop that fills the rest. *)
Fixpoint drain (c : nat) (v : Z) (st : T) : option (Z * T) :=
  match c with O => Some (v, st) | S c' => st' ← put v st; drain c' (Z.shiftr v 8) st' end.

(** The branch for words that a digit nearly fills does not apply to 52 bits in 64. *)
Fixpoint export_digits (k v : Z) (x : digits) (st : T) : option (Z * T) :=
  match x with
  | [] => Some (v, st)
  | d :: x' =>
      let v := s64 (v + s64 (Z.shiftl d k)) in
      let k := k + word_shift in
      r ← drain (Z.to_nat (k / 8)) v st; export_digits (k mod 8) (fst r) x' (snd r)
  end.
End Streams.

(** [None] is the result [false].  What was written by then is dropped: to the caller these bits
    are behind the end of what it has stored. *)
Definition export_bits_any (m : list Z) (offs bits : Z) (sgnd : bool) (x : digits) : option (list Z) :=
  if negb (is_valid x) then None
  else if bits =? 0 then (if sgn_un_any x =? 0 then Some m else None)
  else if (length x =? 1)%nat || (bits <? 64) then
    let v := to_long_any x in
    if bits <? 64 then
      let pw := Z.shiftl 1 (bits - 1) in
      if (if sgnd then (v <? - pw) || (pw <=? v) else (v <? 0) || (Z.shiftl 1 bits <=? v)) then None
      else Some (bits_store_long_top m offs (u64 (Z.shiftl v (64 - bits))) bits)
    else if negb sgnd && (v <? 0) then None
    else Some (bits_store_long_top (bits_memset m offs (v <? 0) (bits - 64)) (offs + bits - 64) (u64 v) 64)
  else
    let b := Z.to_nat (Z.shiftr offs 3) in
    let offs := Z.land offs 7 in
    let s := if sgn_un_any x <? 0 then 0xff else 0 in
    if negb (s =? 0) && negb sgnd then None
    else
      let end_offs := offs + bits in
      let n := Z.to_nat (Z.shiftr end_offs 3) in
      let k := Z.land (u32 (- end_offs)) 7 in
      let v := if k =? 0 then 0 else Z.land (byte_at m (b + n)) (Z.shiftl 1 k - 1) in
      let n := if k =? 0 then n else S n in
      r ← export_digits (put b offs s) k v x (n, m);
      r ← drain (put b offs s) (fst (snd r)) (fst r) (snd r);
      if fst r =? - Z.land s 1 then
        let m := snd (snd r) in
        if negb sgnd || (Z.land (Z.lxor (byte_at m b) s) (Z.shiftr 0x80 offs) =? 0) then Some m else None
      else None.

Lemma put_first o a v : 0 <= o < 8 ->
  bits_of 8 (u8 (Z.lor (Z.land a (top_mask o)) (Z.land (s32 v) (Z.lnot (top_mask o))))) = take (Z.to_nat o) (bits_of 8 a) ++ drop (Z.to_nat o) (bits_of 8 v).
Proof. revert o. apply below_8; mask_bits; reflexivity. Qed.

Lemma first_congr o a v w : 0 <= o < 8 -> v mod 256 = w mod 256 ->
  u8 (Z.lor (Z.land a (top_mask o)) (Z.land (s32 v) (Z.lnot (top_mask o)))) = u8 (Z.lor (Z.land a (top_mask o)) (Z.land (s32 w) (Z.lnot (top_mask o)))).
Proof.
  intros Ho E. pose proof (put_first o a v Ho) as B. rewrite (bits_of_congr 8 v w E), <- (put_first o a w Ho) in B.
  apply (f_equal bits_value) in B. rewrite !bits_value_of in B. unfold wrapu in *. rewrite !Z.mod_mod in B by done. exact B.
Qed.

Lemma top_mask_pow o : 0 <= o < 8 -> top_mask o = 2 ^ 8 - 2 ^ (8 - o).
Proof. revert o. apply below_8; reflexivity. Qed.

Lemma lxor_255 a : 0 <= a < 2 ^ 8 -> Z.lxor a 255 = 255 - a.
Proof.
  intros Ha. assert (forall i, Z.testbit a i = (i <? 8) && Z.testbit a i) as Hb.
  { intros i. destruct (Z.ltb_spec i 8); [done|]. rewrite <- (Z.mod_small a (2 ^ 8)) by done. by rewrite Z.mod_pow2_bits_high by lia. }
  rewrite Z.sub_nocarry_ldiff.
  - apply Z.bits_inj'. intros i Hi. rewrite Z.lxor_spec, Z.ldiff_spec, Hb. change 255 with (Z.ones 8).
    rewrite Z.testbit_ones_nonneg by lia. by destruct (i <? 8), (Z.testbit a i).
  - apply Z.bits_inj'. intros i Hi. rewrite Z.ldiff_spec, Hb, Z.bits_0. change 255 with (Z.ones 8).
    rewrite Z.testbit_ones_nonneg by lia. by destruct (i <? 8), (Z.testbit a i).
Qed.

(** *** Streams *)

Section StreamProofs.
Context {T : Type} (put : Z -> T -> option T) (put_low : forall v w st, v mod 256 = w mod 256 -> put v st = put w st).
Abbreviation drain := (drain put).

Lemma drain_app c1 c2 v st : drain (c1 + c2) v st = r ← drain c1 v st; drain c2 (fst r) (snd r).
Proof. revert v st. induction c1 as [|c1 IH]; intros v st; [done|]. cbn. destruct (put v st); [|done]. apply IH. Qed.

Lemma pow2_8S c : 2 ^ (8 * Z.of_nat (S c)) = 256 * 2 ^ (8 * Z.of_nat c).
Proof. rewrite Nat2Z.inj_succ, <- (Z.pow_add_r 2 8) by lia. f_equal. lia. Qed.

Lemma drain_add c v t st : drain c (v + t * 2 ^ (8 * Z.of_nat c)) st = option_map (fun r => (fst r + t, snd r)) (drain c v st).
Proof.
  revert v st. induction c as [|c IH]; intros v st.
  - cbn. by rewrite Z.mul_1_r.
  - cbn [BigIntBits.drain]. rewrite pow2_8S. replace (v + t * (256 * 2 ^ (8 * Z.of_nat c))) with (v + t * 2 ^ (8 * Z.of_nat c) * 256) by lia.
    rewrite (put_low _ v st) by (by rewrite Z.mod_add by lia). destruct (put v st) as [st'|]; [|done]. cbn.
    rewrite !(Z.shiftr_div_pow2 _ 8) by lia. change (2 ^ 8) with 256. rewrite Z.div_add by lia. apply IH.
Qed.

Lemma drain_fst c v st r : drain c v st = Some r -> fst r = v / 2 ^ (8 * Z.of_nat c).
Proof.
  revert v st. induction c as [|c IH]; intros v st E.
  - cbn in E. injection E as <-. cbn. by rewrite Z.div_1_r.
  - cbn in E. destruct (put v st) as [st'|]; [|done]. rewrite (IH _ _ E), Z.shiftr_div_pow2, pow2_8S, Z.div_div by lia. done.
Qed.

(** The digits are one stream of bytes. *)
Lemma export_digits_stream x k v st : 0 <= k < 8 -> - 2 ^ 12 <= v <= 2 ^ 12 -> Forall in_range x ->
  export_digits put k v x st = drain (Z.to_nat ((k + 52 * Z.of_nat (length x)) / 8)) (v + 2 ^ k * value x) st.
Proof.
  intros Hk Hv Hx. revert k v st Hk Hv. induction Hx as [|d x Hd Hx IH]; intros k v st Hk Hv.
  - cbn [export_digits length value]. rewrite Z.mul_0_r, Z.div_small by lia. cbn. by rewrite Z.mul_0_r, Z.add_0_r.
  - cbn [export_digits value length]. unfold in_range, Half in Hd. rewrite Z.shiftl_mul_pow2 by lia.
    assert (0 < 2 ^ k <= 2 ^ 7) as Hp by (split; [apply Z.pow_pos_nonneg; lia|apply Z.pow_le_mono_r; lia]).
    rewrite (s64_small (d * 2 ^ k)) by nia. rewrite s64_small by nia. unfold word_shift. set (v1 := v + d * 2 ^ k). set (c := (k + 52) / 8).
    pose proof (Z.div_mod (k + 52) 8 ltac:(lia)) as D. fold c in D. pose proof (Z.mod_pos_bound (k + 52) 8 ltac:(lia)) as M.
    assert (6 <= c <= 7) as Hc by lia.
    assert (v + 2 ^ k * (d + Base * value x) = v1 + 2 ^ ((k + 52) mod 8) * value x * 2 ^ (8 * Z.of_nat (Z.to_nat c))) as ->.
    { assert (2 ^ k * Base = 2 ^ ((k + 52) mod 8) * 2 ^ (8 * Z.of_nat (Z.to_nat c))) as E.
      { unfold Base. rewrite <- !Z.pow_add_r by lia. f_equal. lia. }
      unfold v1. replace (v + 2 ^ k * (d + Base * value x)) with (v + d * 2 ^ k + 2 ^ k * Base * value x) by ring. rewrite E. ring. }
    replace (Z.to_nat ((k + 52 * Z.of_nat (S (length x))) / 8)) with (Z.to_nat c + Z.to_nat (((k + 52) mod 8 + 52 * Z.of_nat (length x)) / 8))%nat.
    2:{ rewrite <- Z2Nat.inj_add by (try apply Z.div_pos; lia). f_equal. rewrite <- Z.div_add_l by lia. f_equal. lia. }
    rewrite drain_app, drain_add. destruct (drain (Z.to_nat c) v1 st) as [r|] eqn:E; [|done]. cbn [option_map mbind option_bind fst snd].
    rewrite IH; [done|lia|]. rewrite (drain_fst _ _ _ _ E). rewrite Z2Nat.id by lia.
    assert (2 ^ 48 <= 2 ^ (8 * c)) as Hq by (apply Z.pow_le_mono_r; lia). change (2 ^ 48) with 281474976710656 in Hq. unfold v1.
    split; [apply Z.div_le_lower_bound|apply Z.div_le_upper_bound]; nia.
Qed.
End StreamProofs.

Section ExportProofs.
Context (b : nat) (o s : Z) (Ho : 0 <= o < 8).

Abbreviation put := (put b o s).
Abbreviation drain := (drain put).

(** Only the lowest byte is written. *)
Lemma put_congr v w st : v mod 256 = w mod 256 -> put v st = put w st.
Proof.
  intros E. assert (u8 v = u8 w) as E8 by exact E. destruct st as [[|[|n]] m]; cbn [BigIntBits.put]; rewrite E8; [done| |done].
  by rewrite (first_congr o (byte_at m b) v w Ho E).
Qed.

(** ** What is written *)

Context (Hs : s = 0 \/ s = 255).
Definition sign_word : Z := - Z.land s 1.

(** The last test. *)
Definition fin (r : option (Z * (nat * list Z))) : option (list Z) :=
  match r with Some (v, st) => if v =? sign_word then Some (snd st) else None | None => None end.

Lemma sign_cases v : (v =? sign_word) = (u8 v =? s) && (Z.shiftr v 8 =? sign_word).
Proof.
  unfold sign_word, wrapu. rewrite Z.shiftr_div_pow2 by lia. change (2 ^ 8) with 256. pose proof (Z.div_mod v 256 ltac:(lia)).
  pose proof (Z.mod_pos_bound v 256 ltac:(lia)). destruct Hs as [-> | ->]; [change (- Z.land 0 1) with 0|change (- Z.land 255 1) with (-1)];
    apply eq_true_iff_eq; rewrite andb_true_iff, !Z.eqb_eq; lia.
Qed.

Lemma fin_zero c W m : fin (drain c W (O, m)) = if W =? sign_word then Some m else None.
Proof.
  revert W. induction c as [|c IH]; intros W; [done|]. cbn [BigIntBits.drain BigIntBits.put]. rewrite (sign_cases W).
  destruct (u8 W =? s); [|done]. cbn [mbind option_bind andb]. apply IH.
Qed.

(** The test of the bits before the string, and the rest of the stream. *)
Lemma top_test w : (Z.land (Z.lxor (u8 w) s) (top_mask o) =? 0) && (Z.shiftr w 8 =? sign_word) = (w / 2 ^ (8 - o) =? sign_word).
Proof.
  rewrite Z.shiftr_div_pow2, top_mask_pow by lia. pose proof (wrapu_range 8 w ltac:(lia)) as Ha. unfold wrapu in *.
  pose proof (Z.div_mod w (2 ^ 8) ltac:(lia)) as D. set (a := w mod 2 ^ 8) in *. set (h := w / 2 ^ 8) in *.
  assert (0 < 2 ^ (8 - o) <= 2 ^ 8) as Hq by (split; [apply Z.pow_pos_nonneg; lia|apply Z.pow_le_mono_r; lia]).
  assert (2 ^ 8 = 2 ^ o * 2 ^ (8 - o)) as Hp by (rewrite <- Z.pow_add_r by lia; f_equal; lia). assert (0 < 2 ^ o) by (apply Z.pow_pos_nonneg; lia).
  set (q := 2 ^ (8 - o)) in *. assert (w / q = h * 2 ^ o + a / q) as ->.
  { rewrite D, Hp. replace (2 ^ o * q * h + a) with (h * 2 ^ o * q + a) by ring. by rewrite Z.div_add_l by lia. }
  pose proof (Z.div_pos a q ltac:(lia) ltac:(lia)) as B1. pose proof (Z.div_lt_upper_bound a q (2 ^ o) ltac:(lia) ltac:(lia)) as B2.
  unfold sign_word. apply eq_true_iff_eq. rewrite andb_true_iff, !Z.eqb_eq. destruct Hs as [-> | ->].
  - change (- Z.land 0 1) with 0. rewrite Z.lxor_0_r. unfold q at 1. rewrite land_high by lia. fold q. split; [intros [? ->]; nia|]. intros E. assert (h = 0) by nia. nia.
  - change (- Z.land 255 1) with (-1). rewrite lxor_255 by done. unfold q at 1. rewrite land_high by lia. fold q. pose proof (Z.div_mod a q ltac:(lia)).
    pose proof (Z.mod_pos_bound a q ltac:(lia)). pose proof (Z.div_mod (255 - a) q ltac:(lia)). pose proof (Z.mod_pos_bound (255 - a) q ltac:(lia)).
    pose proof (Z.div_pos a q ltac:(lia) ltac:(lia)). pose proof (Z.div_pos (255 - a) q ltac:(lia) ltac:(lia)).
    assert (a / q + (255 - a) / q = 2 ^ o - 1) by nia. split; [intros [? ->]; nia|]. intros E. assert (h = -1) by nia. nia.
Qed.

(** The stream of bytes leaves the lowest bits of the number in memory, and the last test finds
    whether what does not fit in is only the sign. *)
Lemma fin_stream n c W m : (b + S n <= length m)%nat -> bytes m ->
  match fin (drain (S n + c) W (S n, m)) with
  | Some m' => W / 2 ^ (8 * Z.of_nat (S n) - o) = sign_word /\ bytes m' /\
      written (mem_bits m) (8 * b + Z.to_nat o) (bits_of (8 * S n - Z.to_nat o) W) (mem_bits m')
  | None => W / 2 ^ (8 * Z.of_nat (S n) - o) <> sign_word
  end.
Proof.
  revert W m. induction n as [|n IH]; intros W m Hn Hm.
  - cbn [Nat.add BigIntBits.drain BigIntBits.put]. pose proof (top_test W) as T. destruct (Z.land _ _ =? 0).
    + cbn [mbind option_bind]. rewrite fin_zero. cbn [andb] in T. rewrite T. change (8 * Z.of_nat 1 - o) with (8 - o).
      destruct (Z.eqb_spec (W / 2 ^ (8 - o)) sign_word) as [E|E]; [|done]. split; [done|].
      split; [apply insert_bytes; [done|]; unfold is_byte; apply (wrapu_range 8); lia|].
      pose proof (written_byte m b (u8 (Z.lor (Z.land (byte_at m b) (top_mask o)) (Z.land (s32 W) (Z.lnot (top_mask o))))) ltac:(lia)) as Hw.
      rewrite put_first, <- (mem_byte m b), bits_of_drop in Hw by lia.
      apply written_inside in Hw; [exact Hw|lia|rewrite length_mem_bits; lia|by rewrite length_bits_of].
    + cbn [mbind option_bind andb] in *. symmetry in T. apply Z.eqb_neq in T. exact T.
  - cbn [Nat.add BigIntBits.drain BigIntBits.put]. cbn [mbind option_bind]. set (m1 := <[(b + S n)%nat := u8 W]> m).
    specialize (IH (Z.shiftr W 8) m1). unfold m1 in IH at 1. rewrite length_insert in IH.
    specialize (IH ltac:(lia) ltac:(apply insert_bytes; [done|]; apply (wrapu_range 8); lia)).
    assert (Z.shiftr W 8 / 2 ^ (8 * Z.of_nat (S n) - o) = W / 2 ^ (8 * Z.of_nat (S (S n)) - o)) as E.
    { rewrite Z.shiftr_div_pow2, Z.div_div by (try apply Z.pow_pos_nonneg; lia). rewrite <- Z.pow_add_r by lia. do 2 f_equal. lia. }
    rewrite E in IH. destruct (fin _) as [m'|]; [|exact IH]. destruct IH as (E1 & Hb & Hw). split; [done|]. split; [done|].
    replace (8 * S (S n) - Z.to_nat o)%nat with (8 * S n - Z.to_nat o + 8)%nat by lia. rewrite bits_of_app.
    change (2 ^ Z.of_nat 8) with (2 ^ 8). rewrite Z.shiftr_div_pow2 in Hw by lia.
    apply (written_before _ _ _ _ (mem_bits m1)); [|exact Hw]. rewrite length_bits_of.
    replace (8 * b + Z.to_nat o + (8 * S n - Z.to_nat o))%nat with (8 * (b + S n))%nat by lia.
    rewrite (bits_of_congr 8 W (u8 W)) by (unfold wrapu; by rewrite Z.mod_mod). apply written_byte. lia.
Qed.

End ExportProofs.

(** ** What [export_bits_any] writes *)

(** The number fits into the string; only 0 fits into no bits. *)
Definition fits_bits (v bits : Z) (sgnd : bool) : Prop :=
  if bits =? 0 then v = 0 else if sgnd then - 2 ^ (bits - 1) <= v < 2 ^ (bits - 1) else 0 <= v < 2 ^ bits.

Lemma sgn_un_normal x : normal x -> sgn_un_any x = Z.sgn (value x).
Proof.
  intros Hn. rewrite <- (sgn_value x Hn). destruct (normal_snoc x Hn) as (y & t & -> & Hy & Ht & Hor). unfold sgn_un_any.
  assert (sgn (y ++ [t]) = if 0 <? t then 1 else if t <? 0 then -1 else 0) as ->.
  { unfold sgn. rewrite top_word_snoc. by destruct y. }
  rewrite rev_app_distr. cbn [rev app]. destruct y as [|w y] using rev_ind; [done|]. clear IHy. rewrite rev_app_distr. cbn [rev app sgn_un_loop].
  destruct Hor as [E|Ht0]; [by destruct y|]. apply Forall_app in Hy as [_ Hw]. apply Forall_cons_1 in Hw as [Hw _].
  unfold in_range, Half, MaxDenorm, word_shift in *. destruct (Z.leb_spec (2 ^ 11) t); [destruct (Z.ltb_spec 0 t); [done|lia]|].
  destruct (Z.leb_spec t (- 2 ^ 11)); [destruct (Z.ltb_spec 0 t); [lia|]; destruct (Z.ltb_spec t 0); [done|lia]|].
  rewrite Z.shiftl_mul_pow2 by lia. rewrite (s64_small (t * 2 ^ 52)) by lia. rewrite !s64_small by lia.
  destruct (Z.leb_spec (- (t * 2 ^ 52) + 2 ^ 11) w); [destruct (Z.ltb_spec 0 t); [done|lia]|].
  destruct (Z.leb_spec w (- (t * 2 ^ 52) - 2 ^ 11)); [destruct (Z.ltb_spec 0 t); [lia|]; destruct (Z.ltb_spec t 0); [done|lia]|]. lia.
Qed.

Lemma bits_of_sign k (neg : bool) : bits_of k (if neg then -1 else 0) = replicate k neg.
Proof. destruct neg; (induction k as [|k IH]; [done|]; rewrite replicate_S_end; cbn [bits_of]; by rewrite <- IH). Qed.

(** A number of one digit, or a string shorter than a word. *)
Lemma export_word m offs bits sgnd x : normal x -> bytes m -> 0 < bits -> 0 <= offs -> offs + bits <= 8 * Z.of_nat (length m) ->
  (length x =? 1)%nat || (bits <? 64) = true ->
  match export_bits_any m offs bits sgnd x with
  | Some m' => fits_bits (value x) bits sgnd /\ stores m (Z.to_nat offs) (bits_of (Z.to_nat bits) (value x)) m'
  | None => ~ fits_bits (value x) bits sgnd
  end.
Proof.
  intros Hn Hm Hb Ho Hl Hs. unfold export_bits_any, fits_bits. assert (is_valid x = true) as -> by (destruct Hn as (H & _); by destruct x). cbn [negb].
  destruct (Z.eqb_spec bits 0); [lia|]. rewrite Hs. rewrite (to_long_value x Hn).
  destruct (Z.ltb_spec bits 64) as [H64|H64].
  - rewrite !Z.shiftl_mul_pow2, !Z.mul_1_l by lia. assert (0 < 2 ^ (bits - 1) <= 2 ^ 62) as Hp by (split; [apply Z.pow_pos_nonneg; lia|apply Z.pow_le_mono_r; lia]).
    assert (2 ^ bits = 2 * 2 ^ (bits - 1)) as E by (rewrite <- Z.pow_succ_r by lia; f_equal; lia).
    destruct (if sgnd then _ else _) eqn:C.
    + destruct (decide _) as [Hw|Hw]; destruct sgnd; unfold word_nan in C; lia.
    + assert (- 2 ^ 63 <= value x < 2 ^ 63) as Hw by (destruct (decide _); [done|]; unfold word_nan in C; destruct sgnd; lia).
      rewrite decide_True in C |- * by done. split; [destruct sgnd; lia|].
      pose proof (store_long_top_stores m offs (u64 (value x * 2 ^ (64 - bits))) bits Hm ltac:(apply (wrapu_range 64); lia) ltac:(lia) Ho Hl) as W.
      assert (bits_of (Z.to_nat bits) (u64 (value x * 2 ^ (64 - bits)) / 2 ^ (64 - bits)) = bits_of (Z.to_nat bits) (value x)) as EW; [|by rewrite EW in W].
      apply bits_of_congr. unfold wrapu. replace (2 ^ 64) with (2 ^ bits * 2 ^ (64 - bits)) by (rewrite <- Z.pow_add_r by lia; f_equal; lia).
      rewrite Z.mul_mod_distr_r, Z.div_mul by (apply Z.pow_nonzero; lia). replace (Z.of_nat (Z.to_nat bits)) with bits by lia. by rewrite Z.mod_mod by lia.
  - rewrite orb_false_r in Hs. apply Nat.eqb_eq in Hs. destruct x as [|d [|? ?]]; try done.
    pose proof Hn as (_ & Hd & _). apply Forall_cons_1 in Hd as [Hd _]. unfold in_range, Half in Hd. cbn [value]. rewrite Z.mul_0_r, Z.add_0_r.
    rewrite decide_True by lia. assert (2 ^ 63 <= 2 ^ (bits - 1)) as Hp by (apply Z.pow_le_mono_r; lia).
    assert (2 ^ bits = 2 * 2 ^ (bits - 1)) as E by (rewrite <- Z.pow_succ_r by lia; f_equal; lia).
    destruct (negb sgnd && (d <? 0)) eqn:C; [destruct sgnd; [done|]; cbn [negb andb] in C; lia|]. split; [destruct sgnd; cbn [negb andb] in C; lia|].
    pose proof (memset_stores m offs (d <? 0) (bits - 64) Hm ltac:(lia) Ho ltac:(lia)) as W1. pose proof W1 as (_ & B1 & L1).
    pose proof (store_long_top_stores (bits_memset m offs (d <? 0) (bits - 64)) (offs + bits - 64) (u64 d) 64 B1 ltac:(apply (wrapu_range 64); lia) ltac:(lia) ltac:(lia) ltac:(lia)) as W2.
    replace (Z.to_nat (offs + bits - 64)) with (Z.to_nat offs + length (replicate (Z.to_nat (bits - 64)) (d <? 0)%Z))%nat in W2 by (rewrite length_replicate; lia).
    pose proof (stores_after _ _ _ _ _ _ W1 W2) as W.
    assert (replicate (Z.to_nat (bits - 64)) (d <? 0) ++ bits_of (Z.to_nat 64) (u64 d / 2 ^ (64 - 64)) = bits_of (Z.to_nat bits) d) as EW; [|by rewrite EW in W].
    rewrite Z.sub_diag, Z.div_1_r. replace (Z.to_nat bits) with (Z.to_nat (bits - 64) + 64)%nat by lia. rewrite bits_of_app. f_equal.
    + rewrite <- bits_of_sign. f_equal. destruct (Z.ltb_spec d 0); [apply (Z.div_unique _ _ _ (2 ^ 64 + d)); lia|by rewrite Z.div_small by (cbn; lia)].
    + apply bits_of_congr. unfold wrapu. change (Z.of_nat 64) with 64. by rewrite Z.mod_mod.
Qed.

(** The bytes that are left after a part of the stream. *)
Lemma drain_left b o s c v n m r : drain (put b o s) c v (n, m) = Some r -> fst (snd r) = (n - c)%nat.
Proof.
  revert v n m. induction c as [|c IH]; intros v n m E.
  - cbn in E. injection E as <-. cbn. lia.
  - cbn in E. destruct n as [|[|n]].
    + destruct (u8 v =? s); [|done]. cbn in E. rewrite (IH _ _ _ E). lia.
    + destruct (_ =? 0); [|done]. cbn in E. rewrite (IH _ _ _ E). lia.
    + cbn in E. rewrite (IH _ _ _ E). lia.
Qed.

(** The digits and the loop that fills the rest are one stream. *)
Lemma export_stream b o s k v x n m : 0 <= o < 8 -> 0 <= k < 8 -> - 2 ^ 12 <= v <= 2 ^ 12 -> Forall in_range x -> (0 < n)%nat ->
  exists c, (r ← export_digits (put b o s) k v x (n, m); drain (put b o s) (fst (snd r)) (fst r) (snd r)) = drain (put b o s) (n + c) (v + 2 ^ k * value x) (n, m).
Proof.
  intros Ho Hk Hv Hx Hn. rewrite (export_digits_stream (put b o s) (put_congr b o s Ho)) by done. set (J := Z.to_nat _). exists (J - n)%nat.
  replace (n + (J - n))%nat with (J + (n - J))%nat by lia. rewrite drain_app. destruct (drain (put b o s) J _ _) as [r|] eqn:E; [|done].
  cbn. by rewrite (drain_left _ _ _ _ _ _ _ _ E).
Qed.

(** The bits behind the string, in its last byte. *)
Lemma kept_bits m b n k v : (b + n < length m)%nat -> 0 < k < 8 -> bytes m ->
  bits_of (Z.to_nat k) (Z.land (byte_at m (b + n)) (Z.shiftl 1 k - 1) + 2 ^ k * v) = take (Z.to_nat k) (drop (8 * (b + n) + (8 - Z.to_nat k)) (mem_bits m)).
Proof.
  intros Hn Hk Hm. rewrite mask_mod by lia. rewrite <- drop_drop. rewrite <- (take_drop 8 (drop (8 * (b + n)) (mem_bits m))), mem_byte by done.
  rewrite drop_app_le by (rewrite length_bits_of; lia). rewrite take_app_le by (rewrite length_drop, length_bits_of; lia).
  rewrite bits_of_drop by lia. rewrite take_ge by (rewrite length_bits_of; lia). replace (8 - (8 - Z.to_nat k))%nat with (Z.to_nat k) by lia.
  apply bits_of_congr. replace (Z.of_nat (Z.to_nat k)) with k by lia. rewrite Z.add_comm, (Z.mul_comm (2 ^ k)), Z.add_comm, Z.mod_add by (apply Z.pow_nonzero; lia).
  by rewrite Z.mod_mod by (apply Z.pow_nonzero; lia).
Qed.

(** The first bit of the string is the sign. *)
Lemma sign_test a o s : 0 <= o < 8 -> s = 0 \/ s = 255 ->
  (Z.land (Z.lxor a s) (Z.shiftr 0x80 o) =? 0) = Bool.eqb (Z.testbit a (7 - o)) (s =? 255).
Proof.
  intros Ho Hs. assert (Z.shiftr 0x80 o = 2 ^ (7 - o)) as -> by (revert o Ho; apply below_8; reflexivity).
  assert (Z.testbit (Z.lxor a s) (7 - o) = negb (Bool.eqb (Z.testbit a (7 - o)) (s =? 255))) as T.
  { rewrite Z.lxor_spec. destruct Hs as [-> | ->]; [rewrite Z.bits_0; by destruct (Z.testbit a _)|].
    assert (Z.testbit 255 (7 - o) = true) as -> by (revert o Ho; apply below_8; reflexivity). by destruct (Z.testbit a _). }
  destruct (Bool.eqb _ _); cbn [negb] in T.
  - apply Z.eqb_eq. apply Z.bits_inj'. intros i Hi. rewrite Z.land_spec, Z.bits_0, Z.pow2_bits_eqb by lia. destruct (Z.eqb_spec (7 - o) i) as [<-|]; [by rewrite T|by rewrite andb_false_r].
  - apply Z.eqb_neq. intros E. apply (f_equal (fun z => Z.testbit z (7 - o))) in E. rewrite Z.land_spec, T, Z.bits_0, Z.pow2_bits_true in E by lia. done.
Qed.
Lemma bit_at m b o : (b < length m)%nat -> 0 <= o < 8 -> mem_bits m !! (8 * b + Z.to_nat o)%nat = Some (Z.testbit (byte_at m b) (7 - o)).
Proof.
  intros Hb Ho. rewrite <- (take_drop (8 * b) (mem_bits m)), lookup_app_r by (rewrite length_take; lia). rewrite length_take, length_mem_bits.
  replace (8 * b + Z.to_nat o - (8 * b) `min` (8 * length m))%nat with (Z.to_nat o) by lia.
  rewrite <- (lookup_take_lt _ 8) by lia. rewrite mem_byte by done. rewrite bits8. revert o Ho. apply below_8; reflexivity.
Qed.
Lemma first_bit m b o n v l : (b < length m)%nat -> 0 <= o < 8 -> written l (8 * b + Z.to_nat o) (bits_of (S n) v) (mem_bits m) ->
  Z.testbit (byte_at m b) (7 - o) = Z.testbit v (Z.of_nat n).
Proof.
  intros Hb Ho [Hw E]. pose proof (bit_at m b o Hb Ho) as E1.
  assert (mem_bits m !! (8 * b + Z.to_nat o)%nat = Some (Z.testbit v (Z.of_nat n))) as E2; [|congruence].
  rewrite length_bits_of in Hw. rewrite E, lookup_app_r by (rewrite length_take; lia). rewrite length_take.
  replace (8 * b + Z.to_nat o - (8 * b + Z.to_nat o) `min` length l)%nat with 0%nat by lia.
  change (S n) with (1 + n)%nat. rewrite bits_of_app. cbn [bits_of app lookup list_lookup]. f_equal.
  by rewrite <- Z.bit0_odd, <- Z.shiftr_div_pow2, Z.shiftr_spec by lia.
Qed.

Lemma negate_offset e : 0 <= e -> let k := Z.land (u32 (- e)) 7 in
  0 <= k < 8 /\ (if k =? 0 then Z.shiftr e 3 else Z.shiftr e 3 + 1) * 8 = e + k.
Proof.
  intros He. cbv zeta. change 7 with (Z.ones 3). rewrite Z.land_ones by lia. unfold wrapu. rewrite (mod_mod_pow 3 32) by lia.
  rewrite Z.shiftr_div_pow2 by lia. change (2 ^ 3) with 8. pose proof (Z.mod_pos_bound (- e) 8 ltac:(lia)). pose proof (Z.div_mod (- e) 8 ltac:(lia)).
  pose proof (Z.div_mod e 8 ltac:(lia)). pose proof (Z.mod_pos_bound e 8 ltac:(lia)). destruct (Z.eqb_spec (- e mod 8) 0); lia.
Qed.

(** The sign of a number decides whether it fits. *)
Lemma fits_top v bits sgnd : 0 < bits -> let sg := if v <? 0 then -1 else 0 in
  fits_bits v bits sgnd <-> v / 2 ^ bits = sg /\ (if sgnd then Z.testbit v (bits - 1) = (v <? 0) else 0 <= v).
Proof.
  intros Hb sg. unfold fits_bits, sg. destruct (Z.eqb_spec bits 0); [lia|].
  assert (2 ^ bits = 2 * 2 ^ (bits - 1)) as E by (rewrite <- Z.pow_succ_r by lia; f_equal; lia).
  assert (0 < 2 ^ (bits - 1)) as Hp by (apply Z.pow_pos_nonneg; lia). rewrite Z.testbit_odd, Z.shiftr_div_pow2 by lia.
  assert (v / 2 ^ bits = v / 2 ^ (bits - 1) / 2) as -> by (rewrite Z.div_div, E by lia; f_equal; lia).
  pose proof (Z.div_mod v (2 ^ (bits - 1)) ltac:(lia)) as D. pose proof (Z.mod_pos_bound v (2 ^ (bits - 1)) ltac:(lia)) as M.
  set (q := v / 2 ^ (bits - 1)) in *. pose proof (Z.div_mod q 2 ltac:(lia)) as Dq. rewrite Zmod_odd in Dq.
  destruct sgnd, (Z.ltb_spec v 0) as [Hv|Hv].
  - split; [intros H; assert (q = -1) as -> by nia; done|]. intros [H1 H2]. rewrite H1, H2 in Dq. nia.
  - split; [intros H; assert (q = 0) as -> by nia; done|]. intros [H1 H2]. rewrite H1, H2 in Dq. nia.
  - split; [lia|]. lia.
  - split; [|intros [H1 H2]; rewrite H1 in Dq; destruct (Z.odd q); nia]. intros H. split; [|lia].
    assert (0 <= q < 2) by nia. apply Z.div_small. lia.
Qed.

(** [export_bits_any] writes exactly the numbers that fit, as their lowest bits, and nothing else. *)
Lemma export_bits_stores m offs bits sgnd x : normal x -> bytes m -> 0 <= bits -> 0 <= offs -> offs + bits <= 8 * Z.of_nat (length m) ->
  match export_bits_any m offs bits sgnd x with
  | Some m' => fits_bits (value x) bits sgnd /\ stores m (Z.to_nat offs) (bits_of (Z.to_nat bits) (value x)) m'
  | None => ~ fits_bits (value x) bits sgnd
  end.
Proof.
  intros Hn Hm Hb Ho Hl. destruct (Z.eqb_spec bits 0) as [->|Hb0].
  { unfold export_bits_any, fits_bits. assert (is_valid x = true) as -> by (destruct Hn as (H & _); by destruct x). cbn [negb Z.eqb].
    rewrite (sgn_un_normal x Hn). destruct (Z.eqb_spec (Z.sgn (value x)) 0); [|lia]. split; [lia|]. apply stores_length; [|done].
    apply written_nil. rewrite length_mem_bits. lia. }
  destruct ((length x =? 1)%nat || (bits <? 64)) eqn:Hw; [by apply export_word; (done || lia)|].
  unfold export_bits_any. assert (is_valid x = true) as -> by (destruct Hn as (H & _); by destruct x). cbn [negb]. rewrite (proj2 (Z.eqb_neq bits 0) Hb0), Hw.
  apply orb_false_iff in Hw as [_ H64%Z.ltb_ge]. rewrite (sgn_un_normal x Hn).
  destruct (offset_split offs Ho) as (Eo & Hr & Hq). set (o := Z.land offs 7) in *. set (b := Z.to_nat (Z.shiftr offs 3)) in *. cbv zeta.
  set (s := if Z.sgn (value x) <? 0 then 255 else 0). pose proof (fits_top (value x) bits sgnd ltac:(lia)) as F. cbv zeta in F.
  assert (s = 0 \/ s = 255) as Hs by (unfold s; destruct (_ <? 0); auto).
  assert ((s =? 0) = negb (value x <? 0)) as Es0 by (unfold s; destruct (Z.ltb_spec (Z.sgn (value x)) 0), (Z.ltb_spec (value x) 0); (done || lia)).
  assert ((s =? 255) = (value x <? 0)) as Es by (unfold s; destruct (Z.ltb_spec (Z.sgn (value x)) 0), (Z.ltb_spec (value x) 0); (done || lia)).
  assert (- Z.land s 1 = if value x <? 0 then -1 else 0) as Ew by (rewrite <- Es; by destruct Hs as [-> | ->]).
  rewrite Es0, negb_involutive. destruct ((value x <? 0) && negb sgnd) eqn:C.
  { rewrite F. destruct sgnd; [by rewrite andb_false_r in C|]. intros [_ H]. lia. }
  pose proof (negate_offset (o + bits) ltac:(lia)) as [Hk Hn8]. set (k := Z.land (u32 (- (o + bits))) 7) in *.
  set (n0 := Z.to_nat (Z.shiftr (o + bits) 3)). set (v := if k =? 0 then 0 else Z.land (byte_at m (b + n0)) (Z.shiftl 1 k - 1)). set (n := if k =? 0 then n0 else S n0).
  assert (0 <= Z.shiftr (o + bits) 3) as Hn3 by (apply Z.shiftr_nonneg; lia).
  assert (8 * Z.of_nat n - o = bits + k) as En by (unfold n, n0; destruct (k =? 0); lia).
  assert (0 <= v < 2 ^ 8) as Hv.
  { unfold v. destruct (Z.eqb_spec k 0); [lia|]. rewrite mask_mod by lia. pose proof (Z.mod_pos_bound (byte_at m (b + n0)) (2 ^ k) ltac:(apply Z.pow_pos_nonneg; lia)).
    pose proof (Z.pow_le_mono_r 2 k 8 ltac:(lia) ltac:(lia)). lia. }
  destruct (export_stream b o s k v x n m Hr Hk ltac:(lia) ltac:(by destruct Hn as (_ & H & _)) ltac:(lia)) as [c Ec].
  destruct n as [|n1] eqn:En1; [lia|]. pose proof (fin_stream b o s Hr Hs n1 c (v + 2 ^ k * value x) m ltac:(lia) Hm) as W. rewrite <- Ec in W. clear Ec.
  rewrite En in W. unfold sign_word in W. rewrite Ew in W.
  assert ((v + 2 ^ k * value x) / 2 ^ (bits + k) = value x / 2 ^ bits) as EW.
  { rewrite Z.add_comm with (n := bits), Z.pow_add_r, <- Z.div_div by (try apply Z.pow_nonzero; try apply Z.pow_pos_nonneg; lia). f_equal.
    rewrite Z.mul_comm, Z.div_add by (apply Z.pow_nonzero; lia). rewrite Z.div_small; [done|].
    unfold v. destruct (Z.eqb_spec k 0) as [->|]; [lia|]. rewrite mask_mod by lia. apply Z.mod_pos_bound. apply Z.pow_pos_nonneg; lia. }
  rewrite EW in W. unfold fin in W. rewrite Ew.
  destruct (export_digits (put b o s) k v x (S n1, m)) as [r1|]; cbn [mbind option_bind] in *; [|intros H; exact (W (proj1 (proj1 F H)))].
  destruct (drain (put b o s) _ _ _) as [[v2 st2]|]; cbn [mbind option_bind fst snd] in *; [|intros H; exact (W (proj1 (proj1 F H)))].
  unfold sign_word in W. rewrite Ew in W. destruct (Z.eqb_spec v2 (if value x <? 0 then -1 else 0)); [|intros H; exact (W (proj1 (proj1 F H)))].
  destruct W as (W1 & W2 & W3). set (m' := snd st2) in *. assert (length m' = length m) as L'.
  { apply written_length in W3. rewrite !length_mem_bits in W3. lia. }
  assert (written (mem_bits m) (8 * b + Z.to_nat o) (bits_of (Z.to_nat bits) (value x)) (mem_bits m')) as W4.
  { replace (8 * S n1 - Z.to_nat o)%nat with (Z.to_nat bits + Z.to_nat k)%nat in W3 by lia. rewrite bits_of_app in W3.
    replace (Z.of_nat (Z.to_nat k)) with k in W3 by lia.
    assert ((v + 2 ^ k * value x) / 2 ^ k = value x) as Ev.
    { rewrite Z.mul_comm, Z.div_add by (apply Z.pow_nonzero; lia). rewrite Z.div_small; [done|].
      unfold v. destruct (Z.eqb_spec k 0) as [E|]; [rewrite E; lia|]. rewrite mask_mod by lia. apply Z.mod_pos_bound. apply Z.pow_pos_nonneg; lia. }
    rewrite Ev in W3. unfold v, n in *. destruct (Z.eqb_spec k 0) as [E|E].
    - rewrite E in W3. cbn [Z.to_nat bits_of] in W3. by rewrite app_nil_r in W3.
    - rewrite kept_bits in W3 by (done || lia).
      replace (8 * (b + n0) + (8 - Z.to_nat k))%nat with (8 * b + Z.to_nat o + Z.to_nat bits)%nat in W3 by lia.
      apply (written_prefix _ _ (Z.to_nat bits + Z.to_nat k) (Z.to_nat bits)); [rewrite length_mem_bits; lia|by rewrite length_bits_of|lia|].
      rewrite skipn_firstn_comm, drop_drop. by replace (Z.to_nat bits + Z.to_nat k - Z.to_nat bits)%nat with (Z.to_nat k) by lia. }
  rewrite sign_test, Es by done. assert (Z.testbit (byte_at m' b) (7 - o) = Z.testbit (value x) (bits - 1)) as ->.
  { replace (bits - 1) with (Z.of_nat (Z.to_nat bits - 1)) by lia. apply (first_bit m' b o _ _ (mem_bits m)); [lia|done|].
    by replace (S (Z.to_nat bits - 1)) with (Z.to_nat bits) by lia. }
  destruct sgnd; cbn [negb orb].
  - destruct (Bool.eqb _ _) eqn:B.
    + apply eqb_prop in B. split; [by apply F|]. rewrite Eo. by apply stores_length.
    + apply eqb_false_iff in B. intros H. by apply F in H as [_ H].
  - rewrite andb_true_r in C. split; [apply F; split; [done|lia]|]. rewrite Eo. by apply stores_length.
Qed.
