(* ===== verification/RefInt.v ===== *)
(** * 257-bit integers: the operators of [crypto/common/refint.cpp]

    A [RefInt256] is a reference to a [BigInt256]: five digits, or NaN.  Every operator copies
    its first operand ([x.write()]), applies one [AnyIntView] operation and normalizes.  The
    references are never null where the virtual machine uses these operators, so the model has
    the values alone.  The theorems relate each operator to the integers: [value_of] is the
    integer or [None] for NaN, and [fit] the capacity of five digits in range, which exceeds
    the 257 bits that the machine checks separately. *)
From S2P Require Import Prelude BigInt BigIntOps BigIntShift BigIntLog.

(** ** Operators *)

Definition normalize (x : digits) : digits := normalize_bool_any word_cnt x.

(** [make_refint(x)] with a 64-bit [x], and [zero_refint]. *)
Definition make_refint (x : Z) : digits := normalize [x].
Definition zero_refint : digits := [0].

Definition refint_add (x y : digits) : digits := normalize (add_any word_cnt x y).
Definition refint_add_word (x : digits) (y : Z) : digits := normalize (add_tiny y x).
Definition refint_sub (x y : digits) : digits := normalize (sub_any word_cnt x y).
Definition refint_sub_word (x : digits) (y : Z) : digits := normalize (add_tiny (s64 (- y)) x).
Definition refint_neg (x : digits) : digits := normalize (negate_any x).
Definition refint_not (x : digits) : digits := normalize (logical_not x).
Definition refint_mul (x y : digits) : digits := normalize (add_mul_any word_cnt zero_refint x y).

(** [BigIntInfo::set_mul]: the low 52 bits of a product and the bits above. *)
Definition set_mul (x y : Z) : Z * Z := (Z.land (x * y) (Base - 1), s64 (Z.shiftr (x * y) word_shift)).

(** [mul_add_short_any]: the loop over the digits with the carry [z]. *)
Fixpoint mul_add_loop (y z : Z) (x : digits) : digits * Z :=
  match x with
  | [] => ([], z)
  | d :: x' => let (l, h) := set_mul y d in let (r, c) := mul_add_loop y h x' in (s64 (l + z) :: r, c)
  end.

Definition mul_add_short_any (max : nat) (y z : Z) (x : digits) : digits :=
  if negb (is_valid x) then NaN
  else
    let (r, z) := mul_add_loop y z x in
    if z =? 0 then r
    else if (length r <? max)%nat then r ++ [z]
    else
      let top := top_word r in
      let z := s64 (z + Z.shiftr top word_shift) in
      if (z =? 0) || (z =? -1)
      then removelast r ++ [s64 (Z.land top (Base - 1) + s64 (Z.shiftl z word_shift))]
      else NaN.

Definition mul_short_opt (y : Z) (x : digits) : digits :=
  if (y <=? MaxDenorm) && (- MaxDenorm <=? y) then mul_tiny_any y x else mul_add_short_any word_cnt y 0 x.
Definition refint_mul_word (x : digits) (y : Z) : digits := normalize (mul_short_opt y x).

(** The bitwise operators do not normalize. *)
Definition refint_and (x y : digits) : digits := log_op_any LogOpAnd word_cnt x y.
Definition refint_or (x y : digits) : digits := log_op_any LogOpOr word_cnt x y.
Definition refint_xor (x y : digits) : digits := log_op_any LogOpXor word_cnt x y.

Definition refint_shl (x : digits) (y : Z) : digits := normalize (lshift_any word_cnt x y).
Definition rshift (x : digits) (y round_mode : Z) : digits := normalize (rshift_any x y round_mode).
(** [>>=] rounds to the floor, the default [round_mode = -1] of [rshift_any]. *)
Definition refint_shr (x : digits) (y : Z) : digits := normalize (rshift_any x y (-1)).

Definition cmp (x y : digits) : Z := cmp_any x y.
Definition cmp_word (x : digits) (y : Z) : Z := cmp_any_word x y.

(** ** Specification *)

(** A stored number: NaN, or normal with at most five digits. *)
Definition number (x : digits) : Prop := wf_or_nan word_cnt x.

Definition fit (v : Z) : option Z := if decide (lo word_cnt <= v <= hi word_cnt) then Some v else None.

(** The operator [x] computes the optional integer [v]. *)
Definition computes (x : digits) (v : option Z) : Prop := number x /\ value_of x = v.

Lemma value_of_wf max x : wf max x -> value_of x = Some (value x).
Proof. intros [(Hx & _) _]. by destruct x. Qed.

Lemma number_cases x : number x -> (x = NaN /\ value_of x = None) \/ (wf word_cnt x /\ value_of x = Some (value x)).
Proof. intros [->|Hw]; [by left|right]. split; [done|]. by eapply value_of_wf. Qed.

Lemma exact_computes v x : exact_or_nan word_cnt v x -> computes x (fit v).
Proof.
  unfold exact_or_nan, computes, fit. destruct (decide _).
  - intros [Hw <-]. split; [by right|]. by eapply value_of_wf.
  - intros ->. split; [by left|done].
Qed.

Lemma nan_computes : computes NaN None.
Proof. split; [by left|done]. Qed.

Lemma wf_fit x : wf word_cnt x -> fit (value x) = Some (value x).
Proof.
  intros [(_ & Hr & _) Hl]. unfold fit. rewrite decide_True; [done|].
  pose proof (value_range x Hr). pose proof (lo_hi_mono _ _ Hl). lia.
Qed.

(** 257-bit integers fit with room to spare. *)
Lemma fit_small v : - 2 ^ 258 <= v <= 2 ^ 258 -> fit v = Some v.
Proof.
  intros Hv. unfold fit. rewrite decide_True; [done|].
  assert (lo word_cnt <= - 2 ^ 258 /\ 2 ^ 258 <= hi word_cnt) by (vm_compute; split; discriminate). lia.
Qed.

Lemma number_unique x y : number x -> number y -> value_of x = value_of y -> x = y.
Proof.
  intros Hx Hy. destruct (number_cases x Hx) as [[-> ->]|[[Hnx Hlx] ->]], (number_cases y Hy) as [[-> ->]|[[Hny Hly] ->]];
    try done. intros [= E]. by apply normal_unique.
Qed.

Lemma linear_computes f x y : f = Z.add \/ f = Z.sub -> number x -> number y ->
  computes (normalize (addsub_any f word_cnt x y)) (a ← value_of x; b ← value_of y; fit (f a b)).
Proof.
  intros Hf Hx Hy. destruct (number_cases x Hx) as [[-> ->]|[Wx ->]].
  { unfold normalize. rewrite addsub_nan by (by left). apply nan_computes. }
  destruct (number_cases y Hy) as [[-> ->]|[Wy ->]].
  { unfold normalize. rewrite addsub_nan by (by right). apply nan_computes. }
  apply exact_computes. by apply addsub_exact.
Qed.

(** An operator of one operand that maps NaN to NaN. *)
Lemma unary_computes (op : digits -> digits) (f : Z -> Z) x : op NaN = NaN ->
  (wf word_cnt x -> exact_or_nan word_cnt (f (value x)) (op x)) -> number x ->
  computes (op x) (a ← value_of x; fit (f a)).
Proof.
  intros Hn Hop Hx. destruct (number_cases x Hx) as [[-> ->]|[Wx ->]]; [rewrite Hn; apply nan_computes|].
  apply exact_computes. by apply Hop.
Qed.

Lemma mul_tiny_spec y x : - 2 ^ 9 <= y <= 2 ^ 9 -> Forall in_range x ->
  value (mul_tiny_any y x) = value x * y /\ Forall digit_ok (mul_tiny_any y x) /\ length (mul_tiny_any y x) = length x.
Proof.
  intros Hy. induction 1 as [|d x Hd Hx (E & Hok & Hl)]; [done|]. unfold in_range, Half in Hd.
  unfold mul_tiny_any in *. cbn [map value length]. assert (- 2 ^ 60 <= d * y <= 2 ^ 60) by nia.
  rewrite s64_small by lia. rewrite E, Hl. split; [lia|]. split; [|done]. constructor; [unfold digit_ok; lia|done].
Qed.

Lemma shl_zero e : 0 <= e < 260 -> refint_shl [0] e = [0].
Proof.
  intros He. assert (forallb (fun n => bool_decide (refint_shl [0] (Z.of_nat n) = [0])) (seq 0 260) = true) as F by by vm_compute.
  rewrite forallb_forall in F. specialize (F (Z.to_nat e) ltac:(apply in_seq; lia)).
  apply bool_decide_eq_true in F. by rewrite Z2Nat.id in F by lia.
Qed.

Lemma zero_digits x : normal x -> value x = 0 -> x = [0].
Proof.
  intros Hn Hv. apply normal_unique; [done| |done]. split; [done|]. split; [|by left].
  apply Forall_singleton. unfold in_range, Half. lia.
Qed.

(** ** Theorems *)

(** C12. Normalisation is canonical: of up to five loose digits it makes the only stored
    number with their value, or NaN exactly when there is none. *)
Theorem normalize_canonical x : x <> [] -> (length x <= word_cnt)%nat -> Forall digit_ok x ->
  computes (normalize x) (fit (value x)) /\
  (forall y, number y -> value_of y = fit (value x) -> y = normalize x).
Proof.
  intros Hx Hl Hd. assert (computes (normalize x) (fit (value x))) as [Hn Hv].
  { apply exact_computes. by apply normalize_exact. }
  split; [done|]. intros y Hy Hyv. apply number_unique; [done|done|]. by rewrite Hv.
Qed.

(** C13. Addition, subtraction, negation and complement compute the integer operation
    within the capacity; NaN operands give NaN. *)
Theorem refint_linear_exact x y : number x -> number y ->
  computes (refint_add x y) (a ← value_of x; b ← value_of y; fit (a + b)) /\
  computes (refint_sub x y) (a ← value_of x; b ← value_of y; fit (a - b)) /\
  computes (refint_neg x) (a ← value_of x; fit (- a)) /\
  computes (refint_not x) (a ← value_of x; fit (Z.lnot a)) /\
  (forall w, - 2 ^ 60 <= w <= 2 ^ 60 ->
     computes (refint_add_word x w) (a ← value_of x; fit (a + w)) /\
     computes (refint_sub_word x w) (a ← value_of x; fit (a - w))).
Proof.
  intros Hx Hy. split; [apply linear_computes; auto|]. split; [apply linear_computes; auto|].
  split; [apply (unary_computes refint_neg Z.opp); [done|apply negate_exact|done]|].
  split.
  { apply (unary_computes refint_not Z.lnot); [done| |done]. intros. unfold Z.lnot.
    replace (Z.pred (- value x)) with (- value x - 1) by lia. by apply logical_not_exact. }
  intros w Hw. split.
  - apply (unary_computes (fun x => refint_add_word x w) (fun a => a + w)); [done| |done]. intros. by apply add_tiny_exact.
  - apply (unary_computes (fun x => refint_sub_word x w) (fun a => a - w)); [done| |done]. intros.
    unfold refint_sub_word. rewrite s64_small by lia. replace (value x - w) with (value x + - w) by lia.
    apply add_tiny_exact; [done|lia].
Qed.

(** A product is exact when it is a number at all, and it is one for every product of
    257 bits; a product by a small word is exact within the capacity. *)
Theorem refint_mul_exact x y : wf word_cnt x -> wf word_cnt y ->
  number (refint_mul x y) /\
  (forall v, value_of (refint_mul x y) = Some v -> v = value x * value y) /\
  (- 2 ^ 256 <= value x * value y < 2 ^ 256 -> value_of (refint_mul x y) = Some (value x * value y)) /\
  (forall w, - 2 ^ 9 <= w <= 2 ^ 9 -> computes (refint_mul_word x w) (fit (value x * w))).
Proof.
  intros Hx Hy. destruct (mul_exact x y Hx Hy) as [Hor Hfit]. fold zero_refint in Hor, Hfit.
  change (normalize_bool_any 5 (add_mul_any 5 zero_refint x y)) with (refint_mul x y) in *.
  split; [destruct Hor as [->|[Hw _]]; [by left|by right]|]. split.
  { intros v. destruct Hor as [->|[Hw E]]; [done|]. rewrite (value_of_wf 5) by done. by intros [= <-]. }
  split.
  { intros Hr. destruct (Hfit Hr) as [Hw E]. by rewrite (value_of_wf 5), E. }
  intros w Hw. destruct Hx as [(Hx0 & Hxr & _) Hxl]. destruct (mul_tiny_spec w x Hw Hxr) as (E & Hok & Hl).
  apply exact_computes. unfold refint_mul_word, mul_short_opt, MaxDenorm.
  destruct (Z.leb_spec w (2 ^ 11)); [|lia]. destruct (Z.leb_spec (- 2 ^ 11) w); [|lia]. cbn [andb].
  apply normalize_exact; [by destruct x|lia|done|done].
Qed.

(** C14. The bitwise operators act on the two's complement bits; the capacity is that of the
    longer operand when it is the second one, and five digits otherwise. *)
Theorem refint_log_exact x y : wf word_cnt x -> wf word_cnt y ->
  let cap := log_capacity word_cnt x y in
  exact_or_nan cap (Z.land (value x) (value y)) (refint_and x y) /\
  exact_or_nan cap (Z.lor (value x) (value y)) (refint_or x y) /\
  exact_or_nan cap (Z.lxor (value x) (value y)) (refint_xor x y).
Proof.
  intros Hx Hy. split; [|split].
  - by apply (log_op_exact LogOpAnd); [left| |].
  - by apply (log_op_exact LogOpOr); [right; left| |].
  - by apply (log_op_exact LogOpXor); [right; right| |].
Qed.

(** C15. Left shifts multiply within the capacity (a zero shifted by 260 bits or more is
    NaN); right shifts divide by the power of two in the given rounding mode. *)
Theorem refint_shift_exact x e m : wf word_cnt x -> 0 <= e ->
  computes (refint_shl x e)
    (if value x =? 0 then (if e <? 260 then Some 0 else None) else fit (value x * 2 ^ e)) /\
  computes (rshift x e m) (Some (if e =? 0 then value x else round_shift m e (value x))) /\
  computes (refint_shr x e) (Some (value x / 2 ^ e)).
Proof.
  intros Hx He. split; [|split].
  - destruct (Z.eqb_spec (value x) 0) as [E0|Hne]; [|by apply exact_computes, lshift_exact].
    rewrite (zero_digits x (proj1 Hx) E0). destruct (Z.ltb_spec e 260).
    + rewrite shl_zero by lia. split; [|done]. right. apply wf_one; [unfold word_cnt; lia|unfold in_range, Half; lia].
    + assert (refint_shl [0] e = NaN) as ->; [|apply nan_computes]. unfold refint_shl, lshift_any.
      destruct (Z.ltb_spec e 0); [lia|]. destruct (Z.eqb_spec e 0); [lia|].
      pose proof (Z.div_le_lower_bound e 52 5 ltac:(lia) ltac:(lia)). unfold word_shift, word_cnt.
      destruct (Nat.ltb_spec 5 (length [0] + Z.to_nat (e / 52))); [done|simpl in *; lia].
  - destruct (rshift_exact word_cnt x e m Hx He) as [Hw <-]. split; [by right|]. by eapply value_of_wf.
  - destruct (rshift_exact word_cnt x e (-1) Hx He) as [Hw E]. split; [by right|]. erewrite value_of_wf by done. f_equal.
    fold (normalize (rshift_any x e (-1))) in E. change (refint_shr x e) with (normalize (rshift_any x e (-1))). rewrite E.
    destruct (Z.eqb_spec e 0) as [->|]; [by rewrite Z.div_1_r|done].
Qed.

(** Comparison, equality and sign are those of the values. *)
Theorem refint_cmp_exact x y w : wf word_cnt x -> wf word_cnt y -> in_range w ->
  cmp x y = Z.sgn (value x - value y) /\ cmp_word x w = Z.sgn (value x - w) /\
  eq_any x y = (value x =? value y) /\ sgn x = Z.sgn (value x).
Proof.
  intros [Hx _] [Hy _] Hw. assert (forall u, normal u -> cmp x u = Z.sgn (value x - value u)) as C.
  { intros u Hu. unfold cmp. rewrite cmp_any_value by done.
    destruct (Z.compare_spec (value x) (value u)); symmetry; [apply Z.sgn_null|apply Z.sgn_neg|apply Z.sgn_pos]; lia. }
  split; [by apply C|]. split; [|split; [by apply eq_any_value|by apply sgn_value]].
  assert (normal [w]) as Hnw by (apply (wf_one 1); [lia|done]). rewrite <- (value_one w), <- (C [w] Hnw), value_one.
  unfold cmp, cmp_word, cmp_any. destruct Hx as (Hx0 & _). by destruct x as [|a [|b x]].
Qed.

(** A number converts to a 64-bit word exactly when it fits one, and the tests for a
    signed or unsigned size answer for the value. *)
Theorem refint_size_exact x n : wf word_cnt x -> 1 <= n ->
  to_long_any x = (if decide (- 2 ^ 63 <= value x < 2 ^ 63) then value x else word_nan) /\
  (signed_fits_bits_any x n = true <-> - 2 ^ (n - 1) <= value x < 2 ^ (n - 1)) /\
  (unsigned_fits_bits_any x n = true <-> 0 <= value x < 2 ^ n).
Proof.
  intros [Hx _] Hn. split; [by apply to_long_value|].
  split; [by apply signed_fits_bits_value|apply unsigned_fits_bits_value; [done|lia]].
Qed.

(** ** The theorems at work *)

(** Two stored numbers of three digits and one. *)
Definition sample : digits := [5; -7; 3].
Definition sample2 : digits := [-9].

Lemma normal_intro x : x <> [] -> forallb (fun d => (- Half <=? d) && (d <? Half)) x = true ->
  (length x =? 1)%nat || negb (top_word x =? 0) = true -> normal x.
Proof.
  intros Hx Hr Ht. split; [done|]. split.
  - apply Forall_forall. intros d Hd. rewrite forallb_forall in Hr. specialize (Hr d Hd). unfold in_range. lia.
  - apply orb_true_iff in Ht as [Ht|Ht]; [left; by apply Nat.eqb_eq|right]. lia.
Qed.

Lemma sample_wf : wf word_cnt sample /\ wf word_cnt sample2.
Proof. split; (split; [by apply normal_intro|vm_compute; lia]). Qed.

Lemma normalize_canonical_witness :
  [2 ^ 52; 3] <> [] /\ computes (normalize [2 ^ 52; 3]) (fit (value [2 ^ 52; 3])).
Proof.
  split; [done|]. apply (normalize_canonical [2 ^ 52; 3]); [done|unfold word_cnt; simpl; lia|].
  repeat constructor; unfold digit_ok; lia.
Defined.

Lemma refint_linear_exact_witness :
  number sample /\ computes (refint_add sample sample2) (fit (value sample + value sample2)).
Proof.
  split; [right; apply sample_wf|].
  destruct (refint_linear_exact sample sample2) as [Hadd _]; [right; apply sample_wf|right; apply sample_wf|].
  exact Hadd.
Defined.

Lemma refint_mul_exact_witness :
  wf word_cnt sample /\ value_of (refint_mul sample sample2) = Some (value sample * value sample2).
Proof.
  split; [apply sample_wf|]. apply (refint_mul_exact sample sample2); [apply sample_wf|apply sample_wf|].
  vm_compute. split; [discriminate|reflexivity].
Defined.

Lemma refint_log_exact_witness :
  wf word_cnt sample2 /\ exact_or_nan 5 (Z.land (value sample) (value sample2)) (refint_and sample sample2).
Proof.
  split; [apply sample_wf|]. apply (refint_log_exact sample sample2); apply sample_wf.
Defined.

Lemma refint_shift_exact_witness : wf word_cnt sample /\ computes (refint_shr sample 60) (Some (value sample / 2 ^ 60)).
Proof. split; [apply sample_wf|]. apply (refint_shift_exact sample 60 0); [apply sample_wf|lia]. Defined.

Lemma refint_cmp_exact_witness : in_range 7 /\ cmp_word sample 7 = Z.sgn (value sample - 7).
Proof.
  assert (in_range 7) as H7 by (unfold in_range, Half; lia). split; [exact H7|].
  apply (refint_cmp_exact sample sample2 7); [apply sample_wf|apply sample_wf|exact H7].
Defined.

Lemma refint_size_exact_witness : wf word_cnt sample /\
  (signed_fits_bits_any sample 107 = true <-> - 2 ^ (107 - 1) <= value sample < 2 ^ (107 - 1)).
Proof. split; [apply sample_wf|]. apply (refint_size_exact sample 107); [apply sample_wf|lia]. Defined.

(** [log_op_any] refuses the extra digit of its result when the second operand is longer:
    the exclusive or of -2 and -2 ^ 103 - 1 is NaN, with the operands swapped it is 2 ^ 103 + 1. *)
Lemma xor_not_symmetric : refint_xor [-2] [-1; - Half] = NaN /\ value_of (refint_xor [-1; - Half] [-2]) = Some (2 ^ 103 + 1).
Proof. by vm_compute. Qed.
