(* ===== verification/BigIntLoad.v ===== *)
(** * Integers read from bits: [import_bits_any] of [crypto/common/bigint.hpp]

    A string of bits in memory becomes a number, in bytes from the last to the first; bytes that
    only repeat the sign are skipped. *)
From S2P Require Import Prelude BitMem BigInt BigIntOps BigIntShift BigIntBits.

(** [while (ptr > buff)], with [n] bytes left; [None] is a number too long for the capacity. *)
Fixpoint import_loop (max : nat) (m : list Z) (b n : nat) (k v : Z) (acc : digits) : option (Z * Z * digits) :=
  match n with
  | O => Some (k, v, acc)
  | S n' =>
      let byte := byte_at m (b + n') in
      if (word_shift <=? k) && (length acc + 1 <? max)%nat then
        let k := k - word_shift in import_loop max m b n' (k + 8) (s64 (Z.shiftl byte k)) (acc ++ [v])
      else if (word_shift <=? k) && (word_bits - 8 <=? k) then None
      else import_loop max m b n' (k + 8) (Z.lor v (s64 (Z.shiftl byte k))) acc
  end.

(** How many of the next [n] bytes only repeat the sign. *)
Fixpoint skip_same (m : list Z) (b n : nat) (s : Z) : nat :=
  match n with O => O | S n' => if byte_at m b =? s then S (skip_same m (S b) n' s) else O end.

(** For no bits the code shifts a word that is 0 by 64, which C++ leaves undefined; the value is
    taken to be 0, which a processor gives for any count. *)
Definition import_bits_any (max : nat) (m : list Z) (offs bits : Z) (sgnd : bool) : digits :=
  if bits <? word_shift then
    let val := bits_load_long_top 0 m offs bits in
    [if sgnd then Z.shiftr (s64 val) (64 - bits) else Z.shiftr val (64 - bits)]
  else
    let b := Z.to_nat (Z.shiftr offs 3) in
    let offs := Z.land offs 7 in
    let s := if sgnd && negb (Z.land (byte_at m b) (Z.shiftr 0x80 offs) =? 0) then 0xff else 0 in
    let end_offs := offs + bits in
    let p := Z.to_nat (Z.shiftr end_offs 3) in
    let skips := (0 <? p)%nat && (Z.land (Z.lxor (byte_at m b) s) (Z.shiftr 0xff offs) =? 0) in
    let j := if skips then S (skip_same m (S b) (p - 1) s) else O in
    let offs := if skips then 0 else offs in
    let k := Z.land end_offs 7 in
    let v := if k =? 0 then 0 else Z.shiftr (byte_at m (b + p)) (8 - k) in
    match import_loop max m (b + j) (p - j) k v [] with
    | Some (k, v, acc) =>
        let k := k - offs in
        let pw := s64 (Z.shiftl 1 k) in
        let v := Z.land v (pw - 1) in
        normalize_bool_any max (acc ++ [if negb (s =? 0) then s64 (v - pw) else v])
    | None => NaN
    end.


(** ** The loop *)

(** The bytes [b .. b + n) as a number. *)
Definition seg (m : list Z) (b n : nat) : Z := bits_value (mem_bits (take n (drop b m))).

Lemma seg_S m b n : bytes m -> (b + n < length m)%nat -> seg m b (S n) = byte_at m b * 2 ^ (8 * Z.of_nat n) + seg m (S b) n.
Proof.
  intros Hm H. destruct (lookup_lt_is_Some_2 m b ltac:(lia)) as [x Ex]. unfold seg, byte_at. rewrite Ex, (drop_S m x b Ex). cbn [take mem_bits flat_map default from_option id].
  change (flat_map (bits_of 8) (take n (drop (S b) m))) with (mem_bits (take n (drop (S b) m))). rewrite bits_value_app, bits_value_of, length_mem_bits, length_take, length_drop.
  pose proof (Forall_lookup_1 _ _ _ _ Hm Ex) as Hx. unfold is_byte in Hx. rewrite Z.mod_small by (cbn; lia). do 3 f_equal. lia.
Qed.
Lemma seg_last m b n : bytes m -> (b + n < length m)%nat -> seg m b (S n) = seg m b n * 256 + byte_at m (b + n).
Proof.
  intros Hm H. destruct (lookup_lt_is_Some_2 m (b + n) ltac:(lia)) as [x Ex]. unfold seg, byte_at. rewrite Ex.
  rewrite (take_S_r _ n x) by (by rewrite lookup_drop). rewrite mem_bits_app, bits_value_app. cbn [mem_bits flat_map default from_option id]. rewrite app_nil_r, bits_value_of, length_bits_of.
  pose proof (Forall_lookup_1 _ _ _ _ Hm Ex) as Hx. unfold is_byte in Hx. rewrite Z.mod_small by (cbn; lia). done.
Qed.
Lemma seg_range m b n : (b + n <= length m)%nat -> 0 <= seg m b n < 2 ^ (8 * Z.of_nat n).
Proof. intros H. pose proof (bits_value_range (mem_bits (take n (drop b m)))) as R. rewrite length_mem_bits, length_take, length_drop in R.
  unfold seg. replace (8 * Z.of_nat n) with (Z.of_nat (8 * (n `min` (length m - b)))) by lia. exact R. Qed.

(** What has been read: a number of [52 * length acc + k] bits. *)
Definition total (k v : Z) (acc : digits) : Z := value acc + Base ^ Z.of_nat (length acc) * v.
Definition position (k : Z) (acc : digits) : Z := 52 * Z.of_nat (length acc) + k.
Definition reading (k v : Z) (acc : digits) : Prop := 0 <= k < 60 /\ 0 <= v < 2 ^ k /\ (length acc <= 4)%nat /\ Forall (bounded (2 ^ 60)) acc.

(** One byte. *)
Definition read_byte (max : nat) (byte k v : Z) (acc : digits) : option (Z * Z * digits) :=
  if (word_shift <=? k) && (length acc + 1 <? max)%nat then let k := k - word_shift in Some (k + 8, s64 (Z.shiftl byte k), acc ++ [v])
  else if (word_shift <=? k) && (word_bits - 8 <=? k) then None
  else Some (k + 8, Z.lor v (s64 (Z.shiftl byte k)), acc).
Lemma import_loop_S max m b n k v acc :
  import_loop max m b (S n) k v acc = '(k, v, acc) ← read_byte max (byte_at m (b + n)) k v acc; import_loop max m b n k v acc.
Proof. cbn [import_loop]. unfold read_byte. destruct (_ && (_ <? _)%nat); [done|]. by destruct (_ && _). Qed.

Lemma read_byte_spec byte k v acc : is_byte byte -> reading k v acc -> position k acc <= 256 ->
  exists k' v' acc', read_byte 5 byte k v acc = Some (k', v', acc') /\ reading k' v' acc' /\ position k' acc' = position k acc + 8
    /\ total k' v' acc' = total k v acc + byte * 2 ^ position k acc.
Proof.
  intros Hb (Hk & Hv & Hl & Ha) Hp. unfold is_byte in Hb. unfold read_byte, total, position, word_shift, word_bits in *.
  assert (Base ^ Z.of_nat (length acc) * 2 ^ k = 2 ^ (52 * Z.of_nat (length acc) + k)) as E.
  { unfold Base. rewrite <- Z.pow_mul_r, <- Z.pow_add_r by lia. done. }
  destruct (Z.leb_spec 52 k) as [H52|H52].
  - assert ((length acc + 1 <? 5)%nat = true) as -> by (apply Nat.ltb_lt; lia). cbn [andb].
    assert (0 < 2 ^ (k - 52) <= 2 ^ 7) as H7 by (split; [apply Z.pow_pos_nonneg; lia|apply Z.pow_le_mono_r; lia]).
    change (2 ^ 7) with 128 in H7. assert (0 <= byte * 2 ^ (k - 52) <= 255 * 128) as Hx by nia.
    rewrite Z.shiftl_mul_pow2 by lia. rewrite s64_small by lia. do 3 eexists. split; [done|]. rewrite length_app. cbn [length]. split; [|split; [lia|]].
    + split; [lia|]. split; [|split; [rewrite length_app; cbn [length]; lia|]].
      * replace (k - 52 + 8) with (8 + (k - 52)) by lia. rewrite Z.pow_add_r by lia. nia.
      * apply Forall_app. split; [done|]. apply Forall_cons_2; [|apply Forall_nil_2]. unfold bounded.
        pose proof (Z.pow_le_mono_r 2 k 60 ltac:(lia) ltac:(lia)). lia.
    + rewrite value_snoc, Nat2Z.inj_add, Z.pow_add_r by lia. change (Base ^ Z.of_nat 1) with (2 ^ 52). rewrite <- E.
      assert (2 ^ k = 2 ^ 52 * 2 ^ (k - 52)) as -> by (rewrite <- Z.pow_add_r by lia; f_equal; lia). ring.
  - cbn [andb]. assert (0 < 2 ^ k <= 2 ^ 51) as H7 by (split; [apply Z.pow_pos_nonneg; lia|apply Z.pow_le_mono_r; lia]).
    change (2 ^ 51) with 2251799813685248 in H7. assert (0 <= byte * 2 ^ k <= 255 * 2251799813685248) as Hx by nia.
    rewrite Z.shiftl_mul_pow2 by lia. rewrite s64_small by lia. rewrite Z.lor_comm, lor_disjoint by lia. do 3 eexists. split; [done|]. split; [|split; [lia|]].
    + split; [lia|]. split; [|done]. rewrite Z.pow_add_r by lia. nia.
    + rewrite <- E. ring.
Qed.

Lemma import_loop_spec m b n k v acc : bytes m -> (b + n <= length m)%nat -> reading k v acc -> position k acc + 8 * Z.of_nat n <= 264 ->
  exists k' v' acc', import_loop 5 m b n k v acc = Some (k', v', acc') /\ reading k' v' acc' /\ position k' acc' = position k acc + 8 * Z.of_nat n
    /\ total k' v' acc' = total k v acc + seg m b n * 2 ^ position k acc.
Proof.
  intros Hm. revert k v acc. induction n as [|n IH]; intros k v acc Hn Hr Hp.
  - exists k, v, acc. split; [done|]. split; [done|]. split; [lia|]. unfold seg. rewrite take_0. change (bits_value (mem_bits [])) with 0. lia.
  - rewrite import_loop_S. destruct (read_byte_spec (byte_at m (b + n)) k v acc (byte_at_ok m _ Hm) Hr ltac:(lia)) as (k1 & v1 & acc1 & -> & Hr1 & Hp1 & Ht1).
    cbn [mbind option_bind]. destruct (IH k1 v1 acc1 ltac:(lia) Hr1 ltac:(lia)) as (k2 & v2 & acc2 & E & Hr2 & Hp2 & Ht2).
    exists k2, v2, acc2. split; [done|]. split; [done|]. split; [lia|]. rewrite Ht2, Ht1, Hp1, seg_last by (done || lia).
    rewrite (Z.pow_add_r 2 (position k acc) 8) by (unfold position; destruct Hr as [? _]; lia). ring.
Qed.

(** The first byte is read last. *)
Lemma import_loop_first max m b n k v acc :
  import_loop max m b (S n) k v acc = '(k, v, acc) ← import_loop max m (S b) n k v acc; read_byte max (byte_at m b) k v acc.
Proof.
  revert k v acc. induction n as [|n IH]; intros k v acc.
  - rewrite import_loop_S, Nat.add_0_r. cbn [import_loop mbind option_bind]. by destruct (read_byte _ _ _ _ _) as [[[? ?] ?]|].
  - rewrite import_loop_S, import_loop_S. replace (S b + n)%nat with (b + S n)%nat by lia. destruct (read_byte _ (byte_at m (b + S n)) k v acc) as [[[k1 v1] acc1]|]; [|done].
    cbn [mbind option_bind]. apply IH.
Qed.

(** ** The string of bits *)

(** The value of a string, with the first bit as the sign if there is one. *)
Definition int_value (sgnd : bool) (l : list bool) : Z := bits_value l - (if sgnd && default false (head l) then 2 ^ Z.of_nat (length l) else 0).

(** The byte that was read last is on top. *)
Lemma read_byte_top byte k v acc k' v' acc' : is_byte byte -> reading k v acc -> position k acc <= 256 ->
  read_byte 5 byte k v acc = Some (k', v', acc') ->
  exists j u, k' = j + 8 /\ 0 <= j /\ 0 <= u < 2 ^ j /\ v' = u + byte * 2 ^ j /\ position j acc' = position k acc.
Proof.
  intros Hb (Hk & Hv & Hl & Ha) Hp. unfold is_byte in Hb. unfold read_byte, position, word_shift, word_bits in *.
  destruct (Z.leb_spec 52 k) as [H52|H52].
  - assert ((length acc + 1 <? 5)%nat = true) as -> by (apply Nat.ltb_lt; lia). cbn [andb]. intros [= <- <- <-].
    assert (0 < 2 ^ (k - 52) <= 2 ^ 7) as H7 by (split; [apply Z.pow_pos_nonneg; lia|apply Z.pow_le_mono_r; lia]).
    change (2 ^ 7) with 128 in H7. assert (0 <= byte * 2 ^ (k - 52) <= 255 * 128) as Hx by nia.
    rewrite Z.shiftl_mul_pow2 by lia. rewrite s64_small by lia. exists (k - 52), 0. rewrite length_app. cbn [length]. repeat split; lia.
  - cbn [andb]. intros [= <- <- <-]. assert (0 < 2 ^ k <= 2 ^ 51) as H7 by (split; [apply Z.pow_pos_nonneg; lia|apply Z.pow_le_mono_r; lia]).
    change (2 ^ 51) with 2251799813685248 in H7. assert (0 <= byte * 2 ^ k <= 255 * 2251799813685248) as Hx by nia.
    rewrite Z.shiftl_mul_pow2 by lia. rewrite s64_small by lia. rewrite Z.lor_comm, lor_disjoint by lia. exists k, v. repeat split; lia.
Qed.

Lemma byte_cut u byte j o : 0 <= j -> 0 <= o < 8 -> 0 <= u < 2 ^ j -> (u + byte * 2 ^ j) mod 2 ^ (j + 8 - o) = u + (byte mod 2 ^ (8 - o)) * 2 ^ j.
Proof.
  intros Hj Ho Hu. assert (2 ^ (j + 8 - o) = 2 ^ (8 - o) * 2 ^ j) as E by (rewrite <- Z.pow_add_r by lia; f_equal; lia).
  assert (0 < 2 ^ (8 - o)) as Hp by (apply Z.pow_pos_nonneg; lia). pose proof (Z.mod_pos_bound byte (2 ^ (8 - o)) Hp).
  symmetry. apply (Z.mod_unique _ _ (byte / 2 ^ (8 - o))); [left; nia|]. rewrite E. pose proof (Z.div_mod byte (2 ^ (8 - o)) ltac:(lia)) as D. rewrite D at 1. ring.
Qed.

(** The mask after the loop cuts the bits before the string off. *)
Lemma masked_total m b n o k0 v0 : bytes m -> (b + n <= length m)%nat -> 0 <= o < 8 -> (n = O -> o = 0) -> reading k0 v0 [] -> k0 + 8 * Z.of_nat n <= 264 ->
  exists k v acc, import_loop 5 m b n k0 v0 [] = Some (k, v, acc) /\ reading (k - o) (v mod 2 ^ (k - o)) acc /\ 0 <= k - o
    /\ position (k - o) acc = k0 + 8 * Z.of_nat n - o
    /\ total (k - o) (v mod 2 ^ (k - o)) acc = v0 + (seg m b n mod 2 ^ (8 * Z.of_nat n - o)) * 2 ^ k0.
Proof.
  intros Hm Hb Ho Hz Hr Hp. destruct n as [|n].
  - rewrite (Hz eq_refl). cbn [import_loop]. exists k0, v0, []. split; [done|]. rewrite Z.sub_0_r. destruct Hr as (Hk & Hv & Hl & Ha).
    rewrite Z.mod_small by done. split; [done|]. split; [lia|]. split; [unfold position; cbn [length]; lia|]. unfold total, seg. cbn [value length take].
    change (bits_value (mem_bits [])) with 0. rewrite Z.mod_0_l by (apply Z.pow_nonzero; lia). change (Base ^ Z.of_nat 0) with 1. lia.
  - rewrite import_loop_first. destruct (import_loop_spec m (S b) n k0 v0 [] Hm ltac:(lia) Hr) as (k1 & v1 & acc1 & -> & Hr1 & Hp1 & Ht1).
    { unfold position. cbn [length]. lia. }
    cbn [mbind option_bind]. unfold position in Hp1 at 2. cbn [length] in Hp1.
    pose proof (byte_at_ok m b Hm) as HB. set (B := byte_at m b) in *.
    destruct (read_byte_spec B k1 v1 acc1 HB Hr1 ltac:(lia)) as (k & v & acc & E & (Hk & Hv & Hl & Ha) & Hps & Htt). rewrite E.
    destruct (read_byte_top B k1 v1 acc1 k v acc HB Hr1 ltac:(lia) E) as (j & u & -> & Hj & Hu & -> & Hpj).
    exists (j + 8), (u + B * 2 ^ j), acc. split; [done|]. pose proof (byte_cut u B j o Hj Ho Hu) as C.
    pose proof (Z.mod_pos_bound (u + B * 2 ^ j) (2 ^ (j + 8 - o)) ltac:(apply Z.pow_pos_nonneg; lia)).
    split; [split; [lia|]; done|]. split; [lia|]. unfold position in *. cbn [length] in *. split; [lia|].
    unfold total in *. cbn [value length] in *. rewrite C.
    assert (Base ^ Z.of_nat (length acc) * 2 ^ j = 2 ^ (k0 + 8 * Z.of_nat n)) as EB.
    { unfold Base. rewrite <- Z.pow_mul_r, <- Z.pow_add_r by lia. f_equal. lia. }
    rewrite seg_S by (done || lia). fold B. rewrite Z.add_comm with (n := B * _).
    replace (8 * Z.of_nat (S n) - o) with (8 * Z.of_nat n + 8 - o) by lia. rewrite byte_cut by (try apply seg_range; lia).
    rewrite Hp1 in Htt. replace (52 * Z.of_nat 0 + k0 + 8 * Z.of_nat n) with (k0 + 8 * Z.of_nat n) in Htt by lia. rewrite <- EB in Htt.
    replace (52 * Z.of_nat 0 + k0) with k0 in Ht1 by lia. change (Base ^ Z.of_nat 0) with 1 in Ht1.
    replace ((seg m (S b) n + B mod 2 ^ (8 - o) * 2 ^ (8 * Z.of_nat n)) * 2 ^ k0)
      with (seg m (S b) n * 2 ^ k0 + B mod 2 ^ (8 - o) * (Base ^ Z.of_nat (length acc) * 2 ^ j)).
    2:{ rewrite EB, Z.pow_add_r by (destruct Hr; lia). ring. }
    replace (Base ^ Z.of_nat (length acc) * (u + B mod 2 ^ (8 - o) * 2 ^ j)) with
      (Base ^ Z.of_nat (length acc) * (u + B * 2 ^ j) - B * (Base ^ Z.of_nat (length acc) * 2 ^ j) + B mod 2 ^ (8 - o) * (Base ^ Z.of_nat (length acc) * 2 ^ j)) by ring.
    lia.
Qed.

(** ** Skipped bytes *)

Definition sign_bit (s : Z) : Z := if s =? 0 then 0 else 1.

Lemma skip_same_spec m b n s : bytes m -> (b + n <= length m)%nat -> s = 0 \/ s = 255 -> let j := skip_same m b n s in (j <= n)%nat /\
  seg m b n - sign_bit s * 2 ^ (8 * Z.of_nat n) = seg m (b + j) (n - j) - sign_bit s * 2 ^ (8 * Z.of_nat (n - j)).
Proof.
  intros Hm Hb Hs. revert b Hb. induction n as [|n IH]; intros b Hb; cbn [skip_same]; [split; [lia|by rewrite Nat.add_0_r]|].
  destruct (Z.eqb_spec (byte_at m b) s) as [E|E]; [|cbn; rewrite Nat.add_0_r; split; [lia|done]].
  destruct (IH (S b) ltac:(lia)) as [Hj IHv]. split; [cbn; lia|]. cbn zeta. replace (b + S (skip_same m (S b) n s))%nat with (S b + skip_same m (S b) n s)%nat by lia.
  rewrite Nat.sub_succ, <- IHv, seg_S by (done || lia). rewrite E. rewrite Nat2Z.inj_succ. replace (8 * Z.succ (Z.of_nat n)) with (8 + 8 * Z.of_nat n) by lia.
  rewrite Z.pow_add_r by lia. destruct Hs as [-> | ->]; cbn [sign_bit Z.eqb]; lia.
Qed.

(** The bytes that start the string, without the bits before it. *)
Lemma skipped m b p o s : bytes m -> (b + p <= length m)%nat -> (0 < p)%nat -> 0 <= o < 8 -> s = 0 \/ s = 255 ->
  Z.land (Z.lxor (byte_at m b) s) (Z.shiftr 0xff o) = 0 -> let j := S (skip_same m (S b) (p - 1) s) in (j <= p)%nat /\
  seg m b p mod 2 ^ (8 * Z.of_nat p - o) - sign_bit s * 2 ^ (8 * Z.of_nat p - o) = seg m (b + j) (p - j) - sign_bit s * 2 ^ (8 * Z.of_nat (p - j)).
Proof.
  intros Hm Hb Hp Ho Hs E. cbn zeta. destruct p as [|p]; [lia|]. rewrite Nat.sub_succ, Nat.sub_0_r.
  destruct (skip_same_spec m (S b) p s Hm ltac:(lia) Hs) as [Hj V]. split; [lia|]. rewrite Nat.sub_succ.
  replace (b + S (skip_same m (S b) p s))%nat with (S b + skip_same m (S b) p s)%nat by lia. rewrite <- V.
  assert (byte_at m b mod 2 ^ (8 - o) = s mod 2 ^ (8 - o)) as Em.
  { assert (Z.shiftr 255 o = Z.ones (8 - o)) as Eo by (revert o Ho E; apply (below_8 (fun o => _ -> _)); reflexivity). rewrite Eo, Z.land_ones in E by lia.
    apply Z.bits_inj'. intros i Hi. destruct (decide (i < 8 - o)) as [H|H]; [|by rewrite !Z.mod_pow2_bits_high by lia].
    rewrite !Z.mod_pow2_bits_low by lia. apply (f_equal (fun z => Z.testbit z i)) in E. rewrite Z.mod_pow2_bits_low, Z.lxor_spec, Z.bits_0 in E by lia.
    by destruct (Z.testbit (byte_at m b) i), (Z.testbit s i). }
  rewrite seg_S by (done || lia). rewrite Z.add_comm. replace (8 * Z.of_nat (S p) - o) with (8 * Z.of_nat p + 8 - o) by lia.
  rewrite byte_cut by (try apply seg_range; lia). rewrite Em. replace (8 * Z.of_nat p + 8 - o) with (8 - o + 8 * Z.of_nat p) by lia. rewrite Z.pow_add_r by lia.
  assert (s mod 2 ^ (8 - o) = sign_bit s * (2 ^ (8 - o) - 1)) as Es; [|rewrite Es; ring].
  destruct Hs as [-> | ->]; cbn [sign_bit Z.eqb]; [by rewrite Z.mod_0_l by (apply Z.pow_nonzero; lia)|]. rewrite Z.mul_1_l.
  revert o Ho E Em. apply (below_8 (fun o => _ -> _ -> _)); reflexivity.
Qed.

(** The string is the rest of its first bytes and the first bits of its last one. *)
Lemma string_parts m b o p k bits : bytes m -> 0 <= o < 8 -> 0 <= k < 8 -> o + bits = 8 * Z.of_nat p + k -> 8 <= bits -> 8 * Z.of_nat b + o + bits <= 8 * Z.of_nat (length m) ->
  let v := if k =? 0 then 0 else Z.shiftr (byte_at m (b + p)) (8 - k) in
  0 <= v < 2 ^ k /\ bits_value (take (Z.to_nat bits) (drop (8 * b + Z.to_nat o) (mem_bits m))) = v + seg m b p mod 2 ^ (8 * Z.of_nat p - o) * 2 ^ k.
Proof.
  intros Hm Ho Hk Hp Hb Hl v.
  assert (take (Z.to_nat bits) (drop (8 * b + Z.to_nat o) (mem_bits m)) =
    drop (Z.to_nat o) (mem_bits (take p (drop b m))) ++ take (Z.to_nat k) (drop (8 * (b + p)) (mem_bits m))) as ->.
  { rewrite mem_bits_take, mem_bits_drop. rewrite <- drop_drop. set (l := drop (8 * b) (mem_bits m)).
    assert (length l = 8 * length m - 8 * b)%nat by (unfold l; rewrite length_drop, length_mem_bits; lia).
    replace (drop (8 * (b + p)) (mem_bits m)) with (drop (8 * p) l) by (unfold l; rewrite drop_drop; f_equal; lia).
    rewrite <- (take_drop (8 * p) l) at 1. rewrite drop_app_le by (rewrite length_take; lia). rewrite take_app, length_drop, length_take.
    rewrite take_ge by (rewrite length_drop, length_take; lia). do 2 f_equal. lia. }
  rewrite bits_value_app. set (l2 := take (Z.to_nat k) _). set (sg := mem_bits (take p (drop b m))).
  assert (length sg = 8 * p)%nat as Lsg by (unfold sg; rewrite length_mem_bits, length_take, length_drop; lia).
  assert (bits_value (drop (Z.to_nat o) sg) = seg m b p mod 2 ^ (8 * Z.of_nat p - o)) as ->.
  { rewrite <- bits_value_drop, Lsg. unfold seg. fold sg. do 2 f_equal. lia. }
  assert (length l2 = Z.to_nat k) as L2 by (unfold l2; rewrite length_take, length_drop, length_mem_bits; lia).
  assert (bits_value l2 = v) as Ev.
  { unfold v, l2. destruct (Z.eqb_spec k 0) as [->|]; [done|]. replace (Z.to_nat k) with (Z.to_nat k `min` 8)%nat by lia. rewrite <- take_take, mem_byte by lia.
    pose proof (byte_at_ok m (b + p) Hm) as HB. unfold is_byte in HB. rewrite bits_of_part, bits_value_of, Z.shiftr_div_pow2 by lia.
    replace (Z.of_nat 8 - Z.of_nat (Z.to_nat k)) with (8 - k) by lia. apply Z.mod_small. replace (Z.of_nat (Z.to_nat k)) with k by lia.
    split; [apply Z.div_pos; [lia|apply Z.pow_pos_nonneg; lia]|]. apply Z.div_lt_upper_bound; [apply Z.pow_pos_nonneg; lia|]. rewrite <- Z.pow_add_r by lia.
    replace (8 - k + k) with 8 by lia. lia. }
  rewrite Ev, L2. replace (Z.of_nat (Z.to_nat k)) with k by lia. split; [|lia]. rewrite <- Ev. pose proof (bits_value_range l2) as R. rewrite L2 in R.
  by replace (Z.of_nat (Z.to_nat k)) with k in R by lia.
Qed.

(** ** What [import_bits_any] reads *)

Lemma int_value_range sgnd l : - 2 ^ Z.of_nat (length l) <= int_value sgnd l < 2 ^ Z.of_nat (length l).
Proof. unfold int_value. pose proof (bits_value_range l). destruct (sgnd && _); lia. Qed.

Lemma head_drop l p n : (0 < n)%nat -> default false (head (take n (drop p l))) = default false (l !! p).
Proof.
  intros Hn. destruct n as [|n]; [lia|]. destruct (l !! p) as [x|] eqn:E; [by rewrite (drop_S l x p E)|].
  rewrite drop_ge by (by apply lookup_ge_None_1). done.
Qed.

Lemma import_short m offs bits sgnd : bytes m -> 0 <= bits < 52 -> 0 <= offs -> offs + bits <= 8 * Z.of_nat (length m) ->
  let x := import_bits_any word_cnt m offs bits sgnd in wf word_cnt x /\ value x = int_value sgnd (take (Z.to_nat bits) (drop (Z.to_nat offs) (mem_bits m))).
Proof.
  intros Hm Hb Ho Hl. cbv zeta. unfold import_bits_any, word_shift. destruct (Z.ltb_spec bits 52); [|lia]. rewrite load_long_top_value by lia || done.
  set (str := take _ _). assert (length str = Z.to_nat bits) as Ls by (unfold str; rewrite length_take, length_drop, length_mem_bits; lia).
  pose proof (bits_value_range str) as R. rewrite Ls in R. replace (Z.of_nat (Z.to_nat bits)) with bits in R by lia.
  assert (0 < 2 ^ bits <= 2 ^ 51) as Hp by (split; [apply Z.pow_pos_nonneg; lia|apply Z.pow_le_mono_r; lia]).
  assert ((if sgnd then Z.shiftr (s64 (bits_value str * 2 ^ (64 - bits))) (64 - bits) else Z.shiftr (bits_value str * 2 ^ (64 - bits)) (64 - bits)) = int_value sgnd str) as ->.
  { assert (2 ^ 64 = 2 ^ bits * 2 ^ (64 - bits)) as E64 by (rewrite <- Z.pow_add_r by lia; f_equal; lia).
    assert (0 < 2 ^ (64 - bits)) as Hq by (apply Z.pow_pos_nonneg; lia). rewrite !Z.shiftr_div_pow2 by lia. unfold int_value.
    destruct sgnd; cbn [andb]; [|by rewrite Z.div_mul, Z.sub_0_r by lia]. destruct str as [|sign str'] eqn:Estr.
    { cbn [head default]. change (bits_value []) with 0. by rewrite Z.mul_0_l, s64_small, Z.div_0_l by lia. }
    rewrite Ls. replace (Z.of_nat (Z.to_nat bits)) with bits by lia. cbn [head default from_option id]. set (V := bits_value (sign :: str')) in *.
    assert (V = Z.b2z sign * 2 ^ (bits - 1) + bits_value str') as EV.
    { unfold V. change (sign :: str') with ([sign] ++ str'). rewrite bits_value_app. cbn [length] in Ls. replace (Z.of_nat (length str')) with (bits - 1) by lia. by destruct sign. }
    pose proof (bits_value_range str') as R'. cbn [length] in Ls. replace (Z.of_nat (length str')) with (bits - 1) in R' by lia.
    assert (2 ^ bits = 2 * 2 ^ (bits - 1)) as Eb by (rewrite <- Z.pow_succ_r by lia; f_equal; lia).
    assert (2 ^ 63 = 2 ^ (bits - 1) * 2 ^ (64 - bits)) as E63 by (rewrite <- Z.pow_add_r by lia; f_equal; lia).
    destruct sign; cbn [Z.b2z] in EV.
    - replace (V * 2 ^ (64 - bits)) with ((V - 2 ^ bits) * 2 ^ (64 - bits) + 1 * 2 ^ 64) by (rewrite E64; ring).
      rewrite wraps_add by lia. set (q := 2 ^ (64 - bits)) in *. set (h := 2 ^ (bits - 1)) in *. set (U := bits_value str') in *.
      assert (- (h * q) <= (V - 2 ^ bits) * q <= 0) by nia. rewrite s64_small by lia. by rewrite Z.div_mul by lia.
    - set (q := 2 ^ (64 - bits)) in *. set (h := 2 ^ (bits - 1)) in *. set (U := bits_value str') in *.
      assert (0 <= V * q <= h * q - q) by nia. rewrite s64_small by lia. rewrite Z.div_mul by lia. lia. }
  assert (in_range (int_value sgnd str)) as Hr.
  { change (2 ^ 51) with Half in Hp. unfold in_range, int_value. rewrite Ls. replace (Z.of_nat (Z.to_nat bits)) with bits by lia. destruct (sgnd && _); lia. }
  split; [|cbn [value]; lia]. split; [|unfold word_cnt; cbn [length]; lia]. split; [done|]. split; [by apply Forall_cons_2|by left].
Qed.

(** The last digit carries the sign. *)
Lemma import_finish s k v v1 acc : s = 0 \/ s = 255 -> v = v1 mod 2 ^ k -> reading k v acc ->
  - 2 ^ 257 <= total k v acc - sign_bit s * 2 ^ position k acc <= 2 ^ 257 ->
  let pw := s64 (Z.shiftl 1 k) in let w := Z.land v1 (pw - 1) in
  let x := normalize_bool_any 5 (acc ++ [if negb (s =? 0) then s64 (w - pw) else w]) in
  wf 5 x /\ value x = total k v acc - sign_bit s * 2 ^ position k acc.
Proof.
  intros Hs Ev1 (Hk & Hv & Hl & Ha) Hr. cbv zeta.
  assert (2 ^ k <= 2 ^ 59) as H59 by (apply Z.pow_le_mono_r; lia). assert (0 < 2 ^ k) as Hpos by (apply Z.pow_pos_nonneg; lia).
  rewrite Z.shiftl_mul_pow2, Z.mul_1_l by lia. rewrite (s64_small (2 ^ k)) by lia.
  assert (Z.land v1 (2 ^ k - 1) = v) as -> by (rewrite Ev1, <- mask_mod, Z.shiftl_mul_pow2, Z.mul_1_l by lia; done).
  set (d := if negb (s =? 0) then s64 (v - 2 ^ k) else v).
  assert (d = v - sign_bit s * 2 ^ k) as Ed.
  { unfold d. destruct Hs as [-> | ->]; cbn [sign_bit Z.eqb negb]; [lia|]. rewrite s64_small by lia. lia. }
  assert (value (acc ++ [d]) = total k v acc - sign_bit s * 2 ^ position k acc) as Ev.
  { rewrite value_snoc, Ed. unfold total, position, Base. rewrite <- Z.pow_mul_r by lia. rewrite Z.pow_add_r by lia. ring. }
  assert (Forall digit_ok (acc ++ [d])) as Hd.
  { apply Forall_app. split; [by apply bounded_digit_ok|]. apply Forall_singleton. unfold digit_ok.
    destruct Hs as [Es | Es]; rewrite Es in Ed; cbn [sign_bit Z.eqb] in Ed; lia. }
  pose proof (normalize_exact 5 (acc ++ [d]) _ ltac:(by destruct acc) ltac:(rewrite length_app; cbn [length]; lia) Hd Ev) as N.
  unfold exact_or_nan in N. rewrite decide_True in N; [exact N|].
  assert (lo 5 <= - 2 ^ 257) by done. assert (2 ^ 257 <= hi 5) by done. lia.
Qed.

Lemma import_long m offs bits sgnd : bytes m -> 52 <= bits <= 257 -> 0 <= offs -> offs + bits <= 8 * Z.of_nat (length m) ->
  let x := import_bits_any word_cnt m offs bits sgnd in wf word_cnt x /\ value x = int_value sgnd (take (Z.to_nat bits) (drop (Z.to_nat offs) (mem_bits m))).
Proof.
  intros Hm Hb Ho Hl. cbv zeta. unfold import_bits_any. destruct (Z.ltb_spec bits word_shift) as [H|_]; [unfold word_shift in H; lia|].
  destruct (offset_split offs Ho) as (Eo & Hr & Hq). set (o := Z.land offs 7) in *. set (b := Z.to_nat (Z.shiftr offs 3)) in *. rewrite Eo.
  assert (0 <= o + bits) as He by lia. destruct (offset_split (o + bits) He) as (Ee & Hk & Hq2). cbv zeta. set (k := Z.land (o + bits) 7) in *. set (p := Z.to_nat (Z.shiftr (o + bits) 3)) in *.
  assert (o + bits = 8 * Z.of_nat p + k) as Hpk by lia. assert (8 * Z.of_nat b + o + bits <= 8 * Z.of_nat (length m)) as Hbl by lia.
  destruct (string_parts m b o p k bits Hm Hr Hk Hpk ltac:(lia) Hbl) as [Hv Estr]. cbv zeta in Hv, Estr. set (v := if k =? 0 then 0 else _) in *.
  set (s := if sgnd && _ then 255 else 0). assert (s = 0 \/ s = 255) as Hs by (unfold s; destruct (sgnd && _); auto).
  set (str := take (Z.to_nat bits) _) in *.
  assert (int_value sgnd str = v + (seg m b p mod 2 ^ (8 * Z.of_nat p - o) - sign_bit s * 2 ^ (8 * Z.of_nat p - o)) * 2 ^ k) as Ei.
  { unfold int_value. rewrite Estr. unfold str at 1. rewrite head_drop, bit_at by lia. cbn [default from_option id].
    assert (length str = Z.to_nat bits) as -> by (unfold str; rewrite length_take, length_drop, length_mem_bits; lia).
    assert (sgnd && Z.testbit (byte_at m b) (7 - o) = negb (s =? 0)) as ->.
    { unfold s. pose proof (sign_test (byte_at m b) o 0 Hr (or_introl eq_refl)) as T. rewrite Z.lxor_0_r in T. rewrite T. by destruct sgnd, (Z.testbit (byte_at m b) (7 - o)). }
    assert (2 ^ Z.of_nat (Z.to_nat bits) = 2 ^ (8 * Z.of_nat p - o) * 2 ^ k) as -> by (rewrite <- Z.pow_add_r by lia; f_equal; lia).
    destruct Hs as [-> | ->]; cbn [sign_bit Z.eqb negb]; ring. }
  set (skips := (0 <? p)%nat && _).
  set (j := if skips then _ else 0%nat). set (o' := if skips then 0 else o).
  assert ((j <= p)%nat /\ 0 <= o' < 8 /\ ((p - j)%nat = O -> o' = 0) /\
    seg m b p mod 2 ^ (8 * Z.of_nat p - o) - sign_bit s * 2 ^ (8 * Z.of_nat p - o) =
    seg m (b + j) (p - j) mod 2 ^ (8 * Z.of_nat (p - j) - o') - sign_bit s * 2 ^ (8 * Z.of_nat (p - j) - o')) as (Hj & Ho' & Hz & Esk).
  { unfold j, o'. destruct skips eqn:Esk.
    - unfold skips in Esk. apply andb_true_iff in Esk as [Hp Esk%Z.eqb_eq]. apply Nat.ltb_lt in Hp.
      destruct (skipped m b p o s Hm ltac:(lia) Hp Hr Hs Esk) as [Hj Ej]. split; [done|]. split; [lia|]. split; [done|]. rewrite Ej, Z.sub_0_r.
      by rewrite Z.mod_small by (apply seg_range; lia).
    - split; [lia|]. split; [done|]. split; [lia|]. by rewrite Nat.add_0_r, Nat.sub_0_r. }
  change word_cnt with 5%nat.
  destruct (masked_total m (b + j) (p - j) o' k v Hm ltac:(lia) Ho' Hz) as (k1 & v1 & acc & -> & (Hk1 & Hv1 & Hl1 & Ha1) & Hk1' & Hp1 & Ht1).
  { split; [lia|]. split; [done|]. split; [cbn; lia|by apply Forall_nil]. }
  { lia. }
  assert (length str = Z.to_nat bits) as Ls by (unfold str; rewrite length_take, length_drop, length_mem_bits; lia).
  pose proof (int_value_range sgnd str) as Rg. rewrite Ls in Rg.
  assert (2 ^ Z.of_nat (Z.to_nat bits) <= 2 ^ 257) as B by (apply Z.pow_le_mono_r; lia).
  assert (2 ^ position (k1 - o') acc = 2 ^ (8 * Z.of_nat (p - j) - o') * 2 ^ k) as EB by (rewrite Hp1, <- Z.pow_add_r by lia; f_equal; lia).
  rewrite Esk, Z.mul_sub_distr_r, Z.add_sub_assoc, <- Ht1, <- Z.mul_assoc, <- EB in Ei. rewrite Ei in Rg |- *.
  assert (reading (k1 - o') (v1 mod 2 ^ (k1 - o')) acc) as Hrd by (split; [done|]; split; [done|]; by split).
  apply (import_finish s (k1 - o') (v1 mod 2 ^ (k1 - o')) v1 acc Hs eq_refl Hrd). revert Rg B. clear.
  generalize (2 ^ Z.of_nat (Z.to_nat bits)), (2 ^ 257), (total (k1 - o') (v1 mod 2 ^ (k1 - o')) acc - sign_bit s * 2 ^ position (k1 - o') acc). lia.
Qed.

(** The bits of a string of at most 257 bits, as a number: exact for every offset. *)
Lemma import_bits_value m offs bits sgnd : bytes m -> 0 <= bits <= 257 -> 0 <= offs -> offs + bits <= 8 * Z.of_nat (length m) ->
  let x := import_bits_any word_cnt m offs bits sgnd in
  wf word_cnt x /\ value x = int_value sgnd (take (Z.to_nat bits) (drop (Z.to_nat offs) (mem_bits m))).
Proof. intros Hm Hb Ho Hl. destruct (decide (bits < 52)); [apply import_short|apply import_long]; lia || done. Qed.

(** ** There and back *)

Lemma bits_of_head n v : head (bits_of (S n) v) = Some (Z.odd (v / 2 ^ Z.of_nat n)).
Proof. change (S n) with (1 + n)%nat. by rewrite bits_of_app. Qed.

(** A number that fits is the value of its bits. *)
Lemma int_value_of n v sgnd : fits_bits v (Z.of_nat n) sgnd -> int_value sgnd (bits_of n v) = v.
Proof.
  unfold fits_bits, int_value. rewrite bits_value_of, length_bits_of. destruct n as [|n].
  { intros E. change (Z.of_nat 0 =? 0) with true in E. cbn iota in E. rewrite E. by rewrite andb_false_r. }
  destruct (Z.eqb_spec (Z.of_nat (S n)) 0) as [E|_]; [lia|]. rewrite bits_of_head. cbn [default from_option id]. pose proof (pow2_pos n) as P. rewrite pow2_S.
  replace (Z.of_nat (S n) - 1) with (Z.of_nat n) by lia. destruct sgnd; cbn [andb]; intros H; [|rewrite Z.mod_small; lia].
  destruct (Z_lt_le_dec v 0) as [Hv|Hv].
  - assert (v / 2 ^ Z.of_nat n = -1) as -> by (symmetry; apply (Z.div_unique _ _ _ (v + 2 ^ Z.of_nat n)); lia). change (Z.odd (-1)) with true. cbn iota.
    assert (v mod (2 * 2 ^ Z.of_nat n) = v + 2 * 2 ^ Z.of_nat n) as -> by (symmetry; apply (Z.mod_unique _ _ (-1)); lia). lia.
  - rewrite Z.div_small by lia. change (Z.odd 0) with false. cbn iota. rewrite Z.mod_small; lia.
Qed.

Lemma written_here l o new l' : written l o new l' -> take (length new) (drop o l') = new.
Proof. intros [H ->]. rewrite drop_app_ge by (rewrite length_take; lia). rewrite length_take. replace (o - o `min` length l)%nat with 0%nat by lia. rewrite drop_0. by rewrite take_app_length. Qed.
Lemma written_elsewhere l o new l' i : written l o new l' -> (i < o \/ o + length new <= i)%nat -> l' !! i = l !! i.
Proof.
  intros [H ->] Hi. destruct Hi as [Hi|Hi].
  - rewrite lookup_app_l by (rewrite length_take; lia). by rewrite lookup_take_lt by lia.
  - rewrite lookup_app_r by (rewrite length_take; lia). rewrite lookup_app_r by (rewrite length_take; lia). rewrite length_take, lookup_drop. f_equal. lia.
Qed.

(** C16. [export_bits_any] writes a 257-bit number into a string of bits exactly when it fits
    there as a signed or unsigned number, leaves every bit around the string as it was, and
    [import_bits_any] reads the very same digits back from it; any other number is refused. *)
Theorem bits_roundtrip m offs bits sgnd x : wf word_cnt x -> bytes m -> 0 <= bits <= 257 -> 0 <= offs ->
  offs + bits <= 8 * Z.of_nat (length m) ->
  match export_bits_any m offs bits sgnd x with
  | Some m' => fits_bits (value x) bits sgnd /\ import_bits_any word_cnt m' offs bits sgnd = x /\
      (forall i, Z.of_nat i < offs \/ offs + bits <= Z.of_nat i -> mem_bits m' !! i = mem_bits m !! i)
  | None => ~ fits_bits (value x) bits sgnd
  end.
Proof.
  intros [Hx Hlen] Hm Hb Ho Hl. pose proof (export_bits_stores m offs bits sgnd x Hx Hm ltac:(lia) Ho Hl) as E.
  destruct (export_bits_any m offs bits sgnd x) as [m'|]; [|done]. destruct E as (F & W & Hm' & Hlm). split; [done|]. split.
  - destruct (import_bits_value m' offs bits sgnd Hm' Hb Ho ltac:(lia)) as [[Hn _] V]. apply normal_unique; [done|done|]. rewrite V.
    apply written_here in W. rewrite length_bits_of in W. rewrite W. apply int_value_of. by rewrite Z2Nat.id by lia.
  - intros i Hi. apply (written_elsewhere _ _ _ _ _ W). rewrite length_bits_of. lia.
Qed.

(** A negative number of three digits in 131 bits behind the first five bits of a memory. *)
Lemma bits_roundtrip_witness : let m := replicate 20 0xa5 in let x := [-5; 7; -3] in
  exists m', export_bits_any m 5 131 true x = Some m' /\ import_bits_any word_cnt m' 5 131 true = x.
Proof.
  cbv zeta. assert (wf word_cnt [-5; 7; -3]) as Hx.
  { split; [|vm_compute; lia]. split; [done|]. split; [repeat constructor; unfold in_range, Half; lia|by right]. }
  pose proof (bits_roundtrip (replicate 20 0xa5) 5 131 true [-5; 7; -3] Hx) as R.
  destruct (export_bits_any (replicate 20 0xa5) 5 131 true [-5; 7; -3]) as [m'|] eqn:E; [|by vm_compute in E].
  exists m'. split; [done|]. apply R; [apply Forall_replicate; unfold is_byte; lia|lia|lia|vm_compute; done].
Defined.
