(* ===== verification/BigIntBytes.v ===== *)
(** * Integers as bytes: [export_bytes_any], [import_bytes_any] and their [lsb] variants
    ([crypto/common/bigint.hpp])

    The bytes of a number from the highest or from the lowest on, as the cell instructions for
    little-endian integers need them. *)
From S2P Require Import Prelude BitMem BigInt BigIntOps BigIntShift BigIntBits BigIntLoad.

(** ** Writing *)

(** The next byte, from the lowest on; behind the buffer, only the sign may follow.  The byte
    written last comes first. *)
Definition emit (buff_size : nat) (s v : Z) (out : list Z) : option (list Z) :=
  if (length out <? buff_size)%nat then Some (u8 v :: out) else if u8 v =? s then Some out else None.

Definition export_bytes_common (buff_size : nat) (sgnd : bool) (x : digits) : option (list Z) :=
  if negb (is_valid x) then None
  else if (buff_size =? 0)%nat then (if sgn_un_any x =? 0 then Some [] else None)
  else
    let s := if sgn_un_any x <? 0 then 0xff else 0 in
    if negb (s =? 0) && negb sgnd then None
    else
      r ← export_digits (emit buff_size s) 0 0 x [];
      r ← drain (emit buff_size s) (buff_size - length (snd r)) (fst r) (snd r);
      if fst r =? - Z.land s 1 then
        if negb sgnd || (Z.land (Z.lxor (byte_at (snd r) 0) s) 0x80 =? 0) then Some (snd r) else None
      else None.

(** The buffer is filled from its end, or from its start. *)
Definition export_bytes_any (buff_size : nat) (sgnd : bool) (x : digits) : option (list Z) := export_bytes_common buff_size sgnd x.
Definition export_bytes_lsb_any (buff_size : nat) (sgnd : bool) (x : digits) : option (list Z) :=
  option_map (@rev Z) (export_bytes_common buff_size sgnd x).

(** ** Reading *)

(** The bytes from the lowest on; [None] is a number too long for the capacity. *)
Fixpoint import_bytes_loop (max : nat) (l : list Z) (k v : Z) (acc : digits) : option (Z * Z * digits) :=
  match l with [] => Some (k, v, acc) | byte :: l' => '(k, v, acc) ← read_byte max byte k v acc; import_bytes_loop max l' k v acc end.

Fixpoint drop_same (s : Z) (l : list Z) : list Z :=
  match l with byte :: l' => if byte =? s then drop_same s l' else l | [] => [] end.

(** The bytes from the highest on. *)
Definition import_bytes_common (max : nat) (buff : list Z) (sgnd : bool) : digits :=
  if (length buff =? 0)%nat then [0]
  else
    let s := if sgnd && negb (Z.land (byte_at buff 0) 0x80 =? 0) then 0xff else 0 in
    match import_bytes_loop max (rev (drop_same s buff)) 0 0 [] with
    | Some (k, v, acc) => normalize_bool_any max (acc ++ [if negb (s =? 0) then s64 (v - s64 (Z.shiftl 1 k)) else v])
    | None => NaN
    end.
Definition import_bytes_any (max : nat) (buff : list Z) (sgnd : bool) : digits := import_bytes_common max buff sgnd.
Definition import_bytes_lsb_any (max : nat) (buff : list Z) (sgnd : bool) : digits := import_bytes_common max (rev buff) sgnd.

(** ** What is written *)

Section ExportBytes.
Context (size : nat) (s : Z).

Lemma emit_low v w out : v mod 256 = w mod 256 -> emit size s v out = emit size s w out.
Proof. intros E. unfold emit. assert (u8 v = u8 w) as -> by exact E. done. Qed.

Lemma drain_inside c W out : (length out + c <= size)%nat -> drain (emit size s) c W out = Some (W / 2 ^ (8 * Z.of_nat c), be_split c W ++ out).
Proof.
  revert W out. induction c as [|c IH]; intros W out Hc; cbn [drain be_split]; [by rewrite Z.div_1_r|].
  assert (emit size s W out = Some (u8 W :: out)) as -> by (unfold emit; by destruct (Nat.ltb_spec (length out) size); [|lia]). cbn [mbind option_bind].
  rewrite IH by (cbn [length]; lia). rewrite Z.shiftr_div_pow2 by lia. rewrite Z.div_div by (try apply Z.pow_pos_nonneg; lia).
  rewrite <- Z.pow_add_r by lia. rewrite <- app_assoc. repeat f_equal. lia.
Qed.

Context (Hs : s = 0 \/ s = 255).

Lemma drain_behind c W out : (size <= length out)%nat ->
  (r ← drain (emit size s) c W out; if fst r =? sign_word s then Some (snd r) else None) = if W =? sign_word s then Some out else None.
Proof.
  intros Ho. revert W. induction c as [|c IH]; intros W; [done|]. cbn [drain].
  assert (emit size s W out = if u8 W =? s then Some out else None) as -> by (unfold emit; by destruct (Nat.ltb_spec (length out) size); [lia|]).
  rewrite (sign_cases s Hs W). destruct (u8 W =? s); [|done]. cbn [mbind option_bind andb]. apply IH.
Qed.

(** The digits and the loop that fills the rest, with the test of what is left. *)
Lemma export_bytes_stream x : Forall in_range x ->
  (r ← export_digits (emit size s) 0 0 x []; r ← drain (emit size s) (size - length (snd r)) (fst r) (snd r); if fst r =? sign_word s then Some (snd r) else None) =
    if value x / 2 ^ (8 * Z.of_nat size) =? sign_word s then Some (be_split size (value x)) else None.
Proof.
  intros Hx. rewrite (export_digits_stream _ emit_low) by (done || lia). replace (0 + 2 ^ 0 * value x) with (value x) by lia. set (J := Z.to_nat _).
  destruct (decide (J <= size)%nat) as [HJ|HJ].
  - rewrite drain_inside by (cbn [length]; lia). cbn [mbind option_bind fst snd]. rewrite app_nil_r, length_be_split.
    rewrite drain_inside by (rewrite length_be_split; lia). cbn [mbind option_bind fst snd].
    rewrite Z.div_div by (try apply Z.pow_pos_nonneg; lia). rewrite <- Z.pow_add_r by lia.
    replace (8 * Z.of_nat J + 8 * Z.of_nat (size - J)) with (8 * Z.of_nat size) by lia. destruct (_ =? _); [|done].
    assert (2 ^ (8 * Z.of_nat J) = 256 ^ Z.of_nat J) as -> by (by rewrite Z.pow_mul_r by lia). rewrite <- be_split_app. do 2 f_equal. lia.
  - replace J with (size + (J - size))%nat by lia. rewrite drain_app, drain_inside by (cbn [length]; lia). cbn [mbind option_bind fst snd]. rewrite app_nil_r.
    rewrite <- (drain_behind (J - size) _ (be_split size (value x))) by (rewrite length_be_split; lia).
    destruct (drain _ _ _ _) as [[w out]|] eqn:E; [|done]. cbn [mbind option_bind fst snd].
    assert (out = be_split size (value x)) as ->.
    { revert E. generalize (value x / 2 ^ (8 * Z.of_nat size)). clear -size. induction (J - size)%nat as [|c IH]; intros v E; [cbn in E; by injection E as _ E|].
      cbn [drain] in E.
      assert (emit size s v (be_split size (value x)) = if u8 v =? s then Some (be_split size (value x)) else None) as Em by (unfold emit; by rewrite length_be_split, Nat.ltb_irrefl).
      rewrite Em in E. destruct (u8 v =? s); [|done]. by apply IH in E. }
    by rewrite length_be_split, Nat.sub_diag.
Qed.
End ExportBytes.

(** The bytes of a number that fits, from the highest on; any other number is refused. *)
Lemma export_bytes_exact size sgnd x : normal x ->
  match export_bytes_common size sgnd x with
  | Some out => fits_bits (value x) (8 * Z.of_nat size) sgnd /\ out = be_split size (value x)
  | None => ~ fits_bits (value x) (8 * Z.of_nat size) sgnd
  end.
Proof.
  intros Hn. unfold export_bytes_common. assert (is_valid x = true) as -> by (destruct Hn as (H & _); by destruct x). cbn [negb].
  destruct (Nat.eqb_spec size 0) as [->|Hsz].
  { rewrite (sgn_un_normal x Hn). unfold fits_bits. change (8 * Z.of_nat 0 =? 0) with true. cbv iota. destruct (Z.eqb_spec (Z.sgn (value x)) 0); [|lia]. split; [lia|done]. }
  rewrite (sgn_un_normal x Hn). set (s := if Z.sgn (value x) <? 0 then 255 else 0).
  assert (s = 0 \/ s = 255) as Hs by (unfold s; destruct (_ <? 0); auto).
  assert ((s =? 255) = (value x <? 0) /\ (s =? 0) = negb (value x <? 0)) as [Es Es0] by (unfold s; destruct (Z.ltb_spec (Z.sgn (value x)) 0), (Z.ltb_spec (value x) 0); (split; (done || lia))).
  assert (sign_word s = if value x <? 0 then -1 else 0) as Ew by (unfold sign_word; rewrite <- Es; by destruct Hs as [-> | ->]).
  pose proof (fits_top (value x) (8 * Z.of_nat size) sgnd ltac:(lia)) as F. cbv zeta in F. rewrite <- Ew in F. rewrite Es0, negb_involutive.
  destruct ((value x <? 0) && negb sgnd) eqn:C.
  { rewrite F. destruct sgnd; [by rewrite andb_false_r in C|]. intros [_ H]. lia. }
  pose proof (export_bytes_stream size s Hs x ltac:(by destruct Hn as (_ & H & _))) as St. fold (sign_word s).
  destruct (export_digits _ 0 0 x []) as [r|]; cbn [mbind option_bind] in *.
  2:{ destruct (Z.eqb_spec (value x / 2 ^ (8 * Z.of_nat size)) (sign_word s)); [done|]. rewrite F. intros [H _]. done. }
  destruct (drain _ _ _ _) as [[w out]|]; cbn [mbind option_bind fst snd] in *.
  2:{ destruct (Z.eqb_spec (value x / 2 ^ (8 * Z.of_nat size)) (sign_word s)); [done|]. rewrite F. intros [H _]. done. }
  destruct (w =? sign_word s).
  2:{ destruct (Z.eqb_spec (value x / 2 ^ (8 * Z.of_nat size)) (sign_word s)); [done|]. rewrite F. intros [H _]. done. }
  destruct (Z.eqb_spec (value x / 2 ^ (8 * Z.of_nat size)) (sign_word s)) as [E|]; [|done]. injection St as ->.
  change 0x80 with (Z.shiftr 0x80 0). rewrite sign_test, Es by (done || lia).
  assert (Z.testbit (byte_at (be_split size (value x)) 0) (7 - 0) = Z.testbit (value x) (8 * Z.of_nat size - 1)) as ->.
  { replace (8 * Z.of_nat size - 1) with (Z.of_nat (8 * size - 1)) by lia. apply (first_bit _ 0 0 _ _ (mem_bits (be_split size (value x)))); [rewrite length_be_split; lia|lia|].
    replace (S (8 * size - 1)) with (8 * size)%nat by lia. rewrite mem_be_split. split; rewrite length_bits_of; [lia|]. cbn [Nat.mul Z.to_nat Nat.add take app].
    rewrite drop_ge by (rewrite length_bits_of; lia). by rewrite app_nil_r. }
  destruct sgnd; cbn [negb orb].
  - destruct (Bool.eqb _ _) eqn:B; [apply eqb_prop in B; split; [by apply F|done]|]. apply eqb_false_iff in B. intros H. by apply F in H as [_ H].
  - rewrite andb_true_r in C. split; [apply F; split; [done|lia]|done].
Qed.

(** ** What is read *)

Lemma import_bytes_loop_spec l k v acc : bytes l -> reading k v acc -> position k acc + 8 * Z.of_nat (length l) <= 264 ->
  exists k' v' acc', import_bytes_loop 5 l k v acc = Some (k', v', acc') /\ reading k' v' acc' /\ position k' acc' = position k acc + 8 * Z.of_nat (length l)
    /\ total k' v' acc' = total k v acc + be_combine (rev l) * 2 ^ position k acc.
Proof.
  intros Hl. revert k v acc. induction Hl as [|byte l Hb Hl IH]; intros k v acc Hr Hp; cbn [import_bytes_loop length rev] in *.
  - exists k, v, acc. split; [done|]. split; [done|]. split; [lia|]. change (be_combine []) with 0. lia.
  - destruct (read_byte_spec byte k v acc Hb Hr ltac:(lia)) as (k1 & v1 & acc1 & -> & Hr1 & Hp1 & Ht1). cbn [mbind option_bind].
    destruct (IH k1 v1 acc1 Hr1 ltac:(lia)) as (k2 & v2 & acc2 & E & Hr2 & Hp2 & Ht2). exists k2, v2, acc2. split; [done|]. split; [done|]. split; [lia|].
    rewrite Ht2, Ht1, Hp1, be_combine_snoc. rewrite (Z.pow_add_r 2 (position k acc) 8) by (unfold position; destruct Hr as [? _]; lia). ring.
Qed.

(** Bytes that only repeat the sign. *)
Lemma drop_same_spec s l : bytes l -> s = 0 \/ s = 255 -> (length (drop_same s l) <= length l)%nat /\ bytes (drop_same s l) /\
  be_combine l - sign_bit s * 2 ^ (8 * Z.of_nat (length l)) = be_combine (drop_same s l) - sign_bit s * 2 ^ (8 * Z.of_nat (length (drop_same s l))).
Proof.
  intros Hl Hs. induction Hl as [|byte l Hb Hl IH]; [done|]. cbn [drop_same]. destruct (Z.eqb_spec byte s) as [->|]; [|split; [lia|]; split; [by constructor|done]].
  destruct IH as (IL & IB & IV). cbn [length]. split; [lia|]. split; [done|]. rewrite <- IV. change (s :: l) with ([s] ++ l). rewrite be_combine_app.
  change (be_combine [s]) with (0 * 256 + s). rewrite pow2_8S. replace (256 ^ Z.of_nat (length l)) with (2 ^ (8 * Z.of_nat (length l))) by (by rewrite Z.pow_mul_r by lia).
  destruct Hs as [-> | ->]; cbn [sign_bit Z.eqb]; lia.
Qed.

Lemma wf_zero : wf word_cnt [0].
Proof. split; [|vm_compute; lia]. split; [done|]. split; [repeat constructor; unfold Half; lia|by left]. Qed.

(** The value of up to 32 bytes, the highest first. *)
Lemma import_bytes_value buff sgnd : bytes buff -> (length buff <= 32)%nat ->
  let x := import_bytes_common word_cnt buff sgnd in wf word_cnt x /\ value x = int_value sgnd (mem_bits buff).
Proof.
  intros Hm Hl. cbv zeta. unfold import_bytes_common. destruct buff as [|b0 buff'] eqn:Eb.
  { cbn [length Nat.eqb]. split; [apply wf_zero|]. unfold int_value. cbn. by destruct sgnd. }
  rewrite <- Eb in *. assert ((length buff =? 0)%nat = false) as -> by (by rewrite Eb). set (s := if sgnd && _ then 255 else 0).
  assert (s = 0 \/ s = 255) as Hs by (unfold s; destruct (sgnd && _); auto).
  destruct (drop_same_spec s buff Hm Hs) as (DL & DB & DV). set (l := drop_same s buff) in *. change word_cnt with 5%nat.
  destruct (import_bytes_loop_spec (rev l) 0 0 []) as (k & v & acc & -> & Hr & Hp & Ht).
  { by apply List.Forall_rev. }
  { split; [lia|]. split; [cbn; lia|]. split; [cbn; lia|by apply Forall_nil]. }
  { rewrite length_rev. unfold position. cbn [length]. lia. }
  rewrite rev_involutive, length_rev in *. unfold position in Hp at 2. change (total 0 0 []) with 0 in Ht. change (2 ^ position 0 []) with 1 in Ht. cbn [length] in Hp.
  assert (int_value sgnd (mem_bits buff) = total k v acc - sign_bit s * 2 ^ position k acc) as V.
  { rewrite Ht, Hp, Z.mul_1_r. replace (52 * Z.of_nat 0 + 0 + 8 * Z.of_nat (length l)) with (8 * Z.of_nat (length l)) by lia. rewrite Z.add_0_l, <- DV. unfold int_value. rewrite bits_value_mem, length_mem_bits by done.
    replace (Z.of_nat (8 * length buff)) with (8 * Z.of_nat (length buff)) by lia. f_equal.
    assert (head (mem_bits buff) = Some (Z.testbit (byte_at buff 0) 7)) as Hh by (pose proof (bit_at buff 0 0 ltac:(rewrite Eb; cbn; lia) ltac:(lia)) as B; change (7 - 0) with 7 in B; rewrite <- B; by destruct (mem_bits buff)).
    rewrite Hh. cbn [default from_option id]. pose proof (sign_test (byte_at buff 0) 0 0 ltac:(lia) (or_introl eq_refl)) as T.
    rewrite Z.lxor_0_r in T. change (Z.shiftr 0x80 0) with 0x80 in T. unfold s. rewrite T. change (7 - 0) with 7.
    destruct sgnd, (Z.testbit (byte_at buff 0) 7); cbn [andb Bool.eqb negb Z.eqb sign_bit]; lia. }
  rewrite V. pose proof Hr as (Hk & Hv & _).
  assert (s64 (Z.shiftl 1 k) = 2 ^ k) as Ek.
  { rewrite Z.shiftl_mul_pow2, Z.mul_1_l by lia. pose proof (Z.pow_le_mono_r 2 k 59 ltac:(lia) ltac:(lia)). pose proof (Z.pow_pos_nonneg 2 k). apply s64_small; lia. }
  pose proof (import_finish s k v v acc Hs ltac:(by rewrite Z.mod_small) Hr) as Fin. cbv zeta in Fin. rewrite Ek in *.
  assert (Z.land v (2 ^ k - 1) = v) as Ev by (rewrite <- (Z.mul_1_l (2 ^ k)), <- Z.shiftl_mul_pow2, mask_mod, Z.mod_small by lia; done). rewrite Ev in Fin. apply Fin.
  rewrite <- V. pose proof (int_value_range sgnd (mem_bits buff)) as R. rewrite length_mem_bits in R.
  pose proof (Z.pow_le_mono_r 2 (Z.of_nat (8 * length buff)) 257 ltac:(lia) ltac:(lia)). lia.
Qed.

(** ** There and back *)

Lemma import_split size sgnd x : wf word_cnt x -> (size <= 32)%nat -> fits_bits (value x) (8 * Z.of_nat size) sgnd ->
  import_bytes_common word_cnt (be_split size (value x)) sgnd = x.
Proof.
  intros [Hx Hlen] Hs F. destruct (import_bytes_value (be_split size (value x)) sgnd (be_split_bytes _ _) ltac:(by rewrite length_be_split)) as [[Hn _] V].
  apply normal_unique; [done|done|]. rewrite V, mem_be_split. apply int_value_of. by replace (Z.of_nat (8 * size)) with (8 * Z.of_nat size) by lia.
Qed.

(** C17. Up to 32 bytes in either order hold a 257-bit number exactly when it fits there as a
    signed or unsigned number: [export_bytes_any] and [export_bytes_lsb_any] write the same bytes in
    opposite orders, and [import_bytes_any] and [import_bytes_lsb_any] read the very same digits back;
    any other number is refused. *)
Theorem bytes_roundtrip size sgnd x : wf word_cnt x -> (size <= 32)%nat ->
  match export_bytes_any size sgnd x, export_bytes_lsb_any size sgnd x with
  | Some be, Some le => fits_bits (value x) (8 * Z.of_nat size) sgnd /\ length be = size /\ le = rev be /\
      import_bytes_any word_cnt be sgnd = x /\ import_bytes_lsb_any word_cnt le sgnd = x
  | None, None => ~ fits_bits (value x) (8 * Z.of_nat size) sgnd
  | _, _ => False
  end.
Proof.
  intros Hx Hs. unfold export_bytes_any, export_bytes_lsb_any, import_bytes_any, import_bytes_lsb_any.
  pose proof (export_bytes_exact size sgnd x (proj1 Hx)) as E. destruct (export_bytes_common size sgnd x) as [be|]; [|done].
  cbn [option_map]. destruct E as [F ->]. rewrite rev_involutive, length_be_split. do 3 (split; [done|]). by split; apply import_split.
Qed.

Lemma bytes_roundtrip_witness :
  export_bytes_lsb_any 8 true [-5; 7] = Some [0xfb; 0xff; 0xff; 0xff; 0xff; 0xff; 0x6f; 0x00] /\
  import_bytes_lsb_any word_cnt [0xfb; 0xff; 0xff; 0xff; 0xff; 0xff; 0x6f; 0x00] true = [-5; 7] /\
  export_bytes_lsb_any 4 true [-5; 7] = None.
Proof.
  assert (wf word_cnt [-5; 7]) as Hx by (split; [|vm_compute; lia]; split; [done|]; split; [repeat constructor; unfold in_range, Half; lia|by right]).
  pose proof (bytes_roundtrip 8 true [-5; 7] Hx ltac:(lia)) as R.
  assert (export_bytes_lsb_any 8 true [-5; 7] = Some [0xfb; 0xff; 0xff; 0xff; 0xff; 0xff; 0x6f; 0x00]) as E by reflexivity.
  rewrite E in R. destruct (export_bytes_any 8 true [-5; 7]); [|done]. split; [reflexivity|]. split; [apply R|reflexivity].
Defined.
