(* ===== verification/Stack.v ===== *)
(** * The machine's values and stack: [crypto/vm/stack.hpp], [stack.cpp], [excno.hpp]

    A stack is the list of its entries, the top one first, so that [stack[i]] is element [i]
    (the vector of the source holds them in the other order).  The referents of entries that
    this development does not open (cells, continuations and the entries of the Fift
    interpreter) are types of the class [RefTypes].  An instruction is a function of
    the machine's state whose outcome is a value and a new state, an exception, the end of
    the gas, or [Undefined] where the C++ code would access the vector out of its bounds. *)
From S2P Require Import Prelude BigInt RefInt.

(** ** Exceptions *)

Inductive Excno :=
| exc_none | alt | stk_und | stk_ov | int_ov | range_chk | inv_opcode | type_chk | cell_ov | cell_und | dict_err
| unknown | fatal | out_of_gas | virt_err.

Global Instance Excno_eq_dec : EqDecision Excno.
Proof. solve_decision. Defined.

Definition get_errno (e : Excno) : Z :=
  match e with
  | exc_none => 0 | alt => 1 | stk_und => 2 | stk_ov => 3 | int_ov => 4 | range_chk => 5 | inv_opcode => 6
  | type_chk => 7 | cell_ov => 8 | cell_und => 9 | dict_err => 10 | unknown => 11 | fatal => 12 | out_of_gas => 13
  | virt_err => 14
  end.

(** ** Stack entries *)

Inductive EntryType :=
| t_null | t_int | t_cell | t_builder | t_slice | t_vmcont | t_tuple | t_stack | t_string | t_bytes | t_bitstring
| t_box | t_atom | t_object.

Global Instance EntryType_eq_dec : EqDecision EntryType.
Proof. solve_decision. Defined.

Class RefTypes := { CellRef : Type; ContRef : Type; ObjRef : Type }.

(** What is left of a cell slice: its data bits and its references. *)
Record CellSlice `{RefTypes} := { cs_bits : list bool; cs_refs : list CellRef }.

(** A builder: the data bits and references that were stored. *)
Record CellBuilder `{RefTypes} := { cb_bits : list bool; cb_refs : list CellRef }.

(** How much a cell holds. *)
Definition max_bits : Z := 1023.
Definition max_refs : Z := 4.
Definition fits_cell {A} (bits : list bool) (refs : list A) : Prop := Z.of_nat (length bits) <= max_bits /\ Z.of_nat (length refs) <= max_refs.
Definition slice_ok `{RefTypes} (cs : CellSlice) : Prop := fits_cell (cs_bits cs) (cs_refs cs).
Definition builder_ok `{RefTypes} (cb : CellBuilder) : Prop := fits_cell (cb_bits cb) (cb_refs cb).

(** [se_obj] has the entries of the remaining types, with their tag. *)
Inductive StackEntry `{RefTypes} :=
| se_null
| se_int (x : digits)
| se_cell (c : CellRef)
| se_builder (b : CellBuilder)
| se_slice (c : CellSlice)
| se_cont (c : ContRef)
| se_tuple (t : list StackEntry)
| se_obj (tp : EntryType) (o : ObjRef).

(** ** The machine's state and the outcome of an instruction *)

Record GasLimits := { gas_max : Z; gas_limit : Z; gas_credit : Z; gas_remaining : Z; gas_base : Z }.

(** The control registers; a register may hold no reference. *)
Record ControlRegs `{RefTypes} :=
  { c0 : option ContRef; c1 : option ContRef; c2 : option ContRef; c3 : option ContRef;
    d0 : option CellRef; d1 : option CellRef; c7 : option (list StackEntry) }.

(** The machine: its stack, the slice of code that is left (absent once it is moved into a
    continuation), and the rest: the gas, the control registers, the codepage, the hashes of
    the cells that were loaded, the committed data and actions, and the count of steps. *)
Record VmCore `{RefTypes} :=
  { core_gas : GasLimits; cr : ControlRegs; cp : Z; loaded_cells : list Z; cstate : option (CellRef * CellRef); steps : Z }.
Record VmState `{RefTypes} := { stack : list StackEntry; code : option CellSlice; core : VmCore }.

Definition gas `{RefTypes} (st : VmState) : GasLimits := core_gas (core st).
Definition core_with_gas `{RefTypes} (g : GasLimits) (k : VmCore) : VmCore :=
  {| core_gas := g; cr := cr k; cp := cp k; loaded_cells := loaded_cells k; cstate := cstate k; steps := steps k |}.

(** An exception keeps the rest of the machine: the handler discards the stack and the code. *)
Inductive outcome `{RefTypes} (A : Type) := Done (a : A) | Throw (e : Excno) (k : VmCore) | NoGas (k : VmCore) | Undefined.
Arguments Done {_ A} a.
Arguments Throw {_ A} e k.
Arguments NoGas {_ A} k.
Arguments Undefined {_ A}.

Definition VM `{RefTypes} (A : Type) : Type := VmState -> outcome (A * VmState).

Global Instance vm_ret `{RefTypes} : MRet VM := fun A a st => Done (a, st).
Global Instance vm_bind `{RefTypes} : MBind VM := fun A B f m st =>
  match m st with Done (a, st') => f a st' | Throw e k => Throw e k | NoGas k => NoGas k | Undefined => Undefined end.

Definition throw `{RefTypes} {A} (e : Excno) : VM A := fun st => Throw e (core st).
Definition undefined `{RefTypes} {A} : VM A := fun _ => Undefined.
Definition guard_vm `{RefTypes} (b : bool) (e : Excno) : VM unit := if b then mret tt else throw e.
Definition get_stack `{RefTypes} : VM (list StackEntry) := fun st => Done (stack st, st).
Definition set_stack `{RefTypes} (s : list StackEntry) : VM unit := fun st => Done (tt, {| stack := s; code := code st; core := core st |}).

(** Unfolds the monad. *)
Ltac vm_run := unfold mbind, vm_bind, mret, vm_ret, get_stack, set_stack; cbn beta iota.

Section Stack.
Context `{RT : RefTypes}.

(** ** Entries *)

Definition type (se : StackEntry) : EntryType :=
  match se with
  | se_null => t_null | se_int _ => t_int | se_cell _ => t_cell | se_builder _ => t_builder | se_slice _ => t_slice
  | se_cont _ => t_vmcont | se_tuple _ => t_tuple | se_obj tp _ => tp
  end.

Definition empty (se : StackEntry) : bool := bool_decide (type se = t_null).
Definition is_tuple (se : StackEntry) : bool := bool_decide (type se = t_tuple).

Definition as_int (se : StackEntry) : option digits := match se with se_int x => Some x | _ => None end.
Definition as_cell (se : StackEntry) : option CellRef := match se with se_cell c => Some c | _ => None end.
Definition as_builder (se : StackEntry) : option CellBuilder := match se with se_builder b => Some b | _ => None end.
Definition as_slice (se : StackEntry) : option CellSlice := match se with se_slice c => Some c | _ => None end.
Definition as_cont (se : StackEntry) : option ContRef := match se with se_cont c => Some c | _ => None end.
Definition as_tuple (se : StackEntry) : option (list StackEntry) := match se with se_tuple t => Some t | _ => None end.

Definition as_tuple_range (max_len min_len : Z) (se : StackEntry) : option (list StackEntry) :=
  match as_tuple se with
  | Some t => if (Z.of_nat (length t) <=? max_len) && (min_len <=? Z.of_nat (length t)) then Some t else None
  | None => None
  end.

(** [StackEntry::make_list]: pairs ending in the empty entry. *)
Fixpoint make_list (elems : list StackEntry) : StackEntry :=
  match elems with [] => se_null | e :: elems' => se_tuple [e; make_list elems'] end.

(** [StackEntry::is_list]: the second component of a pair is the rest of the list. *)
Fixpoint is_list (se : StackEntry) : bool :=
  match se with
  | se_null => true
  | se_tuple [_; tl] => is_list tl
  | se_obj t_null _ => true
  | _ => false
  end.

(** ** Tuples *)

Definition tuple_index (tup : list StackEntry) (idx : Z) : VM StackEntry :=
  if Z.of_nat (length tup) <=? idx then throw range_chk
  else match tup !! Z.to_nat idx with Some e => mret e | None => undefined end.

Definition tuple_extend_index (tup : option (list StackEntry)) (idx : Z) : StackEntry :=
  match tup with
  | None => se_null
  | Some t => if Z.of_nat (length t) <=? idx then se_null else default se_null (t !! Z.to_nat idx)
  end.

(** The size to pay for, and the tuple. *)
Definition tuple_extend_set_index (tup : option (list StackEntry)) (idx : Z) (value : StackEntry) (force : bool)
    : Z * option (list StackEntry) :=
  let i := Z.to_nat idx in
  match tup with
  | None => if empty value && negb force then (0, None) else (idx + 1, Some (<[i := value]> (replicate (S i) se_null)))
  | Some t =>
      if Z.of_nat (length t) <=? idx then
        if empty value && negb force then (0, Some t)
        else (idx + 1, Some (<[i := value]> (t ++ replicate (S i - length t) se_null)))
      else (Z.of_nat (length t), Some (<[i := value]> t))
  end.

(** ** Gas *)

Definition tuple_entry_gas_price : Z := 1.
Definition stack_entry_gas_price : Z := 1.
Definition free_stack_depth : Z := 32.

Definition with_remaining (g : GasLimits) (r : Z) : GasLimits :=
  {| gas_max := gas_max g; gas_limit := gas_limit g; gas_credit := gas_credit g; gas_remaining := r; gas_base := gas_base g |}.

Definition gas_consumed (g : GasLimits) : Z := s64 (gas_base g - gas_remaining g).
Definition change_base (base : Z) (g : GasLimits) : GasLimits :=
  {| gas_max := gas_max g; gas_limit := gas_limit g; gas_credit := gas_credit g;
     gas_remaining := s64 (gas_remaining g + s64 (base - gas_base g)); gas_base := base |}.
Definition set_limits (max limit credit : Z) (g : GasLimits) : GasLimits :=
  change_base (s64 (limit + credit))
    {| gas_max := max; gas_limit := limit; gas_credit := credit; gas_remaining := gas_remaining g; gas_base := gas_base g |}.
Definition change_limit (limit : Z) (g : GasLimits) : GasLimits :=
  let limit := Z.min (Z.max limit 0) (gas_max g) in
  change_base limit
    {| gas_max := gas_max g; gas_limit := limit; gas_credit := 0; gas_remaining := gas_remaining g; gas_base := gas_base g |}.
Definition consume (amount : Z) (g : GasLimits) : GasLimits := with_remaining g (s64 (gas_remaining g - amount)).
Definition final_ok (g : GasLimits) : bool := gas_credit g <=? gas_remaining g.

(** Instructions only subtract their gas; the run loop checks the rest after each of them. *)
Definition consume_gas (amount : Z) : VM unit := fun st => Done (tt, {| stack := stack st; code := code st; core := core_with_gas (consume amount (gas st)) (core st) |}).
Definition gas_check : VM unit := fun st => if 0 <=? gas_remaining (gas st) then Done (tt, st) else NoGas (core st).
Definition consume_chk (amount : Z) : VM unit := _ ← consume_gas amount; gas_check.

(** Both amounts are computed with [unsigned] numbers. *)
Definition consume_tuple_gas (tuple_len : Z) : VM unit := consume_gas (u32 (tuple_len * tuple_entry_gas_price)).
Definition consume_stack_gas (stack_depth : Z) : VM unit :=
  consume_gas (u32 ((Z.max (u32 stack_depth) free_stack_depth - free_stack_depth) * stack_entry_gas_price)).

(** ** Stack operations *)

Definition depth (s : list StackEntry) : Z := Z.of_nat (length s).
Definition at_least (req : Z) (s : list StackEntry) : bool := req <=? depth s.
Definition more_than (req : Z) (s : list StackEntry) : bool := req <? depth s.

Definition check_underflow (reqs : list Z) : VM unit :=
  s ← get_stack; guard_vm (forallb (fun r => at_least r s) reqs) stk_und.
Definition check_underflow_p (reqs : list Z) : VM unit :=
  s ← get_stack; guard_vm (forallb (fun r => more_than r s) reqs) stk_und.

Definition in_bounds (i : Z) (s : list StackEntry) : bool := (0 <=? i) && (i <? depth s).

Definition push (e : StackEntry) : VM unit := s ← get_stack; set_stack (e :: s).
Definition pop : VM StackEntry :=
  s ← get_stack; match s with [] => undefined | e :: s' => _ ← set_stack s'; mret e end.

Definition fetch (i : Z) : VM StackEntry :=
  s ← get_stack;
  if in_bounds i s then match s !! Z.to_nat i with Some e => mret e | None => undefined end else undefined.

(** [stack[i] = e] *)
Definition store (i : Z) (e : StackEntry) : VM unit :=
  s ← get_stack; if in_bounds i s then set_stack (<[Z.to_nat i := e]> s) else undefined.

(** [swap(stack[i], stack[j])] *)
Definition swap (i j : Z) : VM unit := a ← fetch i; b ← fetch j; _ ← store i b; store j a.

(** [pop(stack[i])]: the top is swapped with [stack[i]], then dropped. *)
Definition pop_to (i : Z) : VM unit := _ ← swap 0 i; _ ← pop; mret tt.

Definition pop_many (count : Z) : VM unit :=
  s ← get_stack; if (0 <=? count) && (count <=? depth s) then set_stack (drop (Z.to_nat count) s) else undefined.

(** [pop_many(count, offs)]: the [offs] topmost entries slide over the [count] below. *)
Definition pop_many_below (count offs : Z) : VM unit :=
  s ← get_stack;
  if (0 <=? count) && (0 <=? offs) && (count + offs <=? depth s)
  then set_stack (take (Z.to_nat offs) s ++ drop (Z.to_nat (count + offs)) s) else undefined.

Definition drop_bottom (count : Z) : VM unit :=
  s ← get_stack;
  if (0 <=? count) && (count <=? depth s) then set_stack (take (length s - Z.to_nat count) s) else undefined.

(** [std::reverse(stack.from_top(a), stack.from_top(b))] *)
Definition reverse_seg (a b : nat) (s : list StackEntry) : list StackEntry :=
  take b s ++ rev (take (a - b) (drop b s)) ++ drop a s.
Definition reverse (a b : Z) : VM unit :=
  s ← get_stack;
  if (0 <=? b) && (b <=? a) && (a <=? depth s) then set_stack (reverse_seg (Z.to_nat a) (Z.to_nat b) s) else undefined.

(** ** Two stacks *)

Definition push_from_stack (old : list StackEntry) (copy_elem skip_top : Z) : VM unit :=
  if (depth old <? skip_top) || (depth old - skip_top <? copy_elem) then throw stk_und
  else s ← get_stack; set_stack (take (Z.to_nat copy_elem) (drop (Z.to_nat skip_top) old) ++ s).

(** [move_from_stack]: this stack and the other one. *)
Definition move_from_stack (s old : list StackEntry) (copy_elem : Z) : option (list StackEntry * list StackEntry) :=
  if depth old <? copy_elem then None
  else Some (take (Z.to_nat copy_elem) old ++ s, drop (Z.to_nat copy_elem) old).

(** [split_top]: the new stack and what is left of this one; a failure leaves it alone. *)
Definition split_top (s : list StackEntry) (top_cnt drop_cnt : Z) : option (list StackEntry * list StackEntry) :=
  if (depth s <? top_cnt) || (depth s - top_cnt <? drop_cnt) then None
  else Some (take (Z.to_nat top_cnt) s, drop (Z.to_nat (top_cnt + drop_cnt)) s).

(** ** Typed access *)

Definition pop_chk : VM StackEntry := _ ← check_underflow [1]; pop.

(** [pop().as_T()] with the type check. *)
Definition pop_as {A} (as_ : StackEntry -> option A) : VM A :=
  _ ← check_underflow [1]; e ← pop; match as_ e with Some a => mret a | None => throw type_chk end.
(** The [pop_maybe_] variants: an empty entry is no object. *)
Definition pop_maybe {A} (as_ : StackEntry -> option A) : VM (option A) :=
  _ ← check_underflow [1]; e ← pop;
  if empty e then mret None else match as_ e with Some a => mret (Some a) | None => throw type_chk end.

Definition pop_null : VM unit := _ ← check_underflow [1]; e ← pop; guard_vm (empty e) type_chk.
Definition pop_int : VM digits := pop_as as_int.
Definition pop_int_finite : VM digits := x ← pop_int; if is_valid x then mret x else throw int_ov.
Definition pop_bool : VM bool := x ← pop_int_finite; mret (negb (sgn x =? 0)).
Definition pop_long : VM Z := x ← pop_int; mret (to_long_any x).
Definition pop_long_range (max min : Z) : VM Z :=
  res ← pop_long; if (max <? res) || (res <? min) then throw range_chk else mret res.
(** The result is cast to a 32-bit [int]. *)
Definition pop_smallint_range (max min : Z) : VM Z := r ← pop_long_range max min; mret (s32 r).
Definition pop_cell : VM CellRef := pop_as as_cell.
Definition pop_maybe_cell : VM (option CellRef) := pop_maybe as_cell.
Definition pop_builder : VM CellBuilder := pop_as as_builder.
Definition pop_cellslice : VM CellSlice := pop_as as_slice.
Definition pop_cont : VM ContRef := pop_as as_cont.
Definition pop_tuple : VM (list StackEntry) := pop_as as_tuple.
Definition pop_tuple_range (max_len min_len : Z) : VM (list StackEntry) := pop_as (as_tuple_range max_len min_len).
Definition pop_maybe_tuple : VM (option (list StackEntry)) := pop_maybe as_tuple.
Definition pop_maybe_tuple_range (max_len : Z) : VM (option (list StackEntry)) := pop_maybe (as_tuple_range max_len 0).

Definition push_null : VM unit := push se_null.
Definition push_int (val : digits) : VM unit :=
  if signed_fits_bits_any val 257 then push (se_int val) else throw int_ov.
Definition push_int_quiet (val : digits) (quiet : bool) : VM unit :=
  if signed_fits_bits_any val 257 then push (se_int val)
  else if negb quiet then throw int_ov
  else if is_valid val then push (se_int NaN)
  else push (se_int val).
Definition push_smallint (val : Z) : VM unit := push (se_int (make_refint val)).
Definition push_bool (val : bool) : VM unit := push_smallint (if val then -1 else 0).
Definition push_cell (c : CellRef) : VM unit := push (se_cell c).
Definition push_maybe_cell (c : option CellRef) : VM unit :=
  match c with Some c => push (se_cell c) | None => push se_null end.
Definition push_builder (b : CellBuilder) : VM unit := push (se_builder b).
Definition push_cellslice (c : CellSlice) : VM unit := push (se_slice c).
Definition push_cont (c : ContRef) : VM unit := push (se_cont c).
Definition push_tuple (t : list StackEntry) : VM unit := push (se_tuple t).
Definition push_maybe_tuple (t : option (list StackEntry)) : VM unit :=
  match t with Some t => push (se_tuple t) | None => push_null end.

(** ** How the operations run *)

Definition with_stack (st : VmState) (s : list StackEntry) : VmState := {| stack := s; code := code st; core := core st |}.

(** The list with two entries exchanged. *)
Definition swap_list (i j : nat) (s : list StackEntry) : list StackEntry :=
  match s !! i, s !! j with Some a, Some b => <[j := a]> (<[i := b]> s) | _, _ => s end.

Lemma depth_nonneg s : 0 <= depth s.
Proof. unfold depth. lia. Qed.

Lemma swap_list_depth i j s : depth (swap_list i j s) = depth s.
Proof. unfold swap_list, depth. destruct (s !! i), (s !! j); rewrite ?length_insert; done. Qed.

Lemma in_bounds_spec i s : in_bounds i s = true <-> 0 <= i < depth s.
Proof. unfold in_bounds. lia. Qed.

Lemma in_bounds_lookup i s : 0 <= i < depth s -> exists e, s !! Z.to_nat i = Some e.
Proof. intros Hi. apply lookup_lt_is_Some_2. unfold depth in Hi. lia. Qed.

Lemma check_run reqs st :
  check_underflow reqs st = if forallb (fun r => r <=? depth (stack st)) reqs then Done (tt, st) else Throw stk_und (core st).
Proof. unfold check_underflow, guard_vm, mbind, vm_bind, get_stack, at_least. by destruct (forallb _ _). Qed.

Lemma check_p_run reqs st :
  check_underflow_p reqs st = if forallb (fun r => r <? depth (stack st)) reqs then Done (tt, st) else Throw stk_und (core st).
Proof. unfold check_underflow_p, guard_vm, mbind, vm_bind, get_stack, more_than. by destruct (forallb _ _). Qed.

Lemma fetch_run i st : 0 <= i < depth (stack st) ->
  exists e, stack st !! Z.to_nat i = Some e /\ fetch i st = Done (e, st).
Proof.
  intros Hi. destruct (in_bounds_lookup i _ Hi) as [e He]. exists e. split; [done|]. unfold fetch. vm_run.
  by rewrite (proj2 (in_bounds_spec _ _) Hi), He.
Qed.

Lemma store_run i e st : 0 <= i < depth (stack st) -> store i e st = Done (tt, with_stack st (<[Z.to_nat i := e]> (stack st))).
Proof. intros Hi. unfold store. vm_run. by rewrite (proj2 (in_bounds_spec _ _) Hi). Qed.

Lemma swap_run i j st : 0 <= i < depth (stack st) -> 0 <= j < depth (stack st) ->
  swap i j st = Done (tt, with_stack st (swap_list (Z.to_nat i) (Z.to_nat j) (stack st))).
Proof.
  intros Hi Hj. unfold swap, swap_list. destruct (fetch_run i st Hi) as (a & Ha & Ea), (fetch_run j st Hj) as (b & Hb & Eb).
  unfold mbind, vm_bind. rewrite Ea, Eb, store_run by done. rewrite store_run; [by rewrite Ha, Hb|].
  unfold depth in *. cbn [with_stack stack]. by rewrite length_insert.
Qed.

Lemma reverse_run a b st : 0 <= b <= a -> a <= depth (stack st) ->
  reverse a b st = Done (tt, with_stack st (reverse_seg (Z.to_nat a) (Z.to_nat b) (stack st))).
Proof.
  intros Hb Ha. unfold reverse. vm_run. assert ((0 <=? b) && (b <=? a) && (a <=? depth (stack st)) = true) as -> by lia. done.
Qed.

Lemma pop_many_run n st : 0 <= n <= depth (stack st) ->
  pop_many n st = Done (tt, with_stack st (drop (Z.to_nat n) (stack st))).
Proof. intros Hn. unfold pop_many. vm_run. assert ((0 <=? n) && (n <=? depth (stack st)) = true) as -> by lia. done. Qed.

Lemma pop_many_below_run n k st : 0 <= n -> 0 <= k -> n + k <= depth (stack st) ->
  pop_many_below n k st = Done (tt, with_stack st (take (Z.to_nat k) (stack st) ++ drop (Z.to_nat (n + k)) (stack st))).
Proof.
  intros. unfold pop_many_below. vm_run. assert ((0 <=? n) && (0 <=? k) && (n + k <=? depth (stack st)) = true) as -> by lia. done.
Qed.

(** The entry at an index within bounds. *)
Definition entry (i : nat) (s : list StackEntry) : StackEntry := default se_null (s !! i).

Lemma fetch_entry i st : 0 <= i < depth (stack st) -> fetch i st = Done (entry (Z.to_nat i) (stack st), st).
Proof. intros Hi. destruct (fetch_run i st Hi) as (e & He & ->). unfold entry. by rewrite He. Qed.

Lemma push_run e st : push e st = Done (tt, with_stack st (e :: stack st)).
Proof. done. Qed.

Lemma pop_run e s st : stack st = e :: s -> pop st = Done (e, with_stack st s).
Proof. intros E. unfold pop. vm_run. by rewrite E. Qed.

(** Dropping the top leaves the rest. *)
Lemma pop_entry st : 0 < depth (stack st) -> pop st = Done (entry 0 (stack st), with_stack st (drop 1 (stack st))).
Proof. intros Hd. unfold pop. vm_run. destruct (stack st) as [|e s']; [done|]. done. Qed.

Lemma stack_with st s : stack (with_stack st s) = s.
Proof. done. Qed.
Lemma core_with st s : core (with_stack st s) = core st.
Proof. done. Qed.
Lemma with_with st s s' : with_stack (with_stack st s) s' = with_stack st s'.
Proof. done. Qed.
Lemma depth_cons e s : depth (e :: s) = depth s + 1.
Proof. unfold depth. cbn [length]. lia. Qed.
Lemma depth_drop n s : depth (drop n s) = Z.max 0 (depth s - Z.of_nat n).
Proof. unfold depth. rewrite length_drop. lia. Qed.
Lemma depth_reverse a b s : (b <= a)%nat -> depth (reverse_seg a b s) = depth s.
Proof.
  intros Hb. unfold depth, reverse_seg in *. rewrite !length_app, length_rev, !length_take, !length_drop. lia.
Qed.

(** A small integer argument is popped off the top. *)
Definition small_arg (max min : Z) (st : VmState) : outcome (Z * VmState) :=
  match stack st with
  | [] => Throw stk_und (core st)
  | e :: s' =>
      match as_int e with
      | None => Throw type_chk (core st)
      | Some x =>
          let v := to_long_any x in
          if (max <? v) || (v <? min) then Throw range_chk (core st) else Done (s32 v, with_stack st s')
      end
  end.

Lemma pop_smallint_run max min st : pop_smallint_range max min st = small_arg max min st.
Proof.
  unfold pop_smallint_range, pop_long_range, pop_long, pop_int, pop_as, small_arg, mbind, vm_bind. rewrite check_run.
  cbn [forallb andb]. unfold depth. destruct (stack st) as [|e s'] eqn:Es; [done|]. cbn [length].
  destruct (Z.leb_spec 1 (Z.of_nat (S (length s')))); [|lia]. cbn [andb]. unfold pop, get_stack, mbind, vm_bind.
  rewrite Es. vm_run. destruct (as_int e) as [x|]; [|done].
  by destruct ((max <? to_long_any x) || (to_long_any x <? min)).
Qed.

Lemma pop_as_run {A} (f : StackEntry -> option A) st :
  pop_as f st = match stack st with
                | [] => Throw stk_und (core st)
                | e :: s => match f e with Some a => Done (a, with_stack st s) | None => Throw type_chk (core st) end
                end.
Proof.
  unfold pop_as. vm_run. rewrite check_run. cbn [forallb]. destruct (stack st) as [|e s] eqn:Es; [done|].
  assert ((1 <=? depth (e :: s)) = true) as -> by (apply Z.leb_le; rewrite depth_cons; pose proof (depth_nonneg s); lia). cbn [andb].
  rewrite (pop_run e s st Es). cbv beta iota. by destruct (f e).
Qed.

Lemma pop_as_cons {A} (f : StackEntry -> option A) e a s st : stack st = e :: s -> f e = Some a -> pop_as f st = Done (a, with_stack st s).
Proof. intros Es Ef. by rewrite pop_as_run, Es, Ef. Qed.

(** ** Safety *)

(** An operation that is safe on every state: it yields a value or an exception. *)
Definition safe {A} (m : VM A) : Prop := forall st, m st <> Undefined.

Lemma safe_bind {A B} (m : VM A) (k : A -> VM B) : safe m -> (forall a, safe (k a)) -> safe (x ← m; k x).
Proof. intros Hm Hk st. vm_run. specialize (Hm st). destruct (m st) as [[a st']| | |]; try done. apply Hk. Qed.

Lemma safe_ret {A} (a : A) : safe (mret a).
Proof. done. Qed.
Lemma safe_throw {A} e : safe (throw e : VM A).
Proof. done. Qed.
Lemma safe_get_stack : safe get_stack.
Proof. done. Qed.
Lemma safe_push e : safe (push e).
Proof. done. Qed.
Lemma safe_gas n : safe (consume_gas n).
Proof. done. Qed.
Lemma safe_guard b e : safe (guard_vm b e).
Proof. by destruct b. Qed.
Lemma safe_check l : safe (check_underflow l).
Proof. intros st. rewrite check_run. by destruct (forallb _ _). Qed.
Lemma safe_check_p l : safe (check_underflow_p l).
Proof. intros st. rewrite check_p_run. by destruct (forallb _ _). Qed.

Lemma safe_pop_chk : safe pop_chk.
Proof.
  intros st. unfold pop_chk. vm_run. rewrite check_run. cbn [forallb]. destruct (Z.leb_spec 1 (depth (stack st))); [|done].
  cbn [andb]. rewrite pop_entry by lia. done.
Qed.

(** [pop_as] is [pop_chk] and a type check. *)
Lemma safe_pop_as {A} (f : StackEntry -> option A) : safe (pop_as f).
Proof.
  intros st. pose proof (safe_pop_chk st) as S. unfold pop_chk, pop_as in *. revert S. vm_run.
  rewrite check_run. destruct (forallb _ _); [|done]. destruct (pop st) as [[e st']| | |]; try done. by destruct (f e).
Qed.

Lemma safe_pop_maybe {A} (f : StackEntry -> option A) : safe (pop_maybe f).
Proof.
  intros st. pose proof (safe_pop_chk st) as S. unfold pop_chk, pop_maybe in *. revert S. vm_run.
  rewrite check_run. destruct (forallb _ _); [|done]. destruct (pop st) as [[e st']| | |]; try done.
  destruct (empty e); [done|]. by destruct (f e).
Qed.

Lemma safe_pop_smallint max min : safe (pop_smallint_range max min).
Proof.
  intros st. rewrite pop_smallint_run. unfold small_arg. destruct (stack st); [done|]. destruct (as_int _); [|done].
  by destruct (_ || _).
Qed.

Lemma safe_tuple_index t i : 0 <= i -> safe (tuple_index t i).
Proof.
  intros Hi st. unfold tuple_index. destruct (Z.leb_spec (Z.of_nat (length t)) i); [done|].
  by destruct (lookup_lt_is_Some_2 t (Z.to_nat i) ltac:(lia)) as [e ->].
Qed.

Lemma safe_if {A} (b : bool) (m1 m2 : VM A) : safe m1 -> safe m2 -> safe (if b then m1 else m2).
Proof. by destruct b. Qed.

End Stack.

Arguments with_stack {RT} st s : simpl never.

(** ** Running instructions symbolically *)

Create Rewrite HintDb vm_state.
#[export] Hint Rewrite @stack_with @core_with @with_with @swap_list_depth @depth_cons @depth_drop : vm_state.

(** Decides the next test of the goal, or runs the next stack operation, whose bounds follow
    from the tests before it. *)
Ltac vm_bounds := autorewrite with vm_state; rewrite ?depth_reverse by lia; lia.
Ltac vm_test :=
  match goal with
  | |- context [Z.ltb ?a ?b] => destruct (Z.ltb_spec a b); [|try lia]; try lia
  | |- context [Z.leb ?a ?b] => destruct (Z.leb_spec a b); [|try lia]; try lia
  | |- context [Z.eqb ?a ?b] => destruct (Z.eqb_spec a b); [|try lia]; try lia
  end; cbn [andb orb negb forallb].
Ltac vm_op :=
  match goal with
  | |- context [check_underflow ?r ?st] => rewrite (check_run r st)
  | |- context [check_underflow_p ?r ?st] => rewrite (check_p_run r st)
  | |- context [swap ?i ?j ?st] => rewrite (swap_run i j st) by vm_bounds
  | |- context [fetch ?i ?st] => rewrite (fetch_entry i st) by vm_bounds
  | |- context [push ?e ?st] => rewrite (push_run e st)
  | |- context [pop ?st] => rewrite (pop_entry st) by vm_bounds
  | |- context [reverse ?a ?b ?st] => rewrite (reverse_run a b st) by vm_bounds
  | |- context [pop_many ?n ?st] => rewrite (pop_many_run n st) by vm_bounds
  | |- context [pop_many_below ?n ?k ?st] => rewrite (pop_many_below_run n k st) by vm_bounds
  end; cbn [forallb andb]; autorewrite with vm_state.
Ltac vm_exec := repeat (cbv beta iota zeta; first [vm_op | vm_test]).

(** ** Composing safe operations *)

Create HintDb vm_safe.
#[export] Hint Resolve safe_ret safe_throw safe_get_stack safe_push safe_gas safe_guard safe_check safe_check_p safe_pop_chk
  safe_pop_as safe_pop_maybe safe_pop_smallint : vm_safe.

(** An operation made of safe operations, one at a time. *)
Ltac vm_safe :=
  repeat first
    [ solve [simple apply safe_ret | simple apply safe_throw | eauto 1 with vm_safe nocore]
    | simple apply safe_bind; [|intros]
    | simple apply safe_if
    | progress unfold pop_null, pop_int, pop_int_finite, pop_bool, pop_long, pop_long_range, pop_tuple, pop_tuple_range,
        pop_maybe_tuple, pop_maybe_tuple_range, push_null, push_int, push_int_quiet, push_smallint, push_bool, push_tuple,
        push_maybe_tuple, consume_tuple_gas
    | match goal with |- safe (match ?x with _ => _ end) => destruct x end ].

(** ** Concrete machines, for the examples *)

Definition unit_refs : RefTypes := {| CellRef := unit; ContRef := unit; ObjRef := unit |}.
Definition machine (s : list (@StackEntry unit_refs)) : @VmState unit_refs :=
  {| stack := s; code := Some {| cs_bits := []; cs_refs := [] |};
     core := {| core_gas := {| gas_max := 1000; gas_limit := 1000; gas_credit := 0; gas_remaining := 1000; gas_base := 1000 |};
                cr := {| c0 := None; c1 := None; c2 := None; c3 := None; d0 := None; d1 := None; c7 := None |};
                cp := 0; loaded_cells := []; cstate := None; steps := 0 |} |}.
