(* ===== verification/OpTable.v ===== *)
(** * Opcode tables ([crypto/vm/opctable.cpp])

    A table maps the first 24 bits of the code to an instruction.  Instructions are inserted
    with their range of opcodes; [finalize] fills the gaps with dummies, and [lookup_instr]
    searches the result by bisection.  The [std::map] keyed by the least opcode is the list of
    its instructions in increasing order.  Dumping instructions as text is left out. *)
From S2P Require Import Prelude BitMem Stack.

Definition max_opcode_bits : Z := 24.
Definition top_opcode : Z := 2 ^ 24.
Definition gas_per_instr : Z := 10.
Definition gas_per_bit : Z := 1.

(** ** Instructions *)

(** The instruction classes, each with its range of 24-bit opcodes [lo .. hi). *)
Inductive OpcodeInstr `{RefTypes} :=
| OpcodeInstrDummy (lo hi : Z)
| OpcodeInstrSimplest (lo hi opc_bits : Z) (exec : VM Z)
| OpcodeInstrFixed (lo hi tot_bits : Z) (exec : Z -> VM Z)
| OpcodeInstrExt (lo hi tot_bits : Z) (exec : Z -> Z -> VM Z) (len : CellSlice -> Z -> Z -> Z).

Section OpTable.
Context `{RT : RefTypes}.

Definition get_opcode_range (i : OpcodeInstr) : Z * Z :=
  match i with
  | OpcodeInstrDummy lo hi => (lo, hi)
  | OpcodeInstrSimplest lo hi _ _ | OpcodeInstrFixed lo hi _ _ | OpcodeInstrExt lo hi _ _ _ => (lo, hi)
  end.
Definition opc_min (i : OpcodeInstr) : Z := fst (get_opcode_range i).
Definition opc_max (i : OpcodeInstr) : Z := snd (get_opcode_range i).

(** Most instructions return 0. *)
Definition ret0 (m : VM unit) : VM Z := _ ← m; mret 0.

(** [mksimple], [mkfixed] and [mkfixedrange] are for those, [mkjump] and the rest for the
    instructions that pass on what a jump returns. *)
Definition mkjump (opcode opc_bits : Z) (exec : VM Z) : OpcodeInstr :=
  let sh := max_opcode_bits - opc_bits in
  OpcodeInstrSimplest (u32 (Z.shiftl opcode sh)) (u32 (Z.shiftl (opcode + 1) sh)) opc_bits exec.
Definition mkjump_fixed (opcode opc_bits arg_bits : Z) (exec : Z -> VM Z) : OpcodeInstr :=
  let sh := max_opcode_bits - opc_bits in
  OpcodeInstrFixed (u32 (Z.shiftl opcode sh)) (u32 (Z.shiftl (opcode + 1) sh)) (opc_bits + arg_bits) exec.
Definition mkjump_range (opcode_min opcode_max tot_bits arg_bits : Z) (exec : Z -> VM Z) : OpcodeInstr :=
  let sh := max_opcode_bits - tot_bits in
  OpcodeInstrFixed (u32 (Z.shiftl opcode_min sh)) (u32 (Z.shiftl opcode_max sh)) tot_bits exec.
Definition mkext (opcode opc_bits arg_bits : Z) (exec : Z -> Z -> VM Z) (len : CellSlice -> Z -> Z -> Z) : OpcodeInstr :=
  let sh := max_opcode_bits - opc_bits in
  OpcodeInstrExt (u32 (Z.shiftl opcode sh)) (u32 (Z.shiftl (opcode + 1) sh)) (opc_bits + arg_bits) exec len.
Definition mkextrange (opcode_min opcode_max tot_bits arg_bits : Z) (exec : Z -> Z -> VM Z) (len : CellSlice -> Z -> Z -> Z)
    : OpcodeInstr :=
  let sh := max_opcode_bits - tot_bits in
  OpcodeInstrExt (u32 (Z.shiftl opcode_min sh)) (u32 (Z.shiftl opcode_max sh)) tot_bits exec len.

Definition mksimple (opcode opc_bits : Z) (exec : VM unit) : OpcodeInstr := mkjump opcode opc_bits (ret0 exec).
Definition mkfixed (opcode opc_bits arg_bits : Z) (exec : Z -> VM unit) : OpcodeInstr :=
  mkjump_fixed opcode opc_bits arg_bits (fun args => ret0 (exec args)).
Definition mkfixedrange (opcode_min opcode_max tot_bits arg_bits : Z) (exec : Z -> VM unit) : OpcodeInstr :=
  mkjump_range opcode_min opcode_max tot_bits arg_bits (fun args => ret0 (exec args)).

(** ** The table *)

Record OpcodeTable := { instructions : list OpcodeInstr; instruction_list : list OpcodeInstr; final : bool }.

(** The position is found by [lower_bound]; [prev] is the instruction before it. *)
Fixpoint insert_at (instr : OpcodeInstr) (prev : option OpcodeInstr) (l : list OpcodeInstr) : option (list OpcodeInstr) :=
  let prev_ok := match prev with Some p => opc_max p <=? opc_min instr | None => true end in
  match l with
  | x :: l' =>
      if opc_min x <? opc_min instr then option_map (cons x) (insert_at instr (Some x) l')
      else if opc_min x <? opc_max instr then None
      else if prev_ok then Some (instr :: l) else None
  | [] => if prev_ok then Some [instr] else None
  end.

(** [insert_bool]; [None] is its result [false]. *)
Definition insert_bool (instr : OpcodeInstr) (t : OpcodeTable) : option OpcodeTable :=
  if final t then None
  else option_map (fun l => {| instructions := l; instruction_list := instruction_list t; final := false |})
         (insert_at instr None (instructions t)).

(** [insert] ends the program when [insert_bool] fails. *)
Definition insert_all (l : list OpcodeInstr) (t : OpcodeTable) : option OpcodeTable :=
  foldl (fun acc i => t ← acc; insert_bool i t) (Some t) l.

(** The loop of [finalize] from the opcode [upto] on. *)
Fixpoint fill_gaps (upto : Z) (l : list OpcodeInstr) : list OpcodeInstr :=
  match l with
  | [] => if upto <? top_opcode then [OpcodeInstrDummy upto top_opcode] else []
  | x :: l' =>
      (if upto <? opc_min x then [OpcodeInstrDummy upto (opc_min x)] else []) ++ x :: fill_gaps (opc_max x) l'
  end.
Definition finalize (t : OpcodeTable) : OpcodeTable :=
  if final t then t
  else {| instructions := instructions t; instruction_list := fill_gaps 0 (instructions t); final := true |}.

(** [while (j - i > 1)]; each round shortens the interval, so its length is enough fuel. *)
Fixpoint bisect (fuel : nat) (l : list OpcodeInstr) (opcode : Z) (i j : nat) : nat :=
  match fuel with
  | O => i
  | S fuel' =>
      if (1 <? j - i)%nat then
        let k := ((j + i) / 2)%nat in
        match l !! k with
        | Some x => if opc_min x <=? opcode then bisect fuel' l opcode k j else bisect fuel' l opcode i k
        | None => i
        end
      else i
  end.
Definition lookup_instr (t : OpcodeTable) (opcode : Z) : option OpcodeInstr :=
  let l := instruction_list t in l !! bisect (length l) l opcode 0 (length l).

(** ** Dispatch *)

(** The number of bits that were fetched, at most 24, and those bits as the top of a 24-bit
    opcode. *)
Definition prefetch_bits (c : list bool) : Z := Z.min max_opcode_bits (Z.of_nat (length c)).
Definition prefetch_opcode (c : list bool) : Z :=
  let bits := prefetch_bits c in Z.shiftl (bits_value (take (Z.to_nat bits) c)) (max_opcode_bits - bits).

Definition advance (n : Z) : VM unit :=
  fun st =>
    Done (tt, {| stack := stack st;
                 code := option_map (fun cs => {| cs_bits := drop (Z.to_nat n) (cs_bits cs); cs_refs := cs_refs cs |}) (code st);
                 core := core st |}).

(** The [dispatch] of each instruction class. *)
Definition dispatch_dummy : VM Z := _ ← consume_gas gas_per_instr; throw inv_opcode.
Definition dispatch_simplest (opc_bits : Z) (exec : VM Z) (bits : Z) : VM Z :=
  _ ← consume_gas (gas_per_instr + opc_bits * gas_per_bit);
  if bits <? opc_bits then throw inv_opcode else _ ← advance opc_bits; exec.
Definition dispatch_fixed (tot_bits : Z) (exec : Z -> VM Z) (opcode bits : Z) : VM Z :=
  _ ← consume_gas (gas_per_instr + tot_bits * gas_per_bit);
  if bits <? tot_bits then throw inv_opcode
  else _ ← advance tot_bits; exec (Z.shiftr opcode (max_opcode_bits - tot_bits)).
Definition dispatch_ext (tot_bits : Z) (exec : Z -> Z -> VM Z) (opcode bits : Z) : VM Z :=
  _ ← consume_gas (gas_per_instr + tot_bits * gas_per_bit);
  if bits <? tot_bits then throw inv_opcode else exec (Z.shiftr opcode (max_opcode_bits - tot_bits)) tot_bits.

Definition dispatch_instr (i : OpcodeInstr) (opcode bits : Z) : VM Z :=
  match i with
  | OpcodeInstrDummy _ _ => dispatch_dummy
  | OpcodeInstrSimplest _ _ opc_bits exec => dispatch_simplest opc_bits exec bits
  | OpcodeInstrFixed _ _ tot_bits exec => dispatch_fixed tot_bits exec opcode bits
  | OpcodeInstrExt _ _ tot_bits exec _ => dispatch_ext tot_bits exec opcode bits
  end.

(** [assert(final)], then the lookup; a table with no instruction is out of bounds. *)
Definition dispatch (t : OpcodeTable) : VM Z := fun st =>
  match code st with
  | Some cs =>
      if final t then
        match lookup_instr t (prefetch_opcode (cs_bits cs)) with
        | Some i => dispatch_instr i (prefetch_opcode (cs_bits cs)) (prefetch_bits (cs_bits cs)) st
        | None => Undefined
        end
      else Undefined
  | None => Undefined
  end.

(** The [instr_len] of each class. *)
Definition simplest_len (opc_bits bits : Z) : Z := if bits <? opc_bits then 0 else opc_bits.
Definition fixed_len (tot_bits bits : Z) : Z := if bits <? tot_bits then 0 else tot_bits.
Definition ext_len (tot_bits : Z) (len : CellSlice -> Z -> Z -> Z) (c : CellSlice) (opcode bits : Z) : Z :=
  if bits <? tot_bits then 0 else len c (Z.shiftr opcode (max_opcode_bits - tot_bits)) tot_bits.
Definition instr_len (i : OpcodeInstr) (c : CellSlice) (opcode bits : Z) : Z :=
  match i with
  | OpcodeInstrDummy _ _ => 0
  | OpcodeInstrSimplest _ _ opc_bits _ => simplest_len opc_bits bits
  | OpcodeInstrFixed _ _ tot_bits _ => fixed_len tot_bits bits
  | OpcodeInstrExt _ _ tot_bits _ len => ext_len tot_bits len c opcode bits
  end.

Definition table_instr_len (t : OpcodeTable) (c : CellSlice) : option Z :=
  if final t
  then i ← lookup_instr t (prefetch_opcode (cs_bits c));
       Some (instr_len i c (prefetch_opcode (cs_bits c)) (prefetch_bits (cs_bits c)))
  else None.

(** ** Well-formed tables *)

(** Instructions in increasing order with disjoint ranges, from the opcode [from] on. *)
Fixpoint ordered (from : Z) (l : list OpcodeInstr) : Prop :=
  match l with
  | [] => from <= top_opcode
  | x :: l' => from <= opc_min x /\ opc_min x < opc_max x /\ ordered (opc_max x) l'
  end.

(** The same with no gaps. *)
Fixpoint contiguous (from : Z) (l : list OpcodeInstr) : Prop :=
  match l with
  | [] => from = top_opcode
  | x :: l' => from = opc_min x /\ opc_min x < opc_max x /\ contiguous (opc_max x) l'
  end.

Definition covers (i : OpcodeInstr) (opcode : Z) : Prop := opc_min i <= opcode < opc_max i.
Definition overlap (i j : OpcodeInstr) : Prop := opc_min i < opc_max j /\ opc_min j < opc_max i.
Definition is_dummy (i : OpcodeInstr) : bool := match i with OpcodeInstrDummy _ _ => true | _ => false end.

Definition table_wf (t : OpcodeTable) : Prop := ordered 0 (instructions t).

(** ** Insertion *)

Lemma ordered_disjoint from l : ordered from l -> forall x, x ∈ l -> from <= opc_min x /\ opc_min x < opc_max x <= top_opcode.
Proof.
  revert from. induction l as [|y l IH]; intros from Ho x Hx; [by apply elem_of_nil in Hx|].
  destruct Ho as (H1 & H2 & H3). assert (opc_max y <= top_opcode) as Hy.
  { destruct l as [|z l]; [done|]. destruct (IH _ H3 z ltac:(left)). lia. }
  apply elem_of_cons in Hx as [->|Hx]; [lia|]. destruct (IH _ H3 x Hx). lia.
Qed.

Lemma insert_at_spec instr prev from l :
  opc_min instr < opc_max instr <= top_opcode -> ordered from l ->
  match prev with Some p => opc_max p = from /\ opc_min p < opc_min instr | None => from <= opc_min instr end ->
  match insert_at instr prev l with
  | Some l' => ordered from l' /\ from <= opc_min instr /\ (forall x, x ∈ l' <-> x = instr \/ x ∈ l) /\
               Forall (fun x => ~ overlap instr x) l
  | None => Exists (overlap instr) (option_list prev ++ l)
  end.
Proof.
  intros Hi. revert prev from. induction l as [|x l IH]; intros prev from Ho Hp; cbn [insert_at].
  - assert (match prev with Some p => opc_max p <=? opc_min instr | None => true end = (from <=? opc_min instr)) as ->.
    { destruct prev; [by destruct Hp as [-> _]|symmetry; by apply Z.leb_le]. }
    destruct (Z.leb_spec from (opc_min instr)) as [Hle|Hgt].
    + cbn [ordered]. split; [lia|]. split; [done|]. split; [|done]. intros y. rewrite list_elem_of_singleton. rewrite elem_of_nil. tauto.
    + destruct prev as [p|]; [|lia]. cbn. apply Exists_cons_hd. destruct Hp. unfold overlap. lia.
  - cbn [ordered] in Ho. destruct Ho as (H1 & H2 & H3). destruct (Z.ltb_spec (opc_min x) (opc_min instr)) as [Hlt|Hge].
    + specialize (IH (Some x) (opc_max x) H3 (conj eq_refl Hlt)). destruct (insert_at instr (Some x) l) as [l'|]; cbn.
      * destruct IH as (Ho & Hm & Hin & Hfree). split; [done|]. split; [lia|].
        split; [intros y; rewrite !elem_of_cons, Hin; tauto|]. constructor; [unfold overlap; lia|done].
      * apply Exists_app. right. by destruct (option_list prev).
    + destruct (Z.ltb_spec (opc_min x) (opc_max instr)) as [Hov|Hno].
      { apply Exists_app. right. apply Exists_cons_hd. unfold overlap. lia. }
      assert (match prev with Some p => opc_max p <=? opc_min instr | None => true end = (from <=? opc_min instr)) as ->.
      { destruct prev; [by destruct Hp as [-> _]|symmetry; by apply Z.leb_le]. }
      destruct (Z.leb_spec from (opc_min instr)) as [Hle|Hgt].
      * cbn [ordered]. split; [repeat split; (lia || done)|]. split; [done|].
        split; [intros y; by rewrite elem_of_cons|]. constructor; [unfold overlap; lia|].
        apply Forall_forall. intros y Hy. apply list_elem_of_In in Hy. destruct (ordered_disjoint _ _ H3 y Hy). unfold overlap. lia.
      * destruct prev as [p|]; [|lia]. cbn. apply Exists_cons_hd. destruct Hp. unfold overlap. lia.
Qed.

(** ** Gaps and bisection *)

Lemma fill_gaps_spec from l : ordered from l -> contiguous from (fill_gaps from l) /\
  (forall x, x ∈ l -> x ∈ fill_gaps from l) /\ (forall x, x ∈ fill_gaps from l -> x ∈ l \/ is_dummy x = true).
Proof.
  revert from. induction l as [|y l IH]; intros from Ho; cbn [fill_gaps].
  - cbn in Ho. destruct (Z.ltb_spec from top_opcode).
    + split; [cbn; lia|]. split; [intros x Hx; by apply elem_of_nil in Hx|].
      intros x Hx. apply list_elem_of_singleton in Hx as ->. by right.
    + split; [cbn; lia|]. split; [done|]. intros x Hx. by left.
  - destruct Ho as (H1 & H2 & H3). destruct (IH _ H3) as (Hc & Hin & Hout). destruct (Z.ltb_spec from (opc_min y)).
    + split; [cbn; repeat split; (lia || done)|]. split.
      * intros x Hx. cbn. right. apply elem_of_cons in Hx as [->|Hx]; [left|right; by apply Hin].
      * intros x Hx. cbn in Hx. apply elem_of_cons in Hx as [->|Hx]; [by right|].
        apply elem_of_cons in Hx as [->|Hx]; [left; left|]. destruct (Hout x Hx); [left; by right|by right].
    + cbn [app]. split; [cbn; repeat split; (lia || done)|]. split.
      * intros x Hx. apply elem_of_cons in Hx as [->|Hx]; [left|right; by apply Hin].
      * intros x Hx. apply elem_of_cons in Hx as [->|Hx]; [left; left|]. destruct (Hout x Hx); [left; by right|by right].
Qed.

Lemma contiguous_lookup from l i x : contiguous from l -> l !! i = Some x ->
  opc_min x < opc_max x /\ (i = 0%nat -> opc_min x = from) /\
  match l !! S i with Some y => opc_max x = opc_min y | None => opc_max x = top_opcode end.
Proof.
  revert from i. induction l as [|y l IH]; intros from i Hc Hx; [done|]. destruct Hc as (H1 & H2 & H3).
  destruct i as [|i]; cbn in Hx.
  - injection Hx as ->. split; [done|]. split; [done|]. cbn. destruct l as [|z l]; cbn in *; lia.
  - destruct (IH _ i H3 Hx) as (E1 & E2 & E3). split; [done|]. split; [done|]. done.
Qed.

Lemma contiguous_ordered from l : contiguous from l -> ordered from l.
Proof.
  revert from. induction l as [|y l IH]; intros from Hc; cbn in *; [lia|]. destruct Hc as (H1 & H2 & H3). auto with lia.
Qed.

Lemma covers_unique from l x y opcode : ordered from l -> x ∈ l -> y ∈ l -> covers x opcode -> covers y opcode -> x = y.
Proof.
  unfold covers. revert from. induction l as [|z l IH]; intros from Ho Hx Hy Cx Cy; [by apply elem_of_nil in Hx|].
  destruct Ho as (H1 & H2 & H3). pose proof (ordered_disjoint _ _ H3) as D.
  apply elem_of_cons in Hx as [->|Hx], Hy as [->|Hy]; [done| | |by eapply IH].
  - specialize (D y Hy). lia.
  - specialize (D x Hx). lia.
Qed.

Lemma bisect_spec fuel l opcode i j from x : contiguous from l -> from <= opcode < top_opcode ->
  (j - i <= fuel)%nat -> (i < j <= length l)%nat -> l !! i = Some x -> opc_min x <= opcode ->
  (forall y, l !! j = Some y -> opcode < opc_min y) ->
  exists z, l !! bisect fuel l opcode i j = Some z /\ covers z opcode.
Proof.
  intros Hc Ho. revert i j x. induction fuel as [|fuel IH]; intros i j x Hf Hij Hi Hlo Hhi; [lia|]. cbn [bisect].
  destruct (Nat.ltb_spec 1 (j - i)) as [Hlt|Hge].
  - pose proof (Nat.div_mod_eq (j + i) 2) as E. pose proof (Nat.mod_upper_bound (j + i) 2 ltac:(lia)) as M.
    set (k := ((j + i) / 2)%nat) in *. clearbody k.
    destruct (lookup_lt_is_Some_2 l k ltac:(lia)) as [y Hk]. rewrite Hk. destruct (Z.leb_spec (opc_min y) opcode).
    + by apply (IH k j y); try lia.
    + apply (IH i k x); try lia; try done. intros z Hz. by simplify_eq.
  - assert (j = S i) as -> by lia. exists x. split; [done|]. unfold covers. split; [done|].
    destruct (contiguous_lookup _ _ _ _ Hc Hi) as (_ & _ & Hn). destruct (l !! S i) as [y|] eqn:Ey.
    + specialize (Hhi y eq_refl). lia.
    + lia.
Qed.

Lemma lookup_contiguous l opcode : contiguous 0 l -> 0 <= opcode < top_opcode ->
  exists z, l !! bisect (length l) l opcode 0 (length l) = Some z /\ covers z opcode.
Proof.
  intros Hc Ho. destruct l as [|x l]; [exfalso; unfold contiguous, top_opcode in *; lia|].
  pose proof Hc as (H1 & _). apply (bisect_spec _ _ _ _ _ 0 x); [done|done|lia|cbn [length]; lia|done|lia|].
  intros y Hy. apply lookup_lt_Some in Hy. lia.
Qed.

(** ** The opcode that is looked up *)

Lemma prefetch_range c : 0 <= prefetch_opcode c < top_opcode.
Proof.
  unfold prefetch_opcode, prefetch_bits, max_opcode_bits, top_opcode. set (b := Z.min 24 (Z.of_nat (length c))).
  assert (0 <= b <= 24) as Hb by (unfold b; lia). rewrite Z.shiftl_mul_pow2 by lia.
  pose proof (bits_value_range (take (Z.to_nat b) c)) as R. rewrite length_take in R.
  assert (Z.of_nat (Z.to_nat b `min` length c) = b) as E by (unfold b; lia). rewrite E in R.
  replace (2 ^ 24) with (2 ^ b * 2 ^ (24 - b)) by (rewrite <- Z.pow_add_r by lia; f_equal; lia).
  pose proof (Z.pow_pos_nonneg 2 (24 - b)). nia.
Qed.

Lemma lookup_finalized t opcode : table_wf t -> final t = false -> 0 <= opcode < top_opcode ->
  exists i, lookup_instr (finalize t) opcode = Some i /\ covers i opcode /\
    (i ∈ instructions t \/ is_dummy i = true) /\ (forall j, j ∈ instructions t -> covers j opcode -> i = j).
Proof.
  intros Hw Hf Ho. unfold finalize, lookup_instr. rewrite Hf. cbn [instruction_list].
  destruct (fill_gaps_spec 0 _ Hw) as (Hc & Hin & Hout). destruct (lookup_contiguous _ _ Hc Ho) as (i & Hi & Ci).
  pose proof (list_elem_of_lookup_2 _ _ _ Hi) as Hel. exists i. split; [done|]. split; [done|]. split; [by apply Hout|].
  intros j Hj Cj. eapply covers_unique; [by apply contiguous_ordered| | | |]; eauto.
Qed.

(** Inserting a list of instructions with ranges of their own. *)
Definition range_ok (i : OpcodeInstr) : bool := (0 <=? opc_min i) && (opc_min i <? opc_max i) && (opc_max i <=? top_opcode).
Definition empty_table : OpcodeTable := {| instructions := []; instruction_list := []; final := false |}.

Lemma insert_all_none l : foldl (fun acc i => t ← acc; insert_bool i t) None l = None.
Proof. by induction l. Qed.

Lemma insert_all_spec l t t' : table_wf t -> final t = false -> forallb range_ok l = true -> insert_all l t = Some t' ->
  table_wf t' /\ final t' = false /\ (forall x, x ∈ instructions t' -> x ∈ l \/ x ∈ instructions t).
Proof.
  unfold insert_all. revert t. induction l as [|i l IH]; intros t Hw Hf Hr E.
  - injection E as <-. split; [done|]. split; [done|]. intros x Hx. by right.
  - cbn [forallb] in Hr. apply andb_true_iff in Hr as [Hi Hr]. cbn [foldl] in E.
    assert (0 <= opc_min i /\ opc_min i < opc_max i <= top_opcode) as [Hi0 Hi1].
    { unfold range_ok in Hi. rewrite !andb_true_iff, !Z.leb_le, Z.ltb_lt in Hi. tauto. }
    cbn in E. destruct (insert_bool i t) as [t1|] eqn:E1; [|by rewrite insert_all_none in E].
    unfold insert_bool in E1. rewrite Hf in E1. pose proof (insert_at_spec i None 0 _ Hi1 Hw Hi0) as S.
    destruct (insert_at i None (instructions t)) as [l1|]; [|done]. cbn in E1. injection E1 as <-.
    destruct S as (Ho & _ & Hin & _). destruct (IH _ (Ho : table_wf {| instructions := l1; instruction_list := instruction_list t; final := false |}) eq_refl Hr E)
      as (Hw' & Hf' & Hin').
    split; [done|]. split; [done|]. intros x Hx. rewrite elem_of_cons. destruct (Hin' x Hx) as [|Hx']; [tauto|].
    cbn in Hx'. apply Hin in Hx'. tauto.
Qed.

(** ** Properties *)

(** C20. Inserting an instruction succeeds exactly when its opcodes are free, and keeps the
    instructions ordered and disjoint. *)
Theorem insert_exact t instr : table_wf t -> final t = false -> 0 <= opc_min instr -> opc_min instr < opc_max instr <= top_opcode ->
  match insert_bool instr t with
  | Some t' => table_wf t' /\ final t' = false /\ (forall x, x ∈ instructions t' <-> x = instr \/ x ∈ instructions t)
               /\ Forall (fun x => ~ overlap instr x) (instructions t)
  | None => Exists (overlap instr) (instructions t)
  end.
Proof.
  intros Hw Hf H0 Hi. unfold insert_bool. rewrite Hf. pose proof (insert_at_spec instr None 0 _ Hi Hw H0) as S.
  destruct (insert_at instr None (instructions t)) as [l'|]; cbn; [|exact S]. by destruct S as (Ho & _ & Hin & Hfree).
Qed.

(** C21. In a finalized table every opcode finds the one instruction inserted for it, or a
    dummy when there is none. *)
Theorem lookup_finds t opcode : table_wf t -> final t = false -> 0 <= opcode < top_opcode ->
  exists i, lookup_instr (finalize t) opcode = Some i /\ covers i opcode /\
    (i ∈ instructions t \/ is_dummy i = true) /\ (forall j, j ∈ instructions t -> covers j opcode -> i = j).
Proof. apply lookup_finalized. Qed.

(** Dispatching from a finalized table of safe instructions is safe. *)
Definition instr_safe (i : OpcodeInstr) : Prop := forall opcode bits, covers i opcode -> safe (dispatch_instr i opcode bits).

Lemma ret0_safe m : safe m -> safe (ret0 m).
Proof. intros Hm. by apply safe_bind. Qed.

Lemma jump_safe opcode opc_bits m : safe m -> instr_safe (mkjump opcode opc_bits m).
Proof. intros Hm opc bits _ st. unfold mkjump, dispatch_instr, dispatch_simplest. vm_run. destruct (_ <? _); [done|]. apply Hm. Qed.

Lemma simple_safe opcode opc_bits m : safe m -> instr_safe (mksimple opcode opc_bits m).
Proof. intros Hm. by apply jump_safe, ret0_safe. Qed.

Lemma jump_fixed_safe lo hi tot_bits m :
  (forall opcode, lo <= opcode < hi -> safe (m (Z.shiftr opcode (max_opcode_bits - tot_bits)))) ->
  instr_safe (OpcodeInstrFixed lo hi tot_bits m).
Proof.
  intros Hm opc bits Hc st. unfold dispatch_instr, dispatch_fixed. vm_run. destruct (_ <? _); [done|]. by apply Hm.
Qed.

Lemma fixed_safe opcode opc_bits arg_bits m : (forall args, safe (m args)) -> instr_safe (mkfixed opcode opc_bits arg_bits m).
Proof. intros Hm. apply jump_fixed_safe. intros opc Ho. by apply ret0_safe, Hm. Qed.

(** The opcode of an instruction with a range of opcodes is in that range. *)
Lemma range_safe lo hi tot_bits arg_bits m :
  let sh := max_opcode_bits - tot_bits in
  (forall opcode, u32 (Z.shiftl lo sh) <= opcode < u32 (Z.shiftl hi sh) -> safe (m (Z.shiftr opcode sh))) ->
  instr_safe (mkfixedrange lo hi tot_bits arg_bits m).
Proof. intros sh Hm. apply jump_fixed_safe. intros opc Ho. by apply ret0_safe, Hm. Qed.

Lemma dummy_safe i : is_dummy i = true -> instr_safe i.
Proof. by destruct i. Qed.

(** The machine runs while it has code. *)
Definition has_code (st : VmState) : Prop := code st <> None.

Lemma dispatch_safe t : table_wf t -> final t = false -> (forall i, i ∈ instructions t -> instr_safe i) ->
  forall st, has_code st -> dispatch (finalize t) st <> Undefined.
Proof.
  intros Hw Hf Hs st Hc. unfold dispatch. destruct (code st) as [cs|] eqn:Ec; [|done]. assert (final (finalize t) = true) as -> by (unfold finalize; by rewrite Hf).
  destruct (lookup_finalized t (prefetch_opcode (cs_bits cs)) Hw Hf (prefetch_range _)) as (i & -> & Ci & Hor & _).
  destruct Hor as [Hin|Hd]; [by apply Hs|by apply dummy_safe].
Qed.

End OpTable.

(** ** The theorems at work *)

Lemma insert_exact_witness :
  let i := @mksimple unit_refs 0xa0 8 (mret tt) in
  opc_min i < opc_max i <= top_opcode /\
  match insert_bool i empty_table with
  | Some t' => table_wf t' /\ final t' = false /\ (forall x, x ∈ instructions t' <-> x = i \/ x ∈ [])
               /\ Forall (fun x => ~ overlap i x) []
  | None => Exists (overlap i) []
  end.
Proof.
  assert (opc_min (@mksimple unit_refs 0xa0 8 (mret tt)) < opc_max (@mksimple unit_refs 0xa0 8 (mret tt)) <= top_opcode) as Hr
    by (vm_compute; split; [reflexivity|discriminate]).
  split; [exact Hr|]. apply (insert_exact (@empty_table unit_refs)); [|reflexivity| |exact Hr]; vm_compute; discriminate.
Defined.

Definition one_table : @OpcodeTable unit_refs :=
  {| instructions := [mksimple 0xa0 8 (mret tt)]; instruction_list := []; final := false |}.

Lemma lookup_finds_witness : table_wf one_table /\
  exists i, lookup_instr (finalize one_table) 0xa12345 = Some i /\ covers i 0xa12345 /\
    (i ∈ instructions one_table \/ is_dummy i = true) /\ (forall j, j ∈ instructions one_table -> covers j 0xa12345 -> i = j).
Proof.
  assert (table_wf one_table) as Hw by (vm_compute; repeat split; discriminate). split; [exact Hw|].
  apply (lookup_finds one_table 0xa12345 Hw); [reflexivity|]. vm_compute. split; [discriminate|reflexivity].
Defined.
