(* ===== verification/StackOps.v ===== *)
(** * Stack manipulation instructions ([crypto/vm/stackops.cpp])

    Every [exec_] function, with its arguments cut out of the opcode's low bits, and the table
    that [register_stack_ops] fills.  Logging is left out. *)
From S2P Require Import Prelude BigInt RefInt Stack OpTable.

Section StackOps.
Context `{RT : RefTypes}.

(** ** Basic stack manipulation *)

Definition arg0 (args : Z) : Z := Z.land args 15.
Definition arg1 (args : Z) : Z := Z.land (Z.shiftr args 4) 15.
Definition arg2 (args : Z) : Z := Z.land (Z.shiftr args 8) 15.
Definition arg_l (args : Z) : Z := Z.land args 255.

Definition push_at (x : Z) : VM unit := e ← fetch x; push e.

Definition exec_nop : VM unit := mret tt.
Definition exec_swap : VM unit := _ ← check_underflow [2]; swap 0 1.
Definition exec_xchg0 (args : Z) : VM unit := let x := arg0 args in _ ← check_underflow_p [x]; swap 0 x.
Definition exec_xchg0_l (args : Z) : VM unit := let x := arg_l args in _ ← check_underflow_p [x]; swap 0 x.
Definition exec_xchg (args : Z) : VM unit :=
  let x := arg1 args in let y := arg0 args in
  if (x =? 0) || (y <=? x) then throw inv_opcode else _ ← check_underflow_p [y]; swap x y.
(** [assert(x >= 2)] holds for the registered opcodes. *)
Definition exec_xchg1 (args : Z) : VM unit :=
  let x := arg0 args in if x <? 2 then undefined else _ ← check_underflow_p [x]; swap 1 x.
Definition exec_dup : VM unit := _ ← check_underflow [1]; push_at 0.
Definition exec_over : VM unit := _ ← check_underflow [2]; push_at 1.
Definition exec_push (args : Z) : VM unit := let x := arg0 args in _ ← check_underflow_p [x]; push_at x.
Definition exec_push_l (args : Z) : VM unit := let x := arg_l args in _ ← check_underflow_p [x]; push_at x.
Definition exec_drop : VM unit := _ ← check_underflow [1]; _ ← pop; mret tt.
Definition exec_nip : VM unit := _ ← check_underflow [2]; pop_to 1.
Definition exec_pop (args : Z) : VM unit := let x := arg0 args in _ ← check_underflow_p [x]; pop_to x.
Definition exec_pop_l (args : Z) : VM unit := let x := arg_l args in _ ← check_underflow_p [x]; pop_to x.

(** ** Compound stack manipulation *)

Definition exec_xchg2 (args : Z) : VM unit :=
  let x := arg1 args in let y := arg0 args in
  _ ← check_underflow_p [x; y; 1]; _ ← swap 1 x; swap 0 y.
Definition exec_xcpu (args : Z) : VM unit :=
  let x := arg1 args in let y := arg0 args in
  _ ← check_underflow_p [x; y]; _ ← swap 0 x; push_at y.
Definition exec_puxc (args : Z) : VM unit :=
  let x := arg1 args in let y := arg0 args in
  _ ← check_underflow_p [x]; _ ← check_underflow [y];
  _ ← push_at x; _ ← swap 0 1; swap 0 y.
Definition exec_push2 (args : Z) : VM unit :=
  let x := arg1 args in let y := arg0 args in
  _ ← check_underflow_p [x; y]; _ ← push_at x; push_at (y + 1).
Definition exec_xchg3 (args : Z) : VM unit :=
  let x := arg2 args in let y := arg1 args in let z := arg0 args in
  _ ← check_underflow_p [x; y; z; 2]; _ ← swap 2 x; _ ← swap 1 y; swap 0 z.
Definition exec_xc2pu (args : Z) : VM unit :=
  let x := arg2 args in let y := arg1 args in let z := arg0 args in
  _ ← check_underflow_p [x; y; z; 1]; _ ← swap 1 x; _ ← swap 0 y; push_at z.
Definition exec_xcpuxc (args : Z) : VM unit :=
  let x := arg2 args in let y := arg1 args in let z := arg0 args in
  _ ← check_underflow_p [x; y; 1]; _ ← check_underflow [z];
  _ ← swap 1 x; _ ← push_at y; _ ← swap 0 1; swap 0 z.
Definition exec_xcpu2 (args : Z) : VM unit :=
  let x := arg2 args in let y := arg1 args in let z := arg0 args in
  _ ← check_underflow_p [x; y; z]; _ ← swap 0 x; _ ← push_at y; push_at (z + 1).
Definition exec_puxc2 (args : Z) : VM unit :=
  let x := arg2 args in let y := arg1 args in let z := arg0 args in
  _ ← check_underflow_p [x; 1]; _ ← check_underflow [y; z];
  _ ← push_at x; _ ← swap 2 0; _ ← swap 1 y; swap 0 z.
Definition exec_puxcpu (args : Z) : VM unit :=
  let x := arg2 args in let y := arg1 args in let z := arg0 args in
  _ ← check_underflow_p [x]; _ ← check_underflow [y; z];
  _ ← push_at x; _ ← swap 0 1; _ ← swap 0 y; push_at z.
Definition exec_pu2xc (args : Z) : VM unit :=
  let x := arg2 args in let y := arg1 args in let z := arg0 args in
  _ ← check_underflow_p [x]; _ ← check_underflow [y; z - 1];
  _ ← push_at x; _ ← swap 1 0; _ ← push_at y; _ ← swap 1 0; swap 0 z.
Definition exec_push3 (args : Z) : VM unit :=
  let x := arg2 args in let y := arg1 args in let z := arg0 args in
  _ ← check_underflow_p [x; y; z]; _ ← push_at x; _ ← push_at (y + 1); push_at (z + 2).

(** ** Exotic stack manipulation *)

(** The three reversals that exchange two neighbouring blocks. *)
Definition blkswap (x y : Z) : VM unit :=
  _ ← reverse (x + y) y; _ ← reverse y 0; reverse (x + y) 0.
Definition exec_blkswap (args : Z) : VM unit :=
  let x := arg1 args + 1 in let y := arg0 args + 1 in _ ← check_underflow [x + y]; blkswap x y.
Definition exec_rot : VM unit := _ ← check_underflow [3]; _ ← swap 1 2; swap 0 1.
Definition exec_rotrev : VM unit := _ ← check_underflow [3]; _ ← swap 0 1; swap 1 2.
Definition exec_2swap : VM unit := _ ← check_underflow [4]; _ ← swap 1 3; swap 0 2.
Definition exec_2drop : VM unit := _ ← check_underflow [2]; _ ← pop; _ ← pop; mret tt.
Definition exec_2dup : VM unit := _ ← check_underflow [2]; _ ← push_at 1; push_at 1.
Definition exec_2over : VM unit := _ ← check_underflow [4]; _ ← push_at 3; push_at 3.
Definition exec_reverse (args : Z) : VM unit :=
  let x := arg1 args + 2 in let y := arg0 args in _ ← check_underflow [x + y]; reverse (x + y) y.
Definition exec_blkdrop (args : Z) : VM unit := let x := arg0 args in _ ← check_underflow [x]; pop_many x.
Definition exec_blkdrop2 (args : Z) : VM unit :=
  let x := arg1 args in let y := arg0 args in _ ← check_underflow [x + y]; pop_many_below x y.

Fixpoint repeat_vm (n : nat) (m : VM unit) : VM unit :=
  match n with O => mret tt | S n' => _ ← m; repeat_vm n' m end.
Definition exec_blkpush (args : Z) : VM unit :=
  let x := arg1 args in let y := arg0 args in _ ← check_underflow_p [y]; repeat_vm (Z.to_nat x) (push_at y).

Definition exec_pick : VM unit :=
  _ ← check_underflow [1]; x ← pop_smallint_range 255 0; _ ← check_underflow_p [x]; push_at x.

(** [while (--x >= 0) swap(stack[x], stack[x + 1])] *)
Fixpoint roll_down (x : nat) : VM unit :=
  match x with O => mret tt | S x' => _ ← swap (Z.of_nat x') (Z.of_nat x' + 1); roll_down x' end.
Definition exec_roll : VM unit :=
  _ ← check_underflow [1]; x ← pop_smallint_range 255 0; _ ← check_underflow_p [x]; roll_down (Z.to_nat x).

(** [for (int i = 0; i < x; i++) swap(stack[i], stack[i + 1])], with [n] rounds left *)
Fixpoint roll_up (i : Z) (n : nat) : VM unit :=
  match n with O => mret tt | S n' => _ ← swap i (i + 1); roll_up (i + 1) n' end.
Definition exec_rollrev : VM unit :=
  _ ← check_underflow [1]; x ← pop_smallint_range 255 0; _ ← check_underflow_p [x]; roll_up 0 (Z.to_nat x).

Definition exec_blkswap_x : VM unit :=
  _ ← check_underflow [2];
  y ← pop_smallint_range 255 0; x ← pop_smallint_range 255 0;
  _ ← check_underflow [x + y];
  if (0 <? x) && (0 <? y) then blkswap x y else mret tt.
Definition exec_reverse_x : VM unit :=
  _ ← check_underflow [2];
  y ← pop_smallint_range 255 0; x ← pop_smallint_range 255 0;
  _ ← check_underflow [x + y]; reverse (x + y) y.
Definition exec_drop_x : VM unit :=
  _ ← check_underflow [1]; x ← pop_smallint_range 255 0; _ ← check_underflow [x]; pop_many x.
Definition exec_tuck : VM unit := _ ← check_underflow [2]; _ ← swap 0 1; push_at 1.
Definition exec_xchg_x : VM unit :=
  _ ← check_underflow [1]; x ← pop_smallint_range 255 0; _ ← check_underflow_p [x]; swap 0 x.
(** [depth()] casts the size to a 32-bit [int]. *)
Definition exec_depth : VM unit := s ← get_stack; push_smallint (s32 (depth s)).
Definition exec_chkdepth : VM unit :=
  _ ← check_underflow [1]; x ← pop_smallint_range 255 0; check_underflow [x].

(** [stack[i] = std::move(stack[j])] with [i > j]: the moved entry is left empty. *)
Definition move_entry (i j : Z) : VM unit := e ← fetch j; _ ← store i e; store j se_null.
(** [for (int i = n - 1; i >= d; i--) stack[i] = std::move(stack[i - d])], [k] rounds left *)
Fixpoint move_top (d : Z) (k : nat) : VM unit :=
  match k with O => mret tt | S k' => _ ← move_entry (d + Z.of_nat k') (Z.of_nat k'); move_top d k' end.
Definition exec_onlytop_x : VM unit :=
  _ ← check_underflow [1]; x ← pop_smallint_range 255 0; _ ← check_underflow [x];
  s ← get_stack;
  let d := depth s - x in
  _ ← (if 0 <? d then move_top d (Z.to_nat (depth s - d)) else mret tt); pop_many d.
Definition exec_only_x : VM unit :=
  _ ← check_underflow [1]; x ← pop_smallint_range 255 0; _ ← check_underflow [x];
  s ← get_stack; pop_many (depth s - x).

(** ** Registration *)

Definition stack_ops : list OpcodeInstr :=
  [ mksimple 0x00 8 exec_nop;
    mksimple 0x01 8 exec_swap;
    mkfixedrange 0x02 0x10 8 4 exec_xchg0;
    mkfixed 0x10 8 8 exec_xchg;
    mkfixed 0x11 8 8 exec_xchg0_l;
    mkfixedrange 0x12 0x20 8 4 exec_xchg1;
    mksimple 0x20 8 exec_dup;
    mksimple 0x21 8 exec_over;
    mkfixedrange 0x22 0x30 8 4 exec_push;
    mksimple 0x30 8 exec_drop;
    mksimple 0x31 8 exec_nip;
    mkfixedrange 0x32 0x40 8 4 exec_pop;
    mkfixed 0x4 4 12 exec_xchg3;
    mkfixed 0x50 8 8 exec_xchg2;
    mkfixed 0x51 8 8 exec_xcpu;
    mkfixed 0x52 8 8 exec_puxc;
    mkfixed 0x53 8 8 exec_push2;
    mkfixed 0x540 12 12 exec_xchg3;
    mkfixed 0x541 12 12 exec_xc2pu;
    mkfixed 0x542 12 12 exec_xcpuxc;
    mkfixed 0x543 12 12 exec_xcpu2;
    mkfixed 0x544 12 12 exec_puxc2;
    mkfixed 0x545 12 12 exec_puxcpu;
    mkfixed 0x546 12 12 exec_pu2xc;
    mkfixed 0x547 12 12 exec_push3;
    mkfixed 0x55 8 8 exec_blkswap;
    mkfixed 0x56 8 8 exec_push_l;
    mkfixed 0x57 8 8 exec_pop_l;
    mksimple 0x58 8 exec_rot;
    mksimple 0x59 8 exec_rotrev;
    mksimple 0x5a 8 exec_2swap;
    mksimple 0x5b 8 exec_2drop;
    mksimple 0x5c 8 exec_2dup;
    mksimple 0x5d 8 exec_2over;
    mkfixed 0x5e 8 8 exec_reverse;
    mkfixed 0x5f0 12 4 exec_blkdrop;
    mkfixedrange 0x5f10 0x6000 16 8 exec_blkpush;
    mksimple 0x60 8 exec_pick;
    mksimple 0x61 8 exec_roll;
    mksimple 0x62 8 exec_rollrev;
    mksimple 0x63 8 exec_blkswap_x;
    mksimple 0x64 8 exec_reverse_x;
    mksimple 0x65 8 exec_drop_x;
    mksimple 0x66 8 exec_tuck;
    mksimple 0x67 8 exec_xchg_x;
    mksimple 0x68 8 exec_depth;
    mksimple 0x69 8 exec_chkdepth;
    mksimple 0x6a 8 exec_onlytop_x;
    mksimple 0x6b 8 exec_only_x;
    mkfixedrange 0x6c10 0x6d00 16 8 exec_blkdrop2 ].

Definition register_stack_ops (cp0 : OpcodeTable) : option OpcodeTable := insert_all stack_ops cp0.

(** ** Blocks of entries *)

(** The top [y] entries and the [x] entries below them change places. *)
Definition swap_blocks (x y : nat) (s : list StackEntry) : list StackEntry :=
  take x (drop y s) ++ take y s ++ drop (x + y) s.

Lemma reverse_top n s : reverse_seg n 0 s = rev (take n s) ++ drop n s.
Proof. unfold reverse_seg. by rewrite Nat.sub_0_r. Qed.

Lemma swap_blocks_reverse x y s : (x + y <= length s)%nat ->
  reverse_seg (x + y) 0 (reverse_seg y 0 (reverse_seg (x + y) y s)) = swap_blocks x y s.
Proof.
  intros Hl. unfold swap_blocks. rewrite <- (take_drop y s) at 1. rewrite <- (take_drop x (drop y s)) at 1.
  rewrite drop_drop. replace (y + x)%nat with (x + y)%nat by lia.
  set (a := take y s). set (b := take x (drop y s)). set (c := drop (x + y) s).
  assert (length a = y) as Ha by (unfold a; rewrite length_take; lia).
  assert (length b = x) as Hb by (unfold b; rewrite length_take, length_drop; lia).
  clearbody a b c. subst x y. rewrite !reverse_top. unfold reverse_seg.
  replace (length b + length a - length a)%nat with (length b) by lia.
  rewrite take_app_length, drop_app_length, take_app_length.
  assert (drop (length b + length a) (a ++ b ++ c) = c) as ->.
  { rewrite (assoc_L (++)), drop_app_ge by (rewrite length_app; lia). rewrite length_app.
    by replace (length b + length a - (length a + length b))%nat with 0%nat by lia. }
  rewrite take_app_length, drop_app_length. replace (length b + length a)%nat with (length (rev a ++ rev b)).
  2:{ rewrite length_app, !length_rev. lia. }
  rewrite (assoc_L (++) (rev a)), take_app_length, drop_app_length.
  by rewrite rev_app_distr, !rev_involutive, <- (assoc_L (++)).
Qed.

Lemma blkswap_run x y st : 0 <= x -> 0 <= y -> x + y <= depth (stack st) ->
  blkswap x y st = Done (tt, with_stack st (swap_blocks (Z.to_nat x) (Z.to_nat y) (stack st))).
Proof.
  intros Hx Hy Hd. unfold blkswap. vm_run.
  do 3 (rewrite reverse_run by vm_bounds; cbv beta iota; autorewrite with vm_state).
  unfold depth in Hd. rewrite Z2Nat.inj_add, swap_blocks_reverse by lia. done.
Qed.

Lemma entry_drop i s : (i < length s)%nat -> drop i s = entry i s :: drop (S i) s.
Proof.
  intros Hi. destruct (lookup_lt_is_Some_2 s i Hi) as [e He]. unfold entry. rewrite He. by apply drop_S.
Qed.

Lemma swap_adjacent i s : (S i < length s)%nat ->
  swap_list i (S i) s = take i s ++ entry (S i) s :: entry i s :: drop (S (S i)) s.
Proof.
  intros Hi. unfold swap_list, entry. destruct (lookup_lt_is_Some_2 s i ltac:(lia)) as [a Ha].
  destruct (lookup_lt_is_Some_2 s (S i) Hi) as [b Hb]. rewrite Ha, Hb. cbn.
  pose proof (take_drop_middle s i a Ha) as E. rewrite (drop_S _ b (S i) Hb) in E.
  assert (length (take i s) = i) as Hl by (rewrite length_take; lia). rewrite <- E at 1.
  rewrite insert_app_r_alt by lia. rewrite Hl, Nat.sub_diag. cbn.
  rewrite insert_app_r_alt by lia. rewrite Hl. replace (S i - i)%nat with 1%nat by lia. done.
Qed.

(** ** The loops *)

Lemma roll_down_run n st : Z.of_nat n < depth (stack st) ->
  roll_down n st = Done (tt, with_stack st (entry n (stack st) :: take n (stack st) ++ drop (S n) (stack st))).
Proof.
  revert st. induction n as [|n IH]; intros st Hn; unfold depth in Hn; cbn [roll_down].
  - rewrite take_0. cbn [app]. rewrite <- entry_drop by lia. vm_run. by destruct st.
  - vm_run. rewrite swap_run by (unfold depth; lia). cbv beta iota. rewrite IH; autorewrite with vm_state; [|unfold depth; lia].
    replace (Z.to_nat (Z.of_nat n + 1)) with (S n) by lia. rewrite Nat2Z.id, swap_adjacent by lia.
    set (s := stack st) in *. assert (length (take n s) = n) as Hl by (rewrite length_take; lia).
    do 2 f_equal. unfold entry at 1. rewrite lookup_app_r, Hl, Nat.sub_diag by lia. cbn. f_equal.
    rewrite take_app_le, take_take, Nat.min_id by lia.
    rewrite drop_app_ge, Hl by lia. replace (S n - n)%nat with 1%nat by lia. cbn.
    destruct (lookup_lt_is_Some_2 s n ltac:(lia)) as [e He]. rewrite (take_S_r s n e He), <- (assoc_L (++)).
    unfold entry. by rewrite He.
Qed.

Lemma roll_up_run i n st : Z.of_nat (i + n) < depth (stack st) ->
  roll_up (Z.of_nat i) n st
  = Done (tt, with_stack st (take i (stack st) ++ take n (drop (S i) (stack st)) ++ entry i (stack st) :: drop (S i + n) (stack st))).
Proof.
  revert i st. induction n as [|n IH]; intros i st Hn; unfold depth in Hn; cbn [roll_up].
  - rewrite take_0, Nat.add_0_r. cbn [app]. rewrite <- entry_drop by lia. rewrite take_drop. vm_run. by destruct st.
  - vm_run. rewrite swap_run by (unfold depth; lia). cbv beta iota.
    replace (Z.of_nat i + 1) with (Z.of_nat (S i)) by lia. rewrite IH; autorewrite with vm_state; [|unfold depth; lia].
    rewrite !Nat2Z.id, swap_adjacent by lia. set (s := stack st) in *.
    assert (length (take i s) = i) as Hl by (rewrite length_take; lia). do 2 f_equal.
    assert (take (S i) (take i s ++ entry (S i) s :: entry i s :: drop (S (S i)) s) = take i s ++ [entry (S i) s]) as ->.
    { rewrite take_app_ge, Hl by lia. by replace (S i - i)%nat with 1%nat by lia. }
    assert (forall k, drop (S (S i) + k) (take i s ++ entry (S i) s :: entry i s :: drop (S (S i)) s) = drop (S (S i) + k) s) as Hd.
    { intros k. rewrite drop_app_ge, Hl by lia. replace (S (S i) + k - i)%nat with (S (S k)) by lia. cbn. by rewrite drop_drop. }
    rewrite <- (Nat.add_0_r (S (S i))) at 1. rewrite !Hd, Nat.add_0_r.
    assert (entry (S i) (take i s ++ entry (S i) s :: entry i s :: drop (S (S i)) s) = entry i s) as ->.
    { unfold entry at 1. rewrite lookup_app_r, Hl by lia. by replace (S i - i)%nat with 1%nat by lia. }
    rewrite (entry_drop (S i)) by lia. cbn [take]. rewrite <- (assoc_L (++)). cbn [app].
    by replace (S i + S n)%nat with (S (S i) + n)%nat by lia.
Qed.

(** The copies that [BLKPUSH] makes: each one pushes the entry that is at index [y] by then. *)
Definition push_copy (y : nat) (s : list StackEntry) : list StackEntry := entry y s :: s.

Lemma repeat_push_run x y st : 0 <= y < depth (stack st) ->
  repeat_vm x (push_at y) st = Done (tt, with_stack st (Nat.iter x (push_copy (Z.to_nat y)) (stack st))).
Proof.
  revert st. induction x as [|x IH]; intros st Hy; cbn [repeat_vm].
  - vm_run. by destruct st.
  - unfold push_at. vm_run. rewrite fetch_entry by done. cbv beta iota. rewrite push_run. cbv beta iota.
    rewrite IH by vm_bounds. autorewrite with vm_state. do 3 f_equal. exact (Nat.iter_swap x _ (push_copy (Z.to_nat y)) (stack st)).
Qed.

Lemma move_top_run d k st : 0 < d -> d + Z.of_nat k <= depth (stack st) ->
  exists s, move_top d k st = Done (tt, with_stack st s) /\ length s = length (stack st) /\
    drop (Z.to_nat d) s = take k (stack st) ++ drop (Z.to_nat d + k) (stack st).
Proof.
  intros Hd. revert st. induction k as [|k IH]; intros st Hk; cbn [move_top].
  - exists (stack st). rewrite Nat.add_0_r. split; [|done]. vm_run. by destruct st.
  - unfold depth in Hk. unfold move_entry. vm_run. rewrite fetch_entry by (unfold depth; lia). cbv beta iota.
    rewrite store_run by (unfold depth; lia). cbv beta iota.
    rewrite store_run by (autorewrite with vm_state; unfold depth; rewrite length_insert; lia). cbv beta iota.
    autorewrite with vm_state. rewrite Nat2Z.id. set (e := entry k (stack st)).
    replace (Z.to_nat (d + Z.of_nat k)) with (Z.to_nat d + k)%nat by lia.
    set (s1 := <[k := se_null]> (<[(Z.to_nat d + k)%nat := e]> (stack st))).
    destruct (IH (with_stack st s1)) as (s & E & Hl & Hdrop).
    { autorewrite with vm_state. unfold depth, s1. rewrite !length_insert. lia. }
    exists s. split; [by rewrite E|]. rewrite Hl, Hdrop. autorewrite with vm_state. unfold s1. rewrite !length_insert.
    split; [done|]. rewrite take_insert_ge, take_insert_ge by lia.
    rewrite drop_insert_lt by lia.
    destruct (lookup_lt_is_Some_2 (stack st) k ltac:(lia)) as [e' He]. rewrite (take_S_r _ _ _ He), <- (assoc_L (++)). f_equal.
    assert (e = e') as <- by (unfold e, entry; by rewrite He).
    rewrite (drop_S _ e) by (apply list_lookup_insert_eq; lia). cbn [app]. f_equal.
    rewrite drop_insert_lt by lia. f_equal. lia.
Qed.

(** ** Arguments *)

Lemma arg0_range a : 0 <= arg0 a < 16.
Proof. unfold arg0. change 15 with (Z.ones 4). rewrite Z.land_ones by lia. apply Z.mod_pos_bound. lia. Qed.
Lemma arg1_range a : 0 <= arg1 a < 16.
Proof. unfold arg1. apply (arg0_range (Z.shiftr a 4)). Qed.
Lemma arg2_range a : 0 <= arg2 a < 16.
Proof. unfold arg2. apply (arg0_range (Z.shiftr a 8)). Qed.

Lemma arg_l_range a : 0 <= arg_l a < 256.
Proof. unfold arg_l. change 255 with (Z.ones 8). rewrite Z.land_ones by lia. apply Z.mod_pos_bound. lia. Qed.

(** A small argument is taken off the stack, or there is an exception. *)
Lemma small_arg_cases st : let r := small_arg 255 0 st in
  (exists e, r = Throw e (core st)) \/
  (exists x n s, stack st = se_int x :: s /\ to_long_any x = n /\ 0 <= n <= 255 /\ r = Done (n, with_stack st s)).
Proof.
  unfold small_arg. destruct (stack st) as [|e s]; [left; by eexists|]. destruct e; cbn [as_int]; try (left; by eexists).
  destruct ((255 <? to_long_any x) || (to_long_any x <? 0)) eqn:E; [left; by eexists|right].
  apply orb_false_iff in E as [E1 E2]. apply Z.ltb_ge in E1, E2. exists x, (to_long_any x), s.
  split; [done|]. split; [done|]. split; [done|]. by rewrite wraps_small by lia.
Qed.

End StackOps.

Ltac arg_ranges :=
  repeat match goal with |- context [?f ?a] =>
    match f with arg0 => idtac | arg1 => idtac | arg2 => idtac | arg_l => idtac end;
    match goal with H : 0 <= f a < _ |- _ => fail 1 | _ => idtac end;
    first [pose proof (arg0_range a : 0 <= f a < 16) | pose proof (arg1_range a : 0 <= f a < 16)
          | pose proof (arg2_range a : 0 <= f a < 16) | pose proof (arg_l_range a : 0 <= f a < 256)]
  end.

Ltac vm_arg :=
  rewrite pop_smallint_run;
  let x := fresh "x" in let n := fresh "n" in let s := fresh "s" in
  match goal with |- context [small_arg 255 0 ?st] =>
    let E := fresh "E" in let Hs := fresh "Hs" in let Hx := fresh "Hx" in let Hn := fresh "Hn" in
    destruct (small_arg_cases st) as [[? E]|(x & n & s & Hs & Hx & Hn & E)]; rewrite E; clear E; cbv beta iota;
    autorewrite with vm_state in * end.

