(* ===== verification/StackSafety.v ===== *)
(** * The stack instructions never leave the stack ([crypto/vm/stackops.cpp])

    Symbolic execution of every registered instruction: no access out of bounds. *)
From S2P Require Import Prelude BigInt RefInt Stack OpTable StackOps.

Section StackSafety.
Context `{RT : RefTypes}.

(** ** Safety *)

(** Runs an instruction on an arbitrary stack: only values and exceptions come out. *)
Ltac safe_go :=
  intros st; cbv zeta; arg_ranges; pose proof (depth_nonneg (stack st)); unfold push_at, pop_to, blkswap; vm_run;
  repeat (vm_exec; try discriminate; first [vm_arg; [discriminate|] | progress vm_run]); vm_exec; try discriminate.

Lemma roll_safe : safe exec_roll.
Proof.
  unfold exec_roll. safe_go. rewrite roll_down_run; [done|]. autorewrite with vm_state. lia.
Qed.

Lemma rollrev_safe : safe exec_rollrev.
Proof.
  unfold exec_rollrev. safe_go. change 0 with (Z.of_nat 0). rewrite roll_up_run; [done|]. autorewrite with vm_state. lia.
Qed.

Lemma blkpush_safe args : safe (exec_blkpush args).
Proof.
  unfold exec_blkpush. intros st. cbv zeta. arg_ranges. vm_run. vm_exec; try done.
  change (fun st => _) with (push_at (arg0 args)). rewrite repeat_push_run; [done|lia].
Qed.

Lemma onlytop_safe : safe exec_onlytop_x.
Proof.
  unfold exec_onlytop_x. intros st. pose proof (depth_nonneg (stack st)). vm_run. vm_exec; try done. vm_arg; [done|].
  vm_exec; try done.
  - edestruct (move_top_run (depth s - n)) as (s' & -> & Hl & _); [done|autorewrite with vm_state; lia|].
    cbv beta iota. autorewrite with vm_state in *. rewrite pop_many_run; [done|]. autorewrite with vm_state. unfold depth in *. lia.
Qed.

Lemma xchg1_safe opcode : Z.shiftl 0x12 16 <= opcode < Z.shiftl 0x20 16 -> safe (exec_xchg1 (Z.shiftr opcode 16)).
Proof.
  change (Z.shiftl 0x12 16) with (18 * 2 ^ 16). change (Z.shiftl 0x20 16) with (32 * 2 ^ 16). intros Ho. unfold exec_xchg1. assert (2 <= arg0 (Z.shiftr opcode 16)) as H2.
  { unfold arg0. change 15 with (Z.ones 4). rewrite Z.land_ones, Z.shiftr_div_pow2 by lia.
    pose proof (Z.div_le_lower_bound opcode (2 ^ 16) 18 ltac:(lia) ltac:(lia)).
    pose proof (Z.div_lt_upper_bound opcode (2 ^ 16) 32 ltac:(lia) ltac:(lia)).
    pose proof (Z.div_mod (opcode / 2 ^ 16) (2 ^ 4) ltac:(lia)). pose proof (Z.mod_pos_bound (opcode / 2 ^ 16) (2 ^ 4) ltac:(lia)). lia. }
  cbv zeta. destruct (Z.ltb_spec (arg0 (Z.shiftr opcode 16)) 2); [lia|]. safe_go.
Qed.

Ltac term_head t := match t with ?f _ => term_head f | _ => t end.
Ltac op_safe :=
  first [simple apply simple_safe | simple apply fixed_safe; intros ? | simple apply range_safe; intros ? ?];
  first [ apply roll_safe | apply rollrev_safe | apply blkpush_safe | apply onlytop_safe
        | apply xchg1_safe; assumption
        | match goal with |- safe ?m => let h := term_head m in unfold h end; safe_go ].

Lemma stack_ops_safe : Forall instr_safe stack_ops.
Proof. unfold stack_ops. repeat (apply Forall_cons_2; [op_safe|]). apply Forall_nil. Qed.

End StackSafety.
