(* ===== verification/StackMoves.v ===== *)
(** * What the stack instructions do ([crypto/vm/stackops.cpp])

    The compound instructions as sequences of basic ones, and the instructions that move,
    drop and copy blocks of entries as functions of the stack. *)
From S2P Require Import Prelude BigInt RefInt Stack OpTable StackOps.

Section StackMoves.
Context `{RT : RefTypes}.

(** ** Correctness of the compound instructions *)

(** [XCHG s(i),s(j)], [PUSH s(i)] and a sequence of two instructions. *)
Definition xchg (i j : Z) : VM unit := _ ← check_underflow_p [i; j]; swap i j.
Definition push_s (i : Z) : VM unit := _ ← check_underflow_p [i]; push_at i.
Definition seq_vm (m1 m2 : VM unit) : VM unit := _ ← m1; m2.

Ltac compound args :=
  intros st; unfold seq_vm, push_s, xchg, push_at; cbv zeta;
  pose proof (arg0_range args); pose proof (arg1_range args); pose proof (arg2_range args);
  pose proof (depth_nonneg (stack st)); vm_run; vm_exec; try reflexivity.

(** C35. Every compound instruction does, on every stack, what the sequence of basic
    instructions named by its mnemonic does: the same new stack, or the same exception. *)
Theorem compound_is_sequence args st : let x := arg2 args in let y := arg1 args in let z := arg0 args in
  exec_xchg2 args st = seq_vm (xchg 1 y) (xchg 0 z) st /\
  exec_xcpu args st = seq_vm (xchg 0 y) (push_s z) st /\
  exec_puxc args st = seq_vm (push_s y) (seq_vm exec_swap (xchg 0 z)) st /\
  exec_push2 args st = seq_vm (push_s y) (push_s (z + 1)) st /\
  exec_xchg3 args st = seq_vm (xchg 2 x) (seq_vm (xchg 1 y) (xchg 0 z)) st /\
  exec_xc2pu args st = seq_vm (xchg 1 x) (seq_vm (xchg 0 y) (push_s z)) st /\
  exec_xcpuxc args st = seq_vm (xchg 1 x) (exec_puxc args) st /\
  exec_xcpu2 args st = seq_vm (xchg 0 x) (exec_push2 args) st /\
  exec_puxc2 args st = seq_vm (push_s x) (seq_vm (xchg 2 0) (exec_xchg2 args)) st /\
  exec_puxcpu args st = seq_vm (push_s x) (seq_vm exec_swap (seq_vm (xchg 0 y) (push_s z))) st /\
  exec_pu2xc args st = seq_vm (push_s x) (seq_vm exec_swap (exec_puxc args)) st /\
  exec_push3 args st = seq_vm (push_s x) (seq_vm (push_s (y + 1)) (push_s (z + 2))) st.
Proof.
  cbv zeta. unfold exec_xchg2, exec_xcpu, exec_puxc, exec_push2, exec_xchg3, exec_xc2pu, exec_xcpuxc, exec_xcpu2,
    exec_puxc2, exec_puxcpu, exec_pu2xc, exec_push3, exec_push2, exec_swap.
  split; [|split; [|split; [|split; [|split; [|split; [|split; [|split; [|split; [|split; [|split]]]]]]]]]];
    revert st; compound args.
Qed.

(** The outcome of an instruction that needs [n] entries and rearranges the stack. *)
Definition rearranges (n : Z) (f : list StackEntry -> list StackEntry) (m : VM unit) (st : VmState) : Prop :=
  m st = if n <=? depth (stack st) then Done (tt, with_stack st (f (stack st))) else Throw stk_und (core st).

(** [SWAP], [ROT], [ROTREV], [2SWAP], [BLKSWAP] and [REVERSE] exchange or reverse blocks
    of entries; fewer entries are a stack underflow. *)
Theorem block_moves args st :
  rearranges 2 (swap_blocks 1 1) exec_swap st /\
  rearranges 3 (swap_blocks 1 2) exec_rot st /\
  rearranges 3 (swap_blocks 2 1) exec_rotrev st /\
  rearranges 4 (swap_blocks 2 2) exec_2swap st /\
  (let x := arg1 args + 1 in let y := arg0 args + 1 in
   rearranges (x + y) (swap_blocks (Z.to_nat x) (Z.to_nat y)) (exec_blkswap args) st) /\
  (let x := arg1 args + 2 in let y := arg0 args in
   rearranges (x + y) (fun s => take (Z.to_nat y) s ++ rev (take (Z.to_nat x) (drop (Z.to_nat y) s)) ++ drop (Z.to_nat (x + y)) s)
     (exec_reverse args) st).
Proof.
  assert (forall (m : VM unit) n f, (depth (stack st) < n -> m st = Throw stk_und (core st)) ->
    (n <= depth (stack st) -> m st = Done (tt, with_stack st (f (stack st)))) ->
    rearranges n f m st) as W.
  { intros m n f H1 H2. unfold rearranges. by destruct (Z.leb_spec n (depth (stack st))); auto. }
  pose proof (depth_nonneg (stack st)).
  split; [|split; [|split; [|split; [|split]]]]; cbv zeta; apply W; intros Hd;
    unfold exec_swap, exec_rot, exec_rotrev, exec_2swap, exec_blkswap, exec_reverse; cbv zeta; arg_ranges; vm_run; vm_exec; try done.
  1-4: destruct (stack st) as [|a [|b [|c [|d s]]]]; unfold depth in Hd; cbn [length] in Hd; first [lia|done].
  - rewrite blkswap_run by lia. done.
  - unfold reverse_seg. by replace (Z.to_nat (arg1 args + 2 + arg0 args) - Z.to_nat (arg0 args))%nat with (Z.to_nat (arg1 args + 2)) by lia.
Qed.

(** ** Instructions with a number of entries on the stack *)

(** The top of the stack is a small integer. *)
Definition has_arg (st : VmState) (n : Z) (s : list StackEntry) : Prop :=
  exists x, stack st = se_int x :: s /\ to_long_any x = n /\ 0 <= n <= 255.

Lemma small_arg_run st n s : has_arg st n s -> pop_smallint_range 255 0 st = Done (n, with_stack st s).
Proof.
  intros (x & Hs & Hx & Hn). rewrite pop_smallint_run. unfold small_arg. rewrite Hs. cbn [as_int]. rewrite Hx.
  destruct (Z.ltb_spec 255 n); [lia|]. destruct (Z.ltb_spec n 0); [lia|]. cbn [orb]. by rewrite wraps_small by lia.
Qed.

(** After its argument [n], an instruction that needs [k] more entries. *)
Lemma dyn_run (body : Z -> VM unit) n s st : has_arg st n s ->
  (_ ← check_underflow [1]; x ← pop_smallint_range 255 0; body x) st = body n (with_stack st s).
Proof.
  intros Ha. vm_run. rewrite check_run. cbn [forallb]. pose proof Ha as (x & Hs & _). rewrite Hs at 1. rewrite depth_cons.
  pose proof (depth_nonneg s). destruct (Z.leb_spec 1 (depth s + 1)); [|lia]. cbn [andb]. by rewrite (small_arg_run st n s Ha).
Qed.

Lemma roll_is_block n s : (n < length s)%nat -> entry n s :: take n s ++ drop (S n) s = swap_blocks 1 n s.
Proof. intros Hn. unfold swap_blocks. by rewrite (entry_drop n s Hn). Qed.

Lemma rollrev_is_block n s : (n < length s)%nat -> take n (drop 1 s) ++ entry 0 s :: drop (S n) s = swap_blocks n 1 s.
Proof.
  intros Hn. unfold swap_blocks. destruct s as [|e s]; [simpl in Hn; lia|]. by replace (n + 1)%nat with (S n) by lia.
Qed.

(** The instructions that take the number of entries from the stack: [PICK] copies, [ROLL],
    [ROLLREV] and [XCHGX] move, [DROPX], [ONLYTOPX] and [ONLYX] drop entries; too few entries
    are an underflow. *)
Theorem dynamic_moves st n s : has_arg st n s ->
  let k := Z.to_nat n in
  let over (m : VM unit) f := m st = if n <? depth s then Done (tt, with_stack st (f s)) else Throw stk_und (core st) in
  let upto (m : VM unit) f := m st = if n <=? depth s then Done (tt, with_stack st (f s)) else Throw stk_und (core st) in
  over exec_pick (fun s => entry k s :: s) /\
  over exec_roll (swap_blocks 1 k) /\
  over exec_rollrev (swap_blocks k 1) /\
  over exec_xchg_x (swap_list 0 k) /\
  upto exec_drop_x (drop k) /\
  upto exec_chkdepth (fun s => s) /\
  upto exec_onlytop_x (take k) /\
  upto exec_only_x (fun s => drop (length s - k) s).
Proof.
  intros Ha. cbv zeta. pose proof Ha as (x & Hs & Hx & Hn). pose proof (depth_nonneg s).
  split; [|split; [|split; [|split; [|split; [|split; [|split]]]]]].
  - unfold exec_pick. rewrite (dyn_run _ n s) by done. unfold push_at. vm_run. vm_exec; done.
  - unfold exec_roll. rewrite (dyn_run _ n s) by done. vm_run. vm_exec; [|done].
    rewrite roll_down_run by vm_bounds. autorewrite with vm_state. rewrite roll_is_block; [done|]. unfold depth in *. lia.
  - unfold exec_rollrev. rewrite (dyn_run _ n s) by done. vm_run. vm_exec; [|done].
    change 0 with (Z.of_nat 0). rewrite roll_up_run by vm_bounds. autorewrite with vm_state. cbn [take app Nat.add].
    rewrite rollrev_is_block; [done|]. unfold depth in *. lia.
  - unfold exec_xchg_x. rewrite (dyn_run _ n s) by done. vm_run. vm_exec; done.
  - unfold exec_drop_x. rewrite (dyn_run _ n s) by done. vm_run. vm_exec; done.
  - unfold exec_chkdepth. rewrite (dyn_run _ n s) by done. vm_run. vm_exec; done.
  - unfold exec_onlytop_x. rewrite (dyn_run _ n s) by done. vm_run. vm_exec; [| |done].
    + autorewrite with vm_state in *. destruct (move_top_run (depth s - n) (Z.to_nat (depth s - (depth s - n))) (with_stack st s)) as (s' & -> & Hl & Hd);
        [lia|autorewrite with vm_state; lia|].
      cbv beta iota. autorewrite with vm_state in *. rewrite pop_many_run by (autorewrite with vm_state; unfold depth in *; lia).
      autorewrite with vm_state. rewrite Hd. unfold depth in *. rewrite drop_ge by lia. rewrite app_nil_r. do 4 f_equal. lia.
    + autorewrite with vm_state in *. replace (Z.to_nat (depth s - n)) with 0%nat by lia.
      by rewrite drop_0, take_ge by (unfold depth in *; lia).
  - unfold exec_only_x. rewrite (dyn_run _ n s) by done. vm_run. vm_exec; [|done].
    do 4 f_equal. unfold depth in *. lia.
Qed.

End StackMoves.

(** ** The theorems at work *)

#[local] Existing Instance unit_refs.

Definition sample_stack : list StackEntry := [se_int [10]; se_null; se_int [12]].

Lemma dynamic_moves_witness :
  has_arg (machine (se_int [2] :: sample_stack)) 2 sample_stack /\
  exec_roll (machine (se_int [2] :: sample_stack)) = Done (tt, machine [se_int [12]; se_int [10]; se_null]).
Proof.
  assert (has_arg (machine (se_int [2] :: sample_stack)) 2 sample_stack) as Ha by (exists [2]; by split; [|split; [|lia]]).
  split; [exact Ha|]. exact (proj1 (proj2 (dynamic_moves (machine (se_int [2] :: sample_stack)) 2 _ Ha))).
Defined.
