(* ===== verification/ArithOps.v ===== *)
(** * Arithmetic instructions ([crypto/vm/arithops.cpp])

    The instructions on integers, plain ([quiet = false]) and quiet.  Those that divide are
    not modelled, nor is [PUSHINT] of a long constant, which reads the code slice. *)
From S2P Require Import Prelude BigInt BigIntOps BigIntShift RefInt Stack OpTable StackOps.

(** ** [bit_size_any] *)

(** [64 - count_leading_zeroes64(q)] *)
Definition bit_len64 (q : Z) : Z := let u := u64 q in if u =? 0 then 0 else Z.log2 u + 1.

(** [while (k > 0)]: the digits below, from the top; the result says whether the bound is
    passed ([up]), passed below, or decided by the sign of what is left. *)
Fixpoint bit_size_loop (q : Z) (rest : digits) : comparison :=
  match rest with
  | [] => if 0 <=? q then Gt else Lt
  | d :: rest' =>
      if Z.shiftr MaxDenorm 1 <=? q then Gt
      else if q <=? - Z.shiftr MaxDenorm 1 then Lt
      else bit_size_loop (s64 (s64 (Z.shiftl q word_shift) + d)) rest'
  end.

(** The two top digits are joined when the top one is small. *)
Definition bit_size_top (small : Z -> bool) (x : digits) : Z * digits :=
  match rev x with
  | [] => (0, [])
  | q :: rest =>
      match rest with
      | d :: rest' => if small q then (s64 (s64 (Z.shiftl q word_shift) + d), rest') else (q, rest)
      | [] => (q, [])
      end
  end.

Definition bit_size_nan : Z := 2 ^ 31 - 1.

Definition bit_size_any (sgnd : bool) (x : digits) : Z :=
  if negb (is_valid x) then bit_size_nan
  else
    let sg := sgn x in
    if sg =? 0 then 0
    else if 0 <=? sg then
      let (q, rest) := bit_size_top (fun q => q <? Z.shiftr MaxDenorm 1) x in
      match rest with
      | [] => bit_len64 q + Z.b2z sgnd
      | _ =>
          let s := bit_len64 (s64 (q - Z.shiftr MaxDenorm 2)) in
          let q := s64 (q - s64 (Z.shiftl 1 s)) in
          let s := s + Z.of_nat (length rest) * word_shift + Z.b2z sgnd in
          match bit_size_loop q rest with Gt => s + 1 | _ => s end
      end
    else if sgnd then
      let (q, rest) := bit_size_top (fun q => - Z.shiftr MaxDenorm 1 <? q) x in
      match rest with
      | [] => bit_len64 (Z.lnot q) + 1
      | _ =>
          let s := bit_len64 (s64 (- q - Z.shiftr MaxDenorm 2)) in
          let q := s64 (q + s64 (Z.shiftl 1 s)) in
          let s := s + Z.of_nat (length rest) * word_shift + 1 in
          match bit_size_loop q rest with Gt => s | _ => s + 1 end
      end
    else bit_size_nan.

Section ArithOps.
Context `{RT : RefTypes}.

(** ** Integer constants *)

Definition exec_push_tinyint4 (args : Z) : VM unit := push_smallint (Z.land (args + 5) 15 - 5).
Definition exec_push_tinyint8 (args : Z) : VM unit := push_smallint (s8 args).
Definition exec_push_smallint (args : Z) : VM unit := push_smallint (s16 args).

Definition set_pow2 (x : Z) : digits := set_pow2_any word_cnt x.
Definition exec_push_pow2 (args : Z) : VM unit := let x := arg_l args + 1 in push (se_int (set_pow2 x)).
Definition exec_push_nan : VM unit := push (se_int NaN).
Definition exec_push_pow2dec (args : Z) : VM unit :=
  let x := arg_l args + 1 in push (se_int (normalize (add_tiny (-1) (set_pow2 x)))).
Definition exec_push_negpow2 (args : Z) : VM unit :=
  let x := arg_l args + 1 in push (se_int (normalize (negate_any (set_pow2 x)))).

(** [PUSHPOW2] 256 is [PUSHNAN]. *)
Definition int_const_ops : list OpcodeInstr :=
  [ mkfixed 0x7 4 4 exec_push_tinyint4; mkfixed 0x80 8 8 exec_push_tinyint8; mkfixed 0x81 8 16 exec_push_smallint;
    mkfixedrange 0x8300 0x83ff 16 8 exec_push_pow2; mksimple 0x83ff 16 exec_push_nan;
    mkfixed 0x84 8 8 exec_push_pow2dec; mkfixed 0x85 8 8 exec_push_negpow2 ].
(** As far as the instructions are modelled. *)
Definition register_int_const_ops (cp0 : OpcodeTable) : option OpcodeTable := insert_all int_const_ops cp0.

(** ** Addition and multiplication *)

Definition exec_add (quiet : bool) : VM unit :=
  _ ← check_underflow [2]; y ← pop_int; x ← pop_int; push_int_quiet (refint_add x y) quiet.
Definition exec_sub (quiet : bool) : VM unit :=
  _ ← check_underflow [2]; y ← pop_int; x ← pop_int; push_int_quiet (refint_sub x y) quiet.
Definition exec_subr (quiet : bool) : VM unit :=
  _ ← check_underflow [2]; y ← pop_int; x ← pop_int; push_int_quiet (refint_sub y x) quiet.
Definition exec_negate (quiet : bool) : VM unit :=
  _ ← check_underflow [1]; x ← pop_int; push_int_quiet (refint_neg x) quiet.
Definition exec_inc (quiet : bool) : VM unit :=
  _ ← check_underflow [1]; x ← pop_int; push_int_quiet (refint_add_word x 1) quiet.
Definition exec_dec (quiet : bool) : VM unit :=
  _ ← check_underflow [1]; x ← pop_int; push_int_quiet (refint_sub_word x 1) quiet.
Definition exec_add_tinyint8 (quiet : bool) (args : Z) : VM unit :=
  _ ← check_underflow [1]; x ← pop_int; push_int_quiet (refint_add_word x (s8 args)) quiet.
Definition exec_mul_tinyint8 (quiet : bool) (args : Z) : VM unit :=
  _ ← check_underflow [1]; x ← pop_int; push_int_quiet (refint_mul_word x (s8 args)) quiet.
Definition exec_mul (quiet : bool) : VM unit :=
  _ ← check_underflow [2]; y ← pop_int; x ← pop_int; push_int_quiet (refint_mul x y) quiet.

Definition add_mul_ops : list OpcodeInstr :=
  [ mksimple 0xa0 8 (exec_add false); mksimple 0xa1 8 (exec_sub false); mksimple 0xa2 8 (exec_subr false);
    mksimple 0xa3 8 (exec_negate false); mksimple 0xa4 8 (exec_inc false); mksimple 0xa5 8 (exec_dec false);
    mkfixed 0xa6 8 8 (exec_add_tinyint8 false); mkfixed 0xa7 8 8 (exec_mul_tinyint8 false); mksimple 0xa8 8 (exec_mul false);
    mksimple 0xb7a0 16 (exec_add true); mksimple 0xb7a1 16 (exec_sub true); mksimple 0xb7a2 16 (exec_subr true);
    mksimple 0xb7a3 16 (exec_negate true); mksimple 0xb7a4 16 (exec_inc true); mksimple 0xb7a5 16 (exec_dec true);
    mkfixed 0xb7a6 16 8 (exec_add_tinyint8 true); mkfixed 0xb7a7 16 8 (exec_mul_tinyint8 true);
    mksimple 0xb7a8 16 (exec_mul true) ].
Definition register_add_mul_ops (cp0 : OpcodeTable) : option OpcodeTable := insert_all add_mul_ops cp0.

(** ** Shifts and bitwise logic *)

Definition exec_lshift_tinyint8 (quiet : bool) (args : Z) : VM unit :=
  let n := arg_l args + 1 in _ ← check_underflow [1]; x ← pop_int; push_int_quiet (refint_shl x n) quiet.
Definition exec_rshift_tinyint8 (quiet : bool) (args : Z) : VM unit :=
  let n := arg_l args + 1 in _ ← check_underflow [1]; x ← pop_int; push_int_quiet (refint_shr x n) quiet.
Definition exec_lshift (quiet : bool) : VM unit :=
  _ ← check_underflow [2]; n ← pop_smallint_range 1023 0; x ← pop_int; push_int_quiet (refint_shl x n) quiet.
Definition exec_rshift (quiet : bool) : VM unit :=
  _ ← check_underflow [2]; n ← pop_smallint_range 1023 0; x ← pop_int; push_int_quiet (refint_shr x n) quiet.
Definition exec_pow2 (quiet : bool) : VM unit :=
  _ ← check_underflow [1]; n ← pop_smallint_range 1023 0; push_int_quiet (set_pow2 n) quiet.
Definition exec_and (quiet : bool) : VM unit :=
  _ ← check_underflow [2]; y ← pop_int; x ← pop_int; push_int_quiet (refint_and x y) quiet.
Definition exec_or (quiet : bool) : VM unit :=
  _ ← check_underflow [2]; y ← pop_int; x ← pop_int; push_int_quiet (refint_or x y) quiet.
Definition exec_xor (quiet : bool) : VM unit :=
  _ ← check_underflow [2]; y ← pop_int; x ← pop_int; push_int_quiet (refint_xor x y) quiet.
Definition exec_not (quiet : bool) : VM unit :=
  _ ← check_underflow [1]; x ← pop_int; push_int_quiet (refint_not x) quiet.

(** [invalidate_unless] of the operand. *)
Definition keep_if (b : bool) (x : digits) : digits := if b then x else NaN.
Definition exec_fits_tinyint8 (quiet : bool) (args : Z) : VM unit :=
  let y := arg_l args + 1 in
  _ ← check_underflow [1]; x ← pop_int; push_int_quiet (keep_if (signed_fits_bits_any x y) x) quiet.
Definition exec_ufits_tinyint8 (quiet : bool) (args : Z) : VM unit :=
  let y := arg_l args + 1 in
  _ ← check_underflow [1]; x ← pop_int; push_int_quiet (keep_if (unsigned_fits_bits_any x y) x) quiet.
Definition exec_fits (quiet : bool) : VM unit :=
  _ ← check_underflow [2]; y ← pop_smallint_range 1023 0; x ← pop_int;
  push_int_quiet (keep_if (signed_fits_bits_any x y) x) quiet.
Definition exec_ufits (quiet : bool) : VM unit :=
  _ ← check_underflow [2]; y ← pop_smallint_range 1023 0; x ← pop_int;
  push_int_quiet (keep_if (unsigned_fits_bits_any x y) x) quiet.
Definition exec_bitsize (sgnd quiet : bool) : VM unit :=
  _ ← check_underflow [1]; x ← pop_int;
  let y := bit_size_any sgnd x in
  if y <? bit_size_nan then push_smallint y
  else if negb quiet then throw range_chk
  else push_int_quiet NaN quiet.

Definition shift_logic_ops : list OpcodeInstr :=
  [ mkfixed 0xaa 8 8 (exec_lshift_tinyint8 false); mkfixed 0xab 8 8 (exec_rshift_tinyint8 false);
    mksimple 0xac 8 (exec_lshift false); mksimple 0xad 8 (exec_rshift false); mksimple 0xae 8 (exec_pow2 false);
    mksimple 0xb0 8 (exec_and false); mksimple 0xb1 8 (exec_or false); mksimple 0xb2 8 (exec_xor false);
    mksimple 0xb3 8 (exec_not false); mkfixed 0xb4 8 8 (exec_fits_tinyint8 false);
    mkfixed 0xb5 8 8 (exec_ufits_tinyint8 false); mksimple 0xb600 16 (exec_fits false);
    mksimple 0xb601 16 (exec_ufits false); mksimple 0xb602 16 (exec_bitsize true false);
    mksimple 0xb603 16 (exec_bitsize false false);
    mkfixed 0xb7aa 16 8 (exec_lshift_tinyint8 true); mkfixed 0xb7ab 16 8 (exec_rshift_tinyint8 true);
    mksimple 0xb7ac 16 (exec_lshift true); mksimple 0xb7ad 16 (exec_rshift true); mksimple 0xb7ae 16 (exec_pow2 true);
    mksimple 0xb7b0 16 (exec_and true); mksimple 0xb7b1 16 (exec_or true); mksimple 0xb7b2 16 (exec_xor true);
    mksimple 0xb7b3 16 (exec_not true); mkfixed 0xb7b4 16 8 (exec_fits_tinyint8 true);
    mkfixed 0xb7b5 16 8 (exec_ufits_tinyint8 true); mksimple 0xb7b600 24 (exec_fits true);
    mksimple 0xb7b601 24 (exec_ufits true); mksimple 0xb7b602 24 (exec_bitsize true true);
    mksimple 0xb7b603 24 (exec_bitsize false true) ].
Definition register_shift_logic_ops (cp0 : OpcodeTable) : option OpcodeTable := insert_all shift_logic_ops cp0.

(** ** Minimum, maximum, absolute value *)

(** The two operands in order; an invalid one replaces the other. *)
Definition min_max (x y : digits) : digits * digits :=
  if negb (is_valid x) then (x, x)
  else if negb (is_valid y) then (y, y)
  else if 0 <? RefInt.cmp x y then (y, x) else (x, y).
Definition exec_minmax (mode : Z) : VM unit :=
  _ ← check_underflow [2]; x ← pop_int; y ← pop_int;
  let quiet := Z.testbit mode 0 in
  let (x, y) := min_max x y in
  _ ← (if Z.testbit mode 1 then push_int_quiet x quiet else mret tt);
  if Z.testbit mode 2 then push_int_quiet y quiet else mret tt.

Definition exec_abs (quiet : bool) : VM unit :=
  _ ← check_underflow [1]; x ← pop_int;
  push_int_quiet (if is_valid x && (sgn x <? 0) then refint_neg x else x) quiet.

Definition other_arith_ops : list OpcodeInstr :=
  [ mksimple 0xb608 16 (exec_minmax 2); mksimple 0xb609 16 (exec_minmax 4); mksimple 0xb60a 16 (exec_minmax 6);
    mksimple 0xb60b 16 (exec_abs false); mksimple 0xb7b608 24 (exec_minmax 3); mksimple 0xb7b609 24 (exec_minmax 5);
    mksimple 0xb7b60a 24 (exec_minmax 7); mksimple 0xb7b60b 24 (exec_abs true) ].
Definition register_other_arith_ops (cp0 : OpcodeTable) : option OpcodeTable := insert_all other_arith_ops cp0.

(** ** Comparison *)

(** The answer for the comparison result [z] is a digit of [mode], less 8. *)
Definition mode_answer (mode z : Z) : Z := Z.land (Z.shiftr mode (4 + z * 4)) 15 - 8.

Definition exec_sgn (mode : Z) (quiet : bool) : VM unit :=
  _ ← check_underflow [1]; x ← pop_int;
  if negb (is_valid x) then push_int_quiet x quiet else push_smallint (mode_answer mode (sgn x)).
Definition exec_cmp (mode : Z) (quiet : bool) : VM unit :=
  _ ← check_underflow [2]; y ← pop_int; x ← pop_int;
  if negb (is_valid x) || negb (is_valid y) then push_int_quiet x quiet
  else push_smallint (mode_answer mode (RefInt.cmp x y)).
Definition exec_cmp_int (mode : Z) (quiet : bool) (args : Z) : VM unit :=
  let y := s8 args in
  _ ← check_underflow [1]; x ← pop_int;
  if negb (is_valid x) then push_int_quiet x quiet else push_smallint (mode_answer mode (cmp_word x y)).
Definition exec_is_nan : VM unit :=
  _ ← check_underflow [1]; x ← pop_int; push_smallint (if is_valid x then 0 else -1).
Definition exec_chk_nan : VM unit := _ ← check_underflow [1]; x ← pop_int; push_int x.

Definition int_cmp_ops : list OpcodeInstr :=
  [ mksimple 0xb8 8 (exec_sgn 0x987 false); mksimple 0xb9 8 (exec_cmp 0x887 false); mksimple 0xba 8 (exec_cmp 0x878 false);
    mksimple 0xbb 8 (exec_cmp 0x877 false); mksimple 0xbc 8 (exec_cmp 0x788 false); mksimple 0xbd 8 (exec_cmp 0x787 false);
    mksimple 0xbe 8 (exec_cmp 0x778 false); mksimple 0xbf 8 (exec_cmp 0x987 false);
    mkfixed 0xc0 8 8 (exec_cmp_int 0x878 false); mkfixed 0xc1 8 8 (exec_cmp_int 0x887 false);
    mkfixed 0xc2 8 8 (exec_cmp_int 0x788 false); mkfixed 0xc3 8 8 (exec_cmp_int 0x787 false);
    mksimple 0xc4 8 exec_is_nan; mksimple 0xc5 8 exec_chk_nan;
    mksimple 0xb7b8 16 (exec_sgn 0x987 true); mksimple 0xb7b9 16 (exec_cmp 0x887 true); mksimple 0xb7ba 16 (exec_cmp 0x878 true);
    mksimple 0xb7bb 16 (exec_cmp 0x877 true); mksimple 0xb7bc 16 (exec_cmp 0x788 true); mksimple 0xb7bd 16 (exec_cmp 0x787 true);
    mksimple 0xb7be 16 (exec_cmp 0x778 true); mksimple 0xb7bf 16 (exec_cmp 0x987 true);
    mkfixed 0xb7c0 16 8 (exec_cmp_int 0x878 true); mkfixed 0xb7c1 16 8 (exec_cmp_int 0x887 true);
    mkfixed 0xb7c2 16 8 (exec_cmp_int 0x788 true); mkfixed 0xb7c3 16 8 (exec_cmp_int 0x787 true) ].
Definition register_int_cmp_ops (cp0 : OpcodeTable) : option OpcodeTable := insert_all int_cmp_ops cp0.

(** [register_arith_ops], without the instructions that divide. *)
Definition arith_ops : list OpcodeInstr := int_const_ops ++ add_mul_ops ++ shift_logic_ops ++ other_arith_ops ++ int_cmp_ops.
Definition register_arith_ops (cp0 : OpcodeTable) : option OpcodeTable :=
  t ← register_int_const_ops cp0; t ← register_add_mul_ops t; t ← register_shift_logic_ops t;
  t ← register_other_arith_ops t; register_int_cmp_ops t.

End ArithOps.

(** The bit size of values around powers of two. *)
Lemma bit_size_samples :
  map (bit_size_any true) [[0]; [1]; [-1]; [2 ^ 51 - 1]; [- 2 ^ 51; 1]; [0; 1]; [-1; 1]; [0; 0; 1]; [-1; 0; 1]]
  = [0; 2; 1; 52; 53; 54; 53; 106; 105]
  /\ map (bit_size_any false) [[0]; [1]; [-1]; [2 ^ 51 - 1]; [- 2 ^ 51; 1]; [0; 1]; [-1; 1]; [0; 0; 1]; [-1; 0; 1]]
  = [0; 1; 2 ^ 31 - 1; 51; 52; 53; 52; 105; 104].
Proof. by vm_compute. Qed.
