(* ===== verification/ArithSafe.v ===== *)
(** * The arithmetic instructions never leave the stack ([crypto/vm/arithops.cpp]) *)
From S2P Require Import Prelude BigInt RefInt Stack OpTable StackOps ArithOps.

Section ArithSafe.
Context `{RT : RefTypes}.

Ltac op_safe :=
  first [simple apply simple_safe | simple apply fixed_safe; intros ? | simple apply range_safe; intros ? ?];
  match goal with |- safe ?m => let rec head t := match t with ?f _ => head f | _ => t end in let h := head m in unfold h end;
  cbv zeta; vm_safe.

Lemma arith_ops_safe : Forall instr_safe arith_ops.
Proof.
  unfold arith_ops, int_const_ops, add_mul_ops, shift_logic_ops, other_arith_ops, int_cmp_ops. cbn [app].
  repeat (apply Forall_cons_2; [op_safe|]). apply Forall_nil.
Qed.

End ArithSafe.
