(* ===== verification/ArithSpec.v ===== *)
(** * What the arithmetic instructions compute ([crypto/vm/arithops.cpp])

    Integers on the stack are 257-bit or NaN ([vm_int]).  An instruction that computes the
    optional integer [v] leaves the number [v] in place of its operands, or, when [v] is
    missing or needs more than 257 bits, NaN if it is quiet and an integer overflow if not
    ([int_outcome]). *)
From S2P Require Import Prelude BigInt BigIntOps BigIntShift BigIntLog RefInt Stack OpTable StackOps ArithOps.

(** ** 257-bit integers *)

Definition in257 (v : Z) : Prop := - 2 ^ 256 <= v < 2 ^ 256.
#[export] Instance in257_dec v : Decision (in257 v).
Proof. unfold in257. solve_decision. Defined.

Definition vm_int (x : digits) : Prop := x = NaN \/ (wf word_cnt x /\ in257 (value x)).

(** The integer that may go on the stack. *)
Definition clamp (v : option Z) : option Z := a ← v; if decide (in257 a) then Some a else None.

Lemma vm_int_number x : vm_int x -> number x.
Proof. intros [->|[Hw _]]; [by left|by right]. Qed.

Lemma clamp_fit v : clamp (fit v) = clamp (Some v).
Proof.
  unfold fit. destruct (decide _) as [|Hno]; [done|]. cbn. destruct (decide (in257 v)) as [Hi|]; [|done].
  destruct Hno. pose proof (fit_small v ltac:(unfold in257 in Hi; lia)) as F. unfold fit in F. by destruct (decide _).
Qed.

Lemma fits257 x : wf word_cnt x -> signed_fits_bits_any x 257 = bool_decide (in257 (value x)).
Proof.
  intros [Hn _]. pose proof (signed_fits_bits_value x 257 Hn ltac:(lia)) as F.
  unfold fits_signed in F. change (257 - 1) with 256 in F.
  destruct (bool_decide_reflect (in257 (value x))) as [Hi|Hi]; [by apply F|].
  destruct (signed_fits_bits_any x 257); [|done]. destruct Hi. by apply F.
Qed.

(** A word of 52 bits is its own digit. *)
Lemma make_refint_small v : in_range v -> make_refint v = [v].
Proof.
  intros Hv. assert (wf 5 [v]) as Hw by (apply wf_one; [lia|done]).
  pose proof (normalize_exact 5 [v] v ltac:(done) ltac:(simpl; lia) (wf_digit_ok 5 _ Hw) (value_one v)) as E.
  apply exact_computes in E as [Hn Hv']. apply number_unique; [done|by right|].
  change (normalize_bool_any 5 [v]) with (make_refint v) in Hv'. rewrite Hv'. change (value_of [v]) with (Some (value [v])).
  rewrite value_one. apply fit_small. unfold in_range, Half in Hv. lia.
Qed.

Section ArithSpec.
Context `{RT : RefTypes}.

(** ** Outcomes *)

Definition int_outcome (quiet : bool) (v : option Z) (s : list StackEntry) (st : VmState) (out : outcome (unit * VmState)) : Prop :=
  match clamp v with
  | Some a => exists x, vm_int x /\ value_of x = Some a /\ out = Done (tt, with_stack st (se_int x :: s))
  | None => out = if quiet then Done (tt, with_stack st (se_int NaN :: s)) else Throw int_ov (core st)
  end.

Lemma push_quiet_outcome quiet r v s st : number r -> clamp (value_of r) = clamp v ->
  int_outcome quiet v s st (push_int_quiet r quiet (with_stack st s)).
Proof.
  intros Hr E. unfold int_outcome, push_int_quiet. rewrite <- E. destruct (number_cases r Hr) as [[-> Ev]|[Hw Ev]]; rewrite Ev.
  - cbn. by destruct quiet.
  - rewrite (fits257 r Hw). cbn. assert (is_valid r = true) as -> by (destruct Hw as [(Hne & _) _]; by destruct r).
    destruct (decide (in257 (value r))) as [Hi|Hi].
    + rewrite bool_decide_eq_true_2 by done. exists r. split; [by right|]. split; [done|]. done.
    + rewrite bool_decide_eq_false_2 by done. by destruct quiet.
Qed.

Lemma computes_outcome quiet r v w s st : computes r v -> clamp v = clamp w ->
  int_outcome quiet w s st (push_int_quiet r quiet (with_stack st s)).
Proof. intros [Hn <-] E. by apply push_quiet_outcome. Qed.

(** ** Operands *)

Lemma pop_int_run x s st : stack st = se_int x :: s -> pop_int st = Done (x, with_stack st s).
Proof.
  intros Hs. unfold pop_int, pop_as. vm_run. rewrite check_run, Hs, depth_cons. cbn [forallb]. pose proof (depth_nonneg s).
  destruct (Z.leb_spec 1 (depth s + 1)); [|lia]. cbn [andb]. by rewrite (pop_run _ _ _ Hs).
Qed.

Lemma run_unary (k : digits -> VM unit) x s st : stack st = se_int x :: s ->
  (_ ← check_underflow [1]; x ← pop_int; k x) st = k x (with_stack st s).
Proof.
  intros Hs. vm_run. rewrite check_run, Hs, depth_cons. cbn [forallb]. pose proof (depth_nonneg s).
  destruct (Z.leb_spec 1 (depth s + 1)); [|lia]. cbn [andb]. by rewrite (pop_int_run x s st Hs).
Qed.

Lemma run_binary (k : digits -> digits -> VM unit) x y s st : stack st = se_int y :: se_int x :: s ->
  (_ ← check_underflow [2]; y ← pop_int; x ← pop_int; k y x) st = k y x (with_stack st s).
Proof.
  intros Hs. vm_run. rewrite check_run, Hs, !depth_cons. cbn [forallb]. pose proof (depth_nonneg s).
  destruct (Z.leb_spec 2 (depth s + 1 + 1)); [|lia]. cbn [andb]. rewrite (pop_int_run y _ st Hs).
  by rewrite (pop_int_run x s (with_stack st (se_int x :: s))).
Qed.

(** The operands as optional integers. *)
Definition lift2 (f : Z -> Z -> Z) (x y : digits) : option Z := a ← value_of x; b ← value_of y; Some (f a b).
Definition lift1 (f : Z -> Z) (x : digits) : option Z := a ← value_of x; Some (f a).

Lemma clamp_lift2 f x y : clamp (a ← value_of x; b ← value_of y; fit (f a b)) = clamp (lift2 f x y).
Proof. unfold lift2. destruct (value_of x), (value_of y); cbn; try done. apply clamp_fit. Qed.
Lemma clamp_lift1 f x : clamp (a ← value_of x; fit (f a)) = clamp (lift1 f x).
Proof. unfold lift1. destruct (value_of x); cbn; try done. apply clamp_fit. Qed.

Lemma s8_range x : - 2 ^ 7 <= s8 x < 2 ^ 7.
Proof. apply (wraps_range 8). lia. Qed.

Lemma mul_outcome quiet x y s st : vm_int x -> vm_int y ->
  int_outcome quiet (lift2 Z.mul x y) s st (push_int_quiet (refint_mul x y) quiet (with_stack st s)).
Proof.
  intros Hx Hy. destruct Hx as [->|[Wx Rx]].
  { apply (computes_outcome _ _ None); [apply nan_computes|done]. }
  destruct Hy as [->|[Wy Ry]].
  { unfold refint_mul. destruct x as [|d x]; (apply (computes_outcome _ _ None); [apply nan_computes|done]). }
  unfold lift2. rewrite !(value_of_wf 5) by done. cbn [mbind option_bind].
  destruct (mul_exact x y Wx Wy) as [Hor Hfit]. fold zero_refint in Hor, Hfit.
  change (normalize_bool_any 5 (add_mul_any 5 zero_refint x y)) with (refint_mul x y) in *.
  apply push_quiet_outcome.
  - destruct Hor as [->|[Hw _]]; [by left|by right].
  - destruct (decide (in257 (value x * value y))) as [Hi|Hi].
    + destruct (Hfit Hi) as [Hw E]. by rewrite (value_of_wf 5), E.
    + destruct Hor as [->|[Hw E]]; [cbn; by rewrite decide_False|]. by rewrite (value_of_wf 5), E.
Qed.

Lemma mul_word_outcome quiet x w s st : vm_int x -> - 2 ^ 9 <= w <= 2 ^ 9 ->
  int_outcome quiet (lift1 (fun a => a * w) x) s st (push_int_quiet (refint_mul_word x w) quiet (with_stack st s)).
Proof.
  intros Hx Hw. destruct Hx as [->|[Wx Rx]].
  { apply (computes_outcome _ _ None); [|done]. unfold refint_mul_word, mul_short_opt. destruct (_ && _); apply nan_computes. }
  apply (computes_outcome _ _ (fit (value x * w))).
  2:{ unfold lift1. rewrite (value_of_wf 5) by done. apply clamp_fit. }
  destruct Wx as [(Hx0 & Hxr & _) Hxl]. destruct (mul_tiny_spec w x Hw Hxr) as (E & Hok & Hl).
  apply exact_computes. unfold refint_mul_word, mul_short_opt, MaxDenorm.
  destruct (Z.leb_spec w (2 ^ 11)); [|lia]. destruct (Z.leb_spec (- 2 ^ 11) w); [|lia]. cbn [andb].
  apply normalize_exact; [by destruct x|unfold word_cnt in *; lia|done|done].
Qed.

Lemma add_word_outcome quiet x w s st : vm_int x -> - 2 ^ 9 <= w <= 2 ^ 9 ->
  int_outcome quiet (lift1 (fun a => a + w) x) s st (push_int_quiet (refint_add_word x w) quiet (with_stack st s)).
Proof.
  intros Hx Hw. eapply computes_outcome; [|apply clamp_lift1].
  apply (unary_computes (fun x => refint_add_word x w) (fun a => a + w)); [done| |by apply vm_int_number].
  intros. apply add_tiny_exact; [done|lia].
Qed.

Lemma neg_outcome quiet x s st : vm_int x ->
  int_outcome quiet (lift1 Z.opp x) s st (push_int_quiet (refint_neg x) quiet (with_stack st s)).
Proof.
  intros Hx. eapply computes_outcome; [|apply clamp_lift1].
  apply (unary_computes refint_neg Z.opp); [done|apply negate_exact|by apply vm_int_number].
Qed.

Lemma linear_outcome f quiet x y s st : f = Z.add \/ f = Z.sub -> vm_int x -> vm_int y ->
  int_outcome quiet (lift2 f x y) s st (push_int_quiet (normalize (addsub_any f word_cnt x y)) quiet (with_stack st s)).
Proof.
  intros Hf Hx Hy. eapply computes_outcome; [|apply clamp_lift2]. apply linear_computes; [done| |]; by apply vm_int_number.
Qed.

(** C36. [ADD], [SUB], [SUBR] and [MUL] compute the integer operation on two 257-bit operands;
    a result of more than 257 bits, or a NaN operand, is an overflow or a quiet NaN. *)
Theorem binary_arith quiet x y s st : vm_int x -> vm_int y -> stack st = se_int y :: se_int x :: s ->
  int_outcome quiet (lift2 Z.add x y) s st (exec_add quiet st) /\
  int_outcome quiet (lift2 Z.sub x y) s st (exec_sub quiet st) /\
  int_outcome quiet (lift2 Z.sub y x) s st (exec_subr quiet st) /\
  int_outcome quiet (lift2 Z.mul x y) s st (exec_mul quiet st).
Proof.
  intros Hx Hy Hs. unfold exec_add, exec_sub, exec_subr, exec_mul.
  rewrite !(run_binary _ x y s st Hs).
  split; [|split; [|split]]; [apply linear_outcome; auto|apply linear_outcome; auto|apply linear_outcome; auto|by apply mul_outcome].
Qed.

(** [NEGATE], [INC], [DEC], [ADDINT], [MULINT] and [NOT] compute theirs on one. *)
Theorem unary_arith quiet args x s st : vm_int x -> stack st = se_int x :: s ->
  int_outcome quiet (lift1 Z.opp x) s st (exec_negate quiet st) /\
  int_outcome quiet (lift1 (fun a => a + 1) x) s st (exec_inc quiet st) /\
  int_outcome quiet (lift1 (fun a => a - 1) x) s st (exec_dec quiet st) /\
  int_outcome quiet (lift1 (fun a => a + s8 args) x) s st (exec_add_tinyint8 quiet args st) /\
  int_outcome quiet (lift1 (fun a => a * s8 args) x) s st (exec_mul_tinyint8 quiet args st) /\
  int_outcome quiet (lift1 Z.lnot x) s st (exec_not quiet st).
Proof.
  intros Hx Hs. pose proof (s8_range args) as H8.
  unfold exec_negate, exec_inc, exec_dec, exec_add_tinyint8, exec_mul_tinyint8, exec_not.
  rewrite !(run_unary _ x s st Hs). split; [by apply neg_outcome|]. split; [apply add_word_outcome; [done|lia]|].
  split; [exact (add_word_outcome quiet x (-1) s st Hx ltac:(lia))|].
  split; [apply add_word_outcome; [done|lia]|]. split; [apply mul_word_outcome; [done|lia]|].
  eapply computes_outcome; [|apply clamp_lift1]. apply (unary_computes refint_not Z.lnot); [done| |by apply vm_int_number].
  intros. unfold Z.lnot. replace (Z.pred (- value x)) with (- value x - 1) by lia. by apply logical_not_exact.
Qed.

End ArithSpec.

(** ** The theorems at work *)

#[local] Existing Instance unit_refs.

(** One digit in range is a 257-bit integer. *)
Lemma vm_int_digit d : in_range d -> vm_int [d].
Proof.
  intros Hd. right. split; [by apply wf_one; [unfold word_cnt; lia|]|]. rewrite value_one.
  unfold in_range, Half, in257 in *. lia.
Qed.

Lemma vm_int_sample : vm_int [12] /\ vm_int [-5] /\ wf word_cnt [12] /\ wf word_cnt [-5].
Proof.
  assert (in_range 12 /\ in_range (-5)) as [H1 H2] by (unfold in_range, Half; lia).
  split; [by apply vm_int_digit|]. split; [by apply vm_int_digit|]. split; (apply wf_one; [unfold word_cnt; lia|done]).
Qed.

Lemma binary_arith_witness : vm_int [12] /\
  int_outcome false (lift2 Z.mul [12] [-5]) [se_null] (machine [se_int [-5]; se_int [12]; se_null])
    (exec_mul false (machine [se_int [-5]; se_int [12]; se_null])).
Proof.
  split; [apply vm_int_sample|].
  apply (binary_arith false [12] [-5] [se_null] (machine [se_int [-5]; se_int [12]; se_null])); [apply vm_int_sample..|reflexivity].
Defined.

Lemma unary_arith_witness : vm_int [12] /\
  int_outcome true (lift1 Z.opp [12]) [] (machine [se_int [12]]) (exec_negate true (machine [se_int [12]])).
Proof.
  split; [apply vm_int_sample|].
  apply (unary_arith true 0 [12] [] (machine [se_int [12]])); [apply vm_int_sample|reflexivity].
Defined.
