(* ===== verification/ArithLogic.v ===== *)
(** * Shifts, bitwise logic, comparison and constants ([crypto/vm/arithops.cpp])

    The rest of the arithmetic instructions, in the terms of ArithSpec. *)
From S2P Require Import Prelude BigInt BigIntOps BigIntShift BigIntLog RefInt Stack OpTable StackOps ArithOps ArithSpec.

(** ** Powers of two *)

(** A list of digits that is a stored number of the value [v], by computation. *)
Definition is_number_of (v : Z) (x : digits) : bool :=
  negb (length x =? 0)%nat && (length x <=? 5)%nat && forallb (fun d => (- Half <=? d) && (d <? Half)) x
  && ((length x =? 1)%nat || negb (top_word x =? 0)) && (value x =? v).

Lemma is_number_of_wf v x : is_number_of v x = true -> wf word_cnt x /\ value x = v.
Proof.
  unfold is_number_of. rewrite !andb_true_iff. intros ((((H1 & H2) & H3) & H4) & H5). split; [|by apply Z.eqb_eq].
  split; [|by apply Nat.leb_le]. apply normal_intro; [by destruct x|done|done].
Qed.

(** A statement about [n] below a bound, checked for each. *)
Lemma forallb_below (f : nat -> bool) (b : nat) n : forallb f (seq 0 b) = true -> 0 <= n < Z.of_nat b -> f (Z.to_nat n) = true.
Proof. rewrite forallb_forall. intros F Hn. apply F, in_seq. lia. Qed.

(** The top digit of 2 ^ 259 is not in range; the machine never stores that number. *)
Lemma set_pow2_value n : 0 <= n < 259 -> wf word_cnt (set_pow2 n) /\ value (set_pow2 n) = 2 ^ n.
Proof.
  intros Hn. apply is_number_of_wf.
  assert (forallb (fun k => is_number_of (2 ^ Z.of_nat k) (set_pow2 (Z.of_nat k))) (seq 0 259) = true) as F by by vm_compute.
  pose proof (forallb_below _ 259 n F ltac:(lia)) as H. cbv beta in H. by rewrite Z2Nat.id in H by lia.
Qed.

Lemma set_pow2_nan n : 260 <= n -> set_pow2 n = NaN.
Proof.
  intros Hn. unfold set_pow2, set_pow2_any. change (Z.of_nat word_cnt * word_shift) with 260.
  destruct (Z.ltb_spec n 0); [lia|]. by destruct (Z.leb_spec 260 n); [|lia].
Qed.

Lemma set_pow2_dec n : 0 <= n < 259 ->
  computes (normalize (add_tiny (-1) (set_pow2 n))) (Some (2 ^ n - 1)) /\ computes (normalize (negate_any (set_pow2 n))) (Some (- 2 ^ n)).
Proof.
  intros Hn. destruct (set_pow2_value n Hn) as [Hw Hv].
  assert (2 ^ n <= 2 ^ 258) by (apply Z.pow_le_mono_r; lia). pose proof (Z.pow_pos_nonneg 2 n).
  assert (lo word_cnt <= - 2 ^ 258 /\ 2 ^ 258 - 1 <= hi word_cnt) as [Hlo Hhi] by (vm_compute; split; discriminate).
  split.
  - assert (Some (2 ^ n - 1) = fit (2 ^ n - 1)) as -> by (unfold fit; rewrite decide_True; [done|lia]).
    rewrite <- Hv. apply exact_computes. replace (value (set_pow2 n) - 1) with (value (set_pow2 n) + -1) by lia. apply add_tiny_exact; [done|lia].
  - assert (Some (- 2 ^ n) = fit (- 2 ^ n)) as -> by (unfold fit; rewrite decide_True; [done|lia]).
    rewrite <- Hv. apply exact_computes. by apply negate_exact.
Qed.

(** ** Shifts, NaN included *)

(** What [x << n] and [x >> n] make of an optional integer: NaN is not preserved. *)
Definition shl_value (v : option Z) (n : Z) : option Z :=
  match v with
  | Some a => if (a =? 0) && (260 <=? n) then None else Some (a * 2 ^ n)
  | None => if (52 <=? n) && (n <? 312) then Some 0 else None
  end.
Definition shr_value (v : option Z) (n : Z) : option Z :=
  match v with
  | Some a => Some (a / 2 ^ n)
  | None => if n =? 0 then None else if n <=? 12 then Some 0 else Some (-1)
  end.

Lemma shl_nan n : 0 <= n < 1024 -> refint_shl NaN n = if (52 <=? n) && (n <? 312) then [0] else NaN.
Proof.
  intros Hn. assert (forallb (fun k => bool_decide (refint_shl NaN (Z.of_nat k)
    = if (52 <=? Z.of_nat k) && (Z.of_nat k <? 312) then [0] else NaN)) (seq 0 1024) = true) as F by by vm_compute.
  pose proof (forallb_below _ 1024 n F ltac:(lia)) as H. cbv beta in H. apply bool_decide_eq_true in H. by rewrite Z2Nat.id in H by lia.
Qed.

Lemma shr_nan n : 0 <= n < 1024 -> refint_shr NaN n = if n =? 0 then NaN else if n <=? 12 then [0] else [-1].
Proof.
  intros Hn. assert (forallb (fun k => bool_decide (refint_shr NaN (Z.of_nat k)
    = if Z.of_nat k =? 0 then NaN else if Z.of_nat k <=? 12 then [0] else [-1])) (seq 0 1024) = true) as F by by vm_compute.
  pose proof (forallb_below _ 1024 n F ltac:(lia)) as H. cbv beta in H. apply bool_decide_eq_true in H. by rewrite Z2Nat.id in H by lia.
Qed.

Lemma wf_small d : in_range d -> wf word_cnt [d].
Proof. intros. apply wf_one; [unfold word_cnt; lia|done]. Qed.

Lemma shl_computes x n : vm_int x -> 0 <= n < 1024 -> exists v, computes (refint_shl x n) v /\ clamp v = clamp (shl_value (value_of x) n).
Proof.
  intros Hx Hn. destruct Hx as [->|[Hw _]].
  - rewrite (shl_nan n Hn). cbn [value_of is_valid shl_value]. destruct (_ && _).
    + exists (Some 0). split; [|done]. split; [right; apply wf_small; unfold in_range, Half; lia|done].
    + exists None. split; [apply nan_computes|done].
  - rewrite (value_of_wf 5) by done. cbn [shl_value]. destruct (Z.eqb_spec (value x) 0) as [E0|Hne]; cbn [andb].
    + rewrite E0. rewrite (zero_digits x (proj1 Hw) E0). destruct (Z.leb_spec 260 n).
      * exists None. split; [|done]. assert (refint_shl [0] n = NaN) as ->; [|apply nan_computes].
        unfold refint_shl, lshift_any. destruct (Z.ltb_spec n 0); [lia|]. destruct (Z.eqb_spec n 0); [lia|].
        pose proof (Z.div_le_lower_bound n 52 5 ltac:(lia) ltac:(lia)). unfold word_shift, word_cnt.
        destruct (Nat.ltb_spec 5 (length [0] + Z.to_nat (n / 52))); [done|simpl in *; lia].
      * exists (Some 0). rewrite shl_zero by lia. split; [|done]. split; [right; apply wf_small; unfold in_range, Half; lia|done].
    + exists (fit (value x * 2 ^ n)). split; [apply exact_computes, lshift_exact; (done || lia)|apply clamp_fit].
Qed.

Lemma shr_computes x n : vm_int x -> 0 <= n < 1024 -> computes (refint_shr x n) (shr_value (value_of x) n).
Proof.
  intros Hx Hn. destruct Hx as [->|[Hw _]].
  - rewrite (shr_nan n Hn). cbn [value_of is_valid shr_value]. destruct (n =? 0); [apply nan_computes|].
    destruct (n <=? 12); (split; [right; apply wf_small; unfold in_range, Half; lia|done]).
  - rewrite (value_of_wf 5) by done. cbn [shr_value]. destruct (rshift_exact word_cnt x n (-1) Hw ltac:(lia)) as [Hr E].
    split; [by right|]. erewrite value_of_wf by done. f_equal.
    fold (normalize (rshift_any x n (-1))) in E. change (refint_shr x n) with (normalize (rshift_any x n (-1))). rewrite E.
    destruct (Z.eqb_spec n 0) as [->|]; [by rewrite Z.div_1_r|done].
Qed.

Section ArithLogic.
Context `{RT : RefTypes}.

(** The two operands of which the top one is a small integer. *)
Lemma run_small (k : Z -> digits -> VM unit) x y n s st : stack st = se_int y :: se_int x :: s -> to_long_any y = n -> 0 <= n <= 1023 ->
  (_ ← check_underflow [2]; n ← pop_smallint_range 1023 0; x ← pop_int; k n x) st = k n x (with_stack st s).
Proof.
  intros Hs Hy Hn. vm_run. rewrite check_run, Hs, !depth_cons. cbn [forallb]. pose proof (depth_nonneg s).
  destruct (Z.leb_spec 2 (depth s + 1 + 1)); [|lia]. cbn [andb]. rewrite pop_smallint_run. unfold small_arg. rewrite Hs. cbn [as_int].
  rewrite Hy. destruct (Z.ltb_spec 1023 n); [lia|]. destruct (Z.ltb_spec n 0); [lia|]. cbn [orb].
  rewrite wraps_small by lia. by rewrite (pop_int_run x s (with_stack st (se_int x :: s))).
Qed.

(** C37. The shift instructions multiply and divide by powers of two; an operand that is NaN
    becomes 0 or -1 for many shifts. *)
Theorem shift_arith quiet args x s st : vm_int x ->
  (stack st = se_int x :: s ->
   let n := arg_l args + 1 in
   int_outcome quiet (shl_value (value_of x) n) s st (exec_lshift_tinyint8 quiet args st) /\
   int_outcome quiet (shr_value (value_of x) n) s st (exec_rshift_tinyint8 quiet args st)) /\
  (forall y n, stack st = se_int y :: se_int x :: s -> to_long_any y = n -> 0 <= n <= 1023 ->
   int_outcome quiet (shl_value (value_of x) n) s st (exec_lshift quiet st) /\
   int_outcome quiet (shr_value (value_of x) n) s st (exec_rshift quiet st)).
Proof.
  intros Hx. assert (forall n, 0 <= n < 1024 ->
    int_outcome quiet (shl_value (value_of x) n) s st (push_int_quiet (refint_shl x n) quiet (with_stack st s)) /\
    int_outcome quiet (shr_value (value_of x) n) s st (push_int_quiet (refint_shr x n) quiet (with_stack st s))) as H.
  { intros n Hn. destruct (shl_computes x n Hx Hn) as (v & Hv & E). split; [by eapply computes_outcome|].
    by eapply computes_outcome; [apply shr_computes|]. }
  split.
  - intros Hs n. pose proof (arg_l_range args). unfold exec_lshift_tinyint8, exec_rshift_tinyint8. cbv zeta.
    rewrite !(run_unary _ x s st Hs). apply H. unfold n. lia.
  - intros y n Hs Hy Hn. unfold exec_lshift, exec_rshift. rewrite !(run_small _ x y n s st Hs Hy Hn). apply H. lia.
Qed.

(** ** Bitwise logic and size checks *)

(** The value that the capacity of the operands allows. *)
Definition within (cap : nat) (v : Z) : option Z := if decide (lo cap <= v <= hi cap) then Some v else None.

Lemma exact_number cap v r : (cap <= word_cnt)%nat -> exact_or_nan cap v r -> computes r (within cap v).
Proof.
  intros Hc. unfold exact_or_nan, within. destruct (decide _).
  - intros [[Hn Hl] <-]. assert (wf word_cnt r) as Hw by (split; [done|lia]). split; [by right|]. by eapply value_of_wf.
  - intros ->. apply nan_computes.
Qed.

Lemma log_outcome L quiet x y s st : known_op L -> wf word_cnt x -> wf word_cnt y ->
  int_outcome quiet (within (log_capacity word_cnt x y) (log_fun L (value x) (value y))) s st
    (push_int_quiet (log_op_any L word_cnt x y) quiet (with_stack st s)).
Proof.
  intros HL Hx Hy. eapply computes_outcome; [|done]. apply exact_number; [|by apply log_op_exact].
  unfold log_capacity. destruct (_ <=? _)%nat; [done|]. apply wf_length in Hy. lia.
Qed.

(** [AND], [OR] and [XOR] act on the two's complement bits of two valid operands, within
    the capacity of those operands. *)
Theorem logic_arith quiet x y s st : wf word_cnt x -> wf word_cnt y -> stack st = se_int y :: se_int x :: s ->
  let cap := log_capacity word_cnt x y in
  int_outcome quiet (within cap (Z.land (value x) (value y))) s st (exec_and quiet st) /\
  int_outcome quiet (within cap (Z.lor (value x) (value y))) s st (exec_or quiet st) /\
  int_outcome quiet (within cap (Z.lxor (value x) (value y))) s st (exec_xor quiet st).
Proof.
  intros Hx Hy Hs. unfold exec_and, exec_or, exec_xor. cbv zeta. rewrite !(run_binary _ x y s st Hs). split; [|split].
  - apply (log_outcome LogOpAnd); [by left|done|done].
  - apply (log_outcome LogOpOr); [by right; left|done|done].
  - apply (log_outcome LogOpXor); [by right; right|done|done].
Qed.

End ArithLogic.

(** ** The theorems at work *)

#[local] Existing Instance unit_refs.

Lemma shift_arith_witness : vm_int [12] /\
  int_outcome false (shl_value (Some 12) 5) [] (machine [se_int [12]]) (exec_lshift_tinyint8 false 4 (machine [se_int [12]])).
Proof.
  split; [apply vm_int_sample|].
  apply (shift_arith false 4 [12] [] (machine [se_int [12]])); [apply vm_int_sample|reflexivity].
Defined.

Lemma logic_arith_witness : wf word_cnt [12] /\
  int_outcome false (within 5 (Z.land 12 (-5))) [] (machine [se_int [-5]; se_int [12]])
    (exec_and false (machine [se_int [-5]; se_int [12]])).
Proof.
  split; [apply vm_int_sample|].
  refine (proj1 (logic_arith false [12] [-5] [] (machine [se_int [-5]; se_int [12]]) _ _ _)); [apply vm_int_sample..|reflexivity].
Defined.
