(* ===== verification/ArithCmp.v ===== *)
(** * Constants, size checks, comparison ([crypto/vm/arithops.cpp])

    The instructions that push constants, check sizes, compare and choose, in the terms of
    ArithSpec, and their registration with the others. *)
From S2P Require Import Prelude BigInt BigIntOps BigIntShift BigIntLog RefInt Stack OpTable StackOps ArithOps ArithSpec ArithLogic.

Section ArithCmp.
Context `{RT : RefTypes}.

(** ** Constants *)

(** The instruction pushes the integer [a]. *)
Definition pushes_int (a : Z) (m : VM unit) (st : VmState) : Prop :=
  exists x, vm_int x /\ value_of x = Some a /\ m st = Done (tt, with_stack st (se_int x :: stack st)).

Lemma pushes_intro a x st : computes x (Some a) -> in257 a -> pushes_int a (push (se_int x)) st.
Proof.
  intros [Hn Hv] Ha. exists x. split; [|split; [done|by rewrite push_run]]. right.
  destruct (number_cases x Hn) as [[-> E]|[Hw E]]; [by rewrite Hv in E|]. split; [done|].
  rewrite Hv in E. by injection E as ->.
Qed.

Lemma smallint_computes v : in_range v -> computes (make_refint v) (Some v).
Proof.
  intros Hv. rewrite make_refint_small by done. split; [right; by apply wf_small|].
  change (value_of [v]) with (Some (value [v])). by rewrite value_one.
Qed.

Lemma push_smallint_int v st : in_range v -> pushes_int v (push_smallint v) st.
Proof.
  intros Hv. apply pushes_intro; [by apply smallint_computes|]. unfold in_range, in257, Half in *. lia.
Qed.

Lemma pow2_257 n : 0 <= n <= 256 -> 0 < 2 ^ n <= 2 ^ 256.
Proof. intros Hn. split; [lia|apply Z.pow_le_mono_r; lia]. Qed.

(** The three constants around a power of two, and the small ones. *)
Lemma pow2_const args st : arg_l args < 255 -> pushes_int (2 ^ (arg_l args + 1)) (exec_push_pow2 args) st.
Proof.
  intros Hlt. pose proof (arg_l_range args). destruct (set_pow2_value (arg_l args + 1) ltac:(lia)) as [Hw Hv].
  apply pushes_intro; [split; [by right|]; rewrite <- Hv; exact (value_of_wf 5 _ Hw)|].
  assert (2 ^ (arg_l args + 1) <= 2 ^ 255) by (apply Z.pow_le_mono_r; lia). pose proof (Z.pow_pos_nonneg 2 (arg_l args + 1)).
  unfold in257. lia.
Qed.
Lemma pow2dec_const args st : pushes_int (2 ^ (arg_l args + 1) - 1) (exec_push_pow2dec args) st.
Proof.
  pose proof (arg_l_range args). destruct (set_pow2_dec (arg_l args + 1) ltac:(lia)) as [Hd _].
  pose proof (pow2_257 (arg_l args + 1) ltac:(lia)). apply pushes_intro; [done|]. unfold in257. lia.
Qed.
Lemma negpow2_const args st : pushes_int (- 2 ^ (arg_l args + 1)) (exec_push_negpow2 args) st.
Proof.
  pose proof (arg_l_range args). destruct (set_pow2_dec (arg_l args + 1) ltac:(lia)) as [_ Hm].
  pose proof (pow2_257 (arg_l args + 1) ltac:(lia)). apply pushes_intro; [done|]. unfold in257. lia.
Qed.
Lemma tinyint4_range args : in_range (Z.land (args + 5) 15 - 5).
Proof.
  change 15 with (Z.ones 4). rewrite Z.land_ones by lia. pose proof (Z.mod_pos_bound (args + 5) (2 ^ 4) ltac:(lia)).
  unfold in_range, Half. lia.
Qed.
Lemma small_range w a : 0 < w <= 32 -> in_range (wraps w a).
Proof.
  intros Hw. pose proof (wraps_range w a ltac:(lia)). assert (2 ^ (w - 1) <= 2 ^ 31) by (apply Z.pow_le_mono_r; lia).
  unfold in_range, Half. lia.
Qed.

(** The constant instructions push their constant as a 257-bit integer: the small
    immediates, and the powers of two around it (the opcode of [PUSHPOW2] 256 is [PUSHNAN]). *)
Theorem constants_exact args st :
  pushes_int (Z.land (args + 5) 15 - 5) (exec_push_tinyint4 args) st /\
  pushes_int (s8 args) (exec_push_tinyint8 args) st /\
  pushes_int (s16 args) (exec_push_smallint args) st /\
  (let n := arg_l args + 1 in
   (arg_l args < 255 -> pushes_int (2 ^ n) (exec_push_pow2 args) st) /\
   pushes_int (2 ^ n - 1) (exec_push_pow2dec args) st /\
   pushes_int (- 2 ^ n) (exec_push_negpow2 args) st).
Proof.
  split; [apply push_smallint_int, tinyint4_range|]. split; [apply push_smallint_int, small_range; lia|].
  split; [apply push_smallint_int, small_range; lia|]. split; [apply pow2_const|]. split; [apply pow2dec_const|apply negpow2_const].
Qed.

(** ** Size checks *)

Definition keep_value (b : bool) (v : option Z) : option Z := a ← v; if b then Some a else None.

Lemma keep_outcome quiet b x s st : vm_int x ->
  int_outcome quiet (keep_value b (value_of x)) s st (push_int_quiet (keep_if b x) quiet (with_stack st s)).
Proof.
  intros Hx. apply (computes_outcome quiet (keep_if b x) (keep_value b (value_of x))); [|done]. destruct b; cbn [keep_if].
  - split; [by apply vm_int_number|]. by destruct (value_of x).
  - destruct (value_of x); apply nan_computes.
Qed.

Definition fits_value (signed : bool) (n : Z) (v : option Z) : option Z :=
  a ← v; if (if signed then bool_decide (fits_signed a n) else bool_decide (0 <= a < 2 ^ n)) then Some a else None.

Lemma fits_bits x n : vm_int x -> 1 <= n ->
  keep_value (signed_fits_bits_any x n) (value_of x) = fits_value true n (value_of x) /\
  keep_value (unsigned_fits_bits_any x n) (value_of x) = fits_value false n (value_of x).
Proof.
  intros [->|[Hw _]] Hn; [done|]. rewrite (value_of_wf 5) by done. unfold fits_value, keep_value. cbn. destruct Hw as [Hw _]. split.
  - destruct (bool_decide_reflect (fits_signed (value x) n)) as [Hf|Hf].
    + by rewrite (proj2 (signed_fits_bits_value x n Hw Hn) Hf).
    + destruct (signed_fits_bits_any x n) eqn:E; [|done]. destruct Hf. by apply signed_fits_bits_value.
  - destruct (bool_decide_reflect (0 <= value x < 2 ^ n)) as [Hf|Hf].
    + by rewrite (proj2 (unsigned_fits_bits_value x n Hw ltac:(lia)) Hf).
    + destruct (unsigned_fits_bits_any x n) eqn:E; [|done]. destruct Hf. apply unsigned_fits_bits_value; [done|lia|done].
Qed.

(** C38. [FITS] and [UFITS] keep the integers of that many bits; the others overflow. *)
Theorem fits_exact quiet args x s st : vm_int x ->
  (stack st = se_int x :: s ->
   let n := arg_l args + 1 in
   int_outcome quiet (fits_value true n (value_of x)) s st (exec_fits_tinyint8 quiet args st) /\
   int_outcome quiet (fits_value false n (value_of x)) s st (exec_ufits_tinyint8 quiet args st)) /\
  (forall y n, stack st = se_int y :: se_int x :: s -> to_long_any y = n -> 1 <= n <= 1023 ->
   int_outcome quiet (fits_value true n (value_of x)) s st (exec_fits quiet st) /\
   int_outcome quiet (fits_value false n (value_of x)) s st (exec_ufits quiet st)).
Proof.
  intros Hx. split.
  - intros Hs n. pose proof (arg_l_range args). unfold exec_fits_tinyint8, exec_ufits_tinyint8. cbv zeta.
    rewrite !(run_unary _ x s st Hs). destruct (fits_bits x n Hx ltac:(unfold n; lia)) as [<- <-].
    split; by apply keep_outcome.
  - intros y n Hs Hy Hn. unfold exec_fits, exec_ufits. rewrite !(run_small _ x y n s st Hs Hy) by lia.
    destruct (fits_bits x n Hx ltac:(lia)) as [<- <-]. split; by apply keep_outcome.
Qed.

(** ** Comparison *)

(** [-1] for true. *)
Definition truth (b : bool) : Z := if b then -1 else 0.

(** The comparison modes of the registered instructions, for a result [z] of the comparison. *)
Lemma mode_answers z : z = -1 \/ z = 0 \/ z = 1 ->
  mode_answer 0x987 z = z /\ mode_answer 0x887 z = truth (z <? 0) /\ mode_answer 0x878 z = truth (z =? 0) /\
  mode_answer 0x877 z = truth (z <=? 0) /\ mode_answer 0x788 z = truth (0 <? z) /\
  mode_answer 0x787 z = truth (negb (z =? 0)) /\ mode_answer 0x778 z = truth (0 <=? z).
Proof. by intros [-> | [-> | ->]]. Qed.

Definition known_mode (mode : Z) (f : Z -> Z) : Prop :=
  (mode = 0x987 /\ f = fun z => z) \/ (mode = 0x887 /\ f = fun z => truth (z <? 0)) \/
  (mode = 0x878 /\ f = fun z => truth (z =? 0)) \/ (mode = 0x877 /\ f = fun z => truth (z <=? 0)) \/
  (mode = 0x788 /\ f = fun z => truth (0 <? z)) \/ (mode = 0x787 /\ f = fun z => truth (negb (z =? 0))) \/
  (mode = 0x778 /\ f = fun z => truth (0 <=? z)).

Lemma known_mode_answer mode f v : known_mode mode f -> mode_answer mode (Z.sgn v) = f (Z.sgn v) /\ -1 <= f (Z.sgn v) <= 1.
Proof.
  intros H. pose proof (mode_answers (Z.sgn v) ltac:(lia)) as (E1 & E2 & E3 & E4 & E5 & E6 & E7).
  assert (forall b, -1 <= truth b <= 1) as T by (intros []; cbn; lia).
  destruct H as [[-> ->]|[[-> ->]|[[-> ->]|[[-> ->]|[[-> ->]|[[-> ->]|[-> ->]]]]]]]; (split; [done|]); try apply T. lia.
Qed.

Lemma answer_pushed (f : Z -> Z) v s st : -1 <= f v <= 1 ->
  push_smallint (f v) (with_stack st s) = Done (tt, with_stack st (se_int [f v] :: s)).
Proof. intros Hv. unfold push_smallint. rewrite make_refint_small by (unfold in_range, Half; lia). by rewrite push_run. Qed.

Lemma cmp_values x y w : normal x -> normal y -> in_range w ->
  RefInt.cmp x y = Z.sgn (value x - value y) /\ cmp_word x w = Z.sgn (value x - w).
Proof.
  intros Hx Hy Hw. assert (forall u, normal u -> RefInt.cmp x u = Z.sgn (value x - value u)) as C.
  { intros u Hu. unfold RefInt.cmp. rewrite cmp_any_value by done.
    destruct (Z.compare_spec (value x) (value u)); symmetry; [apply Z.sgn_null|apply Z.sgn_neg|apply Z.sgn_pos]; lia. }
  split; [by apply C|].
  assert (normal [w]) as Hnw by (apply (wf_one 1); [lia|done]). rewrite <- (value_one w), <- (C [w] Hnw), value_one.
  unfold RefInt.cmp, cmp_word, cmp_any. destruct Hx as (Hx0 & _). by destruct x as [|a [|b x]].
Qed.

(** C39. The comparisons push the answer of their mode for the order of two valid operands,
    or of one and an immediate, and the sign; with a NaN operand they push the first one. *)
Theorem compare_exact mode f quiet args x y s st : known_mode mode f -> wf word_cnt x -> vm_int y ->
  (stack st = se_int y :: se_int x :: s ->
   match value_of y with
   | Some b => exec_cmp mode quiet st = Done (tt, with_stack st (se_int [f (Z.sgn (value x - b))] :: s))
   | None => int_outcome quiet (Some (value x)) s st (exec_cmp mode quiet st)
   end) /\
  (stack st = se_int x :: s ->
   exec_cmp_int mode quiet args st = Done (tt, with_stack st (se_int [f (Z.sgn (value x - s8 args))] :: s)) /\
   exec_sgn mode quiet st = Done (tt, with_stack st (se_int [f (Z.sgn (value x))] :: s))).
Proof.
  intros Hm Hx Hy. pose proof Hx as [Hnx _]. assert (is_valid x = true) as Hvx by (destruct Hnx as (Hne & _); by destruct x).
  pose proof (s8_range args) as H8. split.
  - intros Hs. unfold exec_cmp. rewrite (run_binary _ x y s st Hs), Hvx. destruct Hy as [->|[Hwy _]]; cbn [negb orb].
    + cbn [is_valid value_of negb orb]. apply push_quiet_outcome; [by right|]. by rewrite (value_of_wf 5).
    + rewrite (value_of_wf 5) by done. pose proof Hwy as [Hny _].
      assert (is_valid y = true) as -> by (destruct Hny as (Hne & _); by destruct y). cbn [negb].
      destruct (cmp_values x y 0 Hnx Hny ltac:(unfold in_range, Half; lia)) as [-> _].
      destruct (known_mode_answer mode f (value x - value y) Hm) as [-> Hb]. by rewrite (answer_pushed f).
  - intros Hs. unfold exec_cmp_int, exec_sgn. cbv zeta. rewrite !(run_unary _ x s st Hs), Hvx. cbn [negb].
    destruct (cmp_values x x (s8 args) Hnx Hnx ltac:(unfold in_range, Half; lia)) as [_ ->].
    destruct (known_mode_answer mode f (value x - s8 args) Hm) as [-> Hb]. rewrite (answer_pushed f) by done.
    rewrite (sgn_value x Hnx). destruct (known_mode_answer mode f (value x) Hm) as [-> Hb']. by rewrite (answer_pushed f).
Qed.

(** ** Minimum, maximum, absolute value *)

Lemma min_max_values x y : vm_int x -> vm_int y -> let (a, b) := min_max x y in
  vm_int a /\ vm_int b /\ value_of a = lift2 Z.min x y /\ value_of b = lift2 Z.max x y.
Proof.
  intros Hx Hy. unfold min_max, lift2. destruct Hx as [->|[Wx Rx]]; [cbn; split; [by left|]; split; [by left|done]|].
  assert (is_valid x = true) as -> by (destruct Wx as [(Hne & _) _]; by destruct x). cbn [negb].
  destruct Hy as [->|[Wy Ry]].
  { cbn [is_valid negb]. split; [by left|]. split; [by left|]. rewrite (value_of_wf 5 x Wx). done. }
  assert (is_valid y = true) as -> by (destruct Wy as [(Hne & _) _]; by destruct y). cbn [negb].
  pose proof Wx as [Nx _]. pose proof Wy as [Ny _].
  destruct (cmp_values x y 0 Nx Ny ltac:(unfold in_range, Half; lia)) as [-> _].
  destruct (Z.ltb_spec 0 (Z.sgn (value x - value y))); rewrite !(value_of_wf 5) by done; cbn;
    (split; [right; done|]; split; [right; done|]; split; f_equal; lia).
Qed.

(** What is pushed once the operands are in order. *)
Definition push_minmax (mode : Z) (a b : digits) : VM unit :=
  _ ← (if Z.testbit mode 1 then push_int_quiet a (Z.testbit mode 0) else mret tt);
  if Z.testbit mode 2 then push_int_quiet b (Z.testbit mode 0) else mret tt.

Lemma minmax_run mode x y a b s st : stack st = se_int x :: se_int y :: s -> min_max x y = (a, b) ->
  exec_minmax mode st = push_minmax mode a b (with_stack st s).
Proof.
  intros Hs E. unfold exec_minmax. rewrite (run_binary (fun x y => let quiet := Z.testbit mode 0 in
    let (x, y) := min_max x y in _ ← (if Z.testbit mode 1 then push_int_quiet x quiet else mret tt);
    if Z.testbit mode 2 then push_int_quiet y quiet else mret tt) y x s st Hs). by rewrite E.
Qed.

Lemma push_minmax_first mode a b st : Z.testbit mode 1 = true -> Z.testbit mode 2 = false ->
  push_minmax mode a b st = push_int_quiet a (Z.testbit mode 0) st.
Proof. unfold push_minmax. intros -> ->. vm_run. by destruct (push_int_quiet a _ st) as [[[] ?]| | |]. Qed.

Lemma push_minmax_second mode a b st : Z.testbit mode 1 = false -> Z.testbit mode 2 = true ->
  push_minmax mode a b st = push_int_quiet b (Z.testbit mode 0) st.
Proof. unfold push_minmax. by intros -> ->. Qed.

Lemma push_valid quiet x st : wf word_cnt x -> in257 (value x) ->
  push_int_quiet x quiet st = Done (tt, with_stack st (se_int x :: stack st)).
Proof. intros Hw Hi. unfold push_int_quiet. by rewrite (fits257 x Hw), bool_decide_eq_true_2, push_run. Qed.

Lemma neg_in257 x : vm_int x -> is_valid x && (sgn x <? 0) = match value_of x with Some a => a <? 0 | None => false end.
Proof.
  intros [->|[Hw _]]; [done|]. rewrite (value_of_wf 5) by done. destruct Hw as [Hn _]. pose proof Hn as (Hne & _).
  assert (is_valid x = true) as -> by by destruct x. rewrite (sgn_value x Hn). cbn [andb].
  destruct (Z.ltb_spec (Z.sgn (value x)) 0), (Z.ltb_spec (value x) 0); lia.
Qed.

(** [MIN], [MAX] and [MINMAX] choose the integer minimum and maximum, [ABS] the absolute
    value; NaN operands propagate. *)
Theorem minmax_exact quiet x y s st : vm_int x -> vm_int y -> stack st = se_int x :: se_int y :: s ->
  let q := Z.b2z quiet in
  int_outcome quiet (lift2 Z.min x y) s st (exec_minmax (2 + q) st) /\
  int_outcome quiet (lift2 Z.max x y) s st (exec_minmax (4 + q) st) /\
  (is_valid x = true -> is_valid y = true -> exists a b,
     value_of a = lift2 Z.min x y /\ value_of b = lift2 Z.max x y /\
     exec_minmax (6 + q) st = Done (tt, with_stack st (se_int b :: se_int a :: s))) /\
  int_outcome quiet (lift1 Z.abs x) (se_int y :: s) st (exec_abs quiet st).
Proof.
  intros Hx Hy Hs q. pose proof (min_max_values x y Hx Hy) as M.
  destruct (min_max x y) as [a b] eqn:Emm. destruct M as (Ha & Hb & Ea & Eb).
  assert (Z.testbit (2 + q) 0 = quiet /\ Z.testbit (4 + q) 0 = quiet) as [Q2 Q4] by by destruct quiet.
  rewrite !(minmax_run _ x y a b s st Hs Emm). split; [|split; [|split]].
  - rewrite push_minmax_first, Q2 by by destruct quiet. apply push_quiet_outcome; [by apply vm_int_number|by rewrite Ea].
  - rewrite push_minmax_second, Q4 by by destruct quiet. apply push_quiet_outcome; [by apply vm_int_number|by rewrite Eb].
  - intros Vx Vy. exists a, b. split; [done|]. split; [done|].
    destruct Hx as [->|[Wx _]]; [done|]. destruct Hy as [->|[Wy _]]; [done|].
    unfold lift2 in Ea, Eb. rewrite (value_of_wf 5 x Wx), (value_of_wf 5 y Wy) in Ea, Eb. cbn in Ea, Eb.
    destruct Ha as [->|[Wa Ra]]; [done|]. destruct Hb as [->|[Wb Rb]]; [done|]. unfold push_minmax.
    assert (Z.testbit (6 + q) 1 = true /\ Z.testbit (6 + q) 2 = true) as [-> ->] by by destruct quiet.
    vm_run. rewrite (push_valid _ a) by done. cbv beta iota. by rewrite (push_valid _ b).
  - unfold exec_abs. rewrite (run_unary _ x _ st Hs), (neg_in257 x Hx). unfold lift1. destruct (value_of x) as [v|] eqn:Ev.
    + destruct (Z.ltb_spec v 0).
      * pose proof (neg_outcome quiet x (se_int y :: s) st Hx) as N. unfold lift1 in N. rewrite Ev in N. cbn in N |- *.
        by replace (Z.abs v) with (- v) by lia.
      * apply push_quiet_outcome; [by apply vm_int_number|]. rewrite Ev. cbn. by replace (Z.abs v) with v by lia.
    + apply push_quiet_outcome; [by apply vm_int_number|by rewrite Ev].
Qed.

End ArithCmp.

(** ** The theorems at work *)

#[local] Existing Instance unit_refs.

Lemma constants_exact_witness : arg_l 7 < 255 /\ pushes_int (2 ^ 8) (exec_push_pow2 7) (machine []).
Proof.
  assert (arg_l 7 < 255) as H7 by reflexivity. split; [exact H7|].
  exact (proj1 (proj2 (proj2 (proj2 (constants_exact 7 (machine []))))) H7).
Defined.

Lemma fits_exact_witness : vm_int [12] /\
  int_outcome false (fits_value true 4 (Some 12)) [] (machine [se_int [12]]) (exec_fits_tinyint8 false 3 (machine [se_int [12]])).
Proof.
  split; [apply vm_int_sample|]. apply (fits_exact false 3 [12] [] (machine [se_int [12]])); [apply vm_int_sample|reflexivity].
Defined.

Lemma compare_exact_witness : wf word_cnt [12] /\
  exec_cmp 0x887 false (machine [se_int [-5]; se_int [12]])
    = Done (tt, with_stack (machine [se_int [-5]; se_int [12]]) [se_int [truth (Z.sgn (12 - -5) <? 0)]]).
Proof.
  split; [apply vm_int_sample|].
  apply (compare_exact 0x887 (fun z => truth (z <? 0)) false 0 [12] [-5] [] (machine [se_int [-5]; se_int [12]]));
    [right; left; split; reflexivity|apply vm_int_sample..|reflexivity].
Defined.

Lemma minmax_exact_witness : vm_int [12] /\
  int_outcome false (lift2 Z.min [12] [-5]) [] (machine [se_int [12]; se_int [-5]])
    (exec_minmax 2 (machine [se_int [12]; se_int [-5]])).
Proof.
  split; [apply vm_int_sample|].
  apply (minmax_exact false [12] [-5] [] (machine [se_int [12]; se_int [-5]])); [apply vm_int_sample..|reflexivity].
Defined.
