(* ===== verification/TupleOps.v ===== *)
(** * Tuple instructions ([crypto/vm/tupleops.cpp])

    Every [exec_] function of the file and the table of [register_tuple_ops].  A tuple is
    copied before it is written ([tuple.write()]), so tuples are values. *)
From S2P Require Import Prelude BigInt RefInt Stack OpTable StackOps.

Section TupleOps.
Context `{RT : RefTypes}.

Abbreviation Tuple := (list StackEntry).
Definition tuple_size (t : Tuple) : Z := Z.of_nat (length t).

(** ** Null *)

Definition exec_push_null : VM unit := push se_null.
Definition exec_is_null : VM unit := e ← pop_chk; push_bool (empty e).

(** [for (int i = 0; i < depth; i++) swap(stack[i], stack[i + count])], [n] rounds left *)
Fixpoint swap_over (count i : Z) (n : nat) : VM unit :=
  match n with O => mret tt | S n' => _ ← swap i (i + count); swap_over count (i + 1) n' end.

Definition exec_null_swap_if (cond : bool) (depth_ : Z) : VM unit :=
  _ ← check_underflow [depth_ + 1];
  x ← pop_int_finite;
  _ ← (if negb (Bool.eqb (sgn x =? 0) cond) then _ ← push se_null; swap_over 1 0 (Z.to_nat depth_) else mret tt);
  push_int x.
Definition exec_null_swap_if_many (cond : bool) (depth_ count : Z) : VM unit :=
  _ ← check_underflow [depth_ + 1];
  x ← pop_int_finite;
  _ ← (if negb (Bool.eqb (sgn x =? 0) cond)
       then _ ← repeat_vm (Z.to_nat count) (push se_null); swap_over count 0 (Z.to_nat depth_) else mret tt);
  push_int x.

(** ** Making tuples and taking them apart *)

(** [for (int i = n - 1; i >= 0; i--) tuple.push_back(std::move(stack[i]))]; the entries that
    are moved out are dropped right after. *)
Fixpoint collect (n : nat) : VM Tuple :=
  match n with O => mret [] | S n' => e ← fetch (Z.of_nat n'); t ← collect n'; mret (e :: t) end.

Definition exec_mktuple_common (n : Z) : VM unit :=
  _ ← check_underflow [n]; t ← collect (Z.to_nat n); _ ← pop_many n; _ ← consume_tuple_gas n; push_tuple t.
Definition exec_mktuple (args : Z) : VM unit := exec_mktuple_common (arg0 args).
Definition exec_mktuple_var : VM unit := n ← pop_smallint_range 255 0; exec_mktuple_common n.

Definition exec_tuple_index_common (n : Z) : VM unit := t ← pop_tuple_range 255 0; e ← tuple_index t n; push e.
Definition exec_tuple_index (args : Z) : VM unit := exec_tuple_index_common (arg0 args).
Definition exec_tuple_index_var : VM unit :=
  _ ← check_underflow [2]; n ← pop_smallint_range 254 0; exec_tuple_index_common n.
Definition exec_tuple_quiet_index_common (n : Z) : VM unit :=
  t ← pop_maybe_tuple_range 255; push (tuple_extend_index t n).
Definition exec_tuple_quiet_index (args : Z) : VM unit := exec_tuple_quiet_index_common (arg0 args).
Definition exec_tuple_quiet_index_var : VM unit :=
  _ ← check_underflow [2]; n ← pop_smallint_range 254 0; exec_tuple_quiet_index_common n.

(** [for (unsigned i = 0; i < n; i++) stack.push(t[i])]: an index out of the tuple is undefined. *)
Fixpoint push_all (t : Tuple) (n : nat) : VM unit :=
  match n with
  | O => mret tt
  | S n' => match t with [] => undefined | e :: t' => _ ← push e; push_all t' n' end
  end.
Definition do_explode_tuple (t : Tuple) (n : Z) : VM unit := _ ← push_all t (Z.to_nat n); consume_tuple_gas n.

Definition exec_untuple_common (n : Z) : VM unit := t ← pop_tuple_range n n; do_explode_tuple t n.
Definition exec_untuple (args : Z) : VM unit := exec_untuple_common (arg0 args).
Definition exec_untuple_var : VM unit := _ ← check_underflow [2]; n ← pop_smallint_range 255 0; exec_untuple_common n.
Definition exec_untuple_first_common (n : Z) : VM unit := t ← pop_tuple_range 255 n; do_explode_tuple t n.
Definition exec_untuple_first (args : Z) : VM unit := exec_untuple_first_common (arg0 args).
Definition exec_untuple_first_var : VM unit :=
  _ ← check_underflow [2]; n ← pop_smallint_range 255 0; exec_untuple_first_common n.
Definition exec_explode_tuple_common (n : Z) : VM unit :=
  t ← pop_tuple_range n 0; _ ← do_explode_tuple t (tuple_size t); push_smallint (tuple_size t).
Definition exec_explode_tuple (args : Z) : VM unit := exec_explode_tuple_common (arg0 args).
Definition exec_explode_tuple_var : VM unit :=
  _ ← check_underflow [2]; n ← pop_smallint_range 255 0; exec_explode_tuple_common n.

(** ** Changing components *)

Definition exec_tuple_set_index_common (idx : Z) : VM unit :=
  x ← pop; t ← pop_tuple_range 255 0;
  if tuple_size t <=? idx then throw range_chk
  else
    let t' := <[Z.to_nat idx := x]> t in
    _ ← consume_tuple_gas (tuple_size t'); push (se_tuple t').
Definition exec_tuple_set_index (args : Z) : VM unit := _ ← check_underflow [2]; exec_tuple_set_index_common (arg0 args).
Definition exec_tuple_set_index_var : VM unit :=
  _ ← check_underflow [3]; n ← pop_smallint_range 254 0; exec_tuple_set_index_common n.
Definition exec_tuple_quiet_set_index_common (idx : Z) : VM unit :=
  x ← pop; t ← pop_maybe_tuple_range 255;
  if 255 <=? idx then throw range_chk
  else
    let (tpay, t') := tuple_extend_set_index t idx x false in
    _ ← (if 0 <? tpay then consume_tuple_gas tpay else mret tt); push_maybe_tuple t'.
Definition exec_tuple_quiet_set_index (args : Z) : VM unit :=
  _ ← check_underflow [2]; exec_tuple_quiet_set_index_common (arg0 args).
Definition exec_tuple_quiet_set_index_var : VM unit :=
  _ ← check_underflow [3]; n ← pop_smallint_range 254 0; exec_tuple_quiet_set_index_common n.

(** ** Lengths and ends *)

Definition exec_tuple_length : VM unit := t ← pop_tuple_range 255 0; push_smallint (tuple_size t).
Definition exec_tuple_length_quiet : VM unit :=
  e ← pop_chk; push_smallint (match as_tuple e with Some t => tuple_size t | None => -1 end).
Definition exec_is_tuple : VM unit := e ← pop_chk; push_bool (is_tuple e).

(** [t->back()] of an empty vector is undefined. *)
Definition back (t : Tuple) : VM StackEntry := match t !! (length t - 1)%nat with Some e => mret e | None => undefined end.
Definition exec_tuple_last : VM unit := t ← pop_tuple_range 255 1; e ← back t; push e.
Definition exec_tuple_push : VM unit :=
  _ ← check_underflow [2]; x ← pop; t ← pop_tuple_range 254 0;
  let t' := t ++ [x] in _ ← consume_tuple_gas (tuple_size t'); push (se_tuple t').
Definition exec_tuple_pop : VM unit :=
  t ← pop_tuple_range 255 1; x ← back t;
  let t' := take (length t - 1) t in
  _ ← consume_tuple_gas (tuple_size t'); _ ← push (se_tuple t'); push x.

(** ** Nested indices *)

Definition inner_tuple (e : StackEntry) : VM Tuple :=
  match as_tuple_range 255 0 e with Some t => mret t | None => throw type_chk end.
Definition exec_tuple_index2 (args : Z) : VM unit :=
  let i := Z.land (Z.shiftr args 2) 3 in let j := Z.land args 3 in
  t ← pop_tuple_range 255 0; e1 ← tuple_index t i; t1 ← inner_tuple e1; e ← tuple_index t1 j; push e.
Definition exec_tuple_index3 (args : Z) : VM unit :=
  let i := Z.land (Z.shiftr args 4) 3 in let j := Z.land (Z.shiftr args 2) 3 in let k := Z.land args 3 in
  t ← pop_tuple_range 255 0; e1 ← tuple_index t i; t1 ← inner_tuple e1;
  e2 ← tuple_index t1 j; t2 ← inner_tuple e2; e ← tuple_index t2 k; push e.

(** ** Registration *)

Definition tuple_ops : list OpcodeInstr :=
  [ mksimple 0x6d 8 exec_push_null;
    mksimple 0x6e 8 exec_is_null;
    mkfixed 0x6f0 12 4 exec_mktuple;
    mkfixed 0x6f1 12 4 exec_tuple_index;
    mkfixed 0x6f2 12 4 exec_untuple;
    mkfixed 0x6f3 12 4 exec_untuple_first;
    mkfixed 0x6f4 12 4 exec_explode_tuple;
    mkfixed 0x6f5 12 4 exec_tuple_set_index;
    mkfixed 0x6f6 12 4 exec_tuple_quiet_index;
    mkfixed 0x6f7 12 4 exec_tuple_quiet_set_index;
    mksimple 0x6f80 16 exec_mktuple_var;
    mksimple 0x6f81 16 exec_tuple_index_var;
    mksimple 0x6f82 16 exec_untuple_var;
    mksimple 0x6f83 16 exec_untuple_first_var;
    mksimple 0x6f84 16 exec_explode_tuple_var;
    mksimple 0x6f85 16 exec_tuple_set_index_var;
    mksimple 0x6f86 16 exec_tuple_quiet_index_var;
    mksimple 0x6f87 16 exec_tuple_quiet_set_index_var;
    mksimple 0x6f88 16 exec_tuple_length;
    mksimple 0x6f89 16 exec_tuple_length_quiet;
    mksimple 0x6f8a 16 exec_is_tuple;
    mksimple 0x6f8b 16 exec_tuple_last;
    mksimple 0x6f8c 16 exec_tuple_push;
    mksimple 0x6f8d 16 exec_tuple_pop;
    mksimple 0x6fa0 16 (exec_null_swap_if true 0);
    mksimple 0x6fa1 16 (exec_null_swap_if false 0);
    mksimple 0x6fa2 16 (exec_null_swap_if true 1);
    mksimple 0x6fa3 16 (exec_null_swap_if false 1);
    mksimple 0x6fa4 16 (exec_null_swap_if_many true 0 2);
    mksimple 0x6fa5 16 (exec_null_swap_if_many false 0 2);
    mksimple 0x6fa6 16 (exec_null_swap_if_many true 1 2);
    mksimple 0x6fa7 16 (exec_null_swap_if_many false 1 2);
    mkfixed 0x6fb 12 4 exec_tuple_index2;
    mkfixed (Z.shiftr 0x6fc 2) 10 6 exec_tuple_index3 ].
Definition register_tuple_ops (cp0 : OpcodeTable) : option OpcodeTable := insert_all tuple_ops cp0.

End TupleOps.
