(* ===== verification/TupleSpec.v ===== *)
(** * What the tuple instructions do ([crypto/vm/tupleops.cpp], [stack.cpp])

    Packing and unpacking are inverse; a quiet tuple is a map from indices to entries that is
    empty beyond its end; the instructions that change a tuple do what list update does, and
    charge one unit of gas per component. *)
From S2P Require Import Prelude BigInt RefInt Stack OpTable StackOps ArithOps ArithSpec TupleOps.

Section TupleSpec.
Context `{RT : RefTypes}.

(** The state after [n] units of gas, a 32-bit number, are charged. *)
Definition charged (n : Z) (st : VmState) : VmState :=
  {| stack := stack st; code := code st; core := core_with_gas (consume (u32 n) (gas st)) (core st) |}.

Lemma consume_tuple_run n st : consume_tuple_gas n st = Done (tt, charged n st).
Proof. unfold consume_tuple_gas, tuple_entry_gas_price. by rewrite Z.mul_1_r. Qed.

Lemma charged_with n st s : charged n (with_stack st s) = with_stack (charged n st) s.
Proof. done. Qed.

Lemma collect_run n st : Z.of_nat n <= depth (stack st) -> collect n st = Done (rev (take n (stack st)), st).
Proof.
  induction n as [|n IH]; intros Hn; cbn [collect]; [done|]. vm_run. rewrite fetch_entry by lia. cbv beta iota.
  rewrite IH by lia. rewrite Nat2Z.id. do 2 f_equal. unfold depth in Hn. unfold entry.
  destruct (lookup_lt_is_Some_2 (stack st) n ltac:(lia)) as [e He]. rewrite He, (take_S_r _ _ _ He), rev_app_distr. done.
Qed.

Lemma push_all_run t n st : (n <= length t)%nat ->
  push_all t n st = Done (tt, with_stack st (rev (take n t) ++ stack st)).
Proof.
  revert t st. induction n as [|n IH]; intros t st Hn; cbn [push_all]; [by destruct st, t|].
  destruct t as [|e t]; [simpl in Hn; lia|]. change (push_all (e :: t) (S n)) with (_ ← push e; push_all t n). vm_run. rewrite push_run. cbv beta iota. rewrite IH by (simpl in Hn; lia).
  autorewrite with vm_state. cbn [take rev]. by rewrite <- (assoc_L (++)).
Qed.

Lemma pop_tuple_range_run max min t s st : stack st = se_tuple t :: s ->
  pop_tuple_range max min st = if (tuple_size t <=? max) && (min <=? tuple_size t) then Done (t, with_stack st s) else Throw type_chk (core st).
Proof.
  intros Hs. unfold pop_tuple_range, pop_as. vm_run. rewrite check_run, Hs, depth_cons. cbn [forallb]. pose proof (depth_nonneg s).
  destruct (Z.leb_spec 1 (depth s + 1)); [|lia]. cbn [andb]. rewrite (pop_run _ _ _ Hs). cbv beta iota.
  unfold as_tuple_range, tuple_size. cbn [as_tuple]. by destruct (_ && _).
Qed.

(** ** Packing *)

Lemma mktuple_run n st : 0 <= n -> exec_mktuple_common n st =
  if n <=? depth (stack st)
  then Done (tt, with_stack (charged n st) (se_tuple (rev (take (Z.to_nat n) (stack st))) :: drop (Z.to_nat n) (stack st)))
  else Throw stk_und (core st).
Proof.
  intros Hn. unfold exec_mktuple_common. vm_run. vm_exec; [|done].
  rewrite collect_run by lia. cbv beta iota. rewrite pop_many_run by lia. cbv beta iota.
  rewrite consume_tuple_run. cbv beta iota. unfold push_tuple. by rewrite push_run.
Qed.

Lemma untuple_run n t s st : 0 <= n -> stack st = se_tuple t :: s -> exec_untuple_common n st =
  if tuple_size t =? n then Done (tt, with_stack (charged n st) (rev t ++ s)) else Throw type_chk (core st).
Proof.
  intros Hn Hs. unfold exec_untuple_common, do_explode_tuple. vm_run. rewrite (pop_tuple_range_run n n t s st Hs).
  destruct (Z.eqb_spec (tuple_size t) n) as [E|Hne].
  - destruct (Z.leb_spec (tuple_size t) n); [|lia]. destruct (Z.leb_spec n (tuple_size t)); [|lia]. cbn [andb].
    unfold tuple_size in E. rewrite push_all_run by lia. cbv beta iota. autorewrite with vm_state. rewrite take_ge by lia.
    by rewrite consume_tuple_run.
  - destruct (Z.leb_spec (tuple_size t) n); [|done]. by destruct (Z.leb_spec n (tuple_size t)); [lia|].
Qed.

(** [TUPLE] packs the top [n] entries in the order they were pushed, and [UNTUPLE] of the
    same size restores the stack exactly; both together charge [2 n] of gas. *)
Theorem tuple_roundtrip n st : 0 <= n <= depth (stack st) ->
  exec_mktuple_common n st
    = Done (tt, with_stack (charged n st) (se_tuple (rev (take (Z.to_nat n) (stack st))) :: drop (Z.to_nat n) (stack st))) /\
  (_ ← exec_mktuple_common n; exec_untuple_common n) st = Done (tt, with_stack (charged n (charged n st)) (stack st)).
Proof.
  intros Hn. rewrite mktuple_run by lia. destruct (Z.leb_spec n (depth (stack st))); [|lia]. split; [done|].
  vm_run. rewrite mktuple_run by lia. destruct (Z.leb_spec n (depth (stack st))); [|lia].
  erewrite untuple_run; [|lia|done]. unfold tuple_size. rewrite length_rev, length_take. unfold depth in *.
  destruct (Z.eqb_spec (Z.of_nat (Z.to_nat n `min` length (stack st))) n); [|lia].
  by rewrite rev_involutive, take_drop.
Qed.

(** ** Changing components *)

(** An instruction that replaces the tuple [t] on the stack and charges for the new one. *)
Definition replaces_tuple (t' : list StackEntry) (rest s : list StackEntry) (m : VM unit) (st : VmState) : Prop :=
  m st = Done (tt, with_stack (charged (tuple_size t') st) (rest ++ se_tuple t' :: s)).

(** [SETINDEX], [TPUSH] and [TPOP] update, extend and shorten the tuple at its end, and
    charge for the tuple they make; an index out of range is a range check error. *)
Theorem tuple_update idx x t s st : tuple_size t <= 254 ->
  (0 <= idx -> stack st = x :: se_tuple t :: s ->
   if tuple_size t <=? idx then exec_tuple_set_index_common idx st = Throw range_chk (core st)
   else replaces_tuple (<[Z.to_nat idx := x]> t) [] s (exec_tuple_set_index_common idx) st) /\
  (stack st = x :: se_tuple t :: s -> replaces_tuple (t ++ [x]) [] s exec_tuple_push st) /\
  (stack st = se_tuple (t ++ [x]) :: s -> replaces_tuple t [x] s exec_tuple_pop st).
Proof.
  intros Ht. unfold replaces_tuple. pose proof (Nat2Z.is_nonneg (length t)) as H0.
  split; [|split].
  - intros Hi Hs. unfold exec_tuple_set_index_common. vm_run. rewrite (pop_run _ _ _ Hs). cbv beta iota.
    rewrite (pop_tuple_range_run 255 0 t s) by done. unfold tuple_size in *.
    destruct (Z.leb_spec (Z.of_nat (length t)) 255); [|lia]. destruct (Z.leb_spec 0 (Z.of_nat (length t))); [|lia]. cbn [andb].
    destruct (Z.leb_spec (Z.of_nat (length t)) idx); [done|]. vm_run. rewrite consume_tuple_run. cbv beta iota. by rewrite push_run.
  - intros Hs. unfold exec_tuple_push. vm_run. rewrite check_run, Hs, !depth_cons. pose proof (depth_nonneg s). cbn [forallb].
    destruct (Z.leb_spec 2 (depth s + 1 + 1)); [|lia]. cbn [andb]. rewrite (pop_run _ _ _ Hs). cbv beta iota.
    rewrite (pop_tuple_range_run 254 0 t s) by done. unfold tuple_size in *.
    destruct (Z.leb_spec (Z.of_nat (length t)) 254); [|lia]. destruct (Z.leb_spec 0 (Z.of_nat (length t))); [|lia]. cbn [andb].
    rewrite consume_tuple_run. cbv beta iota. by rewrite push_run.
  - intros Hs. unfold exec_tuple_pop. vm_run. rewrite (pop_tuple_range_run 255 1 (t ++ [x]) s st Hs). unfold tuple_size in *.
    rewrite length_app. cbn [length]. destruct (Z.leb_spec (Z.of_nat (length t + 1)) 255); [|lia].
    destruct (Z.leb_spec 1 (Z.of_nat (length t + 1))); [|lia]. cbn [andb]. unfold back. rewrite length_app. cbn [length].
    replace (length t + 1 - 1)%nat with (length t) by lia. rewrite lookup_app_r, Nat.sub_diag by lia. cbn [lookup list_lookup].
    vm_run. rewrite take_app_length, consume_tuple_run. cbv beta iota. rewrite push_run. cbv beta iota. by rewrite push_run.
Qed.

(** ** Quiet tuples *)

(** [value.empty()] is the null entry. *)
Definition proper (e : StackEntry) : Prop := empty e = true -> e = se_null.

Lemma extend_index_lookup t j : 0 <= j -> tuple_extend_index (Some t) j = entry (Z.to_nat j) t.
Proof.
  intros Hj. unfold tuple_extend_index, entry. destruct (Z.leb_spec (Z.of_nat (length t)) j); [|done].
  by rewrite lookup_ge_None_2 by lia.
Qed.

Lemma entry_insert i j e (t : list StackEntry) : (i < length t)%nat ->
  entry j (<[i := e]> t) = if decide (j = i) then e else entry j t.
Proof.
  intros Hi. unfold entry. destruct (decide (j = i)) as [->|Hne].
  - by rewrite list_lookup_insert_eq.
  - by rewrite list_lookup_insert_ne.
Qed.

Lemma entry_padded j k (t : list StackEntry) : entry j (t ++ replicate k se_null) = entry j t.
Proof.
  unfold entry. destruct (decide (j < length t)%nat).
  - by rewrite lookup_app_l.
  - rewrite lookup_app_r, (lookup_ge_None_2 t) by lia. cbn.
    destruct (decide (j - length t < k)%nat); [by rewrite lookup_replicate_2|].
    by rewrite lookup_ge_None_2 by (rewrite length_replicate; lia).
Qed.

(** C40. A quiet tuple behaves as a map from every index to an entry, null where nothing was
    stored: after [SETINDEXQ] its index holds the new entry and every other index the old
    one, and the size to pay for is that of the tuple, or nothing when it is left alone. *)
Theorem quiet_tuple_is_map tup idx x j : 0 <= idx -> 0 <= j -> proper x ->
  let (pay, tup') := tuple_extend_set_index tup idx x false in
  tuple_extend_index tup' j = (if j =? idx then x else tuple_extend_index tup j) /\
  ((pay = 0 /\ tup' = tup) \/ exists t, tup' = Some t /\ pay = tuple_size t).
Proof.
  intros Hi Hj Hx. assert ((j =? idx) = bool_decide (Z.to_nat j = Z.to_nat idx)) as ->.
  { destruct (Z.eqb_spec j idx) as [->|]; [by rewrite bool_decide_eq_true_2|]. rewrite bool_decide_eq_false_2; [done|]. lia. }
  rewrite bool_decide_decide. unfold tuple_extend_set_index.
  assert (forall t, (Z.to_nat idx < length t)%nat -> tuple_extend_index (Some (<[Z.to_nat idx := x]> t)) j
    = if decide (Z.to_nat j = Z.to_nat idx) then x else entry (Z.to_nat j) t) as W.
  { intros t Ht. rewrite extend_index_lookup by done. by apply entry_insert. }
  destruct tup as [t|].
  - rewrite extend_index_lookup by done. destruct (Z.leb_spec (Z.of_nat (length t)) idx) as [Hge|Hlt].
    + destruct (empty x) eqn:Ex; cbn [andb negb].
      * split; [|by left]. rewrite extend_index_lookup by done. destruct (decide _) as [E|]; [|done].
        rewrite (Hx Ex), E. unfold entry. by rewrite lookup_ge_None_2 by lia.
      * rewrite W by (rewrite length_app, length_replicate; lia). rewrite entry_padded.
        split; [by destruct (decide _)|right]. eexists. split; [done|]. unfold tuple_size.
        rewrite length_insert, length_app, length_replicate. lia.
    + rewrite W by lia. split; [by destruct (decide _)|right]. eexists. split; [done|].
      unfold tuple_size. by rewrite length_insert.
  - destruct (empty x) eqn:Ex; cbn [andb negb].
    + split; [|by left]. cbn. destruct (decide _); [by rewrite (Hx Ex)|done].
    + rewrite W by (rewrite length_replicate; lia). split.
      * destruct (decide _); [done|]. cbn [tuple_extend_index]. rewrite <- (app_nil_l (replicate _ _)), entry_padded. done.
      * right. eexists. split; [done|]. unfold tuple_size. rewrite length_insert, length_replicate. lia.
Qed.

(** ** Lists *)

(** The chain of pairs with these first components that ends in [last]. *)
Definition chain (elems : list StackEntry) (last : StackEntry) : StackEntry :=
  foldr (fun e tl => se_tuple [e; tl]) last elems.

Lemma make_list_chain elems : make_list elems = chain elems se_null.
Proof. induction elems as [|e elems IH]; cbn; [done|]. by rewrite IH. Qed.

Lemma is_list_chain elems last : is_list (chain elems last) = is_list last.
Proof. by induction elems. Qed.

Lemma is_list_unchain : forall se, is_list se = true -> exists elems last, empty last = true /\ se = chain elems last.
Proof.
  fix IH 1. intros se Hs. destruct se as [| | | | | |t|tp o]; try discriminate Hs.
  - by exists [], se_null.
  - destruct t as [|e [|tl [|? ?]]]; try discriminate Hs. destruct (IH tl Hs) as (elems & last & Hl & ->).
    by exists (e :: elems), last.
  - exists [], (se_obj tp o). by destruct tp.
Qed.

(** [is_list] accepts exactly the chains of pairs that end in an empty entry, whatever the
    first components are, so in particular every value that [make_list] builds. *)
Theorem lists_are_chains se :
  (is_list se = true <-> exists elems last, empty last = true /\ se = chain elems last) /\
  forall elems, is_list (make_list elems) = true.
Proof.
  split; [split; [apply is_list_unchain|]|].
  - intros (elems & last & Hl & ->). rewrite is_list_chain. destruct last as [| | | | | |t|tp o]; try done. by destruct tp.
  - intros elems. by rewrite make_list_chain, is_list_chain.
Qed.

End TupleSpec.

(** ** The theorems at work *)

#[local] Existing Instance unit_refs.

Definition pair_stack : list StackEntry := [se_int [1]; se_null; se_int [2]].

Lemma tuple_roundtrip_witness : 0 <= 2 <= depth (stack (machine pair_stack)) /\
  (_ ← exec_mktuple_common 2; exec_untuple_common 2) (machine pair_stack)
    = Done (tt, with_stack (charged 2 (charged 2 (machine pair_stack))) pair_stack).
Proof.
  assert (0 <= 2 <= depth (stack (machine pair_stack))) as H2 by (vm_compute; split; discriminate).
  split; [exact H2|]. exact (proj2 (tuple_roundtrip 2 (machine pair_stack) H2)).
Defined.

Definition tuple_stack : list StackEntry := [se_null; se_tuple [se_int [1]; se_int [2]]].

Lemma tuple_update_witness : tuple_size [se_int [1]; @se_int unit_refs [2]] <= 254 /\
  replaces_tuple [se_int [1]; se_int [2]; se_null] [] [] exec_tuple_push (machine tuple_stack).
Proof.
  assert (tuple_size [se_int [1]; @se_int unit_refs [2]] <= 254) as Ht by (vm_compute; discriminate).
  split; [exact Ht|].
  exact (proj1 (proj2 (tuple_update 0 se_null [se_int [1]; se_int [2]] [] (machine tuple_stack) Ht)) eq_refl).
Defined.

Lemma quiet_tuple_is_map_witness : proper (se_int [7]) /\
  let (pay, tup') := tuple_extend_set_index (Some [se_int [1]]) 3 (se_int [7]) false in
  tuple_extend_index tup' 2 = tuple_extend_index (Some [se_int [1]]) 2 /\
  ((pay = 0 /\ tup' = Some [se_int [1]]) \/ exists t, tup' = Some t /\ pay = tuple_size t).
Proof.
  assert (proper (se_int [7])) as Hp by (intros Hf; discriminate Hf). split; [exact Hp|].
  apply (quiet_tuple_is_map (Some [se_int [1]]) 3 (se_int [7]) 2); [lia|lia|exact Hp].
Defined.
