(* ===== verification/TupleSafe.v ===== *)
(** * The tuple instructions never leave the stack or a tuple ([crypto/vm/tupleops.cpp])

    An operation is safe at a depth when it is safe on every stack that deep; the rules follow
    the entries an instruction pops without checking again. *)
From S2P Require Import Prelude BigInt RefInt Stack OpTable StackOps ArithOps ArithSpec TupleOps TupleSpec.

Section TupleSafe.
Context `{RT : RefTypes}.

Definition safe_at {A} (n : Z) (m : VM A) : Prop := forall st, n <= depth (stack st) -> m st <> Undefined.

Lemma safe_at_safe {A} n (m : VM A) : safe m -> safe_at n m.
Proof. intros Hm st _. apply Hm. Qed.

Lemma safe_checked {A} n (m : VM A) : safe_at n m -> safe (_ ← check_underflow [n]; m).
Proof.
  intros Hm st. vm_run. rewrite check_run. cbn [forallb]. destruct (Z.leb_spec n (depth (stack st))); [|done]. cbn [andb]. by apply Hm.
Qed.

Lemma safe_at_pop {A} n (k : StackEntry -> VM A) : 0 <= n -> (forall e, safe_at n (k e)) -> safe_at (n + 1) (e ← pop; k e).
Proof.
  intros Hn Hk st Hd. vm_run. rewrite pop_entry by lia. cbv beta iota. apply Hk. autorewrite with vm_state. lia.
Qed.

Lemma safe_at_smallint {A} n max min (k : Z -> VM A) : 0 <= n -> 0 <= min -> max < 2 ^ 31 ->
  (forall i, min <= i <= max -> safe_at n (k i)) -> safe_at (n + 1) (i ← pop_smallint_range max min; k i).
Proof.
  intros Hn H0 H1 Hk st Hd. vm_run. rewrite pop_smallint_run. unfold small_arg.
  destruct (stack st) as [|e s]; [done|]. destruct (as_int e) as [x|]; [|done].
  destruct (Z.ltb_spec max (to_long_any x)); [done|]. destruct (Z.ltb_spec (to_long_any x) min); [done|]. cbn [orb].
  rewrite wraps_small by lia. apply Hk; [lia|]. rewrite depth_cons in Hd. autorewrite with vm_state. lia.
Qed.

Lemma safe_at_int_finite {A} n (k : digits -> VM A) : 0 <= n ->
  (forall x, safe_at n (k x)) -> safe_at (n + 1) (x ← pop_int_finite; k x).
Proof.
  intros Hn Hk st Hd. unfold pop_int_finite, pop_int, pop_as. vm_run. rewrite check_run. cbn [forallb].
  destruct (_ <=? _); [|done]. cbn [andb]. rewrite pop_entry by lia. cbv beta iota.
  destruct (as_int _) as [x|]; [|done]. cbv beta iota. destruct (is_valid x); [|done]. apply Hk. autorewrite with vm_state. lia.
Qed.

(** ** Tuples of a known size *)

Lemma safe_tuple_range {A} max min (k : list StackEntry -> VM A) :
  (forall t, min <= tuple_size t <= max -> safe (k t)) -> safe (t ← pop_tuple_range max min; k t).
Proof.
  intros Hk st. unfold pop_tuple_range, pop_as. vm_run. rewrite check_run. cbn [forallb].
  destruct (Z.leb_spec 1 (depth (stack st))); [|done]. cbn [andb]. rewrite pop_entry by lia. cbv beta iota.
  unfold as_tuple_range. destruct (as_tuple _) as [t|]; [|done]. destruct (_ && _) eqn:E; [|done].
  apply andb_true_iff in E as [E1%Z.leb_le E2%Z.leb_le]. apply Hk. unfold tuple_size. lia.
Qed.

Lemma safe_explode t n : n <= tuple_size t -> safe (do_explode_tuple t n).
Proof.
  intros Hn st. unfold do_explode_tuple. vm_run. rewrite push_all_run; [done|]. unfold tuple_size in Hn. lia.
Qed.

Lemma safe_back t : 1 <= tuple_size t -> safe (back t).
Proof.
  unfold tuple_size, back. intros Ht st. by destruct (lookup_lt_is_Some_2 t (length t - 1) ltac:(lia)) as [e ->].
Qed.

Lemma safe_inner e : safe (inner_tuple e).
Proof. unfold inner_tuple. by destruct (as_tuple_range _ _ _). Qed.

Lemma safe_mktuple n : 0 <= n -> safe (exec_mktuple_common n).
Proof. intros Hn st. rewrite mktuple_run by done. by destruct (_ <=? _). Qed.

(** ** Nulls under an integer *)

Lemma swap_over_run count i n st : 0 <= count -> 0 <= i -> i + Z.of_nat n + count <= depth (stack st) ->
  exists s, swap_over count i n st = Done (tt, with_stack st s).
Proof.
  revert i st. induction n as [|n IH]; intros i st Hc Hi Hd; cbn [swap_over]; [exists (stack st); by destruct st|].
  vm_run. rewrite swap_run by lia. cbv beta iota.
  destruct (IH (i + 1) (with_stack st (swap_list (Z.to_nat i) (Z.to_nat (i + count)) (stack st)))) as [s ->]; [done|lia| |].
  - autorewrite with vm_state. lia.
  - exists s. by autorewrite with vm_state.
Qed.

Lemma repeat_null_run n st : repeat_vm n (push se_null) st = Done (tt, with_stack st (replicate n se_null ++ stack st)).
Proof.
  revert st. induction n as [|n IH]; intros st; [by destruct st|]. cbn [repeat_vm]. vm_run. rewrite push_run. cbv beta iota.
  rewrite IH. autorewrite with vm_state. change (replicate (S n) se_null) with (se_null :: replicate n se_null).
  by rewrite replicate_cons_app, <- (assoc_L (++)).
Qed.

Lemma safe_push_int x : safe (push_int x).
Proof. unfold push_int. vm_safe. Qed.

Lemma safe_null_swap_if cond d : 0 <= d -> safe (exec_null_swap_if cond d).
Proof.
  intros Hd. unfold exec_null_swap_if. apply safe_checked, safe_at_int_finite; [done|]. intros x st Hst. vm_run.
  destruct (negb _); [|by apply safe_push_int].
  rewrite push_run. cbv beta iota. destruct (swap_over_run 1 0 (Z.to_nat d) (with_stack st (se_null :: stack st))) as [s ->]; [lia|lia| |].
  - autorewrite with vm_state. lia.
  - cbv beta iota. by apply safe_push_int.
Qed.

Lemma safe_null_swap_if_many cond d c : 0 <= d -> 0 <= c -> safe (exec_null_swap_if_many cond d c).
Proof.
  intros Hd Hc. unfold exec_null_swap_if_many. apply safe_checked, safe_at_int_finite; [done|]. intros x st Hst. vm_run.
  destruct (negb _); [|by apply safe_push_int].
  rewrite repeat_null_run. cbv beta iota.
  destruct (swap_over_run c 0 (Z.to_nat d) (with_stack st (replicate (Z.to_nat c) se_null ++ stack st))) as [s ->]; [lia|lia| |].
  - autorewrite with vm_state. unfold depth in *. rewrite length_app, length_replicate. lia.
  - cbv beta iota. by apply safe_push_int.
Qed.

(** ** The table *)

Lemma safe_at_set_index n : 0 <= n -> safe_at 2 (exec_tuple_set_index_common n).
Proof.
  intros Hn. apply (safe_at_pop 1); [done|]. intros x. apply safe_at_safe. apply safe_tuple_range. intros t Ht.
  destruct (_ <=? _); vm_safe.
Qed.

Lemma safe_at_quiet_set_index n : 0 <= n -> safe_at 2 (exec_tuple_quiet_set_index_common n).
Proof.
  intros Hn. apply (safe_at_pop 1); [done|]. intros x. apply safe_at_safe. unfold pop_maybe_tuple_range. vm_safe.
Qed.

Lemma safe_index n : 0 <= n -> safe (exec_tuple_index_common n).
Proof. intros Hn. apply safe_tuple_range. intros t _. apply safe_bind; [by apply safe_tuple_index|]. intros. apply safe_push. Qed.

(** [pop_smallint_range] checks the depth of the stack itself. *)
Lemma safe_mktuple_var : safe exec_mktuple_var.
Proof.
  intros st. destruct (Z.leb_spec (0 + 1) (depth (stack st))) as [Hd|Hd].
  - revert st Hd. apply safe_at_smallint; [lia|lia|lia|]. intros i Hi. apply safe_at_safe, safe_mktuple. lia.
  - unfold exec_mktuple_var. vm_run. rewrite pop_smallint_run. unfold small_arg. destruct (stack st); [done|].
    rewrite depth_cons in Hd. pose proof (depth_nonneg l). lia.
Qed.

Lemma safe_quiet_index n : safe (exec_tuple_quiet_index_common n).
Proof. unfold exec_tuple_quiet_index_common. vm_safe. Qed.

Lemma safe_untuple max min n : n <= min -> safe (t ← pop_tuple_range max min; do_explode_tuple t n).
Proof. intros Hn. apply safe_tuple_range. intros t Ht. apply safe_explode. lia. Qed.

Lemma safe_explode_common n : safe (exec_explode_tuple_common n).
Proof. apply safe_tuple_range. intros t _. apply safe_bind; [by apply safe_explode|]. intros. vm_safe. Qed.

(** An index from the stack. *)
Lemma safe_var n max (k : Z -> VM unit) : max < 2 ^ 31 -> 1 <= n -> (forall i, 0 <= i -> safe_at (n - 1) (k i)) ->
  safe (_ ← check_underflow [n]; i ← pop_smallint_range max 0; k i).
Proof.
  intros Hm Hn Hk. apply safe_checked. replace n with (n - 1 + 1) by lia. apply safe_at_smallint; [lia|done|done|].
  intros i Hi. apply Hk. lia.
Qed.

Lemma land3_nonneg x : 0 <= Z.land x 3.
Proof. apply Z.land_nonneg. lia. Qed.

Lemma safe_index2 args : safe (exec_tuple_index2 args).
Proof.
  unfold exec_tuple_index2. cbv zeta. apply safe_tuple_range. intros t _.
  repeat first [apply safe_push | apply safe_inner | apply safe_tuple_index, land3_nonneg | apply safe_bind; [|intros]].
Qed.

Lemma safe_index3 args : safe (exec_tuple_index3 args).
Proof.
  unfold exec_tuple_index3. cbv zeta. apply safe_tuple_range. intros t _.
  repeat first [apply safe_push | apply safe_inner | apply safe_tuple_index, land3_nonneg | apply safe_bind; [|intros]].
Qed.

Lemma safe_last : safe exec_tuple_last.
Proof. apply safe_tuple_range. intros t Ht. apply safe_bind; [apply safe_back; lia|]. intros. apply safe_push. Qed.

Lemma safe_tpop : safe exec_tuple_pop.
Proof.
  apply safe_tuple_range. intros t Ht. apply safe_bind; [apply safe_back; lia|]. intros x. cbv zeta.
  apply safe_bind; [apply safe_gas|]. intros. apply safe_bind; intros; apply safe_push.
Qed.

Lemma safe_tpush : safe exec_tuple_push.
Proof.
  apply safe_checked, (safe_at_pop 1); [done|]. intros x. apply safe_at_safe, safe_tuple_range. intros t _. cbv zeta.
  apply safe_bind; [apply safe_gas|]. intros. apply safe_push.
Qed.

Ltac term_head t := match t with ?f _ => term_head f | _ => t end.
Ltac arg0_nonneg := match goal with |- 0 <= arg0 ?a => pose proof (arg0_range a); lia end.
Ltac op_safe :=
  first [simple apply simple_safe | simple apply fixed_safe; intros ? | simple apply range_safe; intros ? ?];
  first
  [ apply safe_last | apply safe_tpop | apply safe_tpush | apply safe_index2 | apply safe_index3
  | apply safe_null_swap_if; lia | apply safe_null_swap_if_many; lia
  | apply safe_mktuple; arg0_nonneg | apply safe_mktuple_var | apply safe_index; arg0_nonneg | apply safe_untuple; lia | apply safe_explode_common
  | apply safe_quiet_index
  | apply safe_var; [lia|lia|intros i Hi];
    first [ by apply safe_at_safe, safe_index | by apply safe_at_set_index | by apply safe_at_quiet_set_index
          | apply safe_at_safe; first [apply safe_untuple; lia | apply safe_explode_common | apply safe_quiet_index] ]
  | apply safe_checked; first [apply safe_at_set_index | apply safe_at_quiet_set_index]; arg0_nonneg
  | match goal with |- safe ?m => let h := term_head m in unfold h end; vm_safe ].

Lemma tuple_ops_safe : Forall instr_safe tuple_ops.
Proof. unfold tuple_ops. repeat (apply Forall_cons_2; [op_safe|]). apply Forall_nil. Qed.

End TupleSafe.
