(* ===== verification/MachineTypes.v ===== *)
(** * What the machine's stack may hold ([crypto/vm/stack.hpp])

    The invariant of the stack between two instructions: every integer is NaN or a normalized
    number of at most 257 bits, every tuple has at most 255 entries, all of that kind, and
    every slice and builder has room in a cell.  An
    operation is [typed] when it keeps the invariant, yields a value of a given kind, and
    throws only the exceptions of the instruction set. *)
From S2P Require Import Prelude BigInt BigIntOps BigIntShift BigIntLog RefInt Stack OpTable StackOps StackSafety ArithOps ArithSafe ArithSpec ArithLogic ArithCmp TupleOps TupleSpec TupleSafe.

(** The exceptions of the modelled instructions. *)
Definition thrown (e : Excno) : bool :=
  bool_decide (e ∈ [stk_und; stk_ov; int_ov; range_chk; inv_opcode; type_chk; cell_ov; cell_und]).

(** ** Gas *)

(** Gas is charged in at most [n] amounts of 32 bits, and at least [lo] in total. *)
Definition charges (lo : Z) (n : nat) (g g' : GasLimits) : Prop :=
  exists l, Forall (fun c => 0 <= c <= 2 ^ 32) l /\ (length l <= n)%nat /\ lo <= foldr Z.add 0 l
            /\ g' = foldl (fun g c => consume c g) g l.

Lemma sum_app l1 l2 : foldr Z.add 0 (l1 ++ l2) = foldr Z.add 0 l1 + foldr Z.add 0 l2.
Proof. induction l1 as [|c l IH]; cbn [app foldr]; [lia|]. rewrite IH. lia. Qed.

Lemma charges_none g : charges 0 0 g g.
Proof. by exists []. Qed.
Lemma charges_one c g : 0 <= c <= 2 ^ 32 -> charges c 1 g (consume c g).
Proof. intros Hc. exists [c]. split; [by apply Forall_singleton|]. cbn. split; [lia|]. split; [lia|done]. Qed.
Lemma charges_trans lo1 lo2 n1 n2 g g1 g2 : charges lo1 n1 g g1 -> charges lo2 n2 g1 g2 -> charges (lo1 + lo2) (n1 + n2)%nat g g2.
Proof.
  intros (l1 & F1 & L1 & S1 & ->) (l2 & F2 & L2 & S2 & ->). exists (l1 ++ l2). rewrite Forall_app, length_app, sum_app, foldl_app.
  split; [done|]. split; [lia|]. split; [lia|done].
Qed.
Lemma charges_weaken lo lo' n n' g g' : charges lo n g g' -> lo' <= lo -> (n <= n')%nat -> charges lo' n' g g'.
Proof. intros (l & F & L & S & ->) ? ?. exists l. split; [done|]. split; [lia|]. split; [lia|done]. Qed.

(** The rest of the state stays. *)
Definition spends `{RefTypes} (lo : Z) (n : nat) (k k' : VmCore) : Prop := exists g, charges lo n (core_gas k) g /\ k' = core_with_gas g k.

Section Spends.
Context `{RT : RefTypes}.

Lemma spends_refl n k : spends 0 n k k.
Proof. exists (core_gas k). split; [|by destruct k]. eapply charges_weaken; [apply charges_none|lia|lia]. Qed.
Lemma spends_trans lo n1 n2 k k1 k2 : spends lo n1 k k1 -> spends 0 n2 k1 k2 -> spends lo (n1 + n2)%nat k k2.
Proof.
  intros (g1 & C1 & ->) (g2 & C2 & ->). exists g2. split; [|done]. replace lo with (lo + 0) by lia. by eapply charges_trans.
Qed.
Lemma spends_one lo c k : lo <= c -> 0 <= c <= 2 ^ 32 -> spends lo 1 k (core_with_gas (consume c (core_gas k)) k).
Proof. intros Hl Hc. eexists. split; [|done]. by eapply charges_weaken; [apply charges_one| |]. Qed.

End Spends.

(** ** Values *)

(** What a continuation must be like is left open here. *)
Class ContOk `{RefTypes} := cont_ok : ContRef -> Prop.

Section MachineTypes.
Context `{RT : RefTypes} `{CK : !ContOk}.

Inductive entry_ok : StackEntry -> Prop :=
| ok_int x : vm_int x -> entry_ok (se_int x)
| ok_tuple t : tuple_size t <= 255 -> Forall entry_ok t -> entry_ok (se_tuple t)
| ok_cont c : cont_ok c -> entry_ok (se_cont c)
| ok_slice c : slice_ok c -> entry_ok (se_slice c)
| ok_builder b : builder_ok b -> entry_ok (se_builder b)
| ok_other e : as_int e = None -> as_tuple e = None -> as_cont e = None -> as_slice e = None -> as_builder e = None -> entry_ok e.

Lemma slice_ok_le cs cs' : slice_ok cs -> (length (cs_bits cs') <= length (cs_bits cs))%nat ->
  (length (cs_refs cs') <= length (cs_refs cs))%nat -> slice_ok cs'.
Proof. unfold slice_ok, fits_cell. lia. Qed.

Abbreviation all_ok := (Forall entry_ok).
Definition stack_ok (st : VmState) : Prop := all_ok (stack st).

(** The code that is left, if there must be some. *)
Definition code_ok (b : bool) (o : option CellSlice) : Prop := match o with Some cs => slice_ok cs | None => b = false end.

Lemma code_ok_skip b n o : code_ok b o ->
  code_ok b (option_map (fun cs => {| cs_bits := drop n (cs_bits cs); cs_refs := cs_refs cs |}) o).
Proof. destruct o as [cs|]; [|done]. intros Hc. apply (slice_ok_le cs); [done|cbn; rewrite length_drop; lia|done]. Qed.

(** An operation on data: it keeps the registers and the code, and charges at most [n] times, at
    least [lo] in total. *)
Definition typed_from {A} (lo : Z) (n : nat) (P : A -> Prop) (m : VM A) : Prop := forall st, stack_ok st ->
  match m st with
  | Done (a, st') => P a /\ stack_ok st' /\ spends lo n (core st) (core st') /\ (forall b, code_ok b (code st) -> code_ok b (code st'))
  | Throw e k => thrown e = true /\ spends lo n (core st) k
  | NoGas k => spends lo n (core st) k
  | Undefined => True
  end.

Abbreviation typed := (typed_from 0).
Abbreviation any := (fun _ => True).

(** ** Rules *)

Lemma typed_seq {A B} lo n1 n2 (P : A -> Prop) (Q : B -> Prop) m k :
  typed_from lo n1 P m -> (forall a, P a -> typed n2 Q (k a)) -> typed_from lo (n1 + n2)%nat Q (x ← m; k x).
Proof.
  intros Hm Hk st Hst. vm_run. specialize (Hm st Hst).
  assert (forall k', spends lo n1 (core st) k' -> spends lo (n1 + n2)%nat (core st) k') as W.
  { intros k' Hs. eapply spends_trans; [done|apply spends_refl]. }
  destruct (m st) as [[a st']|e g|g|]; [|by destruct Hm; auto|by auto|done].
  destruct Hm as (Ha & Hst' & Hs & Hc). specialize (Hk a Ha st' Hst'). destruct (k a st') as [[b st2]|e g|g|]; [..|done].
  - destruct Hk as (Hb & Hst2 & Hs2 & Hc2). split; [done|]. split; [done|]. split; [by eapply spends_trans|auto].
  - destruct Hk. split; [done|]. by eapply spends_trans.
  - by eapply spends_trans.
Qed.

(** The first operation is free, or charges once. *)
Lemma typed_bind {A B n} (P : A -> Prop) (Q : B -> Prop) m k :
  typed 0 P m -> (forall a, P a -> typed n Q (k a)) -> typed n Q (x ← m; k x).
Proof. intros Hm Hk. change n with (0 + n)%nat. by eapply typed_seq. Qed.
Lemma typed_charge {A B n} (P : A -> Prop) (Q : B -> Prop) m k :
  typed 1 P m -> (forall a, P a -> typed n Q (k a)) -> typed (S n) Q (x ← m; k x).
Proof. intros Hm Hk. change (S n) with (1 + n)%nat. by eapply typed_seq. Qed.
Lemma typed_lower {A n} lo lo' (P : A -> Prop) m : lo' <= lo -> typed_from lo n P m -> typed_from lo' n P m.
Proof.
  intros Hl Hm st Hst. specialize (Hm st Hst).
  assert (forall k', spends lo n (core st) k' -> spends lo' n (core st) k') as W.
  { intros k' (g & C & ->). exists g. split; [|done]. by eapply charges_weaken. }
  destruct (m st) as [[a st']| | |]; [|by destruct Hm; auto|by auto|done]. destruct Hm as (? & ? & ? & ?). auto.
Qed.
(** Paying first makes the least amount known. *)
Lemma typed_pay {A n} c (P : A -> Prop) m : 0 <= c <= 2 ^ 32 -> typed n P m -> typed_from c (S n) P (_ ← consume_gas c; m).
Proof.
  intros Hc Hm. change (S n) with (1 + n)%nat. apply (typed_seq _ _ _ any); [|done].
  intros st Hst. split; [done|]. split; [exact Hst|]. split; [apply spends_one; lia|done].
Qed.

Lemma typed_intro {A n} (P : A -> Prop) (m : VM A) :
  (forall st, stack_ok st -> match m st with
     | Done (a, st') => P a /\ stack_ok st' /\ core st' = core st /\ code st' = code st
     | Throw e k => thrown e = true /\ k = core st
     | NoGas k => k = core st
     | Undefined => True end) -> typed n P m.
Proof.
  intros Hm st Hst. specialize (Hm st Hst). destruct (m st) as [[a st']|e k|k|]; [| | |done].
  - destruct Hm as (? & ? & -> & ->). split; [done|]. split; [done|]. split; [apply spends_refl|done].
  - destruct Hm as (? & ->). split; [done|apply spends_refl].
  - subst. apply spends_refl.
Qed.

Lemma typed_ret {A n} (P : A -> Prop) a : P a -> typed n P (mret a).
Proof. intros Ha. apply typed_intro. intros st Hst. done. Qed.
Lemma typed_throw {A n} (P : A -> Prop) e : thrown e = true -> typed n P (throw e).
Proof. intros He. apply typed_intro. intros st Hst. done. Qed.
Lemma typed_undefined {A n} (P : A -> Prop) : typed n P undefined.
Proof. by intros st Hst. Qed.
Lemma typed_if {A n} (P : A -> Prop) (b : bool) m1 m2 : typed n P m1 -> typed n P m2 -> typed n P (if b then m1 else m2).
Proof. by destruct b. Qed.
Lemma typed_weaken {A n} n' (P Q : A -> Prop) m : typed n P m -> (forall a, P a -> Q a) -> typed (n + n')%nat Q m.
Proof.
  intros Hm Hpq st Hst. specialize (Hm st Hst).
  assert (forall k', spends 0 n (core st) k' -> spends 0 (n + n')%nat (core st) k') as W.
  { intros k' Hs. eapply spends_trans; [done|apply spends_refl]. }
  destruct (m st) as [[a st']| | |]; [|by destruct Hm; auto|by auto|done]. destruct Hm as (? & ? & ? & ?). auto.
Qed.

Lemma typed_get_stack {n} : typed n all_ok get_stack.
Proof. apply typed_intro. intros st Hst. by split. Qed.
Lemma typed_set_stack {n} s : all_ok s -> typed n any (set_stack s).
Proof. intros Hs. apply typed_intro. intros st _. by split. Qed.
Lemma typed_guard {n} b e : thrown e = true -> typed n any (guard_vm b e).
Proof. intros He. destruct b; [by apply typed_ret|by apply typed_throw]. Qed.
Lemma typed_gas {n} c : 0 <= c <= 2 ^ 32 -> typed (S n) any (consume_gas c).
Proof.
  intros Hc. change (S n) with (1 + n)%nat. eapply (typed_weaken _ any); [|done].
  intros st Hst. split; [done|]. split; [exact Hst|]. split; [apply spends_one; lia|done].
Qed.
Lemma typed_tuple_gas {n} c : typed (S n) any (consume_tuple_gas c).
Proof. apply typed_gas. pose proof (wrapu_range 32 (c * tuple_entry_gas_price) ltac:(lia)). lia. Qed.
Lemma typed_check {n} l : typed n any (check_underflow l).
Proof. apply typed_intro. intros st Hst. rewrite check_run. by destruct (forallb _ _). Qed.
Lemma typed_check_p {n} l : typed n any (check_underflow_p l).
Proof. apply typed_intro. intros st Hst. rewrite check_p_run. by destruct (forallb _ _). Qed.

Lemma typed_push {n} e : entry_ok e -> typed n any (push e).
Proof. intros He. apply typed_intro. intros st Hst. rewrite push_run. split; [done|]. split; [by apply Forall_cons_2|done]. Qed.

Lemma typed_pop {n} : typed n entry_ok pop.
Proof.
  apply typed_intro. intros st Hst. unfold pop. vm_run. unfold stack_ok in Hst. destruct (stack st) as [|e s]; [done|].
  inversion_clear Hst as [|? ? He Hs]. split; [exact He|]. by split.
Qed.

Lemma typed_fetch {n} i : typed n entry_ok (fetch i).
Proof.
  apply typed_intro. intros st Hst. unfold fetch. vm_run. destruct (in_bounds i (stack st)); [|done].
  destruct (stack st !! Z.to_nat i) as [e|] eqn:E; [|done]. split; [|done]. by eapply Forall_lookup_1.
Qed.

Lemma typed_store {n} i e : entry_ok e -> typed n any (store i e).
Proof.
  intros He. apply typed_intro. intros st Hst. unfold store. vm_run. destruct (in_bounds i (stack st)); [|done].
  split; [done|]. split; [by apply Forall_insert|done].
Qed.

Lemma typed_swap {n} i j : typed n any (swap i j).
Proof.
  unfold swap. apply (typed_bind entry_ok); [apply typed_fetch|]. intros a Ha.
  apply (typed_bind entry_ok); [apply typed_fetch|]. intros b Hb.
  apply (typed_bind any); [by apply typed_store|]. intros _ _. by apply typed_store.
Qed.

(** Operations that only rearrange and drop entries. *)
Lemma typed_reverse {n} a b : typed n any (reverse a b).
Proof.
  apply typed_intro. intros st Hst. unfold reverse. vm_run. destruct (_ && _ && _); [|done]. split; [done|].
  split; [|done]. unfold stack_ok, reverse_seg in *. cbn [stack]. rewrite !Forall_app.
  split; [by apply Forall_take|]. split; [|by apply Forall_drop]. by apply List.Forall_rev, Forall_take, Forall_drop.
Qed.
Lemma typed_pop_many {n} c : typed n any (pop_many c).
Proof.
  apply typed_intro. intros st Hst. unfold pop_many. vm_run. destruct (_ && _); [|done]. split; [done|].
  split; [by apply Forall_drop|done].
Qed.
Lemma typed_pop_many_below {n} c k : typed n any (pop_many_below c k).
Proof.
  apply typed_intro. intros st Hst. unfold pop_many_below. vm_run. destruct (_ && _ && _); [|done]. split; [done|].
  split; [|done]. apply Forall_app. split; [by apply Forall_take|by apply Forall_drop].
Qed.

Lemma typed_pop_to {n} i : typed n any (pop_to i).
Proof.
  unfold pop_to. apply (typed_bind any); [apply typed_swap|]. intros _ _.
  apply (typed_bind entry_ok); [apply typed_pop|]. intros. by apply typed_ret.
Qed.

Lemma typed_push_at {n} x : typed n any (push_at x).
Proof. unfold push_at. apply (typed_bind entry_ok); [apply typed_fetch|]. intros. by apply typed_push. Qed.

(** ** Typed access *)

Lemma typed_pop_as {A n} (f : StackEntry -> option A) (P : A -> Prop) :
  (forall e a, entry_ok e -> f e = Some a -> P a) -> typed n P (pop_as f).
Proof.
  intros Hf. unfold pop_as. apply (typed_bind any); [apply typed_check|]. intros _ _.
  apply (typed_bind entry_ok); [apply typed_pop|]. intros e He. destruct (f e) as [a|] eqn:E; [|by apply typed_throw].
  apply typed_ret. by apply (Hf e).
Qed.

Lemma typed_pop_maybe {A n} (f : StackEntry -> option A) (P : A -> Prop) :
  (forall e a, entry_ok e -> f e = Some a -> P a) -> typed n (fun o => forall a, o = Some a -> P a) (pop_maybe f).
Proof.
  intros Hf. unfold pop_maybe. apply (typed_bind any); [apply typed_check|]. intros _ _.
  apply (typed_bind entry_ok); [apply typed_pop|]. intros e He. destruct (empty e); [by apply typed_ret|].
  destruct (f e) as [a|] eqn:E; [|by apply typed_throw]. apply typed_ret. intros ? [= <-]. by apply (Hf e).
Qed.

Lemma typed_pop_chk {n} : typed n entry_ok pop_chk.
Proof. unfold pop_chk. apply (typed_bind any); [apply typed_check|]. intros _ _. apply typed_pop. Qed.

Lemma typed_pop_int {n} : typed n vm_int pop_int.
Proof. apply typed_pop_as. intros e x He Hx. inversion He; subst; simplify_eq/=; done. Qed.

Lemma typed_pop_slice {n} : typed n slice_ok pop_cellslice.
Proof. apply typed_pop_as. intros e x He Hx. inversion He; subst; simplify_eq/=; done. Qed.
Lemma typed_pop_builder {n} : typed n builder_ok pop_builder.
Proof. apply typed_pop_as. intros e x He Hx. inversion He; subst; simplify_eq/=; done. Qed.

Lemma typed_smallint {n} max min : - 2 ^ 31 <= min -> max < 2 ^ 31 -> typed n (fun v => min <= v <= max) (pop_smallint_range max min).
Proof.
  intros H0 H1. unfold pop_smallint_range, pop_long_range, pop_long.
  apply (typed_bind (fun v => min <= v <= max)); [|intros v Hv; apply typed_ret; by rewrite wraps_small by lia].
  apply (typed_bind any); [apply (typed_bind vm_int); [apply typed_pop_int|intros; by apply typed_ret]|]. intros v _.
  destruct (Z.ltb_spec max v); [by apply typed_throw|]. destruct (Z.ltb_spec v min); [by apply typed_throw|].
  apply typed_ret. lia.
Qed.

Definition tuple_ok (max min : Z) (t : list StackEntry) : Prop := min <= tuple_size t <= max /\ all_ok t.

Lemma as_range_ok max min e t : entry_ok e -> as_tuple_range max min e = Some t -> tuple_ok max min t.
Proof.
  intros He Ht. unfold as_tuple_range in Ht. destruct (as_tuple e) as [t'|] eqn:E; [|done]. destruct (_ && _) eqn:B; [|done].
  injection Ht as ->. apply andb_true_iff in B as [B1%Z.leb_le B2%Z.leb_le]. split; [unfold tuple_size; lia|].
  inversion He; subst; simplify_eq/=; done.
Qed.

Lemma typed_pop_tuple_range {n} max min : typed n (tuple_ok max min) (pop_tuple_range max min).
Proof. apply typed_pop_as. intros e t. apply as_range_ok. Qed.
Lemma typed_maybe_tuple_range {n} max : typed n (fun o => forall t, o = Some t -> tuple_ok max 0 t) (pop_maybe_tuple_range max).
Proof. apply typed_pop_maybe. intros e t. apply as_range_ok. Qed.

(** ** Integers that may be pushed *)

(** A list of digits that is stored only when it is a 257-bit number. *)
Definition storable (x : digits) : Prop := x = NaN \/ (signed_fits_bits_any x 257 = true -> vm_int x).

Lemma number_storable x : number x -> storable x.
Proof.
  intros [->|Hw]; [by left|right]. intros Hf. rewrite (fits257 x Hw) in Hf. apply bool_decide_eq_true in Hf. right. by split.
Qed.
Lemma vm_int_storable x : vm_int x -> storable x.
Proof. intros Hx. by right. Qed.

Lemma nan_ok : entry_ok (se_int NaN).
Proof. apply ok_int. by left. Qed.

Lemma typed_push_quiet {n} x quiet : storable x -> typed n any (push_int_quiet x quiet).
Proof.
  intros Hx. unfold push_int_quiet. destruct (signed_fits_bits_any x 257) eqn:F.
  - apply typed_push, ok_int. destruct Hx as [->|Hx]; [by left|by apply Hx].
  - destruct quiet; cbn [negb]; [|by apply typed_throw]. destruct (is_valid x) eqn:V; [apply typed_push, nan_ok|].
    apply typed_push. destruct x as [|d x]; [apply nan_ok|done].
Qed.

Lemma typed_push_int {n} x : storable x -> typed n any (push_int x).
Proof.
  intros Hx. unfold push_int. destruct (signed_fits_bits_any x 257) eqn:F; [|by apply typed_throw].
  apply typed_push, ok_int. destruct Hx as [->|Hx]; [by left|by apply Hx].
Qed.

Lemma small_int_ok v : in_range v -> vm_int (make_refint v).
Proof.
  intros Hv. rewrite (make_refint_small v Hv). right. split; [apply wf_small, Hv|].
  rewrite value_one. unfold in_range, Half, in257 in *. lia.
Qed.
Lemma typed_push_smallint {n} v : in_range v -> typed n any (push_smallint v).
Proof. intros Hv. by apply typed_push, ok_int, small_int_ok. Qed.

Lemma typed_push_bool {n} b : typed n any (push_bool b).
Proof. apply typed_push_smallint. unfold in_range, Half. destruct b; lia. Qed.

Lemma typed_push_tuple {n} t : tuple_size t <= 255 -> all_ok t -> typed n any (push (se_tuple t)).
Proof. intros. apply typed_push. by apply ok_tuple. Qed.

End MachineTypes.

Abbreviation typed := (typed_from 0).
