(* ===== verification/MachineKeeps.v ===== *)
(** * The instructions keep the invariant of the stack

    The integers that each arithmetic instruction computes may be stored, the loops of the
    stack instructions only move entries, and so every instruction is [typed]. *)
From S2P Require Import Prelude BigInt BigIntOps BigIntShift BigIntLog RefInt Stack OpTable StackOps StackSafety ArithOps ArithSafe ArithSpec ArithLogic ArithCmp TupleOps TupleSpec TupleSafe MachineTypes.

(** ** Results that may be stored *)

Lemma nan_number : number NaN.
Proof. by left. Qed.

Lemma linear_storable f x y : f = Z.add \/ f = Z.sub -> vm_int x -> vm_int y -> storable (normalize (addsub_any f word_cnt x y)).
Proof. intros Hf Hx Hy. apply number_storable, (linear_computes f); [done| |]; by apply vm_int_number. Qed.
Lemma add_storable x y : vm_int x -> vm_int y -> storable (refint_add x y).
Proof. apply (linear_storable Z.add). by left. Qed.
Lemma sub_storable x y : vm_int x -> vm_int y -> storable (refint_sub x y).
Proof. apply (linear_storable Z.sub). by right. Qed.

Lemma neg_storable x : vm_int x -> storable (refint_neg x).
Proof. intros Hx. apply number_storable, (unary_computes refint_neg Z.opp); [done|apply negate_exact|by apply vm_int_number]. Qed.
Lemma not_storable x : vm_int x -> storable (refint_not x).
Proof.
  intros Hx. apply number_storable, (unary_computes refint_not (fun a => - a - 1)); [done| |by apply vm_int_number].
  intros. by apply logical_not_exact.
Qed.

Lemma add_word_storable x w : vm_int x -> - 2 ^ 9 <= w <= 2 ^ 9 -> storable (refint_add_word x w).
Proof.
  intros Hx Hw. apply number_storable, (unary_computes (fun x => refint_add_word x w) (fun a => a + w)); [done| |by apply vm_int_number].
  intros. apply add_tiny_exact; [done|lia].
Qed.
Lemma sub_one_storable x : vm_int x -> storable (refint_sub_word x 1).
Proof. intros Hx. apply (add_word_storable x (-1) Hx). lia. Qed.

Lemma mul_storable x y : vm_int x -> vm_int y -> storable (refint_mul x y).
Proof.
  intros [->|[Wx _]]; [by left|]. intros [->|[Wy _]]; [by destruct x; left|]. apply number_storable.
  destruct (mul_exact x y Wx Wy) as [Hor _]. fold zero_refint in Hor.
  change (normalize_bool_any 5 (add_mul_any 5 zero_refint x y)) with (refint_mul x y) in Hor.
  destruct Hor as [->|[Hw _]]; [by left|by right].
Qed.
Lemma mul_word_storable x w : vm_int x -> - 2 ^ 9 <= w <= 2 ^ 9 -> storable (refint_mul_word x w).
Proof.
  intros [->|[Wx _]] Hw; [unfold refint_mul_word, mul_short_opt; destruct (_ && _); by left|]. apply number_storable.
  destruct Wx as [(Hx0 & Hxr & _) Hxl]. destruct (mul_tiny_spec w x Hw Hxr) as (E & Hok & Hl).
  unfold refint_mul_word, mul_short_opt, MaxDenorm.
  destruct (Z.leb_spec w (2 ^ 11)); [|lia]. destruct (Z.leb_spec (- 2 ^ 11) w); [|lia]. cbn [andb].
  apply (exact_computes (value x * w)). apply normalize_exact; [by destruct x|unfold word_cnt in *; lia|done|done].
Qed.

Lemma shl_storable x n : vm_int x -> 0 <= n < 1024 -> storable (refint_shl x n).
Proof. intros Hx Hn. destruct (shl_computes x n Hx Hn) as (v & [Hr _] & _). by apply number_storable. Qed.
Lemma shr_storable x n : vm_int x -> 0 <= n < 1024 -> storable (refint_shr x n).
Proof. intros Hx Hn. destruct (shr_computes x n Hx Hn) as [Hr _]. by apply number_storable. Qed.

Lemma pow2_storable n : 0 <= n -> storable (set_pow2 n).
Proof.
  intros Hn. destruct (Z_lt_le_dec n 259) as [Hlt|Hge]; [apply number_storable; right; by apply set_pow2_value|].
  destruct (decide (n = 259)) as [->|Hne]; [right; intros Hf; by vm_compute in Hf|]. rewrite set_pow2_nan by lia. by left.
Qed.

Lemma log_number L x y : known_op L -> number x -> number y -> number (log_op_any L word_cnt x y).
Proof.
  intros HL [->|Hx] Hy.
  - unfold log_op_any, log_shortcut. destruct y as [|b [|? ?]]; try by left.
    destruct (has_zero L && (b =? zero L)).
    + right. destruct HL as [-> | [-> | ->]]; (apply wf_small; unfold in_range, Half; cbn; lia).
    + destruct (b =? neutral L); by left.
  - destruct Hy as [->|Hy].
    + unfold log_op_any, log_shortcut. destruct x as [|a [|? ?]]; try by left.
      destruct (has_zero L && (a =? zero L)); [by right|]. destruct (a =? neutral L); by left.
    + eapply exact_number; [|by apply log_op_exact]. unfold log_capacity. destruct (_ <=? _)%nat; [done|].
      apply wf_length in Hy. lia.
Qed.
Lemma and_storable x y : vm_int x -> vm_int y -> storable (refint_and x y).
Proof. intros Hx Hy. apply number_storable, log_number; [by left| |]; by apply vm_int_number. Qed.
Lemma or_storable x y : vm_int x -> vm_int y -> storable (refint_or x y).
Proof. intros Hx Hy. apply number_storable, log_number; [by right; left| |]; by apply vm_int_number. Qed.
Lemma xor_storable x y : vm_int x -> vm_int y -> storable (refint_xor x y).
Proof. intros Hx Hy. apply number_storable, log_number; [by right; right| |]; by apply vm_int_number. Qed.

Lemma keep_storable b x : vm_int x -> storable (keep_if b x).
Proof. intros Hx. destruct b; [by apply vm_int_storable|by left]. Qed.
Lemma nan_storable : storable NaN.
Proof. by left. Qed.
Lemma abs_storable x : vm_int x -> storable (if is_valid x && (sgn x <? 0) then refint_neg x else x).
Proof. intros Hx. destruct (_ && _); [by apply neg_storable|by apply vm_int_storable]. Qed.

(** ** Small results *)

Lemma bit_len_range q : 0 <= bit_len64 q <= 64.
Proof.
  unfold bit_len64. pose proof (wrapu_range 64 q ltac:(lia)) as R. destruct (Z.eqb_spec (u64 q) 0); [lia|].
  assert (Z.log2 (u64 q) < 64) by (apply Z.log2_lt_pow2; lia). pose proof (Z.log2_nonneg (u64 q)). lia.
Qed.

Lemma bit_size_top_length f x : (length (snd (bit_size_top f x)) <= length x)%nat.
Proof.
  unfold bit_size_top. rewrite <- (length_rev x). destruct (rev x) as [|q [|d rest]]; cbn; [lia|lia|]. destruct (f q); cbn; lia.
Qed.

Lemma bit_size_range sgnd x : vm_int x -> bit_size_any sgnd x < bit_size_nan -> in_range (bit_size_any sgnd x).
Proof.
  intros Hx. assert (length x <= 5)%nat as Hl by (destruct Hx as [->|[[_ H] _]]; [simpl; lia|done]).
  unfold bit_size_any. destruct (negb (is_valid x)); [unfold bit_size_nan; lia|]. cbv zeta.
  destruct (sgn x =? 0); [intros; unfold in_range, Half; lia|]. unfold in_range, Half, word_shift.
  destruct (0 <=? sgn x).
  - pose proof (bit_size_top_length (fun q => q <? Z.shiftr MaxDenorm 1) x) as T. destruct (bit_size_top _ x) as [q rest].
    cbn [snd] in T. intros _. destruct rest as [|d rest]; [pose proof (bit_len_range q); destruct sgnd; cbn; lia|].
    pose proof (bit_len_range (s64 (q - Z.shiftr MaxDenorm 2))) as B. set (s := bit_len64 _) in *. clearbody s.
    destruct (bit_size_loop _ _); destruct sgnd; cbn [Z.b2z]; simpl length in *; lia.
  - destruct sgnd; [|unfold bit_size_nan; lia].
    pose proof (bit_size_top_length (fun q => - Z.shiftr MaxDenorm 1 <? q) x) as T. destruct (bit_size_top _ x) as [q rest].
    cbn [snd] in T. intros _. destruct rest as [|d rest]; [pose proof (bit_len_range (Z.lnot q)); lia|].
    pose proof (bit_len_range (s64 (- q - Z.shiftr MaxDenorm 2))) as B. set (s := bit_len64 _) in *. clearbody s.
    destruct (bit_size_loop _ _); simpl length in *; lia.
Qed.

Lemma mode_answer_range mode z : in_range (mode_answer mode z).
Proof.
  unfold mode_answer. change 15 with (Z.ones 4). rewrite Z.land_ones by lia.
  pose proof (Z.mod_pos_bound (Z.shiftr mode (4 + z * 4)) (2 ^ 4) ltac:(lia)). unfold in_range, Half. lia.
Qed.

Create HintDb vm_storable.
#[export] Hint Resolve add_storable sub_storable neg_storable not_storable sub_one_storable mul_storable and_storable
  or_storable xor_storable keep_storable nan_storable abs_storable vm_int_storable mode_answer_range : vm_storable.

Section MachineKeeps.
Context `{RT : RefTypes} `{CK : !ContOk}.

Abbreviation any := (fun _ => True).

Lemma null_ok : entry_ok se_null.
Proof. by apply ok_other. Qed.

Lemma typed_pop_int_finite {n} : typed n vm_int pop_int_finite.
Proof.
  unfold pop_int_finite. apply (typed_bind vm_int); [apply typed_pop_int|]. intros x Hx.
  destruct (is_valid x); [by apply typed_ret|by apply typed_throw].
Qed.

(** ** Loops *)

Lemma typed_repeat {n} k m : typed 0 any m -> typed n any (repeat_vm k m).
Proof.
  intros Hm. induction k as [|k IH]; cbn [repeat_vm]; [by apply typed_ret|]. apply (typed_bind any); [done|]. by intros.
Qed.
Lemma typed_roll_down {n} k : typed n any (roll_down k).
Proof. induction k as [|k IH]; cbn [roll_down]; [by apply typed_ret|]. apply (typed_bind any); [apply typed_swap|]. by intros. Qed.
Lemma typed_roll_up {n} i k : typed n any (roll_up i k).
Proof.
  revert i. induction k as [|k IH]; intros i; cbn [roll_up]; [by apply typed_ret|]. apply (typed_bind any); [apply typed_swap|]. intros. apply IH.
Qed.
Lemma typed_swap_over {n} c i k : typed n any (swap_over c i k).
Proof.
  revert i. induction k as [|k IH]; intros i; cbn [swap_over]; [by apply typed_ret|]. apply (typed_bind any); [apply typed_swap|]. intros. apply IH.
Qed.
Lemma typed_move_top {n} d k : typed n any (move_top d k).
Proof.
  induction k as [|k IH]; cbn [move_top]; [by apply typed_ret|]. apply (typed_bind any); [|by intros].
  unfold move_entry. apply (typed_bind entry_ok); [apply typed_fetch|]. intros e He.
  apply (typed_bind any); [by apply typed_store|]. intros. apply typed_store, null_ok.
Qed.
Lemma typed_collect {n} k : typed n (fun t => length t = k /\ Forall entry_ok t) (collect k).
Proof.
  revert n. induction k as [|k IH]; intros n; cbn [collect]; [by apply typed_ret|]. apply (typed_bind entry_ok); [apply typed_fetch|]. intros e He.
  eapply typed_bind; [apply IH|]. intros t [Hl Ht]. apply typed_ret. split; [simpl; lia|by apply Forall_cons_2].
Qed.
Lemma typed_push_all {n} t k : Forall entry_ok t -> typed n any (push_all t k).
Proof.
  revert t. induction k as [|k IH]; intros t Ht; [destruct t; by apply typed_ret|]. destruct t as [|e t]; [apply typed_undefined|].
  inversion_clear Ht as [|? ? He Ht']. change (typed n any (_ ← push e; push_all t k)). apply (typed_bind any); [by apply typed_push|].
  intros. by apply IH.
Qed.

(** ** Tuples *)

Lemma typed_explode {n} t k : Forall entry_ok t -> typed (S n) any (do_explode_tuple t k).
Proof. intros Ht. apply (typed_bind any); [by apply typed_push_all|]. intros. apply typed_tuple_gas. Qed.

Lemma typed_mktuple {n} k : 0 <= k <= 255 -> typed (S n) any (exec_mktuple_common k).
Proof.
  intros Hn. unfold exec_mktuple_common. apply (typed_bind any); [apply typed_check|]. intros _ _.
  eapply typed_bind; [apply typed_collect|]. intros t [Hl Ht]. apply (typed_bind any); [apply typed_pop_many|]. intros _ _.
  apply (typed_charge any); [apply typed_tuple_gas|]. intros _ _. apply typed_push_tuple; [unfold tuple_size; lia|done].
Qed.

Lemma typed_tuple_index {n} max min t i : tuple_ok max min t -> typed n entry_ok (tuple_index t i).
Proof.
  intros [_ Ht]. unfold tuple_index. destruct (_ <=? _); [by apply typed_throw|].
  destruct (t !! Z.to_nat i) as [e|] eqn:E; [|apply typed_undefined]. apply typed_ret. by eapply Forall_lookup_1.
Qed.
Lemma typed_back {n} max min t : tuple_ok max min t -> typed n entry_ok (back t).
Proof.
  intros [_ Ht]. unfold back. destruct (t !! _) as [e|] eqn:E; [|apply typed_undefined]. apply typed_ret. by eapply Forall_lookup_1.
Qed.
Lemma typed_inner {n} e : entry_ok e -> typed n (tuple_ok 255 0) (inner_tuple e).
Proof.
  intros He. unfold inner_tuple. destruct (as_tuple_range 255 0 e) as [t|] eqn:E; [|by apply typed_throw].
  apply typed_ret. by eapply as_range_ok.
Qed.

Lemma extend_index_ok t i : (forall u, t = Some u -> tuple_ok 255 0 u) -> entry_ok (tuple_extend_index t i).
Proof.
  intros Ht. destruct t as [t|]; [|apply null_ok]. destruct (Ht t eq_refl) as [_ Hok]. unfold tuple_extend_index.
  destruct (_ <=? _); [apply null_ok|]. destruct (t !! _) as [e|] eqn:E; [by eapply Forall_lookup_1|apply null_ok].
Qed.

Lemma extend_set_ok t i x force : 0 <= i < 255 -> entry_ok x -> (forall u, t = Some u -> tuple_ok 255 0 u) ->
  forall u, snd (tuple_extend_set_index t i x force) = Some u -> tuple_ok 255 0 u.
Proof.
  intros Hi Hx Ht u. assert (forall n, Forall entry_ok (replicate n se_null)) as R by (intros; apply Forall_replicate, null_ok).
  unfold tuple_extend_set_index, tuple_ok, tuple_size in *. destruct t as [t|].
  - destruct (Ht t eq_refl) as [Hl Hok]. destruct (Z.leb_spec (Z.of_nat (length t)) i).
    + destruct (_ && _); [by apply Ht|]. intros [= <-]. rewrite length_insert, length_app, length_replicate. split; [lia|].
      apply Forall_insert; [|done]. by apply Forall_app.
    + intros [= <-]. rewrite length_insert. split; [lia|]. by apply Forall_insert.
  - destruct (_ && _); [done|]. cbn [snd]. pose proof (R (S (Z.to_nat i))) as Hr.
    pose proof (length_replicate (S (Z.to_nat i)) se_null) as Hl. revert Hr Hl. generalize (replicate (S (Z.to_nat i)) se_null).
    intros l Hr Hl [= <-]. rewrite length_insert, Hl. split; [lia|]. by apply Forall_insert.
Qed.

End MachineKeeps.
