(* ===== verification/MachineInv.v ===== *)
(** * Every instruction keeps the invariant of the stack *)
From S2P Require Import Prelude BigInt BigIntOps BigIntShift BigIntLog RefInt Stack OpTable StackOps StackSafety ArithOps ArithSafe ArithSpec ArithLogic ArithCmp TupleOps TupleSpec TupleSafe MachineTypes MachineKeeps.

Section MachineInv.
Context `{RT : RefTypes} `{CK : !ContOk}.

Abbreviation any := (fun _ => True).

(** An instruction on data goes on with the code, and charges at least 10 and at most twice. *)
Definition instr_typed (i : OpcodeInstr) : Prop :=
  forall opcode bits, covers i opcode -> typed_from 10 2 (eq 0) (dispatch_instr i opcode bits).

Lemma typed_advance {n} c : typed n any (advance c).
Proof. change n with (0 + n)%nat. apply (typed_weaken n any any); [|done].
  intros st Hst. split; [done|]. split; [exact Hst|]. split; [apply spends_refl|].
  intros b. apply code_ok_skip.
Qed.

Lemma ret0_typed {n} m : typed n any m -> typed n (eq 0) (ret0 m).
Proof.
  intros Hm. rewrite <- (Nat.add_0_r n). apply (typed_seq _ _ _ any); [done|]. intros. by apply typed_ret.
Qed.

Lemma pay_typed bits m : 0 <= bits <= 24 -> typed 1 (eq 0) m ->
  typed_from 10 2 (eq 0) (_ ← consume_gas (gas_per_instr + bits * gas_per_bit); m).
Proof.
  intros Hb Hm. apply (typed_lower (gas_per_instr + bits * gas_per_bit)); [unfold gas_per_instr, gas_per_bit; lia|].
  apply typed_pay; [unfold gas_per_instr, gas_per_bit; lia|done].
Qed.
Lemma exec_typed (b : bool) tot_bits m : typed 1 any m -> typed 1 (eq 0) (if b then throw inv_opcode else _ ← advance tot_bits; ret0 m).
Proof.
  intros Hm. apply typed_if; [by apply typed_throw|]. apply (typed_bind any); [apply typed_advance|]. intros _ _. by apply ret0_typed.
Qed.

Lemma simple_typed opcode opc_bits m : 0 <= opc_bits <= 24 -> typed 1 any m -> instr_typed (mksimple opcode opc_bits m).
Proof. intros Hb Hm opc bits _. apply pay_typed; [done|]. by apply exec_typed. Qed.
Lemma arg_typed lo hi tot_bits m : 0 <= tot_bits <= 24 -> (forall args, typed 1 any (m args)) ->
  instr_typed (OpcodeInstrFixed lo hi tot_bits (fun args => ret0 (m args))).
Proof. intros Hb Hm opc bits _. apply pay_typed; [done|]. by apply exec_typed. Qed.
Lemma fixed_typed opcode opc_bits arg_bits m : 0 <= opc_bits + arg_bits <= 24 -> (forall args, typed 1 any (m args)) ->
  instr_typed (mkfixed opcode opc_bits arg_bits m).
Proof. apply arg_typed. Qed.
Lemma range_typed lo hi tot_bits arg_bits m : 0 <= tot_bits <= 24 ->
  (forall opc, u32 (Z.shiftl lo (max_opcode_bits - tot_bits)) <= opc < u32 (Z.shiftl hi (max_opcode_bits - tot_bits)) ->
    typed 1 any (m (Z.shiftr opc (max_opcode_bits - tot_bits)))) ->
  instr_typed (mkfixedrange lo hi tot_bits arg_bits m).
Proof. intros Hb Hm opc bits Hc. apply pay_typed; [done|]. apply exec_typed. by apply Hm. Qed.

(** An operation whose type is known. *)
Ltac typed_leaf :=
  first
  [ simple apply typed_check | simple apply typed_check_p | simple apply typed_tuple_gas | simple apply typed_get_stack
  | simple apply typed_pop | simple apply typed_pop_chk | simple apply typed_fetch | simple apply typed_swap
  | simple apply typed_reverse | simple apply typed_pop_many | simple apply typed_pop_many_below | simple apply typed_pop_to
  | simple apply typed_push_at | simple apply typed_pop_int | simple apply typed_pop_int_finite
  | simple apply typed_smallint; [lia|lia] | simple apply typed_pop_tuple_range | simple apply typed_maybe_tuple_range
  | simple apply typed_roll_down | simple apply typed_roll_up | simple apply typed_swap_over | simple apply typed_move_top
  | simple apply typed_push_bool | simple apply typed_undefined
  | simple eapply typed_tuple_index; eassumption | simple eapply typed_back; eassumption | simple apply typed_inner; assumption
  | simple apply typed_throw; reflexivity | simple apply typed_ret; exact I ].

(** What may be pushed. *)
Ltac storable_tac :=
  first [ solve [eauto 3 with vm_storable]
        | simple apply add_word_storable; [assumption|lia] | simple apply mul_word_storable; [assumption|lia]
        | simple apply shl_storable; [assumption|lia] | simple apply shr_storable; [assumption|lia]
        | simple apply pow2_storable; lia ].
Ltac typed_pusher :=
  first
  [ simple apply typed_push_quiet; storable_tac
  | simple apply typed_push_int; storable_tac
  | simple apply typed_push; first [assumption | apply null_ok | apply nan_ok | apply extend_index_ok; assumption]
  | simple apply typed_push_smallint; first [solve [eauto 1 with vm_storable] | unfold in_range, Half; try match goal with |- context [if ?b then _ else _] => destruct b end; lia] ].

Ltac vm_typed :=
  repeat first
  [ typed_leaf | typed_pusher
  | eapply typed_bind; [typed_leaf|intros ? ?; cbv beta in *]
  | eapply typed_charge; [simple apply typed_tuple_gas|intros ? ?]
  | apply (typed_bind any); [|intros _ _]
  | simple apply typed_if
  | match goal with |- typed_from _ _ _ (match ?x with _ => _ end) => destruct x end ].

Ltac term_head t := match t with ?f _ => term_head f | _ => t end.
Ltac op_unfold := match goal with |- typed_from _ _ _ ?m => let h := term_head m in unfold h end; cbv zeta.

(** ** Stack instructions *)

Lemma typed_blkpush {n} args : typed n any (exec_blkpush args).
Proof. op_unfold. apply (typed_bind any); [apply typed_check_p|]. intros. apply typed_repeat, typed_push_at. Qed.

Lemma typed_blkswap {n} x y : typed n any (blkswap x y).
Proof. unfold blkswap. vm_typed. Qed.

Lemma typed_depth {n} : typed n any exec_depth.
Proof.
  unfold exec_depth. eapply typed_bind; [apply typed_get_stack|]. intros s _. apply typed_push_smallint.
  pose proof (wraps_range 32 (depth s) ltac:(lia)). unfold in_range, Half. lia.
Qed.

Lemma stack_ops_typed : Forall instr_typed stack_ops.
Proof.
  unfold stack_ops.
  repeat (apply Forall_cons_2;
    [first [simple apply simple_typed; [lia|] | simple apply fixed_typed; [lia|intros ?] | simple apply range_typed; [lia|intros ? ?]];
     first [apply typed_blkpush | apply typed_depth | op_unfold; unfold blkswap; solve [vm_typed]]|]).
  apply Forall_nil.
Qed.

(** ** Arithmetic instructions *)

Ltac vm_op_range :=
  match goal with
  | |- context [s8 ?a] => pose proof (s8_range a)
  | |- context [arg_l ?a] => pose proof (arg_l_range a)
  | _ => idtac
  end.

Lemma typed_minmax {n} mode : typed n any (exec_minmax mode).
Proof.
  unfold exec_minmax. apply (typed_bind any); [apply typed_check|]. intros _ _.
  apply (typed_bind vm_int); [apply typed_pop_int|]. intros x Hx. apply (typed_bind vm_int); [apply typed_pop_int|]. intros y Hy.
  cbv zeta. unfold min_max. destruct (negb (is_valid x)), (negb (is_valid y)), (0 <? RefInt.cmp x y); vm_typed.
Qed.

Lemma typed_bitsize {n} sgnd quiet : typed n any (exec_bitsize sgnd quiet).
Proof.
  unfold exec_bitsize. apply (typed_bind any); [apply typed_check|]. intros _ _.
  apply (typed_bind vm_int); [apply typed_pop_int|]. intros x Hx. cbv zeta.
  destruct (Z.ltb_spec (bit_size_any sgnd x) bit_size_nan); [|by vm_typed].
  by apply typed_push_smallint, bit_size_range.
Qed.

Lemma typed_pushes {n} a m : (forall st, pushes_int a m st) -> typed n any m.
Proof.
  intros Hm. apply typed_intro. intros st Hst. destruct (Hm st) as (x & Hx & _ & ->).
  split; [done|]. split; [|done]. apply Forall_cons_2; [by apply ok_int|done].
Qed.
(** The opcodes of [PUSHPOW2] stop before 0x83ff. *)
Lemma typed_push_pow2 {n} opc : let sh := max_opcode_bits - 16 in
  u32 (Z.shiftl 0x8300 sh) <= opc < u32 (Z.shiftl 0x83ff sh) -> typed n any (exec_push_pow2 (Z.shiftr opc sh)).
Proof.
  change (max_opcode_bits - 16) with 8. cbv zeta.
  change (u32 (Z.shiftl 0x8300 8)) with (0x8300 * 2 ^ 8). change (u32 (Z.shiftl 0x83ff 8)) with (0x83ff * 2 ^ 8).
  intros Ho. eapply typed_pushes. intros st. apply pow2_const. unfold arg_l. change 255 with (Z.ones 8) at 1.
  rewrite Z.land_ones, Z.shiftr_div_pow2 by lia.
  pose proof (Z.div_le_lower_bound opc (2 ^ 8) 0x8300 ltac:(lia) ltac:(lia)).
  pose proof (Z.div_lt_upper_bound opc (2 ^ 8) 0x83ff ltac:(lia) ltac:(lia)).
  pose proof (Z.div_mod (opc / 2 ^ 8) (2 ^ 8) ltac:(lia)). pose proof (Z.mod_pos_bound (opc / 2 ^ 8) (2 ^ 8) ltac:(lia)). lia.
Qed.
Lemma typed_tinyint4 {n} args : typed n any (exec_push_tinyint4 args).
Proof. apply typed_push_smallint, tinyint4_range. Qed.
Lemma typed_tinyint8 {n} args : typed n any (exec_push_tinyint8 args).
Proof. apply typed_push_smallint, small_range. lia. Qed.
Lemma typed_smallint_const {n} args : typed n any (exec_push_smallint args).
Proof. apply typed_push_smallint, small_range. lia. Qed.
Lemma typed_nan {n} : typed n any exec_push_nan.
Proof. apply typed_push, nan_ok. Qed.

Lemma arith_ops_typed : Forall instr_typed arith_ops.
Proof.
  unfold arith_ops, int_const_ops, add_mul_ops, shift_logic_ops, other_arith_ops, int_cmp_ops. cbn [app].
  repeat (apply Forall_cons_2;
    [first [simple apply simple_typed; [lia|] | simple apply fixed_typed; [lia|intros ?] | simple apply range_typed; [lia|intros ? ?]];
     first [ apply typed_minmax | apply typed_bitsize | apply typed_push_pow2; assumption
           | apply typed_tinyint4 | apply typed_tinyint8 | apply typed_smallint_const | apply typed_nan
           | simple eapply typed_pushes; simple apply pow2dec_const | simple eapply typed_pushes; simple apply negpow2_const
           | op_unfold; vm_op_range; solve [vm_typed]]|]).
  apply Forall_nil.
Qed.

(** ** Tuple instructions *)

Lemma typed_index {n} k : typed n any (exec_tuple_index_common k).
Proof. op_unfold. vm_typed. Qed.

Lemma typed_untuple {n} max min k : typed (S n) any (t ← pop_tuple_range max min; do_explode_tuple t k).
Proof. eapply typed_bind; [apply typed_pop_tuple_range|]. intros t [_ Ht]. by apply typed_explode. Qed.

Lemma typed_explode_common {n} k : k <= 255 -> typed (S n) any (exec_explode_tuple_common k).
Proof.
  intros Hn. op_unfold. eapply typed_bind; [apply typed_pop_tuple_range|]. intros t [Hl Ht].
  apply (typed_charge any); [by apply typed_explode|]. intros _ _. apply typed_push_smallint. unfold in_range, Half. lia.
Qed.

Lemma typed_set_index {n} k : typed (S n) any (exec_tuple_set_index_common k).
Proof.
  op_unfold. eapply typed_bind; [apply typed_pop|]. intros x Hx. eapply typed_bind; [apply typed_pop_tuple_range|]. intros t [Hl Ht].
  cbv zeta. apply typed_if; [by apply typed_throw|]. apply (typed_charge any); [apply typed_tuple_gas|]. intros _ _.
  apply typed_push_tuple; [unfold tuple_size in *; rewrite length_insert; lia|by apply Forall_insert].
Qed.

Lemma typed_quiet_set_index {n} k : 0 <= k -> typed (S n) any (exec_tuple_quiet_set_index_common k).
Proof.
  intros Hn. op_unfold. eapply typed_bind; [apply typed_pop|]. intros x Hx. eapply typed_bind; [apply typed_maybe_tuple_range|]. intros t Ht.
  destruct (Z.leb_spec 255 k); [by apply typed_throw|].
  pose proof (extend_set_ok t k x false ltac:(lia) Hx Ht) as S. destruct (tuple_extend_set_index t k x false) as [p t'].
  cbn [snd] in S. apply (typed_charge any); [apply typed_if; [apply typed_tuple_gas|by apply typed_ret]|]. intros _ _.
  destruct t' as [t'|]; [|apply typed_push, null_ok]. destruct (S t' eq_refl). by apply typed_push_tuple; [lia|].
Qed.

Lemma typed_length {n} : typed n any exec_tuple_length.
Proof.
  op_unfold. eapply typed_bind; [apply typed_pop_tuple_range|]. intros t [Hl _]. apply typed_push_smallint. unfold in_range, Half. lia.
Qed.
Lemma typed_length_quiet {n} : typed n any exec_tuple_length_quiet.
Proof.
  op_unfold. eapply typed_bind; [apply typed_pop_chk|]. intros e He. apply typed_push_smallint. unfold in_range, Half.
  destruct (as_tuple e) as [t|] eqn:E; [|lia]. inversion He; subst; simplify_eq/=. unfold tuple_size in *. lia.
Qed.

Lemma typed_tpush {n} : typed (S n) any exec_tuple_push.
Proof.
  op_unfold. apply (typed_bind any); [apply typed_check|]. intros _ _. eapply typed_bind; [apply typed_pop|]. intros x Hx.
  eapply typed_bind; [apply typed_pop_tuple_range|]. intros t [Hl Ht]. cbv zeta. apply (typed_charge any); [apply typed_tuple_gas|]. intros _ _.
  apply typed_push_tuple; [unfold tuple_size in *; rewrite length_app; cbn; lia|]. apply Forall_app. split; [done|by apply Forall_singleton].
Qed.
Lemma typed_tpop {n} : typed (S n) any exec_tuple_pop.
Proof.
  op_unfold. eapply typed_bind; [apply typed_pop_tuple_range|]. intros t Ht. eapply typed_bind; [by eapply typed_back|]. intros x Hx.
  cbv zeta. apply (typed_charge any); [apply typed_tuple_gas|]. intros _ _. destruct Ht as [Hl Ht]. apply (typed_bind any).
  - apply typed_push_tuple; [unfold tuple_size in *; rewrite length_take; lia|by apply Forall_take].
  - intros _ _. by apply typed_push.
Qed.

Lemma typed_null_swap_many {n} cond d c : typed n any (exec_null_swap_if_many cond d c).
Proof.
  op_unfold. apply (typed_bind any); [apply typed_check|]. intros _ _. eapply typed_bind; [apply typed_pop_int_finite|]. intros x Hx.
  apply (typed_bind any); [|intros; by apply typed_push_int, vm_int_storable]. apply typed_if; [|by apply typed_ret].
  apply (typed_bind any); [apply typed_repeat, typed_push, null_ok|]. intros. apply typed_swap_over.
Qed.

(** An instruction that takes its argument from the stack. *)
Lemma typed_var {n} l max (k : Z -> VM unit) : max < 2 ^ 31 -> (forall i, 0 <= i <= max -> typed n any (k i)) ->
  typed n any (_ ← check_underflow l; n ← pop_smallint_range max 0; k n).
Proof.
  intros Hm Hk. apply (typed_bind any); [apply typed_check|]. intros _ _. eapply typed_bind; [apply typed_smallint; [lia|done]|]. done.
Qed.

Lemma typed_mktuple_var {n} : typed (S n) any exec_mktuple_var.
Proof. op_unfold. eapply typed_bind; [apply typed_smallint; lia|]. intros k Hk. by apply typed_mktuple. Qed.

Lemma tuple_ops_typed : Forall instr_typed tuple_ops.
Proof.
  unfold tuple_ops.
  repeat (apply Forall_cons_2;
    [first [simple apply simple_typed; [lia|] | simple apply fixed_typed; [lia|intros args; pose proof (arg0_range args)]];
     first [ apply typed_null_swap_many | apply typed_tpush | apply typed_tpop | apply typed_length | apply typed_length_quiet
           | apply typed_mktuple_var | apply typed_mktuple; lia | apply typed_index | apply typed_untuple
           | apply typed_explode_common; lia
           | apply typed_var; [lia|intros k Hk];
             first [apply typed_index | apply typed_untuple | apply typed_explode_common; lia | apply typed_set_index
                   | apply typed_quiet_set_index; lia | op_unfold; solve [vm_typed]]
           | apply (typed_bind any); [apply typed_check|intros _ _];
             first [apply typed_set_index | apply typed_quiet_set_index; lia]
           | op_unfold; solve [vm_typed]
           | op_unfold; op_unfold; solve [vm_typed] ]|]).
  apply Forall_nil.
Qed.

Lemma data_ops_typed : Forall instr_typed (stack_ops ++ tuple_ops ++ arith_ops).
Proof. apply Forall_app. split; [apply stack_ops_typed|]. apply Forall_app. split; [apply tuple_ops_typed|apply arith_ops_typed]. Qed.

End MachineInv.
