(* ===== verification/Continuation.v ===== *)
(** * Continuations ([crypto/vm/continuation.h], [continuation.cpp], and the jumps of [vm.cpp])

    A continuation is what the machine does next: leave with an exit code, run code with saved
    registers and arguments, or go on with a loop.  The classes of the source are the
    constructors of [Cont]; a continuation that is the only reference to its object is moved
    from where another is copied, so both [jump] and [jump_w] are one function of values. *)
From S2P Require Import Prelude BigInt RefInt Stack.

(** What the machine needs of cells.  Loading a cell tells whether it is special, its data and its
    references, if there are any; a cell is made of data and references, and holds what it was
    made of. *)
Class CellSystem :=
  { Cell : Type; Object : Type;
    cell_load : Cell -> option (bool * list bool * list Cell); cell_hash : Cell -> Z; cell_depth : Cell -> Z;
    cell_create : list bool -> list Cell -> bool -> option Cell; empty_cell : Cell;
    load_fits c special bits refs : cell_load c = Some (special, bits, refs) -> fits_cell bits refs;
    depth_range c : 0 <= cell_depth c < 2 ^ 16;
    create_load bits refs special c : cell_create bits refs special = Some c -> cell_load c = Some (special, bits, refs) }.

(** The only codepage that is registered is [Codepage::test_cp]. *)
Definition get_table (cp_ : Z) : bool := cp_ =? 0.

(** ** Data *)

Record ControlData `{RefTypes} := { cd_stack : option (list StackEntry); save : ControlRegs; nargs : Z; cd_cp : Z }.

Inductive Cont `{CellSystem} :=
| QuitCont (exit_code : Z)
| ExcQuitCont
| PushIntCont (push_val : Z) (next : Cont)
| RepeatCont (body after : Cont) (count : Z)
| AgainCont (body : Cont)
| UntilCont (body after : Cont)
| WhileCont (cond body after : Cont) (chkcond : bool)
| ArgContExt (data : @ControlData {| CellRef := Cell; ContRef := Cont; ObjRef := Object |}) (ext : Cont)
| OrdCont (data : @ControlData {| CellRef := Cell; ContRef := Cont; ObjRef := Object |})
    (code : @CellSlice {| CellRef := Cell; ContRef := Cont; ObjRef := Object |}).

#[export] Instance vm_refs `{CellSystem} : RefTypes := {| CellRef := Cell; ContRef := Cont; ObjRef := Object |}.

Section Continuation.
Context `{CS : CellSystem}.

(** ** Control registers *)

Definition empty_regs : ControlRegs := {| c0 := None; c1 := None; c2 := None; c3 := None; d0 := None; d1 := None; c7 := None |}.

(** [cr ^= save]: the registers that are saved replace the others. *)
Definition over {A} (x s : option A) : option A := match s with Some _ => s | None => x end.
Definition regs_adjust (r s : ControlRegs) : ControlRegs :=
  {| c0 := over (c0 r) (c0 s); c1 := over (c1 r) (c1 s); c2 := over (c2 r) (c2 s); c3 := over (c3 r) (c3 s);
     d0 := over (d0 r) (d0 s); d1 := over (d1 r) (d1 s); c7 := over (c7 r) (c7 s) |}.

(** [cr &= save]: the registers that are saved are cleared. *)
Definition cleared {A} (x s : option A) : option A := match s with Some _ => None | None => x end.
Definition regs_preclear (r s : ControlRegs) : ControlRegs :=
  {| c0 := cleared (c0 r) (c0 s); c1 := cleared (c1 r) (c1 s); c2 := cleared (c2 r) (c2 s); c3 := cleared (c3 r) (c3 s);
     d0 := cleared (d0 r) (d0 s); d1 := cleared (d1 r) (d1 s); c7 := cleared (c7 r) (c7 s) |}.

Definition valid_idx (idx : Z) : bool := (idx <? 4) || ((4 <=? idx) && (idx <? 6)) || (idx =? 7).

(** [ControlRegs::get]; an entry for a register that holds nothing has no referent. *)
Definition regs_get (idx : Z) (r : ControlRegs) : option (option StackEntry) :=
  if idx =? 0 then Some (option_map se_cont (c0 r)) else if idx =? 1 then Some (option_map se_cont (c1 r))
  else if idx =? 2 then Some (option_map se_cont (c2 r)) else if idx =? 3 then Some (option_map se_cont (c3 r))
  else if idx =? 4 then Some (option_map se_cell (d0 r)) else if idx =? 5 then Some (option_map se_cell (d1 r))
  else if idx =? 7 then Some (option_map se_tuple (c7 r)) else None.

Definition set_c0 (c : Cont) (r : ControlRegs) : ControlRegs :=
  {| c0 := Some c; c1 := c1 r; c2 := c2 r; c3 := c3 r; d0 := d0 r; d1 := d1 r; c7 := c7 r |}.
Definition set_c1 (c : Cont) (r : ControlRegs) : ControlRegs :=
  {| c0 := c0 r; c1 := Some c; c2 := c2 r; c3 := c3 r; d0 := d0 r; d1 := d1 r; c7 := c7 r |}.
Definition set_c2 (c : Cont) (r : ControlRegs) : ControlRegs :=
  {| c0 := c0 r; c1 := c1 r; c2 := Some c; c3 := c3 r; d0 := d0 r; d1 := d1 r; c7 := c7 r |}.
Definition set_c3 (c : Cont) (r : ControlRegs) : ControlRegs :=
  {| c0 := c0 r; c1 := c1 r; c2 := c2 r; c3 := Some c; d0 := d0 r; d1 := d1 r; c7 := c7 r |}.
Definition set_d0 (c : Cell) (r : ControlRegs) : ControlRegs :=
  {| c0 := c0 r; c1 := c1 r; c2 := c2 r; c3 := c3 r; d0 := Some c; d1 := d1 r; c7 := c7 r |}.
Definition set_d1 (c : Cell) (r : ControlRegs) : ControlRegs :=
  {| c0 := c0 r; c1 := c1 r; c2 := c2 r; c3 := c3 r; d0 := d0 r; d1 := Some c; c7 := c7 r |}.
Definition set_c7 (t : list StackEntry) (r : ControlRegs) : ControlRegs :=
  {| c0 := c0 r; c1 := c1 r; c2 := c2 r; c3 := c3 r; d0 := d0 r; d1 := d1 r; c7 := Some t |}.

Definition set_c (idx : Z) (c : Cont) (r : ControlRegs) : option ControlRegs :=
  if idx =? 0 then Some (set_c0 c r) else if idx =? 1 then Some (set_c1 c r)
  else if idx =? 2 then Some (set_c2 c r) else if idx =? 3 then Some (set_c3 c r) else None.
Definition set_d (idx : Z) (c : Cell) (r : ControlRegs) : option ControlRegs :=
  if idx =? 4 then Some (set_d0 c r) else if idx =? 5 then Some (set_d1 c r) else None.

(** [ControlRegs::set]: [None] is the result [false], for an index or a type that is wrong. *)
Definition regs_set (idx : Z) (value : StackEntry) (r : ControlRegs) : option ControlRegs :=
  if idx <? 4 then match as_cont value with Some c => set_c idx c r | None => None end
  else if (4 <=? idx) && (idx <? 6) then match as_cell value with Some c => set_d idx c r | None => None end
  else if idx =? 7 then option_map (fun t => set_c7 t r) (as_tuple value)
  else None.

Definition get_c (idx : Z) (r : ControlRegs) : option Cont :=
  if idx =? 0 then c0 r else if idx =? 1 then c1 r else if idx =? 2 then c2 r else if idx =? 3 then c3 r else None.
Definition get_d (idx : Z) (r : ControlRegs) : option Cell :=
  if idx =? 4 then d0 r else if idx =? 5 then d1 r else None.

(** [define_c], [define_d] and [define_c7] fill only an empty register; the last one reports
    success even when it is taken. *)
Definition define_c (idx : Z) (c : Cont) (r : ControlRegs) : option ControlRegs :=
  match get_c idx r with Some _ => None | None => set_c idx c r end.
Definition define_d (idx : Z) (c : Cell) (r : ControlRegs) : option ControlRegs :=
  match get_d idx r with Some _ => None | None => set_d idx c r end.
Definition define_c7 (t : list StackEntry) (r : ControlRegs) : ControlRegs :=
  match c7 r with Some _ => r | None => set_c7 t r end.
Definition regs_define (idx : Z) (value : StackEntry) (r : ControlRegs) : option ControlRegs :=
  if idx <? 4 then match as_cont value with Some c => define_c idx c r | None => None end
  else if (4 <=? idx) && (idx <? 6) then match as_cell value with Some c => define_d idx c r | None => None end
  else if idx =? 7 then option_map (fun t => define_c7 t r) (as_tuple value)
  else None.

Definition define_c0 (c : option Cont) (r : ControlRegs) : ControlRegs :=
  match c0 r, c with None, Some c => set_c0 c r | _, _ => r end.
Definition define_c1 (c : option Cont) (r : ControlRegs) : ControlRegs :=
  match c1 r, c with None, Some c => set_c1 c r | _, _ => r end.
Definition define_c2 (c : option Cont) (r : ControlRegs) : ControlRegs :=
  match c2 r, c with None, Some c => set_c2 c r | _, _ => r end.

(** ** Control data *)

Definition get_cdata (c : Cont) : option ControlData :=
  match c with ArgContExt data _ | OrdCont data _ => Some data | _ => None end.

Definition has_c0 (c : Cont) : bool :=
  match get_cdata c with Some data => match c0 (save data) with Some _ => true | None => false end | None => false end.

Definition plain_data (cp_ : Z) : ControlData := {| cd_stack := None; save := empty_regs; nargs := -1; cd_cp := cp_ |}.
Definition with_save (s : ControlRegs) (d : ControlData) : ControlData :=
  {| cd_stack := cd_stack d; save := s; nargs := nargs d; cd_cp := cd_cp d |}.
Definition with_args (stk : option (list StackEntry)) (n : Z) (d : ControlData) : ControlData :=
  {| cd_stack := stk; save := save d; nargs := n; cd_cp := cd_cp d |}.

(** [force_cdata]: a continuation without control data gets an envelope; [update_cdata] is
    the write through the pointer it returns. *)
Definition force_cdata (c : Cont) : ControlData * (ControlData -> Cont) :=
  match c with
  | ArgContExt data ext => (data, fun d => ArgContExt d ext)
  | OrdCont data code => (data, fun d => OrdCont d code)
  | _ => (plain_data (-1), fun d => ArgContExt d c)
  end.
Definition force_cregs (f : ControlRegs -> ControlRegs) (c : Cont) : Cont :=
  let (data, rebuild) := force_cdata c in rebuild (with_save (f (save data)) data).
Definition force_cregs_opt (f : ControlRegs -> option ControlRegs) (c : Cont) : option Cont :=
  let (data, rebuild) := force_cdata c in option_map (fun s => rebuild (with_save s data)) (f (save data)).

(** ** The machine's registers *)

Definition with_core (k : VmCore) (st : VmState) : VmState := {| stack := stack st; code := code st; core := k |}.
Definition core_with_cr (r : ControlRegs) (k : VmCore) : VmCore :=
  {| core_gas := core_gas k; cr := r; cp := cp k; loaded_cells := loaded_cells k; cstate := cstate k; steps := steps k |}.
Definition core_with_cp (c : Z) (k : VmCore) : VmCore :=
  {| core_gas := core_gas k; cr := cr k; cp := c; loaded_cells := loaded_cells k; cstate := cstate k; steps := steps k |}.

Definition get_cr : VM ControlRegs := fun st => Done (cr (core st), st).
Definition set_cr (r : ControlRegs) : VM unit := fun st => Done (tt, with_core (core_with_cr r (core st)) st).
Definition update_cr (f : ControlRegs -> ControlRegs) : VM unit := r ← get_cr; set_cr (f r).
Definition get_cp : VM Z := fun st => Done (cp (core st), st).

(** A register that holds nothing is not dereferenced. *)
Definition deref {A} (o : option A) : VM A := match o with Some a => mret a | None => undefined end.
Definition get_c0 : VM Cont := r ← get_cr; deref (c0 r).
Definition get_c1 : VM Cont := r ← get_cr; deref (c1 r).
Definition get_c2 : VM Cont := r ← get_cr; deref (c2 r).
Definition get_c3 : VM Cont := r ← get_cr; deref (c3 r).

Definition adjust_cr (s : ControlRegs) : VM unit := update_cr (fun r => regs_adjust r s).
Definition preclear_cr (s : ControlRegs) : VM unit := update_cr (fun r => regs_preclear r s).

Definition put_cp (c : Z) : VM unit := fun st => Done (tt, with_core (core_with_cp c (core st)) st).
Definition put_code (cs : option CellSlice) : VM unit := fun st => Done (tt, {| stack := stack st; code := cs; core := core st |}).

(** [init_cp]; [set_cp] accepts the codepage in use at once. *)
Definition init_cp (new_cp : Z) : VM bool := if get_table new_cp then _ ← put_cp new_cp; mret true else mret false.
Definition set_cp (new_cp : Z) : VM bool := c ← get_cp; if new_cp =? c then mret true else init_cp new_cp.
Definition force_cp (new_cp : Z) : VM unit := ok ← set_cp new_cp; guard_vm ok inv_opcode.
Definition set_code (cs : CellSlice) (cp_ : Z) : VM unit := _ ← put_code (Some cs); force_cp cp_.

(** [std::move(code)]: the code goes into a continuation, which needs some. *)
Definition take_code : VM CellSlice :=
  fun st => match code st with Some cs => Done (cs, {| stack := stack st; code := None; core := core st |}) | None => Undefined end.

(** ** Loading a cell *)

Definition cell_load_gas_price : Z := 100.
Definition cell_reload_gas_price : Z := 25.

(** The first load of a cell costs more. *)
Definition register_cell_load (hash : Z) : VM unit := fun st =>
  let k := core st in
  let known := bool_decide (hash ∈ loaded_cells k) in
  consume_gas (if known then cell_reload_gas_price else cell_load_gas_price)
    (with_core {| core_gas := core_gas k; cr := cr k; cp := cp k;
                  loaded_cells := if known then loaded_cells k else hash :: loaded_cells k;
                  cstate := cstate k; steps := steps k |} st).

(** The machine has no libraries in which a library cell could be found, and the cells are not
    virtualized, so that every special cell is refused. *)
Definition load_cell_slice_ref (c : Cell) : VM CellSlice :=
  _ ← register_cell_load (cell_hash c);
  match cell_load c with Some (false, b, r) => mret {| cs_bits := b; cs_refs := r |} | _ => throw cell_und end.
(** The slice, and whether the cell is special. *)
Definition load_cell_slice_ref_special (c : Cell) : VM (CellSlice * bool) :=
  _ ← register_cell_load (cell_hash c);
  match cell_load c with Some (sp, b, r) => mret ({| cs_bits := b; cs_refs := r |}, sp) | None => throw cell_und end.
Definition ref_to_cont (c : Cell) : VM Cont :=
  cs ← load_cell_slice_ref c; cp_ ← get_cp; mret (OrdCont (plain_data cp_) cs).

(** ** Jumps *)

(** The checks of a jump or call that passes [pass_args] arguments, all of the stack if
    negative, to a continuation with the data [d]. *)
Definition check_args (d : ControlData) (pass_args : Z) : VM unit :=
  s ← get_stack;
  if (depth s <? pass_args) || (depth s <? nargs d) then throw stk_und
  else if (pass_args <? nargs d) && (0 <=? pass_args) then throw stk_und
  else mret tt.

Definition saved_stack (d : ControlData) : list StackEntry := default [] (cd_stack d).

(** [VmState::jump(cont, pass_args)] up to its last step, [jump_to(cont)]. *)
Definition prepare_jump (cont : Cont) (pass_args : Z) : VM unit :=
  match get_cdata cont with
  | Some d =>
      _ ← check_args d pass_args; _ ← preclear_cr (save d);
      s ← get_stack;
      let copy := if (0 <=? pass_args) && (nargs d <? 0) then pass_args else nargs d in
      match saved_stack d with
      | [] =>
          if (0 <=? copy) && (copy <? depth s)
          then _ ← drop_bottom (depth s - copy); consume_stack_gas copy else mret tt
      | own =>
          let copy := if copy <? 0 then depth s else copy in
          match move_from_stack own s copy with
          | Some (new_stk, _) => _ ← consume_stack_gas (depth new_stk); set_stack new_stk
          | None => throw stk_und
          end
      end
  | None =>
      s ← get_stack;
      if 0 <=? pass_args then
        if depth s <? pass_args then throw stk_und
        else if pass_args <? depth s then _ ← drop_bottom (depth s - pass_args); consume_stack_gas pass_args
        else mret tt
      else mret tt
  end.

(** [VmState::jump(cont)] up to its last step: simple unless the continuation has arguments. *)
Definition prepare (cont : Cont) : VM unit :=
  match get_cdata cont with
  | Some d => if bool_decide (is_Some (cd_stack d)) || (0 <=? nargs d) then prepare_jump cont (-1) else mret tt
  | None => mret tt
  end.

(** [~exit_code] of the default exception handler; a failed pop has dropped the top entry. *)
Definition exc_quit : VM Z := fun st =>
  match pop_smallint_range 0xffff 0 st with
  | Done (n, st') => Done (Z.lnot n, st')
  | Throw e k => Done (Z.lnot (get_errno e), {| stack := drop 1 (stack st); code := code st; core := k |})
  | NoGas k => NoGas k
  | Undefined => Undefined
  end.

(** [jump_to(cont)], the virtual [jump] of each class of continuations. *)
Fixpoint jump_to (cont : Cont) : VM Z :=
  match cont with
  | QuitCont exit_code => mret (Z.lnot exit_code)
  | ExcQuitCont => exc_quit
  | PushIntCont push_val next => _ ← push_smallint push_val; _ ← prepare next; jump_to next
  | RepeatCont body after count =>
      if count <=? 0 then _ ← prepare after; jump_to after
      else
        _ ← (if has_c0 body then mret tt else update_cr (set_c0 (RepeatCont body after (count - 1))));
        _ ← prepare body; jump_to body
  | AgainCont body =>
      _ ← (if has_c0 body then mret tt else update_cr (set_c0 cont)); _ ← prepare body; jump_to body
  | UntilCont body after =>
      b ← pop_bool;
      if b : bool then _ ← prepare after; jump_to after
      else _ ← (if has_c0 body then mret tt else update_cr (set_c0 cont)); _ ← prepare body; jump_to body
  | WhileCont cond body after chkcond =>
      if chkcond then
        b ← pop_bool;
        if b : bool
        then _ ← (if has_c0 body then mret tt else update_cr (set_c0 (WhileCont cond body after false)));
             _ ← prepare body; jump_to body
        else _ ← prepare after; jump_to after
      else _ ← (if has_c0 cond then mret tt else update_cr (set_c0 (WhileCont cond body after true)));
           _ ← prepare cond; jump_to cond
  | ArgContExt d ext =>
      _ ← adjust_cr (save d); _ ← (if cd_cp d =? -1 then mret tt else force_cp (cd_cp d)); jump_to ext
  | OrdCont d cs => _ ← adjust_cr (save d); _ ← set_code cs (cd_cp d); mret 0
  end.

Definition jump (cont : Cont) : VM Z := _ ← prepare cont; jump_to cont.
Definition jump_args (cont : Cont) (pass_args : Z) : VM Z := _ ← prepare_jump cont pass_args; jump_to cont.

Definition quit0 : Cont := QuitCont 0.
Definition quit1 : Cont := QuitCont 1.

(** [cont.swap(cr.c[0])] with [quit0], then the jump. *)
Definition ret : VM Z := c ← get_c0; _ ← update_cr (set_c0 quit0); jump c.
Definition ret_args (n : Z) : VM Z := c ← get_c0; _ ← update_cr (set_c0 quit0); jump_args c n.
Definition ret_alt : VM Z := c ← get_c1; _ ← update_cr (set_c1 quit1); jump c.

(** ** Calls *)

(** The return continuation: the code that is left, with the stack below the arguments and
    the number of results it takes, and with the old [c0] saved. *)
Definition return_cont (stk : option (list StackEntry)) (n : Z) (old_c0 : option Cont) : VM Cont :=
  cs ← take_code; cp_ ← get_cp;
  mret (OrdCont {| cd_stack := stk; save := define_c0 old_c0 empty_regs; nargs := n; cd_cp := cp_ |} cs).

(** The new stack and what is left of the old one, for a continuation with the data [d]. *)
Definition call_stacks (d : ControlData) (pass_args : Z) (s : list StackEntry)
    : option (list StackEntry * option (list StackEntry) * bool) :=
  let copy := if nargs d <? 0 then (if 0 <=? pass_args then pass_args else nargs d) else nargs d in
  let skip := if (0 <=? pass_args) && (0 <=? nargs d) then pass_args - nargs d else 0 in
  match saved_stack d with
  | [] =>
      if 0 <=? copy
      then option_map (fun p : list StackEntry * list StackEntry => (fst p, Some (snd p), true)) (split_top s copy skip)
      else Some (s, None, false)
  | own =>
      let copy := if copy <? 0 then depth s else copy in
      option_map (fun p : list StackEntry * list StackEntry => (fst p, Some (drop (Z.to_nat skip) (snd p)), true))
        (move_from_stack own s copy)
  end.

(** [VmState::call(cont, pass_args, ret_args)]. *)
Definition call_args (cont : Cont) (pass_args ret_args_ : Z) : VM Z :=
  match get_cdata cont with
  | Some d =>
      match c0 (save d) with
      | Some _ => jump_args cont pass_args
      | None =>
          _ ← check_args d pass_args;
          r ← get_cr; _ ← preclear_cr (save d);
          s ← get_stack;
          match call_stacks d pass_args s with
          | Some (new_stk, rest, pays) =>
              _ ← (if pays : bool then consume_stack_gas (depth new_stk) else mret tt);
              ret ← return_cont rest ret_args_ (c0 r);
              _ ← set_stack new_stk; _ ← update_cr (set_c0 ret); jump_to cont
          | None => undefined
          end
      end
  | None =>
      s ← get_stack;
      if depth s <? pass_args then throw stk_und
      else
        r ← get_cr;
        match (if 0 <=? pass_args then option_map (fun p : list StackEntry * list StackEntry => (fst p, Some (snd p), true)) (split_top s pass_args 0)
               else Some (s, None, false)) with
        | Some (new_stk, rest, pays) =>
            _ ← (if pays : bool then consume_stack_gas (depth new_stk) else mret tt);
            ret ← return_cont rest ret_args_ (c0 r);
            _ ← set_stack new_stk; _ ← update_cr (set_c0 ret); jump_to cont
        | None => undefined
        end
  end.

(** [VmState::call(cont)]: the stack is passed on as it is. *)
Definition simple_call (cont : Cont) : VM Z :=
  r ← get_cr; ret ← return_cont None (-1) (c0 r); _ ← update_cr (set_c0 ret); jump_to cont.
Definition call (cont : Cont) : VM Z :=
  match get_cdata cont with
  | Some d =>
      match c0 (save d) with
      | Some _ => jump cont
      | None =>
          if bool_decide (is_Some (cd_stack d)) || (0 <=? nargs d) then call_args cont (-1) (-1) else simple_call cont
      end
  | None => simple_call cont
  end.

(** ** The current continuation *)

(** [save.set_c0(std::move(cr.c[0]))] and the like: what is saved, and the register after it. *)
Definition save_c0 : VM (ControlRegs -> ControlRegs) :=
  r ← get_cr; _ ← update_cr (set_c0 quit0); mret (define_c0 (c0 r)).
Definition save_c1 : VM (ControlRegs -> ControlRegs) :=
  r ← get_cr; _ ← update_cr (set_c1 quit1); mret (define_c1 (c1 r)).
Definition clear_c2 (r : ControlRegs) : ControlRegs :=
  {| c0 := c0 r; c1 := c1 r; c2 := None; c3 := c3 r; d0 := d0 r; d1 := d1 r; c7 := c7 r |}.
Definition save_c2 : VM (ControlRegs -> ControlRegs) :=
  r ← get_cr; _ ← update_cr clear_c2; mret (define_c2 (c2 r)).
Definition save_if (b : bool) (m : VM (ControlRegs -> ControlRegs)) : VM (ControlRegs -> ControlRegs) :=
  if b then m else mret (fun s => s).

(** The stack that the machine goes on with, and what is left for the continuation. *)
Definition extract_stack (stack_copy : Z) : VM (list StackEntry * option (list StackEntry)) :=
  s ← get_stack;
  if (stack_copy <? 0) || (stack_copy =? depth s) then mret (s, None)
  else if 0 <? stack_copy then
    _ ← check_underflow [stack_copy];
    match split_top s stack_copy 0 with
    | Some (new_stk, rest) => _ ← consume_stack_gas (depth new_stk); mret (new_stk, Some rest)
    | None => undefined
    end
  else mret ([], Some s).

(** [extract_cc]: what is left of the code becomes a continuation. *)
Definition extract_cc (save_cr stack_copy cc_args : Z) : VM Cont :=
  stks ← extract_stack stack_copy;
  cs ← take_code; cp_ ← get_cp; _ ← set_stack (fst stks);
  f0 ← save_if (Z.testbit save_cr 0) save_c0;
  f1 ← save_if (Z.testbit save_cr 1) save_c1;
  f2 ← save_if (Z.testbit save_cr 2) save_c2;
  mret (OrdCont {| cd_stack := snd stks; save := f2 (f1 (f0 empty_regs)); nargs := cc_args; cd_cp := cp_ |} cs).

(** [c1_envelope] and [c1_save_set]. *)
Definition c1_envelope (cont : Cont) (save_ : bool) : VM Cont :=
  r ← get_cr;
  let cont := if save_ then force_cregs (fun s => define_c0 (c0 r) (define_c1 (c1 r) s)) cont else cont in
  _ ← update_cr (set_c1 cont); mret cont.
Definition c1_envelope_if (cond : bool) (cont : Cont) : VM Cont := if cond then c1_envelope cont true else mret cont.
Definition c1_save_set (save_ : bool) : VM unit :=
  c ← get_c0; r ← get_cr;
  let c := if save_ then force_cregs (define_c1 (c1 r)) c else c in
  _ ← update_cr (set_c0 c); update_cr (set_c1 c).

(** ** Loops *)

Definition repeat (body after : Cont) (count : Z) : VM Z :=
  if count <=? 0 then jump after else jump (RepeatCont body after count).
Definition again (body : Cont) : VM Z := jump (AgainCont body).
Definition until (body after : Cont) : VM Z :=
  _ ← (if has_c0 body then mret tt else update_cr (set_c0 (UntilCont body after))); jump body.
Definition loop_while (cond body after : Cont) : VM Z :=
  _ ← (if has_c0 cond then mret tt else update_cr (set_c0 (WhileCont cond body after true))); jump cond.

(** ** Exceptions *)

Definition exception_gas_price : Z := 50.

(** The handler in [c2] gets an argument and the number of the exception, and no code. *)
Definition throw_exception_arg (excno : Z) (arg : StackEntry) : VM Z :=
  _ ← set_stack []; _ ← push arg; _ ← push_smallint excno; _ ← put_code None;
  _ ← consume_chk exception_gas_price; c ← get_c2; jump c.
Definition throw_exception (excno : Z) : VM Z := throw_exception_arg excno (se_int (make_refint 0)).

(** ** Committing *)

Definition max_data_depth : Z := 512.
Definition with_cstate (c : option (CellRef * CellRef)) (k : VmCore) : VmCore :=
  {| core_gas := core_gas k; cr := cr k; cp := cp k; loaded_cells := loaded_cells k; cstate := c; steps := steps k |}.
Definition commit (k : VmCore) : option VmCore :=
  match d0 (cr k), d1 (cr k) with
  | Some c4, Some c5 =>
      if (cell_depth c4 <=? max_data_depth) && (cell_depth c5 <=? max_data_depth)
      then Some (with_cstate (Some (c4, c5)) k) else None
  | _, _ => None
  end.
Definition try_commit : VM bool := fun st =>
  match commit (core st) with Some k => Done (true, with_core k st) | None => Done (false, st) end.
Definition force_commit : VM unit := ok ← try_commit; guard_vm ok cell_ov.

End Continuation.
