(* ===== verification/Cells.v ===== *)
(** * Slices and builders ([crypto/vm/cells/CellSlice.cpp], [CellBuilder.cpp])

    A slice is what is left to read of a cell, a builder what was stored so far.  The operations
    are functions of the bits and references; numbers go through the routines of BitMem,
    BigIntBits and BigIntLoad on the bytes that hold the bits, and comparisons are those that
    BitCmp proves of [bits_memcmp] and [bits_memscan].  [None] is the result [false], or
    a null reference. *)
From S2P Require Import Prelude BitMem BitCmp BigInt BigIntBits RefInt BigIntLoad Stack Continuation.

(** ** The bytes of a cell *)

Definition max_bytes : nat := 128.

(** Bits from the first byte on. *)
Definition cell_data (l : list bool) : list Z :=
  let padded := l ++ replicate (8 * max_bytes - length l) false in
  map (fun i => bits_value (take 8 (drop (8 * i) padded))) (seq 0 max_bytes).

Lemma pack_bits n l : length l = (8 * n)%nat -> mem_bits (map (fun i => bits_value (take 8 (drop (8 * i) l))) (seq 0 n)) = l.
Proof.
  revert l. induction n as [|n IH]; intros l Hl; [by destruct l|]. rewrite seq_S, map_app, mem_bits_app. cbn [map mem_bits flat_map Nat.add].
  rewrite app_nil_r, take_ge by (rewrite length_drop; lia). assert (length (drop (8 * n) l) = 8%nat) as L by (rewrite length_drop; lia).
  pose proof (bits_of_value (drop (8 * n) l)) as V. rewrite L in V. rewrite V. etransitivity; [|apply (take_drop (8 * n) l)]. f_equal.
  rewrite <- (IH (take (8 * n) l)) by (rewrite length_take; lia). f_equal. apply map_ext_in. intros i Hi%in_seq.
  rewrite <- (take_drop (8 * n) l) at 1. rewrite drop_app_le by (rewrite length_take; lia).
  by rewrite take_app_le by (rewrite length_drop, length_take; lia).
Qed.
Lemma cell_data_bits l : (length l <= 8 * max_bytes)%nat -> mem_bits (cell_data l) = l ++ replicate (8 * max_bytes - length l) false.
Proof. intros Hl. apply (pack_bits max_bytes). rewrite length_app, length_replicate. lia. Qed.
Lemma length_cell_data l : length (cell_data l) = max_bytes.
Proof. unfold cell_data. by rewrite length_map, length_seq. Qed.
Lemma cell_data_bytes l : bytes (cell_data l).
Proof.
  unfold cell_data. cbv zeta. set (p := l ++ _). apply List.Forall_forall. intros b (i & <- & _)%in_map_iff.
  pose proof (bits_value_range (take 8 (drop (8 * i) p))) as [H0 H1]. split; [done|].
  assert (2 ^ Z.of_nat (length (take 8 (drop (8 * i) p))) <= 2 ^ 8); [|lia]. apply Z.pow_le_mono_r; [lia|]. rewrite length_take. lia.
Qed.

Section Cells.
Context `{CS : CellSystem}.

(** ** Reading a slice *)

Definition cs_size (cs : CellSlice) : Z := Z.of_nat (length (cs_bits cs)).
Definition cs_size_refs (cs : CellSlice) : Z := Z.of_nat (length (cs_refs cs)).
Definition have (bits : Z) (cs : CellSlice) : bool := bits <=? Z.of_nat (length (cs_bits cs)).
Definition have_refs (refs : Z) (cs : CellSlice) : bool := refs <=? Z.of_nat (length (cs_refs cs)).

Definition fetch_ulong_eof : Z := 2 ^ 64 - 1.
Definition fetch_long_eof : Z := - 2 ^ 63.

(** The first bits, and the slice behind them. *)
Definition first_bits (bits : Z) (cs : CellSlice) : list bool := take (Z.to_nat bits) (cs_bits cs).
Definition behind (bits refs : Z) (cs : CellSlice) : CellSlice :=
  {| cs_bits := drop (Z.to_nat bits) (cs_bits cs); cs_refs := drop (Z.to_nat refs) (cs_refs cs) |}.

Definition prefetch_ulong (bits : Z) (cs : CellSlice) : Z :=
  if negb (have bits cs) || (64 <? bits) then fetch_ulong_eof else int_value false (first_bits bits cs).
Definition prefetch_long (bits : Z) (cs : CellSlice) : Z :=
  if negb (have bits cs) || (64 <? bits) then fetch_long_eof else int_value true (first_bits bits cs).

(** Numbers shorter than a digit are a digit. *)
Definition prefetch_int256 (bits : Z) (sgnd : bool) (cs : CellSlice) : option digits :=
  if negb (have bits cs) then None
  else if bits <? word_shift then Some [s64 (if sgnd then prefetch_long bits cs else prefetch_ulong bits cs)]
  else Some (import_bits_any word_cnt (cell_data (cs_bits cs)) 0 bits sgnd).
Definition fetch_int256 (bits : Z) (sgnd : bool) (cs : CellSlice) : option (digits * CellSlice) :=
  x ← prefetch_int256 bits sgnd cs; Some (x, behind bits 0 cs).

(** Missing bits are zeros.  An empty slice and 52 bits or more reach [import_bits_any] with no
    bits, and its shift by 64, whose value is taken to be 0. *)
Definition prefetch_int256_zeroext (bits : Z) (sgnd : bool) (cs : CellSlice) : digits :=
  if 256 + Z.b2z sgnd <? bits then NaN
  else
    let ld_bits := Z.min bits (cs_size cs) in
    if bits <? word_shift then
      let val := s64 (if sgnd then prefetch_long ld_bits cs else prefetch_ulong ld_bits cs) in
      make_refint (s64 (Z.shiftl val (bits - ld_bits)))
    else refint_shl (import_bits_any word_cnt (cell_data (cs_bits cs)) 0 ld_bits sgnd) (bits - ld_bits).

Definition prefetch_ref (offset : Z) (cs : CellSlice) : option Cell := cs_refs cs !! Z.to_nat offset.
Definition fetch_ref_of (cs : CellSlice) : option (Cell * CellSlice) :=
  match cs_refs cs with c :: _ => Some (c, behind 0 1 cs) | [] => None end.

Definition prefetch_subslice (bits refs : Z) (cs : CellSlice) : option CellSlice :=
  if have bits cs && have_refs refs cs
  then Some {| cs_bits := take (Z.to_nat bits) (cs_bits cs); cs_refs := take (Z.to_nat refs) (cs_refs cs) |} else None.
Definition fetch_subslice_of (bits refs : Z) (cs : CellSlice) : option (CellSlice * CellSlice) :=
  s ← prefetch_subslice bits refs cs; Some (s, behind bits refs cs).

(** Whole bytes, copied to a buffer. *)
Definition prefetch_bytes (bytes : Z) (cs : CellSlice) : option (list Z) :=
  if have (bytes * 8) cs then Some (take (Z.to_nat bytes) (cell_data (cs_bits cs))) else None.

(** ** Cutting a slice *)

Definition only_first (bits refs : Z) (cs : CellSlice) : option CellSlice := prefetch_subslice bits refs cs.
Definition skip_first (bits refs : Z) (cs : CellSlice) : option CellSlice :=
  if have bits cs && have_refs refs cs then Some (behind bits refs cs) else None.
Definition only_last (bits refs : Z) (cs : CellSlice) : option CellSlice :=
  if have bits cs && have_refs refs cs then Some (behind (cs_size cs - bits) (cs_size_refs cs - refs) cs) else None.
Definition skip_last (bits refs : Z) (cs : CellSlice) : option CellSlice :=
  if have bits cs && have_refs refs cs
  then Some {| cs_bits := take (Z.to_nat (cs_size cs - bits)) (cs_bits cs); cs_refs := take (Z.to_nat (cs_size_refs cs - refs)) (cs_refs cs) |}
  else None.

(** [remove_trailing]: the last 1 and the zeros after it. *)
Fixpoint strip_zeros (rev_bits : list bool) : list bool :=
  match rev_bits with false :: l => strip_zeros l | true :: l => l | [] => [] end.
Definition remove_trailing (cs : CellSlice) : CellSlice :=
  {| cs_bits := rev (strip_zeros (rev (cs_bits cs))); cs_refs := cs_refs cs |}.

(** ** Comparing slices *)

Definition lex_cmp (cs1 cs2 : CellSlice) : Z := lex_bits (cs_bits cs1) (cs_bits cs2).
Definition is_prefix_of (cs1 cs2 : CellSlice) : bool :=
  (cs_size cs1 <=? cs_size cs2) && (compare_bits (cs_bits cs1) (cs_bits cs2) =? 0).
Definition has_prefix (cs1 cs2 : CellSlice) : bool :=
  (cs_size cs2 <=? cs_size cs1) && (compare_bits (cs_bits cs1) (cs_bits cs2) =? 0).
Definition is_proper_prefix_of (cs1 cs2 : CellSlice) : bool :=
  (cs_size cs1 <? cs_size cs2) && (compare_bits (cs_bits cs1) (cs_bits cs2) =? 0).
(** The last bits of the longer slice. *)
Definition last_bits (bits : Z) (cs : CellSlice) : list bool := drop (Z.to_nat (cs_size cs - bits)) (cs_bits cs).
Definition is_suffix_of (cs1 cs2 : CellSlice) : bool :=
  (cs_size cs1 <=? cs_size cs2) && (compare_bits (cs_bits cs1) (last_bits (cs_size cs1) cs2) =? 0).
Definition is_proper_suffix_of (cs1 cs2 : CellSlice) : bool :=
  (cs_size cs1 <? cs_size cs2) && (compare_bits (cs_bits cs1) (last_bits (cs_size cs1) cs2) =? 0).
Definition count_leading (bit : bool) (cs : CellSlice) : Z := run_length bit (cs_bits cs).
Definition count_trailing (bit : bool) (cs : CellSlice) : Z := run_length bit (rev (cs_bits cs)).

(** ** Depth *)

(** The depths of references, as an [int] that is cast to 16 bits in the end. *)
Definition refs_depth (refs : list Cell) : Z := u16 (fold_left (fun d c => Z.max d (cell_depth c + 1)) refs 0).
Definition cs_get_depth (cs : CellSlice) : Z := refs_depth (cs_refs cs).

(** ** Builders *)

Definition cb_size (cb : CellBuilder) : Z := Z.of_nat (length (cb_bits cb)).
Definition cb_size_refs (cb : CellBuilder) : Z := Z.of_nat (length (cb_refs cb)).
Definition remaining_bits (cb : CellBuilder) : Z := u32 (max_bits - cb_size cb).
Definition remaining_refs (cb : CellBuilder) : Z := u32 (max_refs - cb_size_refs cb).
Definition can_extend_by (new_bits new_refs : Z) (cb : CellBuilder) : bool :=
  (new_bits <=? remaining_bits cb) && (new_refs <=? remaining_refs cb).
Definition cb_get_depth (cb : CellBuilder) : Z := refs_depth (cb_refs cb).

(** The builder whose bytes are [m], with [bits] more bits than before. *)
Definition extended (bits : Z) (m : list Z) (cb : CellBuilder) : CellBuilder :=
  {| cb_bits := take (Z.to_nat (cb_size cb + bits)) (mem_bits m); cb_refs := cb_refs cb |}.

Definition store_int256_bool (val : digits) (val_bits : Z) (sgnd : bool) (cb : CellBuilder) : option CellBuilder :=
  if can_extend_by val_bits 0 cb
  then m ← export_bits_any (cell_data (cb_bits cb)) (cb_size cb) val_bits sgnd val; Some (extended val_bits m cb) else None.
Definition store_ref_bool (c : Cell) (cb : CellBuilder) : option CellBuilder :=
  if cb_size_refs cb <? max_refs then Some {| cb_bits := cb_bits cb; cb_refs := cb_refs cb ++ [c] |} else None.
(** [reserve_slice(bits) = val]; where there is no space, nothing is reserved. *)
Definition store_same (bits : Z) (val : bool) (cb : CellBuilder) : CellBuilder :=
  if can_extend_by bits 0 cb then extended bits (bits_memset (cell_data (cb_bits cb)) (cb_size cb) val bits) cb else cb.
Definition append (bits : list bool) (refs : list Cell) (cb : CellBuilder) : option CellBuilder :=
  if can_extend_by (Z.of_nat (length bits)) (Z.of_nat (length refs)) cb
  then Some {| cb_bits := cb_bits cb ++ bits; cb_refs := cb_refs cb ++ refs |} else None.
Definition append_builder_bool (cb2 cb : CellBuilder) : option CellBuilder := append (cb_bits cb2) (cb_refs cb2) cb.
Definition cell_builder_add_slice_bool (cb : CellBuilder) (cs : CellSlice) : option CellBuilder := append (cs_bits cs) (cs_refs cs) cb.

(** [store_bytes]; a cell has room for [max_bytes]. *)
Definition store_bytes_bool (str : list Z) (cb : CellBuilder) : option CellBuilder :=
  if (length str <=? max_bytes)%nat then append (mem_bits str) [] cb else None.

(** The operations without [_bool] throw [CellCreateError] instead, which the run loop turns into
    a cell overflow. *)
Definition ensure_pass {A} (o : option A) : VM A := match o with Some a => mret a | None => throw cell_ov end.

(** What the code dereferences without a test, and what [VmState::ensure_throw] demands. *)
Definition unchecked {A} (o : option A) : VM A := match o with Some a => mret a | None => undefined end.
Definition ensure_throw {A} (o : option A) : VM A := unchecked o.

Definition cell_create_gas_price : Z := 500.
Definition finalize_copy (special : bool) (cb : CellBuilder) : VM Cell :=
  _ ← consume_gas cell_create_gas_price; ensure_pass (cell_create (cb_bits cb) (cb_refs cb) special).

End Cells.
