(* ===== verification/CellConstOps.v ===== *)
(** * Constants in the code ([register_cell_const_ops] of [crypto/vm/cellops.cpp])

    Instructions that take a cell, a slice or a continuation out of the code that follows
    them; the C++ functions get the machine's code as their argument [cs]. *)
From S2P Require Import Prelude BigInt RefInt Stack OpTable Continuation Cells.

Section CellConstOps.
Context `{CS : CellSystem}.

(** ** Reading the code *)

Definition get_code : VM CellSlice := fun st => match code st with Some cs => Done (cs, st) | None => Undefined end.

(** A reference that is not there is null, and not dereferenced. *)
Definition fetch_ref : VM Cell :=
  cs ← get_code; match fetch_ref_of cs with Some (c, cs') => _ ← put_code (Some cs'); mret c | None => undefined end.
Definition fetch_subslice (bits refs : Z) : VM CellSlice :=
  cs ← get_code; match fetch_subslice_of bits refs cs with Some (s, cs') => _ ← put_code (Some cs'); mret s | None => undefined end.

(** The guards of these instructions, all of which throw the same exception. *)
Definition need (p : CellSlice -> bool) : VM unit := cs ← get_code; guard_vm (p cs) inv_opcode.

(** ** Instructions *)

Definition exec_push_ref (mode pfx_bits : Z) : VM unit :=
  _ ← need (have_refs 1); _ ← advance pfx_bits; cell ← fetch_ref;
  if mode =? 1 then cs ← load_cell_slice_ref cell; push_cellslice cs
  else if mode =? 2 then cs ← load_cell_slice_ref cell; cp_ ← get_cp; push_cont (OrdCont (plain_data cp_) cs)
  else push_cell cell.
Definition compute_len_push_ref (cs : CellSlice) (args pfx_bits : Z) : Z := if have_refs 1 cs then 0x10000 + pfx_bits else 0.
Definition compute_len_push_ref2 (cs : CellSlice) (args pfx_bits : Z) : Z := if have_refs 2 cs then 0x20000 + pfx_bits else 0.

Definition exec_push_slice_common (data_bits refs pfx_bits : Z) : VM unit :=
  _ ← need (have (pfx_bits + data_bits)); _ ← need (have_refs refs);
  _ ← advance pfx_bits; slice ← fetch_subslice data_bits refs; push_cellslice (remove_trailing slice).
Definition compute_len_push_slice_common (cs : CellSlice) (data_bits refs pfx_bits : Z) : Z :=
  let bits := pfx_bits + data_bits in if have bits cs && have_refs refs cs then Z.shiftl refs 16 + bits else 0.

(** The data bits and references of each form. *)
Definition slice_bits (args : Z) : Z := Z.land args 15 * 8 + 4.
Definition slice_r_bits (args : Z) : Z := Z.land args 31 * 8 + 1.
Definition slice_r_refs (args : Z) : Z := Z.land (Z.shiftr args 5) 3 + 1.
Definition slice_r2_bits (args : Z) : Z := Z.land args 127 * 8 + 6.
Definition slice_r2_refs (args : Z) : Z := Z.land (Z.shiftr args 7) 7.
Definition cont_bits (args : Z) : Z := Z.land args 127 * 8.
Definition cont_refs (args : Z) : Z := Z.land (Z.shiftr args 7) 3.
Definition cont_simple_bits (args : Z) : Z := Z.land args 15 * 8.

Definition exec_push_slice (args pfx_bits : Z) : VM unit := exec_push_slice_common (slice_bits args) 0 pfx_bits.
Definition exec_push_slice_r (args pfx_bits : Z) : VM unit := exec_push_slice_common (slice_r_bits args) (slice_r_refs args) pfx_bits.
Definition exec_push_slice_r2 (args pfx_bits : Z) : VM unit := exec_push_slice_common (slice_r2_bits args) (slice_r2_refs args) pfx_bits.
Definition compute_len_push_slice (cs : CellSlice) (args pfx_bits : Z) : Z :=
  compute_len_push_slice_common cs (slice_bits args) 0 pfx_bits.
Definition compute_len_push_slice_r (cs : CellSlice) (args pfx_bits : Z) : Z :=
  compute_len_push_slice_common cs (slice_r_bits args) (slice_r_refs args) pfx_bits.
Definition compute_len_push_slice_r2 (cs : CellSlice) (args pfx_bits : Z) : Z :=
  compute_len_push_slice_common cs (slice_r2_bits args) (slice_r2_refs args) pfx_bits.

Definition exec_push_cont (args pfx_bits : Z) : VM unit :=
  _ ← need (have (pfx_bits + cont_bits args)); _ ← need (have_refs (cont_refs args));
  _ ← advance pfx_bits; slice ← fetch_subslice (cont_bits args) (cont_refs args); cp_ ← get_cp; push_cont (OrdCont (plain_data cp_) slice).
Definition exec_push_cont_simple (args pfx_bits : Z) : VM unit :=
  _ ← need (have (pfx_bits + cont_simple_bits args));
  _ ← advance pfx_bits; slice ← fetch_subslice (cont_simple_bits args) 0; cp_ ← get_cp; push_cont (OrdCont (plain_data cp_) slice).
Definition compute_len_push_cont (cs : CellSlice) (args pfx_bits : Z) : Z :=
  compute_len_push_slice_common cs (cont_bits args) (cont_refs args) pfx_bits.
Definition compute_len_push_cont_simple (cs : CellSlice) (args pfx_bits : Z) : Z :=
  compute_len_push_slice_common cs (cont_simple_bits args) 0 pfx_bits.

(** ** Registration *)

Definition ext0 (exec : Z -> Z -> VM unit) (args pfx_bits : Z) : VM Z := ret0 (exec args pfx_bits).

Definition cell_const_ops : list OpcodeInstr :=
  [ mkext 0x88 8 0 (ext0 (fun _ => exec_push_ref 0)) compute_len_push_ref
  ; mkext 0x89 8 0 (ext0 (fun _ => exec_push_ref 1)) compute_len_push_ref
  ; mkext 0x8a 8 0 (ext0 (fun _ => exec_push_ref 2)) compute_len_push_ref
  ; mkext 0x8b 8 4 (ext0 exec_push_slice) compute_len_push_slice
  ; mkext 0x8c 8 7 (ext0 exec_push_slice_r) compute_len_push_slice_r
  ; mkextrange (Z.shiftl (0x8d * 8) 7) (Z.shiftl (0x8d * 8 + 5) 7) 18 10 (ext0 exec_push_slice_r2) compute_len_push_slice_r2
  ; mkext (0x8e / 2) 7 9 (ext0 exec_push_cont) compute_len_push_cont
  ; mkext 9 4 4 (ext0 exec_push_cont_simple) compute_len_push_cont_simple ].

Definition register_cell_const_ops (t : OpcodeTable) : option OpcodeTable := insert_all cell_const_ops t.

End CellConstOps.
