(* ===== verification/BuilderOps.v ===== *)
(** * Instructions that build cells ([register_cell_serialize_ops] of [crypto/vm/cellops.cpp]) *)
From S2P Require Import Prelude BigInt BigIntOps RefInt BigIntBytes Stack OpTable Continuation Cells CellConstOps.

Section BuilderOps.
Context `{CS : CellSystem}.

Definition exec_new_builder : VM unit := push_builder {| cb_bits := []; cb_refs := [] |}.
Definition exec_builder_to_cell : VM unit := _ ← check_underflow [1]; b ← pop_builder; c ← finalize_copy false b; push_cell c.
Definition exec_builder_to_special_cell : VM unit :=
  _ ← check_underflow [2]; special ← pop_bool; b ← pop_builder; c ← finalize_copy special b; push_cell c.

Definition check_space (bits refs : Z) (builder : CellBuilder) : VM unit := guard_vm (can_extend_by bits refs builder) cell_ov.

(** ** Integers *)

(** Bit 0 of [args] is for unsigned numbers, bit 1 for the reverse order of the operands, bit 2
    for an answer instead of an exception. *)
Definition store_int_common_fail (code : Z) (builder : CellBuilder) (x : digits) (args : Z) : VM unit :=
  _ ← (if negb (Z.testbit args 1) then _ ← push_int_quiet x true; push_builder builder
       else _ ← push_builder builder; push_int_quiet x true);
  push_smallint code.

Definition fits_bits_any (x : digits) (bits : Z) (sgnd : bool) : bool :=
  if sgnd then signed_fits_bits_any x bits else unsigned_fits_bits_any x bits.

Definition exec_store_int_common (bits args : Z) : VM unit :=
  let sgnd := negb (Z.testbit args 0) in
  '(builder, x) ← (if negb (Z.testbit args 1) then b ← pop_builder; x ← pop_int; mret (b, x)
                   else x ← pop_int; b ← pop_builder; mret (b, x));
  if negb (can_extend_by bits 0 builder) then
    if Z.testbit args 2 then store_int_common_fail (-1) builder x args else throw cell_ov
  else if negb (fits_bits_any x bits sgnd) then
    if Z.testbit args 2 then store_int_common_fail 1 builder x args else throw range_chk
  else
    b' ← ensure_pass (store_int256_bool x bits sgnd builder);
    _ ← push_builder b'; if Z.testbit args 2 then push_smallint 0 else mret tt.

Definition exec_store_int (sgnd : bool) (args : Z) : VM unit :=
  let bits := Z.land args 0xff + 1 in _ ← check_underflow [2]; exec_store_int_common bits (Z.b2z (negb sgnd)).
Definition exec_store_int_var (args : Z) : VM unit :=
  let sgnd := negb (Z.testbit args 0) in
  _ ← check_underflow [3]; bits ← pop_smallint_range (256 + Z.b2z sgnd) 0; exec_store_int_common bits args.
Definition exec_store_int_fixed (args : Z) : VM unit :=
  let bits := Z.land args 0xff + 1 in _ ← check_underflow [2]; exec_store_int_common bits (Z.shiftr args 8).

(** Little-endian integers of 4 or 8 bytes. *)
Definition exec_store_le_int (args : Z) : VM unit :=
  let bits := if Z.testbit args 1 then 64 else 32 in
  let sgnd := negb (Z.testbit args 0) in
  _ ← check_underflow [2]; builder ← pop_builder; x ← pop_int;
  _ ← check_space bits 0 builder;
  if negb (fits_bits_any x bits sgnd) then throw range_chk
  else
    buff ← ensure_throw (export_bytes_lsb_any (Z.to_nat (Z.shiftr bits 3)) sgnd x);
    b' ← ensure_pass (store_bytes_bool buff builder); push_builder b'.

(** ** References *)

Definition exec_store_ref (quiet : bool) : VM unit :=
  _ ← check_underflow [2]; builder ← pop_builder; cell ← pop_cell;
  if negb (can_extend_by 0 1 builder) then
    if negb quiet then throw cell_ov else _ ← push_cell cell; _ ← push_builder builder; push_smallint (-1)
  else
    b' ← ensure_pass (store_ref_bool cell builder); _ ← push_builder b'; if quiet then push_smallint 0 else mret tt.
Definition exec_store_ref_rev (quiet : bool) : VM unit :=
  _ ← check_underflow [2]; cell ← pop_cell; builder ← pop_builder;
  if negb (can_extend_by 0 1 builder) then
    if negb quiet then throw cell_ov else _ ← push_builder builder; _ ← push_cell cell; push_smallint (-1)
  else
    b' ← ensure_pass (store_ref_bool cell builder); _ ← push_builder b'; if quiet then push_smallint 0 else mret tt.
Definition exec_store_builder_as_ref (quiet : bool) : VM unit :=
  _ ← check_underflow [2]; builder ← pop_builder; builder2 ← pop_builder;
  if negb (can_extend_by 0 1 builder) then
    if negb quiet then throw cell_ov else _ ← push_builder builder2; _ ← push_builder builder; push_smallint (-1)
  else
    c ← finalize_copy false builder2;
    b' ← ensure_pass (store_ref_bool c builder); _ ← push_builder b'; if quiet then push_smallint 0 else mret tt.
Definition exec_store_builder_as_ref_rev (quiet : bool) : VM unit :=
  _ ← check_underflow [2]; builder2 ← pop_builder; builder ← pop_builder;
  if negb (can_extend_by 0 1 builder) then
    if negb quiet then throw cell_ov else _ ← push_builder builder; _ ← push_builder builder2; push_smallint (-1)
  else
    c ← finalize_copy false builder2;
    b' ← ensure_pass (store_ref_bool c builder); _ ← push_builder b'; if quiet then push_smallint 0 else mret tt.

(** ** Slices and builders *)

Definition exec_store_slice (quiet : bool) : VM unit :=
  _ ← check_underflow [2]; builder ← pop_builder; cs ← pop_cellslice;
  if negb (can_extend_by (cs_size cs) (cs_size_refs cs) builder) then
    if negb quiet then throw cell_ov else _ ← push_cellslice cs; _ ← push_builder builder; push_smallint (-1)
  else
    b' ← ensure_pass (cell_builder_add_slice_bool builder cs); _ ← push_builder b'; if quiet then push_smallint 0 else mret tt.
Definition exec_store_slice_rev (quiet : bool) : VM unit :=
  _ ← check_underflow [2]; cs ← pop_cellslice; builder ← pop_builder;
  if negb (can_extend_by (cs_size cs) (cs_size_refs cs) builder) then
    if negb quiet then throw cell_ov else _ ← push_builder builder; _ ← push_cellslice cs; push_smallint (-1)
  else
    b' ← ensure_pass (cell_builder_add_slice_bool builder cs); _ ← push_builder b'; if quiet then push_smallint 0 else mret tt.
Definition exec_store_builder (quiet : bool) : VM unit :=
  _ ← check_underflow [2]; builder ← pop_builder; cb2 ← pop_builder;
  if negb (can_extend_by (cb_size cb2) (cb_size_refs cb2) builder) then
    if negb quiet then throw cell_ov else _ ← push_builder cb2; _ ← push_builder builder; push_smallint (-1)
  else
    b' ← ensure_pass (append_builder_bool cb2 builder); _ ← push_builder b'; if quiet then push_smallint 0 else mret tt.
Definition exec_store_builder_rev (quiet : bool) : VM unit :=
  _ ← check_underflow [2]; cb2 ← pop_builder; builder ← pop_builder;
  if negb (can_extend_by (cb_size cb2) (cb_size_refs cb2) builder) then
    if negb quiet then throw cell_ov else _ ← push_builder builder; _ ← push_builder cb2; push_smallint (-1)
  else
    b' ← ensure_pass (append_builder_bool cb2 builder); _ ← push_builder b'; if quiet then push_smallint 0 else mret tt.

(** ** Constants in the code *)

(** [do { store_ref(cs.fetch_ref()) } while (--refs > 0)] *)
Fixpoint store_code_refs (refs : nat) (builder : CellBuilder) : VM CellBuilder :=
  match refs with
  | O => mret builder
  | S refs' => c ← fetch_ref; b' ← ensure_pass (store_ref_bool c builder); store_code_refs refs' b'
  end.
Definition exec_store_const_ref (args pfx_bits : Z) : VM unit :=
  let refs := Z.land args 1 + 1 in
  _ ← need (have_refs refs); _ ← advance pfx_bits; _ ← check_underflow [1]; builder ← pop_builder; _ ← check_space 0 refs builder;
  b' ← store_code_refs (Z.to_nat refs) builder; push_builder b'.
Definition compute_len_store_const_ref (cs : CellSlice) (args pfx_bits : Z) : Z :=
  let refs := Z.land args 1 + 1 in if have_refs refs cs then Z.shiftl refs 16 + pfx_bits else 0.

Definition const_slice_refs (args : Z) : Z := Z.land (Z.shiftr args 3) 3.
Definition const_slice_bits (args : Z) : Z := Z.land args 7 * 8 + 2.
Definition exec_store_const_slice (args pfx_bits : Z) : VM unit :=
  _ ← need (have (pfx_bits + const_slice_bits args)); _ ← need (have_refs (const_slice_refs args));
  _ ← advance pfx_bits; s ← fetch_subslice (const_slice_bits args) (const_slice_refs args);
  let slice := remove_trailing s in
  builder ← pop_builder; _ ← check_space (cs_size slice) (cs_size_refs slice) builder;
  b' ← ensure_pass (cell_builder_add_slice_bool builder slice); push_builder b'.
Definition compute_len_store_const_slice (cs : CellSlice) (args pfx_bits : Z) : Z :=
  compute_len_push_slice_common cs (const_slice_bits args) (const_slice_refs args) pfx_bits.

(** ** The space of a builder *)

Definition exec_int_builder_func (func : CellBuilder -> Z) : VM unit :=
  _ ← check_underflow [1]; b ← pop_builder; push_smallint (s32 (func b)).
Definition exec_2int_builder_func (func : CellBuilder -> Z * Z) : VM unit :=
  _ ← check_underflow [1]; b ← pop_builder; _ ← push_smallint (s32 (fst (func b))); push_smallint (s32 (snd (func b))).

Definition exec_builder_chk_bits (quiet : bool) (args : Z) : VM unit :=
  let bits := Z.land args 0xff + 1 in
  _ ← check_underflow [1]; builder ← pop_builder;
  if quiet then push_smallint (if can_extend_by bits 0 builder then -1 else 0) else check_space bits 0 builder.
Definition exec_builder_chk_bits_refs (mode : Z) : VM unit :=
  _ ← check_underflow [1 + Z.land mode 1 + Z.shiftr (Z.land mode 2) 1];
  refs ← (if Z.testbit mode 1 then pop_smallint_range 7 0 else mret 0);
  bits ← (if Z.testbit mode 0 then pop_smallint_range 1023 0 else mret 0);
  builder ← pop_builder;
  if Z.testbit mode 2 then push_smallint (if can_extend_by bits refs builder then -1 else 0) else check_space bits refs builder.

(** A negative [val] is an operand. *)
Definition exec_store_same (val : Z) : VM unit :=
  _ ← check_underflow [2 + Z.b2z (val <? 0)];
  val ← (if val <? 0 then pop_smallint_range 1 0 else mret val); bits ← pop_smallint_range 1023 0; builder ← pop_builder;
  _ ← check_space bits 0 builder; push_builder (store_same bits (negb (val =? 0)) builder).

(** ** Registration *)

Definition cell_serialize_ops : list OpcodeInstr :=
  [ mksimple 0xc8 8 exec_new_builder
  ; mksimple 0xc9 8 exec_builder_to_cell
  ; mkfixed 0xca 8 8 (exec_store_int true)
  ; mkfixed 0xcb 8 8 (exec_store_int false)
  ; mksimple 0xcc 8 (exec_store_ref false)
  ; mksimple 0xcd 8 (exec_store_builder_as_ref_rev false)
  ; mksimple 0xce 8 (exec_store_slice false)
  ; mkfixed (Z.shiftr 0xcf00 3) 13 3 exec_store_int_var
  ; mkfixed (Z.shiftr 0xcf08 3) 13 11 exec_store_int_fixed
  ; mksimple 0xcf10 16 (exec_store_ref false)
  ; mksimple 0xcf11 16 (exec_store_builder_as_ref false)
  ; mksimple 0xcf12 16 (exec_store_slice false)
  ; mksimple 0xcf13 16 (exec_store_builder false)
  ; mksimple 0xcf14 16 (exec_store_ref_rev false)
  ; mksimple 0xcf15 16 (exec_store_builder_as_ref_rev false)
  ; mksimple 0xcf16 16 (exec_store_slice_rev false)
  ; mksimple 0xcf17 16 (exec_store_builder_rev false)
  ; mksimple 0xcf18 16 (exec_store_ref true)
  ; mksimple 0xcf19 16 (exec_store_builder_as_ref true)
  ; mksimple 0xcf1a 16 (exec_store_slice true)
  ; mksimple 0xcf1b 16 (exec_store_builder true)
  ; mksimple 0xcf1c 16 (exec_store_ref_rev true)
  ; mksimple 0xcf1d 16 (exec_store_builder_as_ref_rev true)
  ; mksimple 0xcf1e 16 (exec_store_slice_rev true)
  ; mksimple 0xcf1f 16 (exec_store_builder_rev true)
  ; mkextrange 0xcf20 0xcf22 16 1 (ext0 exec_store_const_ref) compute_len_store_const_ref
  ; mksimple 0xcf23 16 exec_builder_to_special_cell
  ; mkfixed (Z.shiftr 0xcf28 2) 14 2 exec_store_le_int
  ; mksimple 0xcf30 16 (exec_int_builder_func cb_get_depth)
  ; mksimple 0xcf31 16 (exec_int_builder_func cb_size)
  ; mksimple 0xcf32 16 (exec_int_builder_func cb_size_refs)
  ; mksimple 0xcf33 16 (exec_2int_builder_func (fun b => (cb_size b, cb_size_refs b)))
  ; mksimple 0xcf35 16 (exec_int_builder_func remaining_bits)
  ; mksimple 0xcf36 16 (exec_int_builder_func remaining_refs)
  ; mksimple 0xcf37 16 (exec_2int_builder_func (fun b => (remaining_bits b, remaining_refs b)))
  ; mkfixed 0xcf38 16 8 (exec_builder_chk_bits false)
  ; mksimple 0xcf39 16 (exec_builder_chk_bits_refs 1)
  ; mksimple 0xcf3a 16 (exec_builder_chk_bits_refs 2)
  ; mksimple 0xcf3b 16 (exec_builder_chk_bits_refs 3)
  ; mkfixed 0xcf3c 16 8 (exec_builder_chk_bits true)
  ; mksimple 0xcf3d 16 (exec_builder_chk_bits_refs 5)
  ; mksimple 0xcf3e 16 (exec_builder_chk_bits_refs 6)
  ; mksimple 0xcf3f 16 (exec_builder_chk_bits_refs 7)
  ; mksimple 0xcf40 16 (exec_store_same 0)
  ; mksimple 0xcf41 16 (exec_store_same 1)
  ; mksimple 0xcf42 16 (exec_store_same (-1))
  ; mkext (Z.shiftr 0xcf80 7) 9 5 (ext0 exec_store_const_slice) compute_len_store_const_slice ].

Definition register_cell_serialize_ops (t : OpcodeTable) : option OpcodeTable := insert_all cell_serialize_ops t.

End BuilderOps.
