(* ===== verification/SliceOps.v ===== *)
(** * Instructions that read slices ([register_cell_cmp_ops] and [register_cell_deserialize_ops]
    of [crypto/vm/cellops.cpp]) *)
From S2P Require Import Prelude BigInt RefInt BigIntBytes Stack OpTable Continuation Cells CellConstOps BuilderOps.

Section SliceOps.
Context `{CS : CellSystem}.

(** ** Comparisons *)

Definition truth (b : bool) : Z := if b then -1 else 0.

Definition exec_un_cs_cmp (func : CellSlice -> bool) : VM unit :=
  _ ← check_underflow [1]; cs ← pop_cellslice; push_smallint (truth (func cs)).
Definition exec_iun_cs_cmp (func : CellSlice -> Z) : VM unit :=
  _ ← check_underflow [1]; cs ← pop_cellslice; push_smallint (func cs).
Definition exec_bin_cs_cmp (func : CellSlice -> CellSlice -> bool) : VM unit :=
  _ ← check_underflow [2]; cs2 ← pop_cellslice; cs1 ← pop_cellslice; push_smallint (truth (func cs1 cs2)).
Definition exec_ibin_cs_cmp (func : CellSlice -> CellSlice -> Z) : VM unit :=
  _ ← check_underflow [2]; cs2 ← pop_cellslice; cs1 ← pop_cellslice; push_smallint (func cs1 cs2).

Definition cell_cmp_ops : list OpcodeInstr :=
  [ mksimple 0xc700 16 (exec_un_cs_cmp (fun cs => (cs_size cs =? 0) && (cs_size_refs cs =? 0)))
  ; mksimple 0xc701 16 (exec_un_cs_cmp (fun cs => cs_size cs =? 0))
  ; mksimple 0xc702 16 (exec_un_cs_cmp (fun cs => cs_size_refs cs =? 0))
  ; mksimple 0xc703 16 (exec_un_cs_cmp (fun cs => prefetch_long 1 cs =? -1))
  ; mksimple 0xc704 16 (exec_ibin_cs_cmp lex_cmp)
  ; mksimple 0xc705 16 (exec_bin_cs_cmp (fun cs1 cs2 => lex_cmp cs1 cs2 =? 0))
  ; mksimple 0xc708 16 (exec_bin_cs_cmp is_prefix_of)
  ; mksimple 0xc709 16 (exec_bin_cs_cmp (fun cs1 cs2 => is_prefix_of cs2 cs1))
  ; mksimple 0xc70a 16 (exec_bin_cs_cmp is_proper_prefix_of)
  ; mksimple 0xc70b 16 (exec_bin_cs_cmp (fun cs1 cs2 => is_proper_prefix_of cs2 cs1))
  ; mksimple 0xc70c 16 (exec_bin_cs_cmp is_suffix_of)
  ; mksimple 0xc70d 16 (exec_bin_cs_cmp (fun cs1 cs2 => is_suffix_of cs2 cs1))
  ; mksimple 0xc70e 16 (exec_bin_cs_cmp is_proper_suffix_of)
  ; mksimple 0xc70f 16 (exec_bin_cs_cmp (fun cs1 cs2 => is_proper_suffix_of cs2 cs1))
  ; mksimple 0xc710 16 (exec_iun_cs_cmp (count_leading false))
  ; mksimple 0xc711 16 (exec_iun_cs_cmp (count_leading true))
  ; mksimple 0xc712 16 (exec_iun_cs_cmp (count_trailing false))
  ; mksimple 0xc713 16 (exec_iun_cs_cmp (count_trailing true)) ].

Definition register_cell_cmp_ops (t : OpcodeTable) : option OpcodeTable := insert_all cell_cmp_ops t.

(** ** Cells *)

Definition exec_cell_to_slice : VM unit := cell ← pop_cell; cs ← load_cell_slice_ref cell; push_cellslice cs.
Definition exec_cell_to_slice_maybe_special : VM unit :=
  cell ← pop_cell; '(cs, is_special) ← load_cell_slice_ref_special cell; _ ← push_cellslice cs; push_bool is_special.
Definition exec_load_special_cell (quiet : bool) : VM unit :=
  cell ← pop_cell; _ ← push_cell cell; if quiet then push_bool true else mret tt.
Definition exec_slice_chk_empty : VM unit :=
  cs ← pop_cellslice; if negb (cs_size cs =? 0) || negb (cs_size_refs cs =? 0) then throw cell_und else mret tt.

(** ** Integers *)

(** Bit 0 of [mode] is for unsigned numbers, bit 1 leaves the slice where it was, and bit 2 is for
    an answer instead of an exception. *)
Definition exec_load_int_common (bits mode : Z) : VM unit :=
  cs ← pop_cellslice;
  if negb (have bits cs) then
    if negb (Z.testbit mode 2) then throw cell_und
    else _ ← (if negb (Z.testbit mode 1) then push_cellslice cs else mret tt); push_smallint 0
  else
    let sgnd := negb (Z.testbit mode 0) in
    _ ← (if Z.testbit mode 1 then x ← unchecked (prefetch_int256 bits sgnd cs); push_int x
         else r ← unchecked (fetch_int256 bits sgnd cs); _ ← push_int (fst r); push_cellslice (snd r));
    if Z.testbit mode 2 then push_smallint (-1) else mret tt.
Definition exec_load_int_fixed (mode args : Z) : VM unit := let bits := Z.land args 0xff + 1 in exec_load_int_common bits mode.
Definition exec_load_int_var (args : Z) : VM unit :=
  _ ← check_underflow [2]; bits ← pop_smallint_range (257 - Z.land args 1) 0; exec_load_int_common bits (Z.land args 7).
Definition exec_load_int_fixed2 (args : Z) : VM unit :=
  let bits := Z.land args 0xff + 1 in exec_load_int_common bits (Z.land (Z.shiftr args 8) 7).
Definition exec_preload_uint_fixed_0e (args : Z) : VM unit :=
  let bits := Z.shiftl (Z.land args 7 + 1) 5 in
  cs ← pop_cellslice; let x := prefetch_int256_zeroext bits false cs in _ ← push_cellslice cs; push_int x.

(** ** References *)

Definition preload_ref (idx : Z) (cs : CellSlice) : VM unit :=
  if negb (have_refs (idx + 1) cs) then throw cell_und else c ← unchecked (prefetch_ref idx cs); push_cell c.
Definition exec_preload_ref_fixed (args : Z) : VM unit := let idx := Z.land args 3 in cs ← pop_cellslice; preload_ref idx cs.
Definition exec_preload_ref : VM unit :=
  _ ← check_underflow [2]; idx ← pop_smallint_range 3 0; cs ← pop_cellslice; preload_ref idx cs.

Definition exec_load_ref (mode : Z) : VM unit :=
  cs ← pop_cellslice;
  if negb (have_refs 1 cs) then
    if negb (Z.testbit mode 2) then throw cell_und else push_smallint 0
  else
    _ ← (if Z.testbit mode 1 then c ← unchecked (prefetch_ref 0 cs); push_cell c
         else r ← unchecked (fetch_ref_of cs); _ ← push_cell (fst r); push_cellslice (snd r));
    if Z.testbit mode 2 then push_smallint (-1) else mret tt.
Definition exec_load_ref_rev_to_slice (mode : Z) : VM unit :=
  cs ← pop_cellslice;
  if negb (have_refs 1 cs) then
    if negb (Z.testbit mode 2) then throw cell_und else push_smallint 0
  else
    _ ← (if Z.testbit mode 1 then c ← unchecked (prefetch_ref 0 cs); cs' ← load_cell_slice_ref c; push_cellslice cs'
         else r ← unchecked (fetch_ref_of cs); _ ← push_cellslice (snd r); cs' ← load_cell_slice_ref (fst r); push_cellslice cs');
    if Z.testbit mode 2 then push_smallint (-1) else mret tt.

(** ** Parts of slices *)

Definition exec_load_slice_common (bits mode : Z) : VM unit :=
  cs ← pop_cellslice;
  if negb (have bits cs) then
    if negb (Z.testbit mode 1) then throw cell_und
    else _ ← (if negb (Z.testbit mode 0) then push_cellslice cs else mret tt); push_smallint 0
  else
    _ ← (if Z.testbit mode 0 then s ← unchecked (prefetch_subslice bits 0 cs); push_cellslice s
         else r ← unchecked (fetch_subslice_of bits 0 cs); _ ← push_cellslice (fst r); push_cellslice (snd r));
    if Z.testbit mode 1 then push_smallint (-1) else mret tt.
Definition exec_load_slice_fixed (args : Z) : VM unit := let bits := Z.land args 0xff + 1 in exec_load_slice_common bits 0.
Definition exec_load_slice (args : Z) : VM unit :=
  _ ← check_underflow [2]; bits ← pop_smallint_range 1023 0; exec_load_slice_common bits args.
Definition exec_load_slice_fixed2 (args : Z) : VM unit :=
  let bits := Z.land args 0xff + 1 in exec_load_slice_common bits (Z.shiftr args 8).

Definition exec_slice_op_args (max_arg1 : Z) (func : Z -> CellSlice -> option CellSlice) : VM unit :=
  _ ← check_underflow [2]; x ← pop_smallint_range max_arg1 0; cs ← pop_cellslice;
  match func x cs with Some cs' => push_cellslice cs' | None => throw cell_und end.
Definition exec_slice_op_args2 (max_arg1 max_arg2 : Z) (func : Z -> Z -> CellSlice -> option CellSlice) : VM unit :=
  _ ← check_underflow [3]; y ← pop_smallint_range max_arg2 0; x ← pop_smallint_range max_arg1 0; cs ← pop_cellslice;
  match func x y cs with Some cs' => push_cellslice cs' | None => throw cell_und end.

Definition exec_slice_begins_with_common (quiet : bool) (cs2 : CellSlice) : VM unit :=
  cs ← pop_cellslice;
  if negb (has_prefix cs cs2) then
    if negb quiet then throw cell_und else _ ← push_cellslice cs; push_smallint 0
  else _ ← push_cellslice (behind (cs_size cs2) 0 cs); if quiet then push_smallint (-1) else mret tt.
Definition exec_slice_begins_with (quiet : bool) : VM unit :=
  _ ← check_underflow [2]; cs2 ← pop_cellslice; exec_slice_begins_with_common quiet cs2.
Definition begins_bits (args : Z) : Z := Z.land args 127 * 8 + 3.
Definition exec_slice_begins_with_const (args pfx_bits : Z) : VM unit :=
  let quiet := Z.testbit args 7 in
  _ ← need (have (pfx_bits + begins_bits args)); _ ← advance pfx_bits; s ← fetch_subslice (begins_bits args) 0;
  exec_slice_begins_with_common quiet (remove_trailing s).
Definition compute_len_slice_begins_with_const (cs : CellSlice) (args pfx_bits : Z) : Z :=
  compute_len_push_slice_common cs (begins_bits args) 0 pfx_bits.

Definition exec_subslice : VM unit :=
  _ ← check_underflow [5]; r2 ← pop_smallint_range 4 0; l2 ← pop_smallint_range 1023 0;
  r1 ← pop_smallint_range 4 0; l1 ← pop_smallint_range 1023 0; cs ← pop_cellslice;
  match cs' ← skip_first l1 r1 cs; only_first l2 r2 cs' with Some cs' => push_cellslice cs' | None => throw cell_und end.

(** Both cuts succeed behind their guard, and nothing looks at their results. *)
Definition exec_split (quiet : bool) : VM unit :=
  _ ← check_underflow [3]; refs ← pop_smallint_range 4 0; bits ← pop_smallint_range 1023 0; cs ← pop_cellslice;
  if negb (have bits cs) || negb (have_refs refs cs) then
    if negb quiet then throw cell_und else _ ← push_cellslice cs; push_smallint 0
  else
    _ ← push_cellslice (default cs (only_first bits refs cs)); _ ← push_cellslice (default cs (skip_first bits refs cs));
    if quiet then push_smallint (-1) else mret tt.

(** ** What is left *)

Definition exec_slice_chk_op_args (max_arg1 : Z) (quiet : bool) (func : Z -> CellSlice -> bool) : VM unit :=
  _ ← check_underflow [2]; x ← pop_smallint_range max_arg1 0; cs ← pop_cellslice;
  if quiet then push_smallint (truth (func x cs)) else guard_vm (func x cs) cell_und.
Definition exec_slice_chk_op_args2 (max_arg1 max_arg2 : Z) (quiet : bool) (func : Z -> Z -> CellSlice -> bool) : VM unit :=
  _ ← check_underflow [3]; y ← pop_smallint_range max_arg2 0; x ← pop_smallint_range max_arg1 0; cs ← pop_cellslice;
  if quiet then push_smallint (truth (func x y cs)) else guard_vm (func x y cs) cell_und.
Definition exec_slice_bits_refs (mode : Z) : VM unit :=
  _ ← check_underflow [1]; cs ← pop_cellslice;
  _ ← (if Z.testbit mode 0 then push_smallint (cs_size cs) else mret tt);
  if Z.testbit mode 1 then push_smallint (cs_size_refs cs) else mret tt.

(** Little-endian integers: bit 0 of [args] is for unsigned numbers, bit 1 for 8 bytes, bit 2
    leaves the slice out, and bit 3 is for an answer instead of an exception. *)
Definition exec_load_le_int (args : Z) : VM unit :=
  let len := if Z.testbit args 1 then 8 else 4 in
  let sgnd := negb (Z.testbit args 0) in
  _ ← check_underflow [1]; cs ← pop_cellslice;
  if negb (have (Z.shiftl len 3) cs) then
    if Z.testbit args 3 then _ ← (if negb (Z.testbit args 2) then push_cellslice cs else mret tt); push_smallint 0
    else throw cell_und
  else
    buff ← ensure_throw (prefetch_bytes len cs);
    let x := import_bytes_lsb_any word_cnt buff sgnd in
    x ← ensure_throw (if is_valid x then Some x else None);
    _ ← push_int x;
    _ ← (if negb (Z.testbit args 2) then cs' ← ensure_throw (skip_first (Z.shiftl len 3) 0 cs); push_cellslice cs' else mret tt);
    if Z.testbit args 3 then push_smallint (-1) else mret tt.

(** A negative [x] is an operand. *)
Definition exec_load_same (x : Z) : VM unit :=
  _ ← check_underflow [1 + Z.b2z (x <? 0)];
  x ← (if x <? 0 then pop_smallint_range 1 0 else mret x); cs ← pop_cellslice;
  let n := count_leading (negb (x =? 0)) cs in
  _ ← push_smallint n; push_cellslice (if 0 <? n then behind n 0 cs else cs).

Definition exec_cell_depth : VM unit :=
  cell ← pop_maybe_cell; push_smallint (match cell with Some c => cell_depth c | None => 0 end).
Definition exec_slice_depth : VM unit := cs ← pop_cellslice; push_smallint (cs_get_depth cs).

(** ** Registration *)

Definition cell_deserialize_ops : list OpcodeInstr :=
  [ mksimple 0xd0 8 exec_cell_to_slice
  ; mksimple 0xd1 8 exec_slice_chk_empty
  ; mkfixed 0xd2 8 8 (exec_load_int_fixed 0)
  ; mkfixed 0xd3 8 8 (exec_load_int_fixed 1)
  ; mksimple 0xd4 8 (exec_load_ref 0)
  ; mksimple 0xd5 8 (exec_load_ref_rev_to_slice 0)
  ; mkfixed 0xd6 8 8 exec_load_slice_fixed
  ; mkfixed (Z.shiftr 0xd700 3) 13 3 exec_load_int_var
  ; mkfixed (Z.shiftr 0xd708 3) 13 11 exec_load_int_fixed2
  ; mkfixed (Z.shiftr 0xd710 3) 13 3 exec_preload_uint_fixed_0e
  ; mkfixed (Z.shiftr 0xd718 2) 14 2 exec_load_slice
  ; mkfixed (Z.shiftr 0xd71c 2) 14 10 exec_load_slice_fixed2
  ; mksimple 0xd720 16 (exec_slice_op_args 1023 (fun bits => only_first bits 0))
  ; mksimple 0xd721 16 (exec_slice_op_args 1023 (fun bits => skip_first bits 0))
  ; mksimple 0xd722 16 (exec_slice_op_args 1023 (fun bits => only_last bits 0))
  ; mksimple 0xd723 16 (exec_slice_op_args 1023 (fun bits => skip_last bits 0))
  ; mksimple 0xd724 16 (exec_slice_op_args2 1023 1023 (fun offs bits cs => cs' ← skip_first offs 0 cs; only_first bits 0 cs'))
  ; mksimple 0xd726 16 (exec_slice_begins_with false)
  ; mksimple 0xd727 16 (exec_slice_begins_with true)
  ; mkext (Z.shiftr 0xd728 3) 13 8 (ext0 exec_slice_begins_with_const) compute_len_slice_begins_with_const
  ; mksimple 0xd730 16 (exec_slice_op_args2 1023 4 only_first)
  ; mksimple 0xd731 16 (exec_slice_op_args2 1023 4 skip_first)
  ; mksimple 0xd732 16 (exec_slice_op_args2 1023 4 only_last)
  ; mksimple 0xd733 16 (exec_slice_op_args2 1023 4 skip_last)
  ; mksimple 0xd734 16 exec_subslice
  ; mksimple 0xd736 16 (exec_split false)
  ; mksimple 0xd737 16 (exec_split true)
  ; mksimple 0xd739 16 exec_cell_to_slice_maybe_special
  ; mksimple 0xd73a 16 (exec_load_special_cell false)
  ; mksimple 0xd73b 16 (exec_load_special_cell true)
  ; mksimple 0xd741 16 (exec_slice_chk_op_args 1023 false have)
  ; mksimple 0xd742 16 (exec_slice_chk_op_args 1023 false have_refs)
  ; mksimple 0xd743 16 (exec_slice_chk_op_args2 1023 4 false (fun bits refs cs => have bits cs && have_refs refs cs))
  ; mksimple 0xd745 16 (exec_slice_chk_op_args 1023 true have)
  ; mksimple 0xd746 16 (exec_slice_chk_op_args 1023 true have_refs)
  ; mksimple 0xd747 16 (exec_slice_chk_op_args2 1023 4 true (fun bits refs cs => have bits cs && have_refs refs cs))
  ; mksimple 0xd748 16 exec_preload_ref
  ; mksimple 0xd749 16 (exec_slice_bits_refs 1)
  ; mksimple 0xd74a 16 (exec_slice_bits_refs 2)
  ; mksimple 0xd74b 16 (exec_slice_bits_refs 3)
  ; mkfixed (Z.shiftr 0xd74c 2) 14 2 exec_preload_ref_fixed
  ; mkfixed 0xd75 12 4 exec_load_le_int
  ; mksimple 0xd760 16 (exec_load_same 0)
  ; mksimple 0xd761 16 (exec_load_same 1)
  ; mksimple 0xd762 16 (exec_load_same (-1))
  ; mksimple 0xd764 16 exec_slice_depth
  ; mksimple 0xd765 16 exec_cell_depth ].

Definition register_cell_deserialize_ops (t : OpcodeTable) : option OpcodeTable := insert_all cell_deserialize_ops t.

(** [register_cell_ops] *)
Definition cell_data_ops : list OpcodeInstr := cell_cmp_ops ++ cell_serialize_ops ++ cell_deserialize_ops.
Definition register_cell_ops (t : OpcodeTable) : option OpcodeTable :=
  t ← register_cell_const_ops t; t ← register_cell_cmp_ops t; t ← register_cell_serialize_ops t; register_cell_deserialize_ops t.

End SliceOps.
