(* ===== verification/CellSpec.v ===== *)
(** * What the operations on slices and builders do

    Numbers that are read are the values of the bits, and numbers that are stored are their bits;
    the sizes of slices and builders stay within those of a cell. *)
From S2P Require Import Prelude BitMem BitCmp BigInt BigIntOps BigIntShift BigIntLog BigIntBits RefInt BigIntLoad BigIntBytes Stack ArithSpec ArithLogic MachineTypes Continuation Cells BuilderOps.

(** ** Strings of bits *)

Lemma compare_bits_range l1 l2 : -1 <= compare_bits l1 l2 <= 1.
Proof.
  revert l2. induction l1 as [|b1 l1 IH]; intros [|b2 l2]; cbn [compare_bits]; [lia..|]. destruct (Bool.eqb b1 b2); [apply IH|]. destruct b1; lia.
Qed.
Lemma lex_bits_range l1 l2 : -1 <= lex_bits l1 l2 <= 1.
Proof.
  unfold lex_bits. pose proof (compare_bits_range l1 l2). destruct (_ || _); [done|]. destruct (_ <? _)%nat; lia.
Qed.

(** The order of strings: a proper prefix is less, and else the first difference decides. *)
Lemma compare_same l1 l2 : compare_bits l1 l2 = 0 <-> l1 `prefix_of` l2 \/ l2 `prefix_of` l1.
Proof.
  revert l2. induction l1 as [|b1 l1 IH]; intros [|b2 l2]; cbn [compare_bits].
  - split; [intros _; left; by apply prefix_nil|done].
  - split; [intros _; left; by apply prefix_nil|done].
  - split; [intros _; right; by apply prefix_nil|done].
  - destruct (Bool.eqb b1 b2) eqn:E.
    + apply eqb_prop in E as ->. rewrite IH. split; intros [H|H]; [left|right|left|right]; try by apply prefix_cons. all: by apply prefix_cons_inv_2 in H.
    + apply eqb_false_iff in E. split; [by destruct b1|]. intros [H|H]; apply prefix_cons_inv_1 in H; congruence.
Qed.

Lemma compare_prefix l1 l2 : (length l1 <= length l2)%nat -> compare_bits l1 l2 = 0 <-> l1 `prefix_of` l2.
Proof.
  intros Hl. rewrite compare_same. split; [|by left]. intros [H|H]; [done|]. by rewrite (prefix_length_eq _ _ H Hl).
Qed.
Lemma compare_equal l1 l2 : length l1 = length l2 -> compare_bits l1 l2 = 0 <-> l1 = l2.
Proof.
  intros Hl. rewrite compare_prefix by lia. split; [|by intros ->]. intros H. apply (prefix_length_eq _ _ H). lia.
Qed.
Lemma compare_suffix l1 l2 : (length l1 <= length l2)%nat -> compare_bits l1 (drop (length l2 - length l1) l2) = 0 <-> l1 `suffix_of` l2.
Proof.
  intros Hl. rewrite compare_equal by (rewrite length_drop; lia). split.
  - intros ->. by apply suffix_drop.
  - intros [k ->]. rewrite length_app, drop_app_length' by lia. done.
Qed.

(** The order of strings: a proper part of the beginning is less, and else the first difference decides. *)
Definition lex_lt (l1 l2 : list bool) : Prop :=
  (l1 `prefix_of` l2 /\ l1 <> l2) \/ exists p r1 r2, l1 = p ++ false :: r1 /\ l2 = p ++ true :: r2.

Lemma lex_lt_cons b1 b2 l1 l2 : lex_lt (b1 :: l1) (b2 :: l2) <-> (b1 = b2 /\ lex_lt l1 l2) \/ (b1 = false /\ b2 = true).
Proof.
  split.
  - intros [[H Hne]|([|c p] & r1 & r2 & E1 & E2)].
    + pose proof (prefix_cons_inv_1 _ _ _ _ H) as ->. left. split; [done|]. left. split; [by apply prefix_cons_inv_2 in H|congruence].
    + right. by simplify_eq/=.
    + simplify_eq/=. left. split; [done|]. right. by exists p, r1, r2.
  - intros [[-> [[H Hne]|(p & r1 & r2 & -> & ->)]]|[-> ->]].
    + left. split; [by apply prefix_cons|congruence].
    + right. by exists (b2 :: p), r1, r2.
    + right. by exists [], l1, l2.
Qed.
Lemma lex_lt_nil_l l : lex_lt [] l <-> l <> [].
Proof.
  split; [intros [[_ H]|(p & r1 & r2 & E & _)]; [congruence|by destruct p]|]. intros H. left. split; [apply prefix_nil|congruence].
Qed.
Lemma lex_lt_nil_r l : ~ lex_lt l [].
Proof. intros [[H Hne]|(p & r1 & r2 & _ & E)]; [by apply prefix_nil_inv in H|by destruct p]. Qed.

Lemma lex_bits_cons b1 b2 l1 l2 : lex_bits (b1 :: l1) (b2 :: l2) = if Bool.eqb b1 b2 then lex_bits l1 l2 else if b1 then 1 else -1.
Proof. unfold lex_bits. cbn [compare_bits length]. destruct (Bool.eqb b1 b2) eqn:E; [done|]. destruct b1; done. Qed.
Lemma lex_bits_spec l1 l2 : (lex_bits l1 l2 = -1 <-> lex_lt l1 l2) /\ (lex_bits l1 l2 = 0 <-> l1 = l2) /\ (lex_bits l1 l2 = 1 <-> lex_lt l2 l1).
Proof.
  revert l2. induction l1 as [|b1 l1 IH]; intros [|b2 l2].
  - rewrite lex_lt_nil_l. by vm_compute.
  - rewrite lex_lt_nil_l. pose proof (lex_lt_nil_r (b2 :: l2)). assert (lex_bits [] (b2 :: l2) = -1) as -> by done. naive_solver lia.
  - rewrite lex_lt_nil_l. pose proof (lex_lt_nil_r (b1 :: l1)). assert (lex_bits (b1 :: l1) [] = 1) as -> by done. naive_solver lia.
  - rewrite lex_bits_cons, !lex_lt_cons. destruct (IH l2) as (I1 & I2 & I3). destruct b1, b2; cbn [Bool.eqb]; rewrite ?I1, ?I2, ?I3; naive_solver lia.
Qed.

#[export] Instance fits_bits_dec v bits sgnd : Decision (fits_bits v bits sgnd).
Proof. unfold fits_bits. destruct (bits =? 0); [apply _|]. destruct sgnd; apply _. Defined.

(** ** Parts of a cell *)

Section CellSpec.
Context `{CS : CellSystem}.

Lemma behind_ok bits refs cs : slice_ok cs -> slice_ok (behind bits refs cs).
Proof. intros H. apply (slice_ok_le cs); [done|cbn [behind cs_bits]; rewrite length_drop; lia|cbn [behind cs_refs]; rewrite length_drop; lia]. Qed.
Lemma taken_ok n k cs : slice_ok cs -> slice_ok {| cs_bits := take n (cs_bits cs); cs_refs := take k (cs_refs cs) |}.
Proof. intros H. apply (slice_ok_le cs); [done|cbn [cs_bits]; rewrite length_take; lia|cbn [cs_refs]; rewrite length_take; lia]. Qed.
Lemma prefetch_subslice_ok bits refs cs s : slice_ok cs -> prefetch_subslice bits refs cs = Some s -> slice_ok s.
Proof. intros Hc. unfold prefetch_subslice. destruct (_ && _); [|done]. intros [= <-]. by apply taken_ok. Qed.
Lemma skip_first_ok bits refs cs s : slice_ok cs -> skip_first bits refs cs = Some s -> slice_ok s.
Proof. intros Hc. unfold skip_first. destruct (_ && _); [|done]. intros [= <-]. by apply behind_ok. Qed.
Lemma only_last_ok bits refs cs s : slice_ok cs -> only_last bits refs cs = Some s -> slice_ok s.
Proof. intros Hc. unfold only_last. destruct (_ && _); [|done]. intros [= <-]. by apply behind_ok. Qed.
Lemma skip_last_ok bits refs cs s : slice_ok cs -> skip_last bits refs cs = Some s -> slice_ok s.
Proof. intros Hc. unfold skip_last. destruct (_ && _); [|done]. intros [= <-]. by apply taken_ok. Qed.

Lemma strip_zeros_length l : (length (strip_zeros l) <= length l)%nat.
Proof. induction l as [|[] l IH]; cbn; lia. Qed.
Lemma remove_trailing_ok cs : slice_ok cs -> slice_ok (remove_trailing cs).
Proof.
  intros Hcs. apply (slice_ok_le cs); [done| |done]. unfold remove_trailing. cbn [cs_bits]. rewrite length_rev.
  pose proof (strip_zeros_length (rev (cs_bits cs))) as L. by rewrite length_rev in L.
Qed.

Lemma cs_size_range cs : slice_ok cs -> 0 <= cs_size cs <= 1023.
Proof. intros [H _]. unfold cs_size, max_bits in *. lia. Qed.
Lemma cs_size_refs_range cs : slice_ok cs -> 0 <= cs_size_refs cs <= 4.
Proof. intros [_ H]. unfold cs_size_refs, max_refs in *. lia. Qed.
Lemma refs_depth_range refs : 0 <= refs_depth refs < 2 ^ 16.
Proof. apply (wrapu_range 16). lia. Qed.

(** ** Reading numbers *)

(** The bytes of a slice hold its bits. *)
Lemma first_of_data bits cs : slice_ok cs -> have bits cs = true -> take (Z.to_nat bits) (mem_bits (cell_data (cs_bits cs))) = first_bits bits cs.
Proof.
  intros Hc Hb%Z.leb_le. pose proof (cs_size_range cs Hc) as R. unfold cs_size in R.
  rewrite cell_data_bits by (unfold max_bytes; lia). by rewrite take_app_le by lia.
Qed.

Lemma length_first bits cs : 0 <= bits -> have bits cs = true -> Z.of_nat (length (first_bits bits cs)) = bits.
Proof. intros H0 Hb%Z.leb_le. unfold first_bits. rewrite length_take. lia. Qed.

Lemma small_value sgnd l : (length l < 52)%nat -> in_range (int_value sgnd l).
Proof.
  intros Hl. unfold int_value. pose proof (bits_value_range l) as R. pose proof (Z.pow_le_mono_r 2 (Z.of_nat (length l)) 51 ltac:(lia) ltac:(lia)).
  unfold in_range, Half. destruct sgnd; [|cbn [andb]; lia]. destruct (default false (head l)); cbn [andb]; lia.
Qed.

Lemma import_first bits sgnd cs : slice_ok cs -> 0 <= bits <= 257 -> have bits cs = true ->
  let x := import_bits_any word_cnt (cell_data (cs_bits cs)) 0 bits sgnd in wf word_cnt x /\ value x = int_value sgnd (first_bits bits cs).
Proof.
  intros Hc Hb Hh. pose proof (import_bits_value (cell_data (cs_bits cs)) 0 bits sgnd (cell_data_bytes _) Hb ltac:(lia)) as I.
  rewrite length_cell_data in I. specialize (I ltac:(unfold max_bytes; lia)). cbv zeta in I |- *. rewrite drop_0, first_of_data in I by done. exact I.
Qed.

Lemma prefetch_long_value bits (sgnd : bool) cs : have bits cs = true -> bits <= 64 ->
  (if sgnd then prefetch_long bits cs else prefetch_ulong bits cs) = int_value sgnd (first_bits bits cs).
Proof.
  intros Hh Hb. unfold prefetch_long, prefetch_ulong. rewrite Hh. destruct (Z.ltb_spec 64 bits); [lia|]. by destruct sgnd.
Qed.

(** A number that is read is the value of its bits, and normal. *)
Lemma prefetch_int256_value bits sgnd cs : slice_ok cs -> 0 <= bits <= 257 -> have bits cs = true ->
  exists x, prefetch_int256 bits sgnd cs = Some x /\ wf word_cnt x /\ value x = int_value sgnd (first_bits bits cs).
Proof.
  intros Hc Hb Hh. unfold prefetch_int256. rewrite Hh. cbn [negb]. destruct (Z.ltb_spec bits word_shift) as [H52|H52].
  - unfold word_shift in H52. eexists. split; [done|]. rewrite prefetch_long_value by (done || lia).
    pose proof (length_first bits cs ltac:(lia) Hh) as L. pose proof (small_value sgnd (first_bits bits cs) ltac:(lia)) as R.
    rewrite s64_small by (unfold in_range, Half in R; lia). rewrite value_one. split; [by apply wf_small|done].
  - eexists. split; [done|]. by apply import_first.
Qed.

Lemma fetch_int256_value bits sgnd cs : slice_ok cs -> 0 <= bits <= 257 -> have bits cs = true ->
  exists x, fetch_int256 bits sgnd cs = Some (x, behind bits 0 cs) /\ wf word_cnt x /\ value x = int_value sgnd (first_bits bits cs).
Proof.
  intros Hc Hb Hh. destruct (prefetch_int256_value bits sgnd cs Hc Hb Hh) as (x & E & W). exists x. unfold fetch_int256. by rewrite E.
Qed.

Lemma int_value_app sgnd l k : (0 < length l)%nat \/ sgnd = false ->
  int_value sgnd (l ++ replicate k false) = int_value sgnd l * 2 ^ Z.of_nat k.
Proof.
  intros Hl. unfold int_value. rewrite bits_value_app, length_replicate, bits_value_zeros, length_app, length_replicate, Nat2Z.inj_add, Z.pow_add_r by lia.
  assert (sgnd && default false (head (l ++ replicate k false)) = sgnd && default false (head l)) as ->; [|destruct (sgnd && _); ring].
  destruct Hl as [Hl| ->]; [|done]. by destruct l; [cbn in Hl; lia|].
Qed.

(** Whole bytes. *)
Lemma prefetch_bytes_value n cs : slice_ok cs -> 0 <= n -> have (n * 8) cs = true ->
  exists buff, prefetch_bytes n cs = Some buff /\ bytes buff /\ length buff = Z.to_nat n /\ mem_bits buff = first_bits (n * 8) cs.
Proof.
  intros Hc Hn Hh. pose proof (cs_size_range cs Hc) as R. unfold cs_size in R. pose proof (length_first (n * 8) cs ltac:(lia) Hh) as L. unfold prefetch_bytes. rewrite Hh. eexists. split; [done|].
  split; [apply Forall_take, cell_data_bytes|]. apply Z.leb_le in Hh. split; [rewrite length_take, length_cell_data; unfold max_bytes; lia|].
  rewrite mem_bits_take, cell_data_bits by (unfold max_bytes; lia). unfold first_bits. rewrite take_app_le by lia. f_equal. lia.
Qed.

(** Little-endian numbers. *)
Lemma prefetch_le_value n sgnd cs : slice_ok cs -> 0 <= n <= 32 -> have (n * 8) cs = true ->
  exists buff, prefetch_bytes n cs = Some buff /\ let x := import_bytes_lsb_any word_cnt buff sgnd in
    wf word_cnt x /\ value x = int_value sgnd (mem_bits (rev buff)) /\ mem_bits buff = first_bits (n * 8) cs.
Proof.
  intros Hc Hn Hh. destruct (prefetch_bytes_value n cs Hc ltac:(lia) Hh) as (buff & E & B & L & M). exists buff. split; [done|]. cbv zeta.
  destruct (import_bytes_value (rev buff) sgnd ltac:(by apply List.Forall_rev) ltac:(rewrite length_rev; lia)) as [W V]. done.
Qed.

(** Reading beyond the end appends zeros. *)
Lemma zeroext_value bits cs : slice_ok cs -> 0 <= bits <= 256 ->
  let x := prefetch_int256_zeroext bits false cs in
  wf word_cnt x /\ value x = int_value false (first_bits bits cs ++ replicate (Z.to_nat (bits - cs_size cs)) false).
Proof.
  intros Hc Hb. cbv zeta. unfold prefetch_int256_zeroext. pose proof (cs_size_range cs Hc) as Rs. destruct (Z.ltb_spec (256 + Z.b2z false) bits); [cbn in *; lia|].
  set (ld := Z.min bits (cs_size cs)). assert (have ld cs = true) as Hld by (apply Z.leb_le; unfold ld, cs_size; lia).
  assert (first_bits bits cs = first_bits ld cs) as ->.
  { unfold first_bits, ld, cs_size. destruct (decide (bits <= Z.of_nat (length (cs_bits cs)))); [by rewrite Z.min_l by lia|].
    rewrite Z.min_r by lia. rewrite !take_ge by lia. done. }
  rewrite int_value_app by (by right). replace (Z.to_nat (bits - cs_size cs)) with (Z.to_nat (bits - ld)) by (unfold ld; lia).
  pose proof (length_first ld cs ltac:(unfold ld; lia) Hld) as L. pose proof (bits_value_range (first_bits ld cs)) as R. rewrite L in R.
  assert (0 <= int_value false (first_bits ld cs) * 2 ^ (bits - ld) < 2 ^ bits) as B.
  { unfold int_value. cbn [andb]. rewrite Z.sub_0_r. replace bits with (ld + (bits - ld)) at 3 by lia. rewrite Z.pow_add_r by (unfold ld; lia).
    pose proof (Z.pow_pos_nonneg 2 (bits - ld) ltac:(lia) ltac:(unfold ld; lia)). nia. }
  replace (Z.of_nat (Z.to_nat (bits - ld))) with (bits - ld) by (unfold ld; lia).
  destruct (Z.ltb_spec bits word_shift) as [H52|H52]; unfold word_shift in H52.
  - pose proof (small_value false (first_bits ld cs) ltac:(unfold ld in *; lia)) as S1. pose proof (prefetch_long_value ld false cs Hld ltac:(unfold ld; lia)) as E. cbn iota in E. rewrite E.
    rewrite (s64_small (int_value _ _)) by (unfold in_range, Half in S1; lia). rewrite Z.shiftl_mul_pow2 by (unfold ld; lia).
    pose proof (Z.pow_le_mono_r 2 bits 51 ltac:(lia) ltac:(lia)). rewrite s64_small by lia.
    assert (in_range (int_value false (first_bits ld cs) * 2 ^ (bits - ld))) as Hr by (unfold in_range, Half; lia).
    rewrite make_refint_small by done. split; [by apply wf_small|by rewrite value_one].
  - destruct (import_first ld false cs Hc ltac:(unfold ld; lia) Hld) as [W E]. set (x := import_bits_any _ _ _ _ _) in *.
    destruct (Z.eqb_spec (value x) 0) as [E0|E0].
    + rewrite (zero_digits x (proj1 W) E0), shl_zero by (unfold ld; lia). split; [by apply wf_small; unfold in_range, Half|]. rewrite <- E, E0. done.
    + pose proof (lshift_exact word_cnt x (bits - ld) W ltac:(unfold ld; lia) E0) as X. rewrite E in X. unfold exact_or_nan in X.
      assert (lo word_cnt <= 0 /\ 2 ^ 256 <= hi word_cnt) as [Hlo Hhi] by (vm_compute; split; discriminate).
      pose proof (Z.pow_le_mono_r 2 bits 256 ltac:(lia) ltac:(lia)) as H256. destruct (decide _) as [_|H']; [exact X|]. exfalso. apply H'.
      revert B Hlo Hhi H256. clear. generalize (int_value false (first_bits ld cs) * 2 ^ (bits - ld)), (2 ^ bits), (2 ^ 256). lia.
Qed.

(** ** Builders *)

Lemma cb_size_range cb : builder_ok cb -> 0 <= cb_size cb <= 1023 /\ 0 <= cb_size_refs cb <= 4.
Proof. intros [H1 H2]. unfold cb_size, cb_size_refs, max_bits, max_refs in *. lia. Qed.
Lemma remaining_value cb : builder_ok cb -> remaining_bits cb = 1023 - cb_size cb /\ remaining_refs cb = 4 - cb_size_refs cb.
Proof.
  intros H%cb_size_range. unfold remaining_bits, remaining_refs, max_bits, max_refs. rewrite !wrapu_small by lia. lia.
Qed.
Lemma can_extend_value bits refs cb : builder_ok cb ->
  can_extend_by bits refs cb = true <-> cb_size cb + bits <= 1023 /\ cb_size_refs cb + refs <= 4.
Proof. intros H. destruct (remaining_value cb H) as [E1 E2]. unfold can_extend_by. rewrite E1, E2. lia. Qed.

(** The builder with more bits and references. *)
Definition more (bits : list bool) (refs : list Cell) (cb : CellBuilder) : CellBuilder :=
  {| cb_bits := cb_bits cb ++ bits; cb_refs := cb_refs cb ++ refs |}.
Lemma more_ok bits refs cb : builder_ok cb -> can_extend_by (Z.of_nat (length bits)) (Z.of_nat (length refs)) cb = true -> builder_ok (more bits refs cb).
Proof.
  intros H E%(can_extend_value _ _ _ H). unfold cb_size, cb_size_refs in E. unfold builder_ok, fits_cell, max_bits, max_refs, more. cbn [cb_bits cb_refs].
  rewrite !length_app. destruct E as [E1 E2]. split; [lia|]. cbn [CellRef vm_refs] in *. lia.
Qed.

(** Bits that are written behind those of the builder. *)
Lemma extended_value cb m new : builder_ok cb -> cb_size cb + Z.of_nat (length new) <= 1023 ->
  stores (cell_data (cb_bits cb)) (Z.to_nat (cb_size cb)) new m -> extended (Z.of_nat (length new)) m cb = more new [] cb.
Proof.
  intros H Hn ([_ E] & _). pose proof (cb_size_range cb H) as [R _]. unfold cb_size in *. unfold extended, more, cb_size. rewrite app_nil_r. f_equal.
  rewrite E, cell_data_bits by (unfold max_bytes; lia). rewrite Nat2Z.id, take_app_length, app_assoc.
  apply take_app_length'. rewrite length_app. lia.
Qed.

Lemma store_same_value bits val cb : builder_ok cb -> 0 <= bits -> can_extend_by bits 0 cb = true ->
  store_same bits val cb = more (replicate (Z.to_nat bits) val) [] cb.
Proof.
  intros H Hb Hc. pose proof (cb_size_range cb H) as [R _]. unfold store_same. rewrite Hc. apply (can_extend_value _ _ _ H) in Hc as [Hc _].
  replace bits with (Z.of_nat (length (replicate (Z.to_nat bits) val))) at 1 by (rewrite length_replicate; lia).
  apply extended_value; [done|rewrite length_replicate; lia|]. apply memset_stores; [apply cell_data_bytes|lia|lia|].
  rewrite length_cell_data. unfold max_bytes. lia.
Qed.

Lemma fits_bits_any_value x bits sgnd : wf word_cnt x -> 0 <= bits -> fits_bits_any x bits sgnd = true <-> fits_bits (value x) bits sgnd.
Proof.
  intros [Hn _] Hb. unfold fits_bits_any, fits_bits. destruct (Z.eqb_spec bits 0) as [->|H0].
  - destruct sgnd.
    + unfold signed_fits_bits_any. destruct x as [|d x]; [by destruct Hn|]. cbn [is_valid negb].
      destruct (Z.ltb_spec (Z.of_nat (length (d :: x)) * word_shift) 0); [unfold word_shift in *; lia|]. rewrite sgn_value by done. cbv zeta.
      destruct (Z.eqb_spec (Z.sgn (value (d :: x))) 0) as [E|E]; [by split; [intros _; lia|]|]. change (0 <=? 0) with true. cbn iota. split; [done|]. intros E'. by rewrite E' in E.
    + rewrite unsigned_fits_bits_value by (done || lia). change (2 ^ 0) with 1. lia.
  - destruct sgnd; [by apply signed_fits_bits_value; [|lia]|by apply unsigned_fits_bits_value].
Qed.
Lemma fits_bits_any_nan bits sgnd : fits_bits_any NaN bits sgnd = false.
Proof. by destruct sgnd. Qed.

(** A number is stored exactly when it fits, as its bits. *)
Lemma store_int256_value x bits sgnd cb : builder_ok cb -> wf word_cnt x -> 0 <= bits -> can_extend_by bits 0 cb = true ->
  store_int256_bool x bits sgnd cb = if fits_bits_any x bits sgnd then Some (more (bits_of (Z.to_nat bits) (value x)) [] cb) else None.
Proof.
  intros H Hx Hb Hc. pose proof (cb_size_range cb H) as [R _]. unfold store_int256_bool. rewrite Hc. apply (can_extend_value _ _ _ H) in Hc as [Hc _].
  pose proof (export_bits_stores (cell_data (cb_bits cb)) (cb_size cb) bits sgnd x (proj1 Hx) (cell_data_bytes _) Hb ltac:(lia)) as E.
  rewrite length_cell_data in E. specialize (E ltac:(unfold max_bytes; lia)). destruct (export_bits_any _ _ _ _ _) as [m|].
  - destruct E as [F W]. apply (fits_bits_any_value x bits sgnd Hx Hb) in F as ->. cbn [mbind option_bind]. f_equal.
    replace bits with (Z.of_nat (length (bits_of (Z.to_nat bits) (value x)))) at 1 by (rewrite length_bits_of; lia).
    apply extended_value; [done|rewrite length_bits_of; lia|done].
  - destruct (fits_bits_any x bits sgnd) eqn:F; [|done]. by apply (fits_bits_any_value x bits sgnd Hx Hb) in F.
Qed.

Lemma append_value bits refs cb : append bits refs cb =
  if can_extend_by (Z.of_nat (length bits)) (Z.of_nat (length refs)) cb then Some (more bits refs cb) else None.
Proof. done. Qed.
Lemma append_ok bits refs cb cb' : builder_ok cb -> append bits refs cb = Some cb' -> builder_ok cb'.
Proof. intros H. rewrite append_value. destruct (can_extend_by _ _ cb) eqn:E; [|done]. intros [= <-]. by apply more_ok. Qed.
Lemma store_ref_ok c cb cb' : builder_ok cb -> store_ref_bool c cb = Some cb' -> builder_ok cb'.
Proof.
  intros [H1 H2]. unfold store_ref_bool. destruct (Z.ltb_spec (cb_size_refs cb) max_refs) as [L|]; [|done]. intros [= <-]. split; [done|].
  unfold cb_size_refs in L. cbn [cb_refs]. rewrite length_app. cbn [length CellRef vm_refs] in *. lia.
Qed.
Lemma store_same_ok bits val cb : builder_ok cb -> 0 <= bits -> builder_ok (store_same bits val cb).
Proof.
  intros H Hb. destruct (can_extend_by bits 0 cb) eqn:E; [|unfold store_same; by rewrite E]. rewrite store_same_value by done.
  apply more_ok; [done|]. by rewrite length_replicate, Z2Nat.id by lia.
Qed.
Lemma store_int256_ok x bits sgnd cb cb' : builder_ok cb -> vm_int x -> 0 <= bits -> can_extend_by bits 0 cb = true ->
  store_int256_bool x bits sgnd cb = Some cb' -> builder_ok cb'.
Proof.
  intros H Hx Hb Hc. destruct Hx as [->|[Hx _]]; [unfold store_int256_bool; by rewrite Hc|].
  rewrite store_int256_value by done. destruct (fits_bits_any x bits sgnd); [|done]. intros [= <-]. apply more_ok; [done|].
  by rewrite length_bits_of, Z2Nat.id by lia.
Qed.

(** A little-endian number that fits is stored whenever there is space for it. *)
Lemma store_le_value x n sgnd cb : builder_ok cb -> wf word_cnt x -> (n <= max_bytes)%nat -> fits_bits (value x) (8 * Z.of_nat n) sgnd ->
  can_extend_by (8 * Z.of_nat n) 0 cb = true ->
  exists buff, export_bytes_lsb_any n sgnd x = Some buff /\ length buff = n /\ mem_bits (rev buff) = bits_of (8 * n) (value x) /\
    store_bytes_bool buff cb = Some (more (mem_bits buff) [] cb).
Proof.
  intros Hcb [Hx _] Hn F Hc. unfold export_bytes_lsb_any. pose proof (export_bytes_exact n sgnd x Hx) as E. destruct (export_bytes_common n sgnd x) as [out|]; [|done].
  destruct E as [_ ->]. cbn [option_map]. eexists. split; [done|]. rewrite length_rev, length_be_split. split; [done|]. rewrite rev_involutive, mem_be_split. split; [done|].
  unfold store_bytes_bool. rewrite length_rev, length_be_split. destruct (Nat.leb_spec n max_bytes); [|lia]. rewrite append_value, length_mem_bits, length_rev, length_be_split.
  replace (Z.of_nat (8 * n)) with (8 * Z.of_nat n) by lia. change (Z.of_nat (length (A:=Cell) [])) with 0. by rewrite Hc.
Qed.

End CellSpec.
