(* ===== verification/ContOps.v ===== *)
(** * Continuation and control flow instructions ([crypto/vm/contops.cpp])

    Every [exec_] function, and the lists that the [register_] functions insert.  An
    instruction returns what its jump returns, 0 if it goes on with the code. *)
From S2P Require Import Prelude BigInt RefInt Stack OpTable StackOps Continuation Cells CellConstOps.

Section ContOps.
Context `{CS : CellSystem}.

(** ** Jumps and calls *)

Definition exec_execute : VM Z := cont ← pop_cont; call cont.
Definition exec_callx_args (args : Z) : VM Z :=
  let params := arg1 args in let retvals := arg0 args in cont ← pop_cont; call_args cont params retvals.
Definition exec_callx_args_p (args : Z) : VM Z := let params := arg0 args in cont ← pop_cont; call_args cont params (-1).
Definition exec_jmpx : VM Z := cont ← pop_cont; jump cont.
Definition exec_jmpx_args (args : Z) : VM Z := let params := arg0 args in cont ← pop_cont; jump_args cont params.
Definition exec_ret : VM Z := ret.
Definition exec_ret_args (args : Z) : VM Z := ret_args (arg0 args).
Definition exec_ret_alt : VM Z := ret_alt.
Definition exec_ret_bool : VM Z := b ← pop_bool; if b : bool then ret else ret_alt.

Definition exec_callcc : VM Z :=
  cont ← pop_cont; cc ← extract_cc 3 (-1) (-1); _ ← push_cont cc; jump cont.
Definition push_code : VM unit := cs ← get_code; push_cellslice cs.
Definition exec_jmpx_data : VM Z := cont ← pop_cont; _ ← push_code; jump cont.
Definition exec_callcc_args (args : Z) : VM Z :=
  let params := arg1 args in let retvals := Z.land (args + 1) 15 - 1 in
  _ ← check_underflow [params + 1]; cont ← pop_cont;
  cc ← extract_cc 3 params retvals; _ ← push_cont cc; jump cont.

Definition exec_callx_varargs : VM Z :=
  _ ← check_underflow [3]; retvals ← pop_smallint_range 254 (-1); params ← pop_smallint_range 254 (-1);
  cont ← pop_cont; call_args cont params retvals.
Definition exec_ret_varargs : VM Z := retvals ← pop_smallint_range 254 (-1); ret_args retvals.
Definition exec_jmpx_varargs : VM Z :=
  _ ← check_underflow [2]; params ← pop_smallint_range 254 (-1); _ ← check_underflow [params + 1];
  cont ← pop_cont; jump_args cont params.
Definition exec_callcc_varargs : VM Z :=
  _ ← check_underflow [3]; retvals ← pop_smallint_range 254 (-1); params ← pop_smallint_range 254 (-1);
  _ ← check_underflow [params + 1]; cont ← pop_cont;
  cc ← extract_cc 3 params retvals; _ ← push_cont cc; jump cont.

(** The code's first reference, and the continuation that runs it. *)
Definition exec_do_with_cell (func : Cell -> VM Z) (pfx_bits : Z) : VM Z :=
  _ ← need (have_refs 1); _ ← advance pfx_bits; cell ← fetch_ref; func cell.
Definition exec_do_with_ref (func : Cont -> VM Z) (pfx_bits : Z) : VM Z :=
  _ ← need (have_refs 1); _ ← advance pfx_bits; cell ← fetch_ref; cont ← ref_to_cont cell; func cont.

Definition exec_callref (pfx_bits : Z) : VM Z := exec_do_with_ref call pfx_bits.
Definition exec_jmpref (pfx_bits : Z) : VM Z := exec_do_with_ref jump pfx_bits.
Definition exec_jmpref_data (pfx_bits : Z) : VM Z := exec_do_with_ref (fun cont => _ ← push_code; jump cont) pfx_bits.
Definition exec_ret_data : VM Z := _ ← push_code; ret.

Definition continuation_jump_ops : list OpcodeInstr :=
  [ mkjump 0xd8 8 exec_execute; mkjump 0xd9 8 exec_jmpx; mkjump_fixed 0xda 8 8 exec_callx_args
  ; mkjump_fixed 0xdb0 12 4 exec_callx_args_p; mkjump_fixed 0xdb1 12 4 exec_jmpx_args; mkjump_fixed 0xdb2 12 4 exec_ret_args
  ; mkjump 0xdb30 16 exec_ret; mkjump 0xdb31 16 exec_ret_alt; mkjump 0xdb32 16 exec_ret_bool
  ; mkjump 0xdb34 16 exec_callcc; mkjump 0xdb35 16 exec_jmpx_data; mkjump_fixed 0xdb36 16 8 exec_callcc_args
  ; mkjump 0xdb38 16 exec_callx_varargs; mkjump 0xdb39 16 exec_ret_varargs; mkjump 0xdb3a 16 exec_jmpx_varargs
  ; mkjump 0xdb3b 16 exec_callcc_varargs
  ; mkext 0xdb3c 16 0 (fun _ => exec_callref) compute_len_push_ref
  ; mkext 0xdb3d 16 0 (fun _ => exec_jmpref) compute_len_push_ref
  ; mkext 0xdb3e 16 0 (fun _ => exec_jmpref_data) compute_len_push_ref
  ; mkjump 0xdb3f 16 exec_ret_data ].

(** ** Conditions *)

Definition exec_if : VM Z :=
  _ ← check_underflow [2]; cont ← pop_cont; b ← pop_bool; if b : bool then call cont else mret 0.
Definition exec_ifnot : VM Z :=
  _ ← check_underflow [2]; cont ← pop_cont; b ← pop_bool; if negb b then call cont else mret 0.
Definition exec_if_jmp : VM Z :=
  _ ← check_underflow [2]; cont ← pop_cont; b ← pop_bool; if b : bool then jump cont else mret 0.
Definition exec_ifnot_jmp : VM Z :=
  _ ← check_underflow [2]; cont ← pop_cont; b ← pop_bool; if negb b then jump cont else mret 0.
Definition exec_ifret : VM Z := b ← pop_bool; if b : bool then ret else mret 0.
Definition exec_ifnotret : VM Z := b ← pop_bool; if negb b then ret else mret 0.
Definition exec_if_else : VM Z :=
  _ ← check_underflow [3]; cont0 ← pop_cont; cont1 ← pop_cont; b ← pop_bool; call (if b : bool then cont1 else cont0).
Definition exec_condsel : VM unit :=
  _ ← check_underflow [3]; y ← pop; x ← pop; b ← pop_bool; push (if b : bool then x else y).
Definition exec_condsel_chk : VM unit :=
  _ ← check_underflow [3]; y ← pop; x ← pop; _ ← guard_vm (bool_decide (type x = type y)) type_chk;
  b ← pop_bool; push (if b : bool then x else y).
Definition exec_ifretalt : VM Z := b ← pop_bool; if b : bool then ret_alt else mret 0.
Definition exec_ifnotretalt : VM Z := b ← pop_bool; if negb b then ret_alt else mret 0.

Definition exec_ifref (cell : Cell) : VM Z := b ← pop_bool; if b : bool then cont ← ref_to_cont cell; call cont else mret 0.
Definition exec_ifnotref (cell : Cell) : VM Z := b ← pop_bool; if b : bool then mret 0 else cont ← ref_to_cont cell; call cont.
Definition exec_ifjmpref (cell : Cell) : VM Z := b ← pop_bool; if b : bool then cont ← ref_to_cont cell; jump cont else mret 0.
Definition exec_ifnotjmpref (cell : Cell) : VM Z := b ← pop_bool; if b : bool then mret 0 else cont ← ref_to_cont cell; jump cont.

Definition exec_ifelse_ref (mode : bool) (pfx_bits : Z) : VM Z :=
  _ ← need (have_refs 1); _ ← advance pfx_bits; cell ← fetch_ref;
  _ ← check_underflow [2]; cont ← pop_cont; b ← pop_bool;
  cont ← (if Bool.eqb b mode then ref_to_cont cell else mret cont); call cont.
Definition exec_ifref_elseref (pfx_bits : Z) : VM Z :=
  _ ← need (have_refs 2); _ ← advance pfx_bits; cell1 ← fetch_ref; cell2 ← fetch_ref;
  b ← pop_bool; cont ← ref_to_cont (if b : bool then cell1 else cell2); call cont.

(** [IFBITJMP] and [IFNBITJMP] leave the integer on the stack. *)
Definition exec_if_bit_jmp (args : Z) : VM Z :=
  let negate := Z.testbit args 5 in let bit := Z.land args 0x1f in
  _ ← check_underflow [2]; cont ← pop_cont; x ← pop_int_finite; _ ← push_int x;
  if xorb (get_bit_any x bit) negate then jump cont else mret 0.
Definition exec_if_bit_jmpref (args pfx_bits : Z) : VM Z :=
  _ ← need (have_refs 1); _ ← advance pfx_bits; cell ← fetch_ref;
  let negate := Z.testbit args 5 in let bit := Z.land args 0x1f in
  x ← pop_int_finite; _ ← push_int x;
  if xorb (get_bit_any x bit) negate then cont ← ref_to_cont cell; jump cont else mret 0.

(** ** Loops *)

Definition exec_repeat (brk : bool) : VM Z :=
  _ ← check_underflow [2]; cont ← pop_cont; c ← pop_smallint_range 0x7fffffff (-0x80000000);
  if c <=? 0 then mret 0
  else cc ← extract_cc 1 (-1) (-1); after ← c1_envelope_if brk cc; repeat cont after c.
Definition exec_repeat_end (brk : bool) : VM Z :=
  _ ← check_underflow [1]; c ← pop_smallint_range 0x7fffffff (-0x80000000);
  if c <=? 0 then ret
  else cont ← extract_cc 0 (-1) (-1); c0 ← get_c0; after ← c1_envelope_if brk c0; repeat cont after c.
Definition exec_until (brk : bool) : VM Z :=
  cont ← pop_cont; cc ← extract_cc 1 (-1) (-1); after ← c1_envelope_if brk cc; until cont after.
Definition exec_until_end (brk : bool) : VM Z :=
  cont ← extract_cc 0 (-1) (-1); c0 ← get_c0; after ← c1_envelope_if brk c0; until cont after.
Definition exec_while (brk : bool) : VM Z :=
  _ ← check_underflow [2]; body ← pop_cont; cond ← pop_cont;
  cc ← extract_cc 1 (-1) (-1); after ← c1_envelope_if brk cc; loop_while cond body after.
Definition exec_while_end (brk : bool) : VM Z :=
  cond ← pop_cont; body ← extract_cc 0 (-1) (-1); c0 ← get_c0; after ← c1_envelope_if brk c0; loop_while cond body after.
Definition exec_again (brk : bool) : VM Z :=
  _ ← (if brk then cc ← extract_cc 3 (-1) (-1); update_cr (set_c1 cc) else mret tt); cont ← pop_cont; again cont.
Definition exec_again_end (brk : bool) : VM Z :=
  _ ← (if brk then c1_save_set true else mret tt); cc ← extract_cc 0 (-1) (-1); again cc.

Definition continuation_cond_loop_ops : list OpcodeInstr :=
  [ mkjump 0xdc 8 exec_ifret; mkjump 0xdd 8 exec_ifnotret; mkjump 0xde 8 exec_if; mkjump 0xdf 8 exec_ifnot
  ; mkjump 0xe0 8 exec_if_jmp; mkjump 0xe1 8 exec_ifnot_jmp; mkjump 0xe2 8 exec_if_else
  ; mkext 0xe300 16 0 (fun _ => exec_do_with_cell exec_ifref) compute_len_push_ref
  ; mkext 0xe301 16 0 (fun _ => exec_do_with_cell exec_ifnotref) compute_len_push_ref
  ; mkext 0xe302 16 0 (fun _ => exec_do_with_cell exec_ifjmpref) compute_len_push_ref
  ; mkext 0xe303 16 0 (fun _ => exec_do_with_cell exec_ifnotjmpref) compute_len_push_ref
  ; mksimple 0xe304 16 exec_condsel; mksimple 0xe305 16 exec_condsel_chk
  ; mkjump 0xe308 16 exec_ifretalt; mkjump 0xe309 16 exec_ifnotretalt
  ; mkext 0xe30d 16 0 (fun _ => exec_ifelse_ref true) compute_len_push_ref
  ; mkext 0xe30e 16 0 (fun _ => exec_ifelse_ref false) compute_len_push_ref
  ; mkext 0xe30f 16 0 (fun _ => exec_ifref_elseref) compute_len_push_ref2
  ; mkjump_fixed (Z.shiftr 0xe380 6) 10 6 exec_if_bit_jmp
  ; mkext (Z.shiftr 0xe3c0 6) 10 6 exec_if_bit_jmpref compute_len_push_ref
  ; mkjump 0xe4 8 (exec_repeat false); mkjump 0xe5 8 (exec_repeat_end false)
  ; mkjump 0xe6 8 (exec_until false); mkjump 0xe7 8 (exec_until_end false)
  ; mkjump 0xe8 8 (exec_while false); mkjump 0xe9 8 (exec_while_end false)
  ; mkjump 0xea 8 (exec_again false); mkjump 0xeb 8 (exec_again_end false)
  ; mkjump 0xe314 16 (exec_repeat true); mkjump 0xe315 16 (exec_repeat_end true)
  ; mkjump 0xe316 16 (exec_until true); mkjump 0xe317 16 (exec_until_end true)
  ; mkjump 0xe318 16 (exec_while true); mkjump 0xe319 16 (exec_while_end true)
  ; mkjump 0xe31a 16 (exec_again true); mkjump 0xe31b 16 (exec_again_end true) ].

End ContOps.
