(* ===== verification/ContChange.v ===== *)
(** * Instructions that build continuations and set registers ([crypto/vm/contops.cpp])

    Closures, control registers, composition, the dictionary of [c3], exceptions and the
    codepage. *)
From S2P Require Import Prelude BigInt RefInt Stack OpTable StackOps Continuation Cells CellConstOps BuilderOps SliceOps ContOps.

Section ContChange.
Context `{CS : CellSystem}.

(** ** Closures *)

(** The stack that a closure gets, and what is left of the other one. *)
Definition closure_stack (own : option (list StackEntry)) (s : list StackEntry) (copy : Z)
    : option (list StackEntry * list StackEntry) :=
  match own with None => split_top s copy 0 | Some own => move_from_stack own s copy end.

(** [nargs] after [copy] arguments are given; [more] is the number that is still to come. *)
Definition given_args (n copy : Z) : Z := if 0 <=? n then n - copy else n.
Definition expected_args (n more : Z) : Z :=
  if 0 <=? more then (if more <? n then 0x40000000 else if n <? 0 then more else n) else n.

(** The writes to the control data of a continuation that takes [copy] entries. *)
Definition copy_args (copy : Z) (data : ControlData) : VM ControlData :=
  if (0 <=? nargs data) && (nargs data <? copy) then throw stk_ov
  else
    s ← get_stack;
    match closure_stack (cd_stack data) s copy with
    | Some (stk, rest) =>
        _ ← set_stack rest; _ ← consume_stack_gas (depth stk);
        mret (with_args (Some stk) (given_args (nargs data) copy) data)
    | None => undefined
    end.

Definition exec_setcontargs_common (copy more : Z) : VM unit :=
  _ ← check_underflow [copy + 1]; cont ← pop_cont;
  if negb (copy =? 0) || (0 <=? more) then
    let (data, rebuild) := force_cdata cont in
    data ← (if 0 <? copy then copy_args copy data else mret data);
    push_cont (rebuild (with_args (cd_stack data) (expected_args (nargs data) more) data))
  else push_cont cont.
Definition exec_setcontargs (args : Z) : VM unit :=
  let copy := arg1 args in let more := Z.land (args + 1) 15 - 1 in exec_setcontargs_common copy more.
Definition exec_setcont_varargs : VM unit :=
  _ ← check_underflow [2]; more ← pop_smallint_range 255 (-1); copy ← pop_smallint_range 255 0; exec_setcontargs_common copy more.
Definition exec_setnum_varargs : VM unit :=
  _ ← check_underflow [2]; more ← pop_smallint_range 255 (-1); exec_setcontargs_common 0 more.

(** All but the top [count] entries go to the return continuation. *)
Definition exec_return_args_common (count : Z) : VM unit :=
  _ ← check_underflow [count]; s ← get_stack;
  if depth s =? count then mret tt
  else
    let copy := depth s - count in
    match split_top s count 0 with
    | Some (top, alt_stk) =>
        _ ← set_stack top; cont ← get_c0;
        let (data, rebuild) := force_cdata cont in
        if (0 <=? nargs data) && (nargs data <? copy) then throw stk_ov
        else
          match (match cd_stack data with None => Some alt_stk | Some own => option_map fst (move_from_stack own alt_stk copy) end) with
          | Some stk =>
              _ ← consume_stack_gas (depth stk);
              update_cr (set_c0 (rebuild (with_args (Some stk) (given_args (nargs data) copy) data)))
          | None => undefined
          end
    | None => undefined
    end.
Definition exec_return_args (args : Z) : VM unit := exec_return_args_common (arg0 args).
Definition exec_return_varargs : VM unit := count ← pop_smallint_range 255 0; exec_return_args_common count.

Definition exec_bless : VM unit := cs ← pop_cellslice; cp_ ← get_cp; push_cont (OrdCont (plain_data cp_) cs).
Definition exec_bless_args_common (copy more : Z) : VM unit :=
  _ ← check_underflow [copy + 1]; cs ← pop_cellslice; s ← get_stack;
  match split_top s copy 0 with
  | Some (new_stk, rest) =>
      _ ← set_stack rest; _ ← consume_stack_gas (depth new_stk); cp_ ← get_cp;
      push_cont (OrdCont (with_args (Some new_stk) more (plain_data cp_)) cs)
  | None => undefined
  end.
Definition exec_bless_varargs : VM unit :=
  _ ← check_underflow [2]; more ← pop_smallint_range 255 (-1); copy ← pop_smallint_range 255 0; exec_bless_args_common copy more.
Definition exec_bless_args (args : Z) : VM unit :=
  let copy := arg1 args in let more := Z.land (args + 1) 15 - 1 in exec_bless_args_common copy more.

(** ** Control registers *)

(** [VmState::get]; the entry for a register that holds no reference is never pushed. *)
Definition get_ctr (idx : Z) : VM StackEntry :=
  r ← get_cr; match regs_get idx r with Some (Some e) => mret e | Some None => undefined | None => mret se_null end.
(** [throw_typechk(st->set(idx, value))] *)
Definition set_ctr (idx : Z) (value : StackEntry) : VM unit :=
  r ← get_cr; match regs_set idx value r with Some r' => set_cr r' | None => throw type_chk end.
(** [throw_typechk(force_cregs(cont)->define(idx, value))], and the same without the check. *)
Definition define_ctr (idx : Z) (value : StackEntry) (cont : Cont) : VM Cont :=
  match force_cregs_opt (regs_define idx value) cont with Some cont' => mret cont' | None => throw type_chk end.
Definition try_define (idx : Z) (value : StackEntry) (cont : Cont) : Cont :=
  force_cregs (fun r => default r (regs_define idx value r)) cont.

Definition exec_push_ctr (args : Z) : VM unit := let idx := arg0 args in e ← get_ctr idx; push e.
Definition exec_pop_ctr (args : Z) : VM unit := let idx := arg0 args in e ← pop_chk; set_ctr idx e.
Definition exec_setcont_ctr (args : Z) : VM unit :=
  let idx := arg0 args in
  _ ← check_underflow [2]; cont ← pop_cont; e ← pop_chk; cont ← define_ctr idx e cont; push_cont cont.
Definition exec_setret_ctr (args : Z) : VM unit :=
  let idx := arg0 args in cont ← get_c0; e ← pop_chk; cont ← define_ctr idx e cont; update_cr (set_c0 cont).
Definition exec_setalt_ctr (args : Z) : VM unit :=
  let idx := arg0 args in cont ← get_c1; e ← pop_chk; cont ← define_ctr idx e cont; update_cr (set_c1 cont).
Definition exec_popsave_ctr (args : Z) : VM unit :=
  let idx := arg0 args in
  val ← pop_chk; c0 ← get_c0; _ ← guard_vm (negb (idx =? 0) || bool_decide (type val = t_vmcont)) type_chk;
  old ← get_ctr idx;
  let c0 := try_define idx old c0 in
  if idx =? 0 then _ ← update_cr (set_c0 c0); set_ctr idx val
  else _ ← set_ctr idx val; update_cr (set_c0 c0).
Definition exec_save_ctr (args : Z) : VM unit :=
  let idx := arg0 args in c0 ← get_c0; e ← get_ctr idx; c0 ← define_ctr idx e c0; update_cr (set_c0 c0).
Definition exec_samealt (save_ : bool) : VM unit :=
  c0 ← get_c0; r ← get_cr;
  let c0' := if save_ then force_cregs (define_c1 (c1 r)) c0 else c0 in
  _ ← (if save_ then update_cr (set_c0 c0') else mret tt); update_cr (set_c1 c0').
Definition exec_savealt_ctr (args : Z) : VM unit :=
  let idx := arg0 args in c1 ← get_c1; e ← get_ctr idx; c1 ← define_ctr idx e c1; update_cr (set_c1 c1).
Definition exec_saveboth_ctr (args : Z) : VM unit :=
  let idx := arg0 args in
  c0 ← get_c0; c1 ← get_c1; val ← get_ctr idx;
  _ ← update_cr (set_c0 (try_define idx val c0)); update_cr (set_c1 (try_define idx val c1)).

Definition exec_push_ctr_var : VM unit :=
  idx ← pop_smallint_range 16 0; val ← get_ctr idx; _ ← guard_vm (negb (empty val)) range_chk; push val.
Definition exec_pop_ctr_var : VM unit :=
  _ ← check_underflow [2]; idx ← pop_smallint_range 16 0; _ ← guard_vm (valid_idx idx) range_chk;
  e ← pop_chk; set_ctr idx e.
Definition exec_setcont_ctr_var : VM unit :=
  _ ← check_underflow [3]; idx ← pop_smallint_range 16 0; _ ← guard_vm (valid_idx idx) range_chk;
  cont ← pop_cont; e ← pop_chk; cont ← define_ctr idx e cont; push_cont cont.

(** ** Composition *)

Definition compos_regs (mask : Z) (val : Cont) (r : ControlRegs) : ControlRegs :=
  if mask =? 1 then define_c0 (Some val) r
  else if mask =? 3 then define_c1 (Some val) (define_c0 (Some val) r)
  else if mask =? 2 then define_c1 (Some val) r
  else r.
Definition exec_compos (mask : Z) : VM unit :=
  _ ← check_underflow [2]; val ← pop_cont; cont ← pop_cont; push_cont (force_cregs (compos_regs mask val) cont).
Definition exec_atexit : VM unit :=
  cont ← pop_cont; r ← get_cr; update_cr (set_c0 (force_cregs (define_c0 (c0 r)) cont)).
Definition exec_atexit_alt : VM unit :=
  cont ← pop_cont; r ← get_cr; update_cr (set_c1 (force_cregs (define_c1 (c1 r)) cont)).
Definition exec_setexit_alt : VM unit :=
  cont ← pop_cont; r ← get_cr;
  update_cr (set_c1 (force_cregs (define_c1 (c1 r)) (force_cregs (define_c0 (c0 r)) cont))).
Definition exec_thenret : VM unit := cont ← pop_cont; r ← get_cr; push_cont (force_cregs (define_c0 (c0 r)) cont).
Definition exec_thenret_alt : VM unit := cont ← pop_cont; r ← get_cr; push_cont (force_cregs (define_c0 (c1 r)) cont).
Definition exec_invert : VM unit :=
  c0 ← get_c0; c1 ← get_c1; _ ← update_cr (set_c0 c1); update_cr (set_c1 c0).
Definition exec_booleval : VM Z :=
  cont ← pop_cont; cc ← extract_cc 3 (-1) (-1);
  _ ← update_cr (set_c0 (PushIntCont (-1) cc)); _ ← update_cr (set_c1 (PushIntCont 0 cc)); jump cont.

(** The registers [c0] to [c3], [c4] and [c5], and [c7]. *)
Definition reg_ctr_oprange (opcode : Z) (exec_ctr : Z -> VM unit) : list OpcodeInstr :=
  [ mkfixedrange opcode (opcode + 4) 16 4 exec_ctr; mkfixedrange (opcode + 4) (opcode + 6) 16 4 exec_ctr
  ; mkfixedrange (opcode + 7) (opcode + 8) 16 4 exec_ctr ].

Definition continuation_change_ops : list OpcodeInstr :=
  [ mkfixed 0xec 8 8 exec_setcontargs; mkfixed 0xed0 12 4 exec_return_args; mksimple 0xed10 16 exec_return_varargs
  ; mksimple 0xed11 16 exec_setcont_varargs; mksimple 0xed12 16 exec_setnum_varargs; mksimple 0xed1e 16 exec_bless
  ; mksimple 0xed1f 16 exec_bless_varargs ]
  ++ reg_ctr_oprange 0xed40 exec_push_ctr ++ reg_ctr_oprange 0xed50 exec_pop_ctr ++ reg_ctr_oprange 0xed60 exec_setcont_ctr
  ++ reg_ctr_oprange 0xed70 exec_setret_ctr ++ reg_ctr_oprange 0xed80 exec_setalt_ctr ++ reg_ctr_oprange 0xed90 exec_popsave_ctr
  ++ reg_ctr_oprange 0xeda0 exec_save_ctr ++ reg_ctr_oprange 0xedb0 exec_savealt_ctr ++ reg_ctr_oprange 0xedc0 exec_saveboth_ctr
  ++ [ mksimple 0xede0 16 exec_push_ctr_var; mksimple 0xede1 16 exec_pop_ctr_var; mksimple 0xede2 16 exec_setcont_ctr_var
     ; mksimple 0xedf0 16 (exec_compos 1); mksimple 0xedf1 16 (exec_compos 2); mksimple 0xedf2 16 (exec_compos 3)
     ; mksimple 0xedf3 16 exec_atexit; mksimple 0xedf4 16 exec_atexit_alt; mksimple 0xedf5 16 exec_setexit_alt
     ; mksimple 0xedf6 16 exec_thenret; mksimple 0xedf7 16 exec_thenret_alt; mksimple 0xedf8 16 exec_invert
     ; mkjump 0xedf9 16 exec_booleval; mksimple 0xedfa 16 (exec_samealt false); mksimple 0xedfb 16 (exec_samealt true)
     ; mkfixed 0xee 8 8 exec_bless_args ].

(** ** Dictionary jumps *)

Definition exec_calldict_short (args : Z) : VM Z := _ ← push_smallint (Z.land args 0xff); c3 ← get_c3; call c3.
Definition exec_calldict (args : Z) : VM Z := _ ← push_smallint (Z.land args 0x3fff); c3 ← get_c3; call c3.
Definition exec_jmpdict (args : Z) : VM Z := _ ← push_smallint (Z.land args 0x3fff); c3 ← get_c3; jump c3.
Definition exec_preparedict (args : Z) : VM unit := _ ← push_smallint (Z.land args 0x3fff); c3 ← get_c3; push_cont c3.

Definition continuation_dict_jump_ops : list OpcodeInstr :=
  [ mkjump_fixed 0xf0 8 8 exec_calldict_short; mkjump_fixed (Z.shiftr 0xf100 6) 10 14 exec_calldict
  ; mkjump_fixed (Z.shiftr 0xf140 6) 10 14 exec_jmpdict; mkfixed (Z.shiftr 0xf180 6) 10 14 exec_preparedict ].

(** ** Exceptions *)

(** [mode] is 0 without a condition, 3 to throw if it is true and 2 if it is false. *)
Definition exec_throw_fixed (mask mode args : Z) : VM Z :=
  let excno := Z.land args mask in
  if mode =? 0 then throw_exception excno
  else b ← pop_bool; if negb (Bool.eqb b (Z.testbit mode 0)) then mret 0 else throw_exception excno.
Definition exec_throw_arg_fixed (mask mode args : Z) : VM Z :=
  let excno := Z.land args mask in
  _ ← check_underflow [if mode =? 0 then 1 else 2];
  b ← (if mode =? 0 then mret (Z.testbit mode 0) else pop_bool);
  e ← pop; if negb (Bool.eqb b (Z.testbit mode 0)) then mret 0 else throw_exception_arg excno e.
Definition exec_throw_any (args : Z) : VM Z :=
  let has_param := Z.testbit args 0 in let has_cond := negb (Z.land args 6 =? 0) in let throw_cond := Z.testbit args 1 in
  _ ← check_underflow [1 + Z.b2z has_cond + Z.b2z has_param];
  flag ← (if has_cond then pop_bool else mret throw_cond);
  excno ← pop_smallint_range 0xffff 0;
  if negb (Bool.eqb flag throw_cond) then _ ← (if has_param then _ ← pop; mret tt else mret tt); mret 0
  else if has_param then e ← pop; throw_exception_arg excno e
  else throw_exception excno.

(** [TRY] has the argument -1; the handler returns to what follows, with the old [c2]. *)
Definition exec_try (args : Z) : VM Z :=
  let params := Z.land (Z.shiftr args 4) 15 in let retvals := Z.land args 15 in
  _ ← check_underflow [if 0 <=? args then params + 2 else 2];
  handler_cont ← pop_cont; cont ← pop_cont;
  r ← get_cr;
  cc ← (if 0 <=? args then extract_cc 7 params retvals else extract_cc 7 (-1) (-1));
  let handler_cont := force_cregs (fun s => define_c0 (Some cc) (define_c2 (c2 r) s)) handler_cont in
  _ ← update_cr (set_c0 cc); _ ← update_cr (set_c2 handler_cont); jump cont.

Definition exception_ops : list OpcodeInstr :=
  [ mkjump_fixed (Z.shiftr 0xf200 6) 10 6 (exec_throw_fixed 63 0); mkjump_fixed (Z.shiftr 0xf240 6) 10 6 (exec_throw_fixed 63 3)
  ; mkjump_fixed (Z.shiftr 0xf280 6) 10 6 (exec_throw_fixed 63 2); mkjump_fixed (Z.shiftr 0xf2c0 3) 13 11 (exec_throw_fixed 0x7ff 0)
  ; mkjump_fixed (Z.shiftr 0xf2c8 3) 13 11 (exec_throw_arg_fixed 0x7ff 0); mkjump_fixed (Z.shiftr 0xf2d0 3) 13 11 (exec_throw_fixed 0x7ff 3)
  ; mkjump_fixed (Z.shiftr 0xf2d8 3) 13 11 (exec_throw_arg_fixed 0x7ff 3); mkjump_fixed (Z.shiftr 0xf2e0 3) 13 11 (exec_throw_fixed 0x7ff 2)
  ; mkjump_fixed (Z.shiftr 0xf2e8 3) 13 11 (exec_throw_arg_fixed 0x7ff 2); mkjump_range 0xf2f0 0xf2f6 16 3 exec_throw_any
  ; mkjump 0xf2ff 16 (exec_try (-1)); mkjump_fixed 0xf3 8 8 exec_try ].

(** ** The codepage *)

Definition exec_set_cp_generic (new_codepage : Z) : VM unit := force_cp new_codepage.
Definition exec_set_cp (args : Z) : VM unit := exec_set_cp_generic (Z.land (args + 0x10) 0xff - 0x10).
Definition exec_set_cp_any : VM unit := c ← pop_smallint_range 0x7fff (-0x8000); exec_set_cp_generic c.

Definition codepage_ops : list OpcodeInstr :=
  [ mkfixedrange 0xff00 0xfff0 16 8 exec_set_cp; mkfixedrange 0xfff1 0x10000 16 8 exec_set_cp; mksimple 0xfff0 16 exec_set_cp_any ].

(** ** Registration *)

Definition register_continuation_jump_ops (t : OpcodeTable) : option OpcodeTable := insert_all continuation_jump_ops t.
Definition register_continuation_cond_loop_ops (t : OpcodeTable) : option OpcodeTable := insert_all continuation_cond_loop_ops t.
Definition register_continuation_change_ops (t : OpcodeTable) : option OpcodeTable := insert_all continuation_change_ops t.
Definition register_continuation_dict_jump_ops (t : OpcodeTable) : option OpcodeTable := insert_all continuation_dict_jump_ops t.
Definition register_exception_ops (t : OpcodeTable) : option OpcodeTable := insert_all exception_ops t.
Definition register_codepage_ops (t : OpcodeTable) : option OpcodeTable := insert_all codepage_ops t.

Definition register_continuation_ops (t : OpcodeTable) : option OpcodeTable :=
  t ← register_continuation_jump_ops t; t ← register_continuation_cond_loop_ops t; t ← register_continuation_change_ops t;
  t ← register_continuation_dict_jump_ops t; register_exception_ops t.

End ContChange.
