(* ===== verification/Machine.v ===== *)
(** * The codepage ([crypto/vm/cp0.cpp])

    The modelled instructions registered in one table, in the order of [init_op_cp0]. *)
From S2P Require Import Prelude BigInt RefInt Stack OpTable StackOps ArithOps TupleOps Continuation Cells CellConstOps BuilderOps SliceOps ContOps ContChange.

Section Machine.
Context `{CS : CellSystem}.

Definition data_ops : list OpcodeInstr := stack_ops ++ tuple_ops ++ arith_ops.
Definition control_ops : list OpcodeInstr :=
  continuation_jump_ops ++ continuation_cond_loop_ops ++ continuation_change_ops ++ continuation_dict_jump_ops ++ exception_ops.
Definition cp0_ops : list OpcodeInstr := data_ops ++ cell_const_ops ++ cell_data_ops ++ control_ops ++ codepage_ops.

(** [init_op_cp0], as far as its instructions are modelled. *)
Definition register_cp0 (t : OpcodeTable) : option OpcodeTable :=
  t ← register_stack_ops t; t ← register_tuple_ops t; t ← register_arith_ops t; t ← register_cell_ops t;
  t ← register_continuation_ops t; register_codepage_ops t.

Definition init_op_cp0 : option OpcodeTable := t ← register_cp0 empty_table; Some (finalize t).

Lemma insert_all_app l1 l2 t : insert_all (l1 ++ l2) t = (t' ← insert_all l1 t; insert_all l2 t').
Proof.
  unfold insert_all. rewrite foldl_app. destruct (foldl _ (Some t) l1) as [t0|]; [reflexivity|apply insert_all_none].
Qed.

Lemma bind_assoc {A B C} (o : option A) (f : A -> option B) (g : B -> option C) : (y ← (x ← o; f x); g y) = (x ← o; y ← f x; g y).
Proof. by destruct o. Qed.

Lemma register_cp0_all t : register_cp0 t = insert_all cp0_ops t.
Proof.
  unfold register_cp0, register_arith_ops, register_cell_ops, register_continuation_ops, cp0_ops, data_ops, cell_data_ops, control_ops, arith_ops.
  rewrite <- !(assoc_L (++)).
  repeat (rewrite insert_all_app; rewrite ?bind_assoc; apply option_bind_ext_fun; intros ?; rewrite ?bind_assoc). done.
Qed.

(** The registration succeeds, and the table has the instructions of the list. *)
Lemma cp0_table : exists t, register_cp0 empty_table = Some t /\ table_wf t /\ final t = false /\
  forall i, i ∈ instructions t -> i ∈ cp0_ops.
Proof.
  rewrite register_cp0_all.
  assert (match insert_all cp0_ops empty_table with Some _ => true | None => false end = true) as Hs by by vm_compute.
  destruct (insert_all cp0_ops empty_table) as [t|] eqn:E; [|done]. exists t. split; [done|].
  assert (table_wf empty_table) as Hw by (unfold table_wf; vm_compute; discriminate).
  assert (forallb range_ok cp0_ops = true) as Hr by by vm_compute.
  destruct (insert_all_spec cp0_ops empty_table t Hw eq_refl Hr E) as (Hwt & Hft & Hin).
  clear E Hr Hs. split; [exact Hwt|]. split; [exact Hft|]. intros i Hi. destruct (Hin i Hi) as [Hi'|Hi']; [done|].
  by apply elem_of_nil in Hi'.
Qed.

End Machine.
