(* ===== verification/Run.v ===== *)
(** * Running the machine ([VmState::step], [VmState::run] and [run_vm_code] of [crypto/vm/vm.cpp])

    The loop runs on fuel; a run ends with the machine's exit code, the stack it leaves and
    the rest of its state, or with [Crash] where the C++ code would access what is not there ([Undefined] of Stack). *)
From S2P Require Import Prelude BigInt RefInt Stack OpTable Continuation Cells CellConstOps.

Section Run.
Context `{CS : CellSystem} (t : OpcodeTable).

(** ** The start *)

Definition init_cregs (same_c3 push_0 : bool) : VM unit :=
  _ ← update_cr (set_c0 quit0); _ ← update_cr (set_c1 quit1); _ ← update_cr (set_c2 ExcQuitCont);
  _ ← (if same_c3 then
         cs ← get_code; cp_ ← get_cp; _ ← update_cr (set_c3 (OrdCont (plain_data cp_) cs));
         if push_0 then push_smallint 0 else mret tt
       else update_cr (set_c3 (QuitCont 11)));
  _ ← update_cr (fun r => match d0 r with None => set_d0 empty_cell r | Some _ => r end);
  _ ← update_cr (fun r => match d1 r with None => set_d1 empty_cell r | Some _ => r end);
  update_cr (fun r => match c7 r with None => set_c7 [] r | Some _ => r end).

(** The constructor, for a machine that has code; [flags] are [same_c3] and [push_0]. *)
Definition blank (cs : CellSlice) (stk : list StackEntry) (g : GasLimits) : VmState :=
  {| stack := stk; code := Some cs;
     core := {| core_gas := g; cr := empty_regs; cp := -1; loaded_cells := []; cstate := None; steps := 0 |} |}.
Definition construct (flags : Z) (data : option Cell) (init_c7 : option (list StackEntry)) : VM unit :=
  ok ← init_cp 0;
  if ok : bool then
    _ ← match data with Some c => update_cr (set_d0 c) | None => mret tt end;
    _ ← match init_c7 with Some tup => update_cr (set_c7 tup) | None => mret tt end;
    init_cregs (Z.testbit flags 0) (Z.testbit flags 1)
  else undefined.

(** ** One step *)

Definition implicit_jmpref_gas_price : Z := 10.
Definition implicit_ret_gas_price : Z := 5.

Definition bump (k : VmCore) : VmCore :=
  {| core_gas := core_gas k; cr := cr k; cp := cp k; loaded_cells := loaded_cells k; cstate := cstate k; steps := s64 (steps k + 1) |}.
Definition count_step : VM unit := fun st => Done (tt, with_core (bump (core st)) st).

(** The dispatch table of the current codepage. *)
Definition dispatch_cp : VM Z := c ← get_cp; if get_table c then dispatch t else throw inv_opcode.

Definition step : VM Z :=
  _ ← count_step; cs ← get_code;
  if 0 <? Z.of_nat (length (cs_bits cs)) then dispatch_cp
  else
    match cs_refs cs with
    | cell :: _ => _ ← consume_chk implicit_jmpref_gas_price; cont ← ref_to_cont cell; jump cont
    | [] => _ ← consume_chk implicit_ret_gas_price; ret
    end.

(** ** The loop *)

(** The stack is not known where an exception is thrown while another is handled. *)
Inductive RunResult := Exit (res : Z) (stk : option (list StackEntry)) (k : VmCore) | Crash.

Definition out_of_gas_exit (k : VmCore) : RunResult :=
  Exit (get_errno out_of_gas) (Some [se_int (make_refint (gas_consumed (core_gas k)))]) (bump k).

(** After the loop: the exit codes 0 and 1 commit. *)
Definition finish (res : Z) (st : VmState) : RunResult :=
  if Z.lor res 1 =? -1 then
    match commit (core st) with
    | Some k => Exit res (Some (stack st)) k
    | None => Exit (Z.lnot (get_errno cell_ov)) (Some [se_int (make_refint 0)]) (core st)
    end
  else Exit res (Some (stack st)) (core st).

(** The outcome of an iteration: the loop goes on, or it ends. *)
Definition after_jump (res : Z) (st : VmState) : VmState + RunResult :=
  if res =? 0 then inl st else inr (finish res st).
Definition handle (e : Excno) (k : VmCore) : VmState + RunResult :=
  match throw_exception (get_errno e) {| stack := []; code := None; core := bump k |} with
  | Done (res, st) => after_jump res st
  | Throw e2 k2 => inr (Exit (Z.lnot (get_errno e2)) None k2)
  | NoGas k2 => inr (out_of_gas_exit k2)
  | Undefined => inr Crash
  end.
Definition iteration (st : VmState) : VmState + RunResult :=
  match (res ← step; _ ← gas_check; mret res) st with
  | Done (res, st') => after_jump res st'
  | Throw e k => handle e k
  | NoGas k => inr (out_of_gas_exit k)
  | Undefined => inr Crash
  end.

Fixpoint run_loop (fuel : nat) (st : VmState) : option RunResult :=
  match fuel with
  | O => None
  | S fuel' => match iteration st with inl st' => run_loop fuel' st' | inr r => Some r end
  end.

Definition run (fuel : nat) (st : VmState) : option RunResult :=
  match code st with None => Some (Exit (get_errno fatal) (Some (stack st)) (core st)) | Some _ => run_loop fuel st end.

(** ** [run_vm_code] *)

(** The exit code, the stack, the committed data and actions, the steps and the gas. *)
Record VmResult := { exit_code : Z; result_stack : option (list StackEntry); committed : option (Cell * Cell); step_count : Z; gas_left : GasLimits }.
Definition result_of (r : RunResult) : option VmResult :=
  match r with
  | Exit res stk k => Some {| exit_code := Z.lnot res; result_stack := stk; committed := cstate k; step_count := steps k; gas_left := core_gas k |}
  | Crash => None
  end.
Definition run_vm_code (fuel : nat) (cs : CellSlice) (stk : list StackEntry) (flags : Z) (data : option Cell) (g : GasLimits)
    (init_c7 : option (list StackEntry)) : option VmResult :=
  match construct flags data init_c7 (blank cs stk g) with
  | Done (_, st) => r ← run fuel st; result_of r
  | _ => None
  end.

End Run.
