(* ===== verification/TreeCells.v ===== *)
(** * Trees as cells, for the worked programs

    A [CellSystem] whose cells are finite trees that can be loaded if they are small enough, the machine's code
    written in hexadecimal, and an amount of gas. *)
From S2P Require Import Prelude BitMem BigInt RefInt Stack OpTable Continuation.

Inductive tree := node (special : bool) (bits : list bool) (refs : list tree).

Fixpoint tree_depth (t : tree) : Z :=
  match t with node _ _ [] => 0 | node _ _ refs => 1 + fold_right (fun t d => Z.max (tree_depth t) d) 0 refs end.

(** A number for a tree, in place of its hash. *)
Fixpoint tree_code (t : tree) : Z :=
  match t with
  | node special bits refs =>
      2 * fold_right (fun b n => 3 * n + 1 + Z.b2z b) (Z.b2z special) bits + 3 ^ fold_right (fun t n => tree_code t + n) 1 refs
  end.

(** What is too large for a cell is none. *)
Definition tree_fits (bits : list bool) (refs : list tree) : bool :=
  (Z.of_nat (length bits) <=? max_bits) && (Z.of_nat (length refs) <=? max_refs).
Definition tree_load (t : tree) : option (bool * list bool * list tree) :=
  match t with node special bits refs => if tree_fits bits refs then Some (special, bits, refs) else None end.
Definition tree_create (bits : list bool) (refs : list tree) (special : bool) : option tree :=
  if tree_fits bits refs then Some (node special bits refs) else None.

Lemma tree_load_fits t special bits refs : tree_load t = Some (special, bits, refs) -> fits_cell bits refs.
Proof.
  destruct t as [sp b r]. cbn. destruct (tree_fits b r) eqn:E; [|done]. intros [= <- <- <-]. unfold tree_fits in E. split; lia.
Qed.
Lemma tree_create_load bits refs special t : tree_create bits refs special = Some t -> tree_load t = Some (special, bits, refs).
Proof. unfold tree_create. destruct (tree_fits bits refs) eqn:E; [|done]. intros [= <-]. cbn. by rewrite E. Qed.

(** The depth, up to the largest depth of a cell. *)
Definition tree_depth16 (t : tree) : Z := if tree_depth t <=? 1024 then tree_depth t else 1024.
Lemma tree_depth_nonneg t : 0 <= tree_depth t.
Proof.
  destruct t as [sp b rs]. assert (0 <= fold_right (fun t d => Z.max (tree_depth t) d) 0 rs) as H by (induction rs; cbn; lia).
  destruct rs as [|r rs]; [done|]. revert H. cbn. lia.
Qed.
Lemma tree_depth_range t : 0 <= tree_depth16 t < 2 ^ 16.
Proof. unfold tree_depth16. pose proof (tree_depth_nonneg t). destruct (Z.leb_spec (tree_depth t) 1024); lia. Qed.

#[export] Instance tree_cells : CellSystem :=
  {| Cell := tree; Object := unit; cell_load := tree_load; cell_hash := tree_code; cell_depth := tree_depth16;
     cell_create := tree_create; empty_cell := node false [] []; load_fits := tree_load_fits;
     depth_range := tree_depth_range; create_load := tree_create_load |}.

(** A slice of [n] hexadecimal digits. *)
Definition hex (n : nat) (v : Z) : CellSlice := {| cs_bits := bits_of (4 * n) v; cs_refs := [] |}.

Definition some_gas (n : Z) : GasLimits := {| gas_max := n; gas_limit := n; gas_credit := 0; gas_remaining := n; gas_base := n |}.
