(* ===== verification/CellTheorems.v ===== *)
(** * What the instructions on cells do ([crypto/vm/cellops.cpp])

    Integers that are stored are read back, whatever the fields of a record; a failure of the
    quiet instructions leaves the operands; parts and comparisons of slices are those of the
    strings of bits. *)
From S2P Require Import Prelude BitMem BitCmp BigInt BigIntOps BigIntLog BigIntBits RefInt BigIntLoad Stack ArithSpec ArithLogic MachineTypes Continuation Cells CellConstOps BuilderOps SliceOps CellSpec TreeCells.

Section CellTheorems.
Context `{CS : CellSystem}.

(** ** Storing integers *)

Lemma push_int_run x st : vm_int x -> push_int_quiet x true st = Done (tt, with_stack st (se_int x :: stack st)).
Proof.
  intros [->|[Hw Hv]]; [done|]. unfold push_int_quiet. rewrite fits257, bool_decide_eq_true_2 by done. by rewrite push_run.
Qed.
Lemma push_int_wf x st : wf word_cnt x -> in257 (value x) -> push_int x st = Done (tt, with_stack st (se_int x :: stack st)).
Proof. intros Hw Hv. unfold push_int. by rewrite fits257, bool_decide_eq_true_2, push_run by done. Qed.

(** The operands of a store: the builder on top, or the integer. *)
Definition store_operands (rev : bool) (cb : CellBuilder) (x : digits) : list StackEntry :=
  if rev then [se_int x; se_builder cb] else [se_builder cb; se_int x].

Lemma store_fail_run code cb x args s st : in_range code -> vm_int x ->
  store_int_common_fail code cb x args (with_stack st s) =
    Done (tt, with_stack st (se_int [code] :: store_operands (Z.testbit args 1) cb x ++ s)).
Proof.
  intros Hc Hx. unfold store_int_common_fail, push_smallint. rewrite make_refint_small by done.
  destruct (Z.testbit args 1); cbn [negb store_operands]; vm_run; unfold push_builder; rewrite ?push_int_run by done;
    rewrite ?push_run; cbv beta iota; rewrite ?push_int_run by done; rewrite ?push_run; autorewrite with vm_state; done.
Qed.

Lemma pop_operands_run (rev : bool) cb x s st :
  (if negb rev then b ← pop_builder; x ← pop_int; mret (b, x) else x ← pop_int; b ← pop_builder; mret (b, x)) (with_stack st (store_operands rev cb x ++ s))
    = Done ((cb, x), with_stack st s).
Proof.
  unfold pop_builder, pop_int. destruct rev; cbn [negb store_operands app]; vm_run.
  - rewrite (pop_as_cons as_int (se_int x) x (se_builder cb :: s)) by done. cbv beta iota. by rewrite (pop_as_cons as_builder (se_builder cb) cb s).
  - rewrite (pop_as_cons as_builder (se_builder cb) cb (se_int x :: s)) by done. cbv beta iota. by rewrite (pop_as_cons as_int (se_int x) x s).
Qed.

(** The outcome of an instruction that answers [code], or throws [e]. *)
Definition answer (quiet : bool) (code : Z) (e : Excno) (operands s : list StackEntry) (st : VmState) : outcome (unit * VmState) :=
  if quiet then Done (tt, with_stack st (se_int [code] :: operands ++ s)) else Throw e (core st).

(** A store that succeeds. *)
Lemma store_int_run bits args cb x s st : 0 <= bits -> builder_ok cb -> wf word_cnt x -> in257 (value x) -> cb_size cb + bits <= 1023 ->
  fits_bits (value x) bits (negb (Z.testbit args 0)) ->
  exec_store_int_common bits args (with_stack st (store_operands (Z.testbit args 1) cb x ++ s)) =
    Done (tt, with_stack st ((if Z.testbit args 2 then [se_int [0]] else []) ++ se_builder (more (bits_of (Z.to_nat bits) (value x)) [] cb) :: s)).
Proof.
  intros Hb Hcb Hw Hv Hs Hf. unfold exec_store_int_common. cbv zeta. unfold mbind at 1, vm_bind at 1. rewrite pop_operands_run. cbv beta iota.
  pose proof (cb_size_range cb Hcb) as [_ Rr]. assert (can_extend_by bits 0 cb = true) as E by (apply can_extend_value; [done|lia]).
  apply fits_bits_any_value in Hf; [|done..]. rewrite E, Hf, store_int256_value, Hf by done. cbn [negb ensure_pass]. cbv iota.
  destruct (Z.testbit args 2); vm_run; unfold push_builder, push_smallint; rewrite ?make_refint_small by (unfold in_range, Half; lia); rewrite !push_run; done.
Qed.

(** C31. [STI], [STU] and their variants: where the builder has no space, they throw a cell overflow or
    answer -1, where the integer does not fit (or is NaN), they throw a range check or answer 1, and
    else the builder has the integer's bits, in two's complement, in addition; the quiet variants
    that fail leave their operands. *)
Theorem store_int_exact bits args cb x s st : 0 <= bits -> builder_ok cb -> vm_int x ->
  let quiet := Z.testbit args 2 in let operands := store_operands (Z.testbit args 1) cb x in
  exec_store_int_common bits args (with_stack st (operands ++ s)) =
    if 1023 <? cb_size cb + bits then answer quiet (-1) cell_ov operands s st
    else if is_valid x && bool_decide (fits_bits (value x) bits (negb (Z.testbit args 0)))
    then Done (tt, with_stack st ((if quiet then [se_int [0]] else []) ++ se_builder (more (bits_of (Z.to_nat bits) (value x)) [] cb) :: s))
    else answer quiet 1 range_chk operands s st.
Proof.
  intros Hb Hcb Hx. cbv zeta. assert (in_range (-1) /\ in_range 1) as [R1 R2] by (unfold in_range, Half; lia).
  pose proof (cb_size_range cb Hcb) as [Rs Rr]. pose proof (can_extend_value bits 0 cb Hcb) as E.
  destruct (Z.ltb_spec 1023 (cb_size cb + bits)) as [Hs|Hs].
  { unfold exec_store_int_common. cbv zeta. unfold mbind at 1, vm_bind at 1. rewrite pop_operands_run. cbv beta iota.
    destruct (can_extend_by bits 0 cb); [destruct (proj1 E eq_refl); lia|]. cbn [negb]. cbv iota. unfold answer. destruct (Z.testbit args 2); [by apply store_fail_run|done]. }
  destruct (is_valid x && bool_decide _) eqn:Hf.
  { apply andb_true_iff in Hf as [Hn Hf]. apply bool_decide_eq_true in Hf. destruct Hx as [->|[Hw Hv]]; [done|]. by apply store_int_run. }
  unfold exec_store_int_common. cbv zeta. unfold mbind at 1, vm_bind at 1. rewrite pop_operands_run. cbv beta iota.
  assert (can_extend_by bits 0 cb = true) as -> by (apply E; lia). assert (fits_bits_any x bits (negb (Z.testbit args 0)) = false) as ->.
  { destruct Hx as [->|[Hw Hv]]; [apply fits_bits_any_nan|]. assert (is_valid x = true) as Hn by (destruct Hw as [(Hn & _) _]; by destruct x).
    rewrite Hn in Hf. apply not_true_iff_false. intros F. apply fits_bits_any_value in F; [|done..]. by rewrite bool_decide_eq_true_2 in Hf. }
  cbn [negb]. cbv iota. unfold answer. by destruct (Z.testbit args 2); [apply store_fail_run|].
Qed.

(** ** Records *)

(** A field of a record: its width, and whether it is signed. *)
Record Field := { width : Z; signed : bool }.
Definition field_ok (f : Field) : Prop := 0 <= width f <= 256 + Z.b2z (signed f).
Definition fits_field (f : Field) (x : digits) : Prop := field_ok f /\ wf word_cnt x /\ fits_bits (value x) (width f) (signed f).
Definition field_args (f : Field) : Z := if signed f then 0 else 1.

(** Stores and loads, one field after the other. *)
Fixpoint store_record (fs : list Field) : VM unit :=
  match fs with [] => mret tt | f :: fs' => _ ← exec_store_int_common (width f) (field_args f); store_record fs' end.
Fixpoint load_record (fs : list Field) : VM unit :=
  match fs with [] => mret tt | f :: fs' => _ ← exec_load_int_common (width f) (field_args f); load_record fs' end.
(** A new cell for the integers on the stack, and its contents as a slice. *)
Definition through_cell (fs : list Field) : VM unit :=
  _ ← exec_new_builder; _ ← store_record fs; _ ← exec_builder_to_cell; _ ← exec_cell_to_slice; load_record fs.

Definition record_bits (fs : list Field) (xs : list digits) : list bool :=
  concat (zip_with (fun f x => bits_of (Z.to_nat (width f)) (value x)) fs xs).

Lemma fits_in257 f x : fits_field f x -> in257 (value x).
Proof.
  intros (Hf & _ & F). unfold field_ok, fits_bits in *. unfold in257. destruct (Z.eqb_spec (width f) 0); [lia|].
  destruct (signed f); cbn [Z.b2z] in Hf.
  - pose proof (Z.pow_le_mono_r 2 (width f - 1) 256 ltac:(lia) ltac:(lia)). lia.
  - pose proof (Z.pow_le_mono_r 2 (width f) 256 ltac:(lia) ltac:(lia)). lia.
Qed.
Lemma more_more b1 b2 cb : more b2 [] (more b1 [] cb) = more (b1 ++ b2) [] cb.
Proof. unfold more. cbn [cb_bits cb_refs]. by rewrite !app_nil_r, app_assoc. Qed.

Lemma store_record_run fs xs cb s st : Forall2 fits_field fs xs -> builder_ok cb -> cb_size cb + Z.of_nat (length (record_bits fs xs)) <= 1023 ->
  store_record fs (with_stack st (se_builder cb :: map se_int xs ++ s)) = Done (tt, with_stack st (se_builder (more (record_bits fs xs) [] cb) :: s)).
Proof.
  intros F. revert cb. induction F as [|f x fs xs Hfx F IH]; intros cb Hcb Hl.
  { cbn [store_record map app record_bits zip_with concat]. unfold more. rewrite !app_nil_r. by destruct cb. }
  pose proof Hfx as (Hf & Hw & Hfit). unfold record_bits in *. cbn [zip_with concat store_record map app] in *. rewrite length_app, length_bits_of in Hl.
  unfold field_ok in Hf. vm_run.
  assert (Z.testbit (field_args f) 2 = false /\ Z.testbit (field_args f) 1 = false /\ negb (Z.testbit (field_args f) 0) = signed f) as (E2 & E1 & E0).
  { unfold field_args. by destruct (signed f). }
  pose proof (store_int_run (width f) (field_args f) cb x (map se_int xs ++ s) st) as S. rewrite E2, E1, E0 in S. cbn [store_operands app] in S.
  rewrite S by (done || lia || by eapply fits_in257). clear S. cbv beta iota. rewrite IH.
  - by rewrite more_more.
  - apply more_ok; [done|]. rewrite length_bits_of. apply can_extend_value; [done|]. pose proof (cb_size_range cb Hcb). cbn [length]. lia.
  - unfold cb_size, more in *. cbn [cb_bits]. rewrite length_app, length_bits_of. lia.
Qed.

Lemma load_record_run fs xs rest refs s st : Forall2 fits_field fs xs ->
  let cs := {| cs_bits := record_bits fs xs ++ rest; cs_refs := refs |} in slice_ok cs ->
  load_record fs (with_stack st (se_slice cs :: s)) =
    Done (tt, with_stack st (se_slice {| cs_bits := rest; cs_refs := refs |} :: rev (map se_int xs) ++ s)).
Proof.
  intros F cs. subst cs. revert s. induction F as [|f x fs xs Hfx F IH]; intros s Hcs; [done|].
  pose proof Hfx as (Hf & Hw & Hfit). unfold record_bits in *. cbn [zip_with concat load_record map app rev] in *. unfold field_ok in Hf.
  set (mine := bits_of _ _) in *. set (theirs := concat _) in *. rewrite <- app_assoc in Hcs |- *. set (cs := {| cs_bits := mine ++ _; cs_refs := refs |}) in *.
  assert (length mine = Z.to_nat (width f)) as Lm by (unfold mine; by rewrite length_bits_of).
  assert (have (width f) cs = true) as Hh by (apply Z.leb_le; unfold cs; cbn [cs_bits]; rewrite length_app; lia).
  unfold mbind at 1, vm_bind at 1. unfold exec_load_int_common, pop_cellslice. unfold mbind at 1, vm_bind at 1.
  rewrite (pop_as_cons as_slice (se_slice cs) cs s) by done. cbv beta iota. rewrite Hh. cbn [negb]. cbv iota zeta.
  destruct (fetch_int256_value (width f) (negb (Z.testbit (field_args f) 0)) cs Hcs ltac:(destruct (signed f); cbn in Hf; lia) Hh) as (y & Ey & Hy & Vy).
  assert (y = x) as ->.
  { apply normal_unique; [apply Hy|apply Hw|]. rewrite Vy. unfold first_bits, cs. cbn [cs_bits]. rewrite take_app_length' by done.
    unfold mine. replace (negb (Z.testbit (field_args f) 0)) with (signed f) by (unfold field_args; by destruct (signed f)).
    apply int_value_of. rewrite Z2Nat.id by lia. exact Hfit. }
  assert (Z.testbit (field_args f) 1 = false /\ Z.testbit (field_args f) 2 = false) as [-> ->] by (unfold field_args; by destruct (signed f)).
  rewrite Ey. unfold unchecked, push_cellslice. vm_run. cbn [fst snd]. rewrite push_int_wf by (done || by eapply fits_in257). rewrite push_run.
  autorewrite with vm_state. cbv beta iota. unfold behind, cs. cbn [cs_bits cs_refs Z.to_nat]. rewrite drop_app_length', drop_0 by done.
  rewrite IH; [by rewrite <- app_assoc|]. apply (slice_ok_le cs); [done|cbn [cs cs_bits]; rewrite !length_app; lia|done].
Qed.

(** ** Through a cell *)

(** The machine when a cell was made, and when one was loaded. *)
Definition created (st : VmState) : VmState :=
  {| stack := stack st; code := code st; core := core_with_gas (consume cell_create_gas_price (gas st)) (core st) |}.
Definition after_load (c : Cell) (st : VmState) : VmState :=
  match register_cell_load (cell_hash c) st with Done (_, st') => st' | _ => st end.

Lemma end_cell_run cb c s st : cell_create (cb_bits cb) (cb_refs cb) false = Some c ->
  exec_builder_to_cell (with_stack st (se_builder cb :: s)) = Done (tt, with_stack (created st) (@se_cell vm_refs c :: s)).
Proof.
  intros Ec. unfold exec_builder_to_cell, pop_builder. vm_run. rewrite check_run. cbn [forallb]. rewrite stack_with, depth_cons.
  destruct (Z.leb_spec 1 (depth s + 1)) as [_|H]; [|pose proof (depth_nonneg s); lia]. cbn [andb].
  rewrite (pop_as_cons as_builder (se_builder cb) cb s) by done. cbv beta iota. unfold finalize_copy, consume_gas. vm_run. rewrite Ec. done.
Qed.
Lemma to_slice_run c bits refs s st : cell_load c = Some (false, bits, refs) ->
  exec_cell_to_slice (with_stack st (@se_cell vm_refs c :: s)) = Done (tt, with_stack (after_load c st) (se_slice {| cs_bits := bits; cs_refs := refs |} :: s)).
Proof.
  intros Ec. unfold exec_cell_to_slice, pop_cell. vm_run. rewrite (@pop_as_cons vm_refs _ as_cell (@se_cell vm_refs c) c s) by done. cbv beta iota.
  unfold load_cell_slice_ref, after_load, register_cell_load, consume_gas. vm_run. rewrite Ec. done.
Qed.

(** C30. Integers stored in the fields of a record come back: [NEWC], a store for each field, [ENDC],
    [CTOS] and a load for each field leave the integers themselves and an empty slice, on the rest
    of the stack as it was, and charge for creating and loading one cell, which holds the
    fields' bits. *)
Theorem record_roundtrip fs xs s st c : Forall2 fits_field fs xs -> Z.of_nat (length (record_bits fs xs)) <= 1023 ->
  stack st = map se_int xs ++ s -> cell_create (record_bits fs xs) [] false = Some c ->
  exists st', through_cell fs st = Done (tt, st') /\ stack st' = se_slice {| cs_bits := []; cs_refs := [] |} :: rev (map se_int xs) ++ s /\
    code st' = code st /\ core st' = core (after_load c (created st)).
Proof.
  intros F Hl Es Ec. unfold through_cell, exec_new_builder, push_builder. vm_run. rewrite push_run, Es. cbv beta iota.
  set (cb := {| cb_bits := []; cb_refs := [] |}). assert (builder_ok cb) as Hcb by (split; [done|cbn; unfold max_refs; lia]).
  rewrite (store_record_run fs xs cb s st F Hcb) by (unfold cb_size, cb; cbn [cb_bits length]; lia). cbv beta iota.
  rewrite (end_cell_run (more (record_bits fs xs) [] cb) c s st Ec). cbv beta iota.
  rewrite (to_slice_run c (record_bits fs xs) [] s (created st)) by (by apply create_load in Ec). cbv beta iota.
  pose proof (load_record_run fs xs [] [] s (after_load c (created st)) F) as L. cbv zeta in L. rewrite app_nil_r in L.
  eexists. split; [apply L; split; [done|cbn; unfold max_refs; lia]|]. done.
Qed.

(** ** Loading integers *)

Lemma int_value_in257 sgnd l : Z.of_nat (length l) <= 256 + Z.b2z sgnd -> in257 (int_value sgnd l).
Proof.
  intros Hl. unfold int_value, in257. pose proof (bits_value_range l) as R. destruct sgnd; cbn [andb Z.b2z] in *.
  - destruct l as [|b l]; [cbn; lia|]. cbn [head default from_option id length] in *. rewrite pow2_S in *.
    pose proof (bits_value_range l) as R'. pose proof (Z.pow_le_mono_r 2 (Z.of_nat (length l)) 256 ltac:(lia) ltac:(lia)).
    change (b :: l) with ([b] ++ l) in *. rewrite bits_value_app in *. destruct b; cbn [bits_value fold_left Z.b2z] in *; lia.
  - pose proof (Z.pow_le_mono_r 2 (Z.of_nat (length l)) 256 ltac:(lia) ltac:(lia)). lia.
Qed.

(** C32. [LDI], [LDU] and their variants push the integer whose two's complement bits (or whose binary digits) come first in
    the slice, and the rest of the slice unless it is a preload; where the slice is too short, they throw
    a cell underflow, or answer 0 above the slice (which a preload drops). *)
Theorem load_int_exact bits mode cs s st : let sgnd := negb (Z.testbit mode 0) in let preload := Z.testbit mode 1 in
  let quiet := Z.testbit mode 2 in 0 <= bits <= 256 + Z.b2z sgnd -> slice_ok cs ->
  match exec_load_int_common bits mode (with_stack st (se_slice cs :: s)) with
  | Done (_, st') => exists x, stack st' =
      (if have bits cs
       then (if quiet then [se_int [-1]] else []) ++ (if preload then [se_int x] else [se_slice (behind bits 0 cs); se_int x])
       else se_int [0] :: (if preload then [] else [se_slice cs])) ++ s /\
      core st' = core st /\ (have bits cs || quiet = true) /\
      (have bits cs = true -> vm_int x /\ value_of x = Some (int_value sgnd (first_bits bits cs)))
  | Throw e k => have bits cs = false /\ quiet = false /\ e = cell_und /\ k = core st
  | _ => False
  end.
Proof.
  cbv zeta. intros Hb Hcs. unfold exec_load_int_common, pop_cellslice. unfold mbind at 1, vm_bind at 1.
  rewrite (pop_as_cons as_slice (se_slice cs) cs s) by done. cbv beta iota zeta. set (sgnd := negb (Z.testbit mode 0)) in *.
  assert (0 <= bits <= 257) as Hb257 by (destruct sgnd; cbn in Hb; lia). unfold push_smallint. rewrite !make_refint_small by (unfold in_range, Half; lia).
  destruct (have bits cs) eqn:Eh; cbn [negb]; cbv iota.
  - destruct (fetch_int256_value bits sgnd cs Hcs Hb257 Eh) as (x & Ey & Hw & Vx).
    assert (prefetch_int256 bits sgnd cs = Some x) as Ep.
    { revert Ey. unfold fetch_int256. destruct (prefetch_int256 bits sgnd cs); [|done]. by intros [= ->]. }
    assert (in257 (value x)) as Hv by (rewrite Vx; apply int_value_in257; rewrite length_first by (done || lia); lia).
    rewrite Ey, Ep. unfold unchecked, push_cellslice.
    destruct (Z.testbit mode 1), (Z.testbit mode 2); vm_run; cbn [fst snd]; rewrite push_int_wf by done; cbv beta iota; rewrite ?push_run; cbv beta iota; rewrite ?push_run;
      cbv beta iota; exists x; autorewrite with vm_state; (split; [done|]; split; [done|]; split; [done|]; intros _; split; [by right|]; by rewrite (value_of_wf word_cnt), Vx).
  - destruct (Z.testbit mode 2); cbn [negb]; cbv iota; [|done].
    destruct (Z.testbit mode 1); vm_run; unfold push_cellslice; cbn [negb]; cbv iota; rewrite push_run; cbv beta iota; rewrite ?push_run;
      cbv beta iota; exists []; autorewrite with vm_state; done.
Qed.

(** ** Parts of slices *)

Lemma pop_small_run max n s st : 0 <= n <= max -> max < 2 ^ 31 ->
  pop_smallint_range max 0 (with_stack st (se_int [n] :: s)) = Done (n, with_stack st s).
Proof.
  intros Hn Hm. rewrite pop_smallint_run. unfold small_arg. rewrite stack_with. cbn [as_int].
  assert (to_long_any [n] = n) as ->.
  { pose proof (to_long_value [n] (proj1 (wf_small n ltac:(unfold in_range, Half; lia)))) as T. rewrite value_one in T. rewrite T.
    destruct (decide _) as [_|H]; [done|]. exfalso. lia. }
  destruct (Z.ltb_spec max n); [lia|]. destruct (Z.ltb_spec n 0); [lia|]. cbn [orb]. by rewrite wraps_small by lia.
Qed.

(** C33. [SPLIT] gives the two parts of a slice, which together are the slice; when there is too little,
    it throws a cell underflow, or [SPLITQ] answers 0 above the slice. *)
Theorem split_exact quiet bits refs cs s st : 0 <= bits <= 1023 -> 0 <= refs <= 4 -> slice_ok cs ->
  exec_split quiet (with_stack st (se_int [refs] :: se_int [bits] :: se_slice cs :: s)) =
    if (bits <=? cs_size cs) && (refs <=? cs_size_refs cs)
    then Done (tt, with_stack st ((if quiet then [se_int [-1]] else []) ++
           [se_slice {| cs_bits := drop (Z.to_nat bits) (cs_bits cs); cs_refs := drop (Z.to_nat refs) (cs_refs cs) |};
            se_slice {| cs_bits := take (Z.to_nat bits) (cs_bits cs); cs_refs := take (Z.to_nat refs) (cs_refs cs) |}] ++ s))
    else if quiet then Done (tt, with_stack st (se_int [0] :: se_slice cs :: s)) else Throw cell_und (core st).
Proof.
  intros Hb Hr Hcs. unfold exec_split. unfold mbind at 1, vm_bind at 1. rewrite check_run. cbn [forallb]. rewrite stack_with, !depth_cons.
  pose proof (depth_nonneg s). destruct (Z.leb_spec 3 (depth s + 1 + 1 + 1)); [|lia]. cbn [andb]. unfold pop_cellslice. vm_run.
  rewrite pop_small_run by lia. cbv beta iota. rewrite pop_small_run by lia. cbv beta iota.
  rewrite (pop_as_cons as_slice (se_slice cs) cs s) by done. cbv beta iota. fold (cs_size cs).
  unfold have, have_refs, only_first, prefetch_subslice, skip_first, have, have_refs. fold (cs_size cs) (cs_size_refs cs).
  destruct (bits <=? cs_size cs); cbn [andb orb negb]; cbv iota.
  - destruct (refs <=? cs_size_refs cs); cbn [negb]; cbv iota; unfold push_cellslice, push_smallint; rewrite ?make_refint_small by (unfold in_range, Half; lia).
    + cbn [default from_option id]. rewrite push_run. cbv beta iota. rewrite push_run. cbv beta iota. destruct quiet; [rewrite push_run|]; autorewrite with vm_state; done.
    + destruct quiet; [|done]. cbn [negb]. cbv iota. rewrite push_run. cbv beta iota. rewrite push_run. by autorewrite with vm_state.
  - unfold push_cellslice, push_smallint; rewrite ?make_refint_small by (unfold in_range, Half; lia).
    destruct quiet; [|done]. cbn [negb]. cbv iota. rewrite push_run. cbv beta iota. rewrite push_run. by autorewrite with vm_state.
Qed.

(** ** Comparing slices *)

Lemma bin_cmp_run f cs1 cs2 s st : exec_bin_cs_cmp f (with_stack st (se_slice cs2 :: se_slice cs1 :: s)) = Done (tt, with_stack st (se_int [truth (f cs1 cs2)] :: s)).
Proof.
  unfold exec_bin_cs_cmp, pop_cellslice, push_smallint. vm_run. rewrite check_run. cbn [forallb]. rewrite stack_with, !depth_cons.
  pose proof (depth_nonneg s). destruct (Z.leb_spec 2 (depth s + 1 + 1)); [|lia]. cbn [andb].
  rewrite (pop_as_cons as_slice (se_slice cs2) cs2 (se_slice cs1 :: s)) by done. cbv beta iota.
  rewrite (pop_as_cons as_slice (se_slice cs1) cs1 s) by done. cbv beta iota.
  rewrite make_refint_small by (unfold in_range, Half; destruct (f cs1 cs2); cbn; lia). rewrite push_run. by autorewrite with vm_state.
Qed.
Lemma ibin_cmp_run f cs1 cs2 s st : in_range (f cs1 cs2) ->
  exec_ibin_cs_cmp f (with_stack st (se_slice cs2 :: se_slice cs1 :: s)) = Done (tt, with_stack st (se_int [f cs1 cs2] :: s)).
Proof.
  intros Hf. unfold exec_ibin_cs_cmp, pop_cellslice, push_smallint. vm_run. rewrite check_run. cbn [forallb]. rewrite stack_with, !depth_cons.
  pose proof (depth_nonneg s). destruct (Z.leb_spec 2 (depth s + 1 + 1)); [|lia]. cbn [andb].
  rewrite (pop_as_cons as_slice (se_slice cs2) cs2 (se_slice cs1 :: s)) by done. cbv beta iota.
  rewrite (pop_as_cons as_slice (se_slice cs1) cs1 s) by done. cbv beta iota. rewrite make_refint_small, push_run by done. by autorewrite with vm_state.
Qed.

Lemma decides (b : bool) (P : Prop) `{Decision P} : (b = true <-> P) -> b = bool_decide P.
Proof. intros E. destruct b; symmetry; [by apply bool_decide_eq_true, E|apply bool_decide_eq_false; naive_solver]. Qed.

Lemma prefix_decides cs1 cs2 : is_prefix_of cs1 cs2 = bool_decide (cs_bits cs1 `prefix_of` cs_bits cs2).
Proof.
  apply decides. unfold is_prefix_of, cs_size. rewrite andb_true_iff, Z.leb_le, Z.eqb_eq. split.
  - intros [Hl Hc]. by apply compare_prefix; [lia|].
  - intros H. pose proof (prefix_length _ _ H). split; [lia|]. by apply compare_prefix.
Qed.
Lemma proper_prefix_decides cs1 cs2 : is_proper_prefix_of cs1 cs2 = bool_decide (cs_bits cs1 `prefix_of` cs_bits cs2 /\ cs_bits cs1 <> cs_bits cs2).
Proof.
  apply decides. unfold is_proper_prefix_of, cs_size. rewrite andb_true_iff, Z.ltb_lt, Z.eqb_eq. split.
  - intros [Hl Hc]. split; [by apply compare_prefix; [lia|]|]. intros E. rewrite E in Hl. lia.
  - intros [H Hne]. pose proof (prefix_length _ _ H). split; [|by apply compare_prefix].
    destruct (decide (length (cs_bits cs2) <= length (cs_bits cs1))%nat); [|lia]. by apply (prefix_length_eq _ _ H) in l.
Qed.
Lemma last_bits_suffix cs1 cs2 : last_bits (cs_size cs1) cs2 = drop (length (cs_bits cs2) - length (cs_bits cs1)) (cs_bits cs2).
Proof. unfold last_bits, cs_size. f_equal. lia. Qed.
Lemma suffix_decides cs1 cs2 : is_suffix_of cs1 cs2 = bool_decide (cs_bits cs1 `suffix_of` cs_bits cs2).
Proof.
  apply decides. unfold is_suffix_of. rewrite last_bits_suffix, andb_true_iff, Z.leb_le, Z.eqb_eq. unfold cs_size. split.
  - intros [Hl Hc]. by apply compare_suffix; [lia|].
  - intros H. pose proof (suffix_length _ _ H). split; [lia|]. by apply compare_suffix.
Qed.
Lemma proper_suffix_decides cs1 cs2 : is_proper_suffix_of cs1 cs2 = bool_decide (cs_bits cs1 `suffix_of` cs_bits cs2 /\ cs_bits cs1 <> cs_bits cs2).
Proof.
  apply decides. unfold is_proper_suffix_of. rewrite last_bits_suffix, andb_true_iff, Z.ltb_lt, Z.eqb_eq. unfold cs_size. split.
  - intros [Hl Hc]. split; [by apply compare_suffix; [lia|]|]. intros E. rewrite E in Hl. lia.
  - intros [H Hne]. pose proof (suffix_length _ _ H). split; [|by apply compare_suffix].
    destruct (decide (length (cs_bits cs2) <= length (cs_bits cs1))%nat) as [Hle|]; [|lia]. destruct H as [k E]. rewrite E, length_app in Hle.
    destruct k; [done|cbn in Hle; lia].
Qed.

(** C34. The comparisons of slices answer for the strings of their bits, whatever their references:
    [SDEQ] for equality, [SDPFX] and [SDSFX] for the beginning and the end, [SDPPFX] and [SDPSFX] for proper
    ones, and [SDLEXCMP] for the lexicographic order. *)
Theorem slice_compare_exact cs1 cs2 s st : let l1 := cs_bits cs1 in let l2 := cs_bits cs2 in
  let operands := with_stack st (se_slice cs2 :: se_slice cs1 :: s) in
  let pushed r := Done (tt, with_stack st (se_int [r] :: s)) in
  exec_bin_cs_cmp (fun cs1 cs2 => lex_cmp cs1 cs2 =? 0) operands = pushed (truth (bool_decide (l1 = l2))) /\
  exec_bin_cs_cmp is_prefix_of operands = pushed (truth (bool_decide (l1 `prefix_of` l2))) /\
  exec_bin_cs_cmp is_proper_prefix_of operands = pushed (truth (bool_decide (l1 `prefix_of` l2 /\ l1 <> l2))) /\
  exec_bin_cs_cmp is_suffix_of operands = pushed (truth (bool_decide (l1 `suffix_of` l2))) /\
  exec_bin_cs_cmp is_proper_suffix_of operands = pushed (truth (bool_decide (l1 `suffix_of` l2 /\ l1 <> l2))) /\
  exists r, exec_ibin_cs_cmp lex_cmp operands = pushed r /\ (r = -1 <-> lex_lt l1 l2) /\ (r = 0 <-> l1 = l2) /\ (r = 1 <-> lex_lt l2 l1).
Proof.
  cbv zeta. pose proof (lex_bits_spec (cs_bits cs1) (cs_bits cs2)) as (L1 & L2 & L3). pose proof (lex_bits_range (cs_bits cs1) (cs_bits cs2)) as R.
  rewrite !bin_cmp_run, ibin_cmp_run by (unfold in_range, Half, lex_cmp; lia).
  rewrite prefix_decides, proper_prefix_decides, suffix_decides, proper_suffix_decides.
  assert ((lex_cmp cs1 cs2 =? 0) = bool_decide (cs_bits cs1 = cs_bits cs2)) as ->.
  { apply decides. rewrite Z.eqb_eq. exact L2. }
  do 5 (split; [done|]). exists (lex_cmp cs1 cs2). done.
Qed.

End CellTheorems.

(** ** The theorems at work *)

Definition cells_state (s : list (@StackEntry (@vm_refs tree_cells))) : @VmState (@vm_refs tree_cells) :=
  {| stack := s; code := Some (hex 2 0xd0); core := {| core_gas := some_gas 1000; cr := empty_regs; cp := 0; loaded_cells := []; cstate := None; steps := 0 |} |}.

(** A builder with 1020 bits, and one with a bit. *)
Definition long_builder : @CellBuilder (@vm_refs tree_cells) := {| cb_bits := replicate 1020 true; cb_refs := [] |}.
Definition short_builder : @CellBuilder (@vm_refs tree_cells) := {| cb_bits := [true]; cb_refs := [] |}.

Lemma stored_small n : in_range n -> in257 n -> vm_int [n].
Proof. intros Hr Hv. right. split; [by apply wf_small|by rewrite value_one]. Qed.

Lemma store_int_exact_witness :
  exec_store_int_common 8 0 (with_stack (cells_state []) [se_builder short_builder; se_int [-5]]) =
    Done (tt, with_stack (cells_state []) [se_builder {| cb_bits := true :: bits_of 8 (-5); cb_refs := [] |}]) /\
  exec_store_int_common 8 4 (with_stack (cells_state []) [se_builder long_builder; se_int [-5]]) =
    Done (tt, with_stack (cells_state []) [se_int [-1]; se_builder long_builder; se_int [-5]]) /\
  exec_store_int_common 8 3 (with_stack (cells_state []) [se_int [-5]; se_builder short_builder]) = Throw range_chk (core (cells_state [])).
Proof.
  assert (vm_int [-5]) as Hx by (apply stored_small; [unfold in_range, Half; lia|unfold in257; lia]).
  assert (builder_ok short_builder) as Hs by (split; vm_compute; discriminate).
  assert (builder_ok long_builder) as Hl by (split; vm_compute; discriminate).
  split; [exact (store_int_exact 8 0 short_builder [-5] [] (cells_state []) ltac:(lia) Hs Hx)|].
  split; [exact (store_int_exact 8 4 long_builder [-5] [] (cells_state []) ltac:(lia) Hl Hx)|].
  exact (store_int_exact 8 3 short_builder [-5] [] (cells_state []) ltac:(lia) Hs Hx).
Defined.

Definition three_fields : list Field := [{| width := 8; signed := true |}; {| width := 20; signed := false |}; {| width := 257; signed := true |}].
Definition three_ints : list digits := [[-100]; [1000000]; [5; -7; 3]].

Lemma record_roundtrip_witness : exists st', through_cell three_fields (cells_state (map se_int three_ints ++ [se_null])) = Done (tt, st') /\
  stack st' = [se_slice {| cs_bits := []; cs_refs := [] |}; se_int [5; -7; 3]; se_int [1000000]; se_int [-100]; se_null] /\
  gas_remaining (gas st') = 400.
Proof.
  assert (Forall2 fits_field three_fields three_ints) as F.
  { repeat constructor; try (vm_compute; congruence); try (unfold word_cnt; lia); first [by left | right; vm_compute; discriminate]. }
  destruct (record_roundtrip three_fields three_ints [se_null] (cells_state (map se_int three_ints ++ [se_null]))
    (node false (record_bits three_fields three_ints) []) F ltac:(vm_compute; discriminate) eq_refl ltac:(vm_compute; reflexivity)) as (st' & E & Es & _ & Ek).
  exists st'. split; [exact E|]. split; [exact Es|]. unfold gas. rewrite Ek. vm_compute. reflexivity.
Defined.

Lemma load_int_exact_witness : exists st', exec_load_int_common 4 0 (with_stack (cells_state []) [se_slice (hex 2 0xd5)]) = Done (tt, st') /\
  exists x, stack st' = [se_slice (behind 4 0 (hex 2 0xd5)); se_int x] /\ value_of x = Some (-3).
Proof.
  pose proof (load_int_exact 4 0 (hex 2 0xd5) [] (cells_state [])) as L. cbv zeta in L.
  specialize (L ltac:(cbn; lia) ltac:(split; vm_compute; discriminate)).
  destruct (exec_load_int_common 4 0 _) as [[[] st']| | |] eqn:E; [|exfalso; destruct L as [L _]; vm_compute in L; discriminate|destruct L|destruct L].
  exists st'. split; [reflexivity|]. destruct L as (x & Es & _ & _ & V). exists x. split; [exact Es|]. exact (proj2 (V eq_refl)).
Defined.

Lemma split_exact_witness :
  exec_split false (with_stack (cells_state []) [se_int [0]; se_int [4]; se_slice (hex 2 0xd5)]) =
    Done (tt, with_stack (cells_state []) [se_slice (hex 1 0x5); se_slice (hex 1 0xd)]) /\
  exec_split true (with_stack (cells_state []) [se_int [1]; se_int [4]; se_slice (hex 2 0xd5)]) =
    Done (tt, with_stack (cells_state []) [se_int [0]; se_slice (hex 2 0xd5)]).
Proof.
  assert (slice_ok (hex 2 0xd5)) as Hs by (split; vm_compute; discriminate).
  split; [exact (split_exact false 4 0 (hex 2 0xd5) [] (cells_state []) ltac:(lia) ltac:(lia) Hs)|].
  exact (split_exact true 4 1 (hex 2 0xd5) [] (cells_state []) ltac:(lia) ltac:(lia) Hs).
Defined.
