(* ===== verification/ContTypes.v ===== *)
(** * What continuations and registers may hold

    The invariant of MachineTypes continued into the machine's continuations: the stacks, the
    registers and the tuples that they save hold 257-bit integers, tuples of at most 255
    entries and continuations of the same kind.  The [height] of a continuation is the number
    of jumps that a jump to it may go through. *)
From S2P Require Import Prelude BigInt BigIntOps BigIntShift BigIntLog RefInt Stack OpTable StackOps ArithOps ArithSpec TupleOps TupleSpec MachineTypes MachineKeeps Continuation.

Section ContTypes.
Context `{CS : CellSystem}.

Fixpoint height (c : Cont) : nat :=
  match c with
  | QuitCont _ | ExcQuitCont | OrdCont _ _ => O
  | PushIntCont _ next => S (height next)
  | RepeatCont body after _ | UntilCont body after => S (Nat.max (height body) (height after))
  | AgainCont body => S (height body)
  | WhileCont cond body after _ => S (Nat.max (height cond) (Nat.max (height body) (height after)))
  | ArgContExt _ ext => S (height ext)
  end.

(** A continuation of height at most [H], all through.  Quitting with the code -1 would look
    like going on, and a number that is pushed is an [int]. *)
Inductive cont_wf (H : nat) : Cont -> Prop :=
| wf_quit n : n <> -1 -> cont_wf H (QuitCont n)
| wf_exc_quit : cont_wf H ExcQuitCont
| wf_push_int v next : in_range v -> cont_wf H next -> (height (PushIntCont v next) <= H)%nat -> cont_wf H (PushIntCont v next)
| wf_repeat body after count : cont_wf H body -> cont_wf H after -> (height (RepeatCont body after count) <= H)%nat ->
    cont_wf H (RepeatCont body after count)
| wf_again body : cont_wf H body -> (height (AgainCont body) <= H)%nat -> cont_wf H (AgainCont body)
| wf_until body after : cont_wf H body -> cont_wf H after -> (height (UntilCont body after) <= H)%nat ->
    cont_wf H (UntilCont body after)
| wf_while cond body after chk : cont_wf H cond -> cont_wf H body -> cont_wf H after ->
    (height (WhileCont cond body after chk) <= H)%nat -> cont_wf H (WhileCont cond body after chk)
| wf_ext data ext : data_wf H data -> cont_wf H ext -> (height (ArgContExt data ext) <= H)%nat -> cont_wf H (ArgContExt data ext)
| wf_ord data code : data_wf H data -> slice_ok code -> cont_wf H (OrdCont data code)
with data_wf (H : nat) : ControlData -> Prop :=
| wf_data data :
    (forall s, cd_stack data = Some s -> Forall (@entry_ok vm_refs (cont_wf H)) s) ->
    (forall i c, get_c i (save data) = Some c -> cont_wf H c) ->
    (forall t, c7 (save data) = Some t -> tuple_size t <= 255 /\ Forall (@entry_ok vm_refs (cont_wf H)) t) ->
    data_wf H data.

(** ** A greater height *)

Definition entry_mono (P Q : @ContOk vm_refs) (f : forall c, P c -> Q c) : forall e, @entry_ok _ P e -> @entry_ok _ Q e :=
  fix em e (h : @entry_ok _ P e) : @entry_ok _ Q e :=
    match h with
    | ok_int x p => @ok_int _ Q x p
    | ok_tuple t l F =>
        @ok_tuple _ Q t l
          ((fix all t (F : Forall (@entry_ok _ P) t) : Forall (@entry_ok _ Q) t :=
              match F with
              | List.Forall_nil _ => List.Forall_nil _
              | @List.Forall_cons _ _ x t' p F' => @List.Forall_cons _ _ x t' (em x p) (all t' F')
              end) t F)
    | ok_cont c p => @ok_cont _ Q c (f c p)
    | ok_slice c p => @ok_slice _ Q c p
    | ok_builder c p => @ok_builder _ Q c p
    | ok_other e a b c d f => @ok_other _ Q e a b c d f
    end.
Definition entries_mono (P Q : @ContOk vm_refs) (f : forall c, P c -> Q c) :
    forall t, Forall (@entry_ok _ P) t -> Forall (@entry_ok _ Q) t :=
  fix all t (F : Forall (@entry_ok _ P) t) : Forall (@entry_ok _ Q) t :=
    match F with
    | List.Forall_nil _ => List.Forall_nil _
    | @List.Forall_cons _ _ x t' p F' => @List.Forall_cons _ _ x t' (entry_mono P Q f x p) (all t' F')
    end.

Section Mono.
Context (H H' : nat) (Hle : (H <= H')%nat).

Fixpoint cont_mono (c : Cont) (h : cont_wf H c) {struct h} : cont_wf H' c
with data_mono (d : ControlData) (h : data_wf H d) {struct h} : data_wf H' d.
Proof.
  - destruct h as [n p| |v next p w q|body after count w1 w2 q|body w q|body after w1 w2 q|cond body after chk w1 w2 w3 q|data ext w1 w2 q|data cs w sl];
      [apply wf_quit|apply wf_exc_quit|apply wf_push_int|apply wf_repeat|apply wf_again|apply wf_until|apply wf_while|apply wf_ext|apply wf_ord];
      first [assumption | exact (Nat.le_trans _ _ _ q Hle) | apply cont_mono; assumption | apply data_mono; assumption].
  - destruct h as [data ws wr wt]. apply wf_data.
    + intros s E. exact (entries_mono _ _ cont_mono s (ws s E)).
    + intros i c E. exact (cont_mono c (wr i c E)).
    + intros t E. destruct (wt t E) as [l F]. exact (conj l (entries_mono _ _ cont_mono t F)).
Qed.

End Mono.

(** ** The machine *)

Abbreviation entries_ok H := (Forall (@entry_ok vm_refs (cont_wf H))).

(** Registers whose contents are well-formed; between instructions none of them is empty. *)
Definition regs_sound (H : nat) (r : ControlRegs) : Prop :=
  (forall i c, get_c i r = Some c -> cont_wf H c) /\ (forall t, c7 r = Some t -> tuple_size t <= 255 /\ entries_ok H t).
Definition regs_full (r : ControlRegs) : Prop :=
  is_Some (c0 r) /\ is_Some (c1 r) /\ is_Some (c2 r) /\ is_Some (c3 r) /\ is_Some (d0 r) /\ is_Some (d1 r) /\ is_Some (c7 r).
Definition core_wf (H : nat) (k : VmCore) : Prop := regs_full (cr k) /\ regs_sound H (cr k) /\ get_table (cp k) = true.

(** [b] says whether there must be code. *)
Definition sound (b : bool) (H : nat) (st : VmState) : Prop :=
  entries_ok H (stack st) /\ core_wf H (core st) /\ code_ok b (code st).

Lemma entries_raise H H' t : (H <= H')%nat -> entries_ok H t -> entries_ok H' t.
Proof. intros Hle. apply entries_mono. by apply cont_mono. Qed.
Lemma entry_raise H H' e : (H <= H')%nat -> @entry_ok vm_refs (cont_wf H) e -> @entry_ok vm_refs (cont_wf H') e.
Proof. intros Hle. apply entry_mono. by apply cont_mono. Qed.
Lemma regs_raise H H' r : (H <= H')%nat -> regs_sound H r -> regs_sound H' r.
Proof.
  intros Hle [Hc Ht]. split.
  - intros i c E. eapply cont_mono; [done|by eapply Hc].
  - intros t E. destruct (Ht t E). split; [done|]. by eapply entries_raise.
Qed.
Lemma core_raise H H' k : (H <= H')%nat -> core_wf H k -> core_wf H' k.
Proof. intros Hle (? & ? & ?). split; [done|]. split; [by eapply regs_raise|done]. Qed.
Lemma sound_raise b H H' st : (H <= H')%nat -> sound b H st -> sound b H' st.
Proof. intros Hle (? & ? & ?). split; [by eapply entries_raise|]. split; [by eapply core_raise|done]. Qed.

(** ** Operations on the whole machine *)

(** What comes out: a value with [P] and a sound state, with code if [b] says so for the value, or
    an exception of the instruction set; with at most [n] charges since [g]. *)
Definition outcome_ok {A} (H n : nat) (P : A -> Prop) (b : A -> bool) (g : GasLimits) (o : outcome (A * VmState)) : Prop :=
  match o with
  | Done (a, st) => P a /\ sound (b a) H st /\ charges 0 n g (gas st)
  | Throw e k => thrown e = true /\ core_wf H k /\ charges 0 n g (core_gas k)
  | NoGas k => True
  | Undefined => False
  end.
Definition ctl {A} (b : bool) (H H' n : nat) (P : A -> Prop) (b' : A -> bool) (m : VM A) : Prop :=
  forall st, sound b H st -> outcome_ok H' n P b' (gas st) (m st).

Abbreviation any := (fun _ => True).

Lemma code_ok_weaken b b' o : code_ok b o -> (b' = true -> b = true) -> code_ok b' o.
Proof. destruct o as [cs|]; [done|]. cbn. intros ->. destruct b'; [intros E; by discriminate E|done]. Qed.

Lemma outcome_weaken {A} H n n' P Q b b' g (o : outcome (A * VmState)) : outcome_ok H n P b g o -> (n <= n')%nat ->
  (forall a, P a -> Q a) -> (forall a, P a -> b' a = true -> b a = true) -> outcome_ok H n' Q b' g o.
Proof.
  intros Ho Hn Hq Hb. assert (forall g', charges 0 n g g' -> charges 0 n' g g') as W by (intros; by eapply charges_weaken).
  destruct o as [[a st]|e k|k|]; [|destruct Ho as (? & ? & ?); split; [done|split; [done|by apply W]]|done|done].
  destruct Ho as (Ha & (? & ? & Hc) & ?). split; [by apply Hq|]. split; [|by apply W]. split; [done|]. split; [done|].
  apply (code_ok_weaken (b a)); [done|]. by apply Hb.
Qed.

Lemma outcome_bind {A B} H1 H2 n1 n2 (P : A -> Prop) (Q : B -> Prop) b1 b2 g o (k : A -> VM B) : (H1 <= H2)%nat ->
  outcome_ok H1 n1 P b1 g o -> (forall a, P a -> ctl (b1 a) H1 H2 n2 Q b2 (k a)) ->
  outcome_ok H2 (n1 + n2) Q b2 g (match o with Done (a, st') => k a st' | Throw e k => Throw e k | NoGas k => NoGas k | Undefined => Undefined end).
Proof.
  intros Hle Ho Hk. destruct o as [[a st]|e c|c|]; [| |done|done].
  - destruct Ho as (Ha & Hs & Hc). specialize (Hk a Ha st Hs). destruct (k a st) as [[x st2]|e c|c|]; [| |done|done].
    + destruct Hk as (? & ? & C). split; [done|]. split; [done|]. exact (charges_trans _ _ _ _ _ _ _ Hc C).
    + destruct Hk as (? & ? & C). split; [done|]. split; [done|]. exact (charges_trans _ _ _ _ _ _ _ Hc C).
  - destruct Ho as (? & ? & C). split; [done|]. split; [by eapply core_raise|]. eapply charges_weaken; [exact C|lia|lia].
Qed.

Lemma ctl_seq {A B} b H H1 H2 n1 n2 (P : A -> Prop) (Q : B -> Prop) b1 b2 m k : (H1 <= H2)%nat ->
  ctl b H H1 n1 P b1 m -> (forall a, P a -> ctl (b1 a) H1 H2 n2 Q b2 (k a)) -> ctl b H H2 (n1 + n2) Q b2 (x ← m; k x).
Proof. intros Hle Hm Hk st Hst. apply (outcome_bind H1 H2 n1 n2 P Q b1 b2 (gas st) (m st) k Hle); [by apply Hm|done]. Qed.

Lemma ctl_raise {A} b H H1 H' n (P : A -> Prop) b' m : (H <= H1)%nat -> ctl b H1 H' n P b' m -> ctl b H H' n P b' m.
Proof. intros Hle Hm st Hst. apply Hm. by eapply sound_raise. Qed.
Lemma ctl_weaken {A} b H H' n n' (P Q : A -> Prop) b1 b2 m : ctl b H H' n P b1 m -> (n <= n')%nat ->
  (forall a, P a -> Q a) -> (forall a, P a -> b2 a = true -> b1 a = true) -> ctl b H H' n' Q b2 m.
Proof. intros Hm Hn Hq Hb st Hst. by eapply outcome_weaken; [apply Hm| | |]. Qed.

(** An operation on data is one on the machine. *)
Lemma ctl_data {A} b H n (P : A -> Prop) m : safe m -> @typed_from vm_refs (cont_wf H) A 0 n P m -> ctl b H H n P (fun _ => b) m.
Proof.
  intros Hs Hm st (Hst & Hc & Hb). specialize (Hs st). specialize (Hm st Hst). destruct (m st) as [[a st']|e k|k|]; [| |done|done].
  - destruct Hm as (Ha & Hst' & (g & C & E) & Hcode). split; [done|]. split.
    + split; [done|]. rewrite E. split; [exact Hc|auto].
    + unfold gas. by rewrite E.
  - destruct Hm as (He & (g & C & ->)). split; [done|]. split; [exact Hc|exact C].
Qed.

End ContTypes.
