(* ===== verification/ContJumps.v ===== *)
(** * Jumps and calls keep the machine sound

    A jump ends at well-formed code, or leaves the machine with an exit code that is not 0,
    and it charges at most once for each continuation that it goes through. *)
From S2P Require Import Prelude BigInt BigIntOps BigIntShift BigIntLog RefInt Stack OpTable StackOps ArithOps ArithSpec TupleOps TupleSpec TupleSafe MachineTypes MachineKeeps Continuation ContTypes.

Section ContJumps.
Context `{CS : CellSystem}.

Abbreviation any := (fun _ => True).
Abbreviation entries_ok H := (Forall (@entry_ok vm_refs (cont_wf H))).
Abbreviation typed_at H := (@typed_from vm_refs (cont_wf H) _ 0).

(** ** Registers *)

Lemma regs_intro H r : (forall c, c0 r = Some c -> cont_wf H c) -> (forall c, c1 r = Some c -> cont_wf H c) ->
  (forall c, c2 r = Some c -> cont_wf H c) -> (forall c, c3 r = Some c -> cont_wf H c) ->
  (forall t, c7 r = Some t -> tuple_size t <= 255 /\ entries_ok H t) -> regs_sound H r.
Proof.
  intros H0 H1 H2 H3 H7. split; [|done]. intros i c. unfold get_c. repeat (destruct (i =? _); [by auto|]). done.
Qed.
Lemma regs_elim H r : regs_sound H r -> (forall c, c0 r = Some c -> cont_wf H c) /\ (forall c, c1 r = Some c -> cont_wf H c) /\
  (forall c, c2 r = Some c -> cont_wf H c) /\ (forall c, c3 r = Some c -> cont_wf H c) /\
  (forall t, c7 r = Some t -> tuple_size t <= 255 /\ entries_ok H t).
Proof. intros [Hc Ht]. split; [exact (Hc 0)|]. split; [exact (Hc 1)|]. split; [exact (Hc 2)|]. split; [exact (Hc 3)|done]. Qed.

Lemma over_some {A} (x s : option A) a : over x s = Some a -> x = Some a \/ s = Some a.
Proof. destruct s; cbn; auto. Qed.
Lemma over_full {A} (x s : option A) : is_Some x -> is_Some (over x s).
Proof. by destruct s. Qed.

Lemma adjust_sound H r s : regs_sound H r -> regs_sound H s -> regs_sound H (regs_adjust r s).
Proof.
  intros (A0 & A1 & A2 & A3 & A7)%regs_elim (B0 & B1 & B2 & B3 & B7)%regs_elim.
  apply regs_intro; intros ? [|]%over_some; auto.
Qed.
Lemma adjust_full r s : regs_full r -> regs_full (regs_adjust r s).
Proof. unfold regs_full. cbn. intuition auto using over_full. Qed.
Lemma adjust_preclear r s : regs_adjust (regs_preclear r s) s = regs_adjust r s.
Proof. unfold regs_adjust, regs_preclear. cbn. f_equal; [destruct (c0 s)|destruct (c1 s)|destruct (c2 s)|destruct (c3 s)|destruct (d0 s)|destruct (d1 s)|destruct (c7 s)]; done. Qed.
Lemma adjust_empty r : regs_adjust r empty_regs = r.
Proof. by destruct r. Qed.
Lemma empty_sound H : regs_sound H empty_regs.
Proof. by apply regs_intro. Qed.

Lemma data_sound H d : data_wf H d -> regs_sound H (save d).
Proof. intros [? _ Hr Ht]. by split. Qed.
Lemma data_stack H d s : data_wf H d -> cd_stack d = Some s -> entries_ok H s.
Proof. intros [? Hs _ _]. apply Hs. Qed.
Lemma data_intro H stk s n cp_ : (forall l, stk = Some l -> entries_ok H l) -> regs_sound H s ->
  data_wf H {| cd_stack := stk; save := s; nargs := n; cd_cp := cp_ |}.
Proof. intros Hs [Hr Ht]. by apply wf_data. Qed.
Lemma cdata_wf H c d : cont_wf H c -> get_cdata c = Some d -> data_wf H d.
Proof. intros [] E; try discriminate E; by injection E as <-. Qed.

(** Setting a register. *)
Lemma set_c0_sound H c r : cont_wf H c -> regs_sound H r -> regs_sound H (set_c0 c r).
Proof. intros Hc (? & ? & ? & ? & ?)%regs_elim. apply regs_intro; cbn; auto. by intros ? [= <-]. Qed.
Lemma set_c1_sound H c r : cont_wf H c -> regs_sound H r -> regs_sound H (set_c1 c r).
Proof. intros Hc (? & ? & ? & ? & ?)%regs_elim. apply regs_intro; cbn; auto. by intros ? [= <-]. Qed.
Lemma set_c2_sound H c r : cont_wf H c -> regs_sound H r -> regs_sound H (set_c2 c r).
Proof. intros Hc (? & ? & ? & ? & ?)%regs_elim. apply regs_intro; cbn; auto. by intros ? [= <-]. Qed.
Lemma set_c3_sound H c r : cont_wf H c -> regs_sound H r -> regs_sound H (set_c3 c r).
Proof. intros Hc (? & ? & ? & ? & ?)%regs_elim. apply regs_intro; cbn; auto. by intros ? [= <-]. Qed.
Lemma set_c7_sound H t r : tuple_size t <= 255 -> entries_ok H t -> regs_sound H r -> regs_sound H (set_c7 t r).
Proof. intros Hl Ht (? & ? & ? & ? & ?)%regs_elim. apply regs_intro; cbn; auto. intros ? [= <-]. by split. Qed.
Lemma set_d_sound H c r : regs_sound H r -> regs_sound H (set_d0 c r) /\ regs_sound H (set_d1 c r).
Proof. intros (? & ? & ? & ? & ?)%regs_elim. split; by apply regs_intro. Qed.

Lemma define_c0_sound H o r : (forall c, o = Some c -> cont_wf H c) -> regs_sound H r -> regs_sound H (define_c0 o r).
Proof. intros Ho Hr. unfold define_c0. destruct (c0 r); [done|]. destruct o as [c|]; [|done]. apply set_c0_sound; auto. Qed.
Lemma define_c1_sound H o r : (forall c, o = Some c -> cont_wf H c) -> regs_sound H r -> regs_sound H (define_c1 o r).
Proof. intros Ho Hr. unfold define_c1. destruct (c1 r); [done|]. destruct o as [c|]; [|done]. apply set_c1_sound; auto. Qed.
Lemma define_c2_sound H o r : (forall c, o = Some c -> cont_wf H c) -> regs_sound H r -> regs_sound H (define_c2 o r).
Proof. intros Ho Hr. unfold define_c2. destruct (c2 r); [done|]. destruct o as [c|]; [|done]. apply set_c2_sound; auto. Qed.

(** ** Simple operations *)

Lemma ctl_bind {A B} b H H' n (P : A -> Prop) (Q : B -> Prop) b1 b2 m k : (H <= H')%nat ->
  ctl b H H 0 P b1 m -> (forall a, P a -> ctl (b1 a) H H' n Q b2 (k a)) -> ctl b H H' n Q b2 (x ← m; k x).
Proof. intros Hle Hm Hk. change n with (0 + n)%nat. by eapply ctl_seq. Qed.
Lemma ctl_charge {A B} b H H' n (P : A -> Prop) (Q : B -> Prop) b1 b2 m k : (H <= H')%nat ->
  ctl b H H 1 P b1 m -> (forall a, P a -> ctl (b1 a) H H' n Q b2 (k a)) -> ctl b H H' (S n) Q b2 (x ← m; k x).
Proof. intros Hle Hm Hk. change (S n) with (1 + n)%nat. by eapply ctl_seq. Qed.

(** An operation that charges nothing. *)
Lemma ctl_free {A} b H (P : A -> Prop) b' (m : VM A) : (forall st, sound b H st ->
    match m st with
    | Done (a, st') => P a /\ sound (b' a) H st' /\ gas st' = gas st
    | Throw e k => thrown e = true /\ k = core st
    | NoGas _ => True | Undefined => False end) -> ctl b H H 0 P b' m.
Proof.
  intros Hm st Hst. specialize (Hm st Hst). destruct (m st) as [[a st']|e k|k|]; [| |done|done].
  - destruct Hm as (? & ? & E). split; [done|]. split; [done|]. rewrite E. apply charges_none.
  - destruct Hm as (? & ->). split; [done|]. split; [apply Hst|apply charges_none].
Qed.

Lemma ctl_ret {A} b H n (P : A -> Prop) a : P a -> ctl b H H n P (fun _ => b) (mret a).
Proof.
  intros Ha. eapply ctl_weaken; [apply (ctl_free b H P (fun _ => b)); intros st Hst; by split|lia|done|done].
Qed.
Lemma ctl_zero H n : ctl true H H n any (fun z => z =? 0) (mret 0).
Proof. apply (ctl_weaken true H H n n any any (fun _ => true)); [by apply ctl_ret|done..]. Qed.
Lemma ctl_throw {A} b H H' n (P : A -> Prop) b' e : thrown e = true -> (H <= H')%nat -> ctl b H H' n P b' (throw e).
Proof.
  intros He Hle st Hst. split; [done|]. split; [by eapply core_raise; [|apply Hst]|].
  eapply charges_weaken; [apply charges_none|lia|lia].
Qed.
Lemma ctl_if {A} (c : bool) b H H' n (P : A -> Prop) b' m1 m2 : ctl b H H' n P b' m1 -> ctl b H H' n P b' m2 ->
  ctl b H H' n P b' (if c then m1 else m2).
Proof. by destruct c. Qed.
Lemma ctl_guard b H c e : thrown e = true -> ctl b H H 0 any (fun _ => b) (guard_vm c e).
Proof. intros He. destruct c; [by apply ctl_ret|by apply ctl_throw]. Qed.

Lemma ctl_get_cr b H : ctl b H H 0 (fun r => regs_full r /\ regs_sound H r) (fun _ => b) get_cr.
Proof. apply ctl_free. intros st Hst. split; [|done]. destruct Hst as (_ & (? & ? & _) & _). done. Qed.
Lemma ctl_get_cp b H : ctl b H H 0 (fun c => get_table c = true) (fun _ => b) get_cp.
Proof. apply ctl_free. intros st Hst. split; [|done]. apply Hst. Qed.
Lemma ctl_set_cr b H r : regs_full r -> regs_sound H r -> ctl b H H 0 any (fun _ => b) (set_cr r).
Proof. intros Hf Hr. apply ctl_free. intros st (? & (_ & _ & ?) & ?). done. Qed.
Lemma ctl_update b H f : (forall r, regs_full r -> regs_sound H r -> regs_full (f r) /\ regs_sound H (f r)) ->
  ctl b H H 0 any (fun _ => b) (update_cr f).
Proof. intros Hf. apply ctl_free. intros st (? & (F & S & ?) & ?). destruct (Hf _ F S). done. Qed.

Lemma ctl_set_c0 b H c : cont_wf H c -> ctl b H H 0 any (fun _ => b) (update_cr (set_c0 c)).
Proof. intros Hc. apply ctl_update. intros r F S. split; [|by apply set_c0_sound]. unfold regs_full in *. cbn. intuition. Qed.
Lemma ctl_set_c1 b H c : cont_wf H c -> ctl b H H 0 any (fun _ => b) (update_cr (set_c1 c)).
Proof. intros Hc. apply ctl_update. intros r F S. split; [|by apply set_c1_sound]. unfold regs_full in *. cbn. intuition. Qed.
Lemma ctl_set_c2 b H c : cont_wf H c -> ctl b H H 0 any (fun _ => b) (update_cr (set_c2 c)).
Proof. intros Hc. apply ctl_update. intros r F S. split; [|by apply set_c2_sound]. unfold regs_full in *. cbn. intuition. Qed.

(** The registers are never empty. *)
Lemma ctl_deref {A} b H (P : A -> Prop) f : (forall r, regs_full r -> regs_sound H r -> exists a, f r = Some a /\ P a) ->
  ctl b H H 0 P (fun _ => b) (r ← get_cr; deref (f r)).
Proof.
  intros Hf. apply ctl_free. intros st Hst. destruct Hst as (? & (F & S & ?) & ?) eqn:E. destruct (Hf _ F S) as (a & Ea & Pa).
  vm_run. unfold get_cr. cbv beta iota. rewrite Ea. unfold deref. vm_run. done.
Qed.
Lemma ctl_get_c0 b H : ctl b H H 0 (cont_wf H) (fun _ => b) get_c0.
Proof. apply ctl_deref. intros r ([c E] & _) (S & _)%regs_elim. eauto. Qed.
Lemma ctl_get_c1 b H : ctl b H H 0 (cont_wf H) (fun _ => b) get_c1.
Proof. apply ctl_deref. intros r (_ & [c E] & _) (_ & S & _)%regs_elim. eauto. Qed.
Lemma ctl_get_c2 b H : ctl b H H 0 (cont_wf H) (fun _ => b) get_c2.
Proof. apply ctl_deref. intros r (_ & _ & [c E] & _) (_ & _ & S & _)%regs_elim. eauto. Qed.
Lemma ctl_get_c3 b H : ctl b H H 0 (cont_wf H) (fun _ => b) get_c3.
Proof. apply ctl_deref. intros r (_ & _ & _ & [c E] & _) (_ & _ & _ & S & _)%regs_elim. eauto. Qed.

Lemma ctl_set_stack b H s : entries_ok H s -> ctl b H H 0 any (fun _ => b) (set_stack s).
Proof. intros Hs. apply ctl_free. intros st (? & ? & ?). done. Qed.
Lemma ctl_put_code b H cs : slice_ok cs -> ctl b H H 0 any (fun _ => true) (put_code (Some cs)).
Proof. intros Hcs. apply ctl_free. intros st (? & ? & ?). split; [done|]. split; [|done]. split; [done|]. by split. Qed.
Lemma ctl_take_code H : ctl true H H 0 slice_ok (fun _ => false) take_code.
Proof.
  apply ctl_free. intros st (? & ? & Hb). unfold take_code. destruct (code st); [|done].
  split; [done|]. split; [|done]. split; [done|]. by split.
Qed.

Lemma ctl_force_cp b H c : ctl b H H 0 any (fun _ => b) (force_cp c).
Proof.
  apply ctl_free. intros st Hst. unfold force_cp, set_cp, get_cp, init_cp. vm_run. destruct (c =? cp (core st)); [by cbn|].
  destruct (get_table c) eqn:E; [|done]. cbn. split; [done|]. split; [|done]. destruct Hst as (? & (? & ? & _) & ?). done.
Qed.

Lemma ctl_stack_gas b H c : ctl b H H 1 any (fun _ => b) (consume_stack_gas c).
Proof.
  apply ctl_data; [done|]. apply typed_gas.
  pose proof (wrapu_range 32 ((Z.max (u32 c) free_stack_depth - free_stack_depth) * stack_entry_gas_price) ltac:(lia)). lia.
Qed.

Lemma ctl_register b H hash : ctl b H H 1 any (fun _ => b) (register_cell_load hash).
Proof.
  intros st Hst. unfold register_cell_load. destruct Hst as (? & (? & ? & ?) & ?). split; [done|]. split; [done|].
  set (p := if bool_decide _ then cell_reload_gas_price else cell_load_gas_price).
  assert (0 <= p <= 2 ^ 32) as Hp by (unfold p, cell_reload_gas_price, cell_load_gas_price; destruct (bool_decide _); lia).
  eapply charges_weaken; [by apply charges_one|lia|lia].
Qed.
Lemma ctl_load b H c : ctl b H H 1 slice_ok (fun _ => b) (load_cell_slice_ref c).
Proof.
  unfold load_cell_slice_ref. eapply (ctl_seq _ _ H _ 1 0 any); [done|apply ctl_register|]. intros ? _.
  destruct (cell_load c) as [[[[|] bits] refs]|] eqn:E; [by apply ctl_throw| |by apply ctl_throw]. apply ctl_ret. by apply load_fits in E.
Qed.
Lemma ctl_load_special b H c : ctl b H H 1 (fun r => slice_ok (fst r)) (fun _ => b) (load_cell_slice_ref_special c).
Proof.
  unfold load_cell_slice_ref_special. eapply (ctl_seq _ _ H _ 1 0 any); [done|apply ctl_register|]. intros ? _.
  destruct (cell_load c) as [[[sp bits] refs]|] eqn:E; [|by apply ctl_throw]. apply ctl_ret. by apply load_fits in E.
Qed.

End ContJumps.
