(* ===== verification/JumpSafe.v ===== *)
(** * Jumps, calls and exceptions keep the machine sound ([crypto/vm/continuation.cpp], [vm.cpp]) *)
From S2P Require Import Prelude BigInt BigIntOps BigIntShift BigIntLog RefInt Stack OpTable StackOps ArithOps ArithSpec TupleOps TupleSpec TupleSafe MachineTypes MachineKeeps Continuation ContTypes ContJumps.

Section JumpSafe.
Context `{CS : CellSystem}.

Abbreviation any := (fun _ => True).
Abbreviation entries_ok H := (Forall (@entry_ok vm_refs (cont_wf H))).

(** ** Popping *)

Lemma typed_pop_bool {CK : @ContOk vm_refs} n : typed n any pop_bool.
Proof. unfold pop_bool. apply (typed_bind vm_int); [apply typed_pop_int_finite|]. intros. by apply typed_ret. Qed.
Lemma typed_pop_cont {CK : @ContOk vm_refs} n : typed n cont_ok pop_cont.
Proof. apply typed_pop_as. intros e c He Hc. inversion He; subst; simplify_eq/=; done. Qed.

Lemma ctl_pop_bool b H : ctl b H H 0 any (fun _ => b) pop_bool.
Proof. apply ctl_data; [vm_safe|apply typed_pop_bool]. Qed.
Lemma ctl_pop_cont b H : ctl b H H 0 (cont_wf H) (fun _ => b) pop_cont.
Proof. apply ctl_data; [apply safe_pop_as|apply typed_pop_cont]. Qed.
Lemma ctl_push b H e : @entry_ok vm_refs (cont_wf H) e -> ctl b H H 0 any (fun _ => b) (push e).
Proof. intros He. apply ctl_data; [done|by apply typed_push]. Qed.
Lemma ctl_push_small b H v : in_range v -> ctl b H H 0 any (fun _ => b) (push_smallint v).
Proof. intros Hv. apply ctl_data; [done|by apply typed_push_smallint]. Qed.
Lemma ctl_check b H l : ctl b H H 0 any (fun _ => b) (check_underflow l).
Proof. apply ctl_data; [apply safe_check|apply typed_check]. Qed.
Lemma ctl_get_stack b H : ctl b H H 0 (entries_ok H) (fun _ => b) get_stack.
Proof. apply ctl_data; [done|apply typed_get_stack]. Qed.

(** ** Before a jump *)

Definition saved (c : Cont) : ControlRegs := match get_cdata c with Some d => save d | None => empty_regs end.

(** The machine is sound once the registers that [c] saves are restored. *)
Definition ready (H : nat) (c : Cont) (st : VmState) : Prop :=
  entries_ok H (stack st) /\ regs_full (regs_adjust (cr (core st)) (saved c)) /\ regs_sound H (regs_adjust (cr (core st)) (saved c))
  /\ get_table (cp (core st)) = true /\ code_ok false (code st).

Lemma saved_sound H c : cont_wf H c -> regs_sound H (saved c).
Proof.
  intros Hc. unfold saved. destruct (get_cdata c) as [d|] eqn:E; [|apply empty_sound]. by eapply data_sound, cdata_wf.
Qed.
Lemma sound_ready b H c st : cont_wf H c -> sound b H st -> ready H c st.
Proof.
  intros Hc (Hs & (F & S & T) & Hco). split; [done|]. split; [by apply adjust_full|].
  split; [apply adjust_sound; [done|by apply saved_sound]|]. split; [done|by apply (code_ok_weaken b)].
Qed.

(** A preparation leaves the machine ready. *)
Definition prepares (H : nat) (c : Cont) (g : GasLimits) (o : outcome (unit * VmState)) : Prop :=
  match o with
  | Done (_, st) => ready H c st /\ charges 0 1 g (gas st)
  | Throw e k => thrown e = true /\ core_wf H k /\ charges 0 0 g (core_gas k)
  | NoGas _ | Undefined => False
  end.

Lemma prepares_stay H c st : ready H c st -> prepares H c (gas st) (Done (tt, st)).
Proof. intros Hr. split; [done|]. eapply charges_weaken; [apply charges_none|lia|lia]. Qed.
Lemma prepares_stk_und H c b st : sound b H st -> prepares H c (gas st) (Throw stk_und (core st)).
Proof. intros (_ & Hc & _). split; [done|]. split; [done|apply charges_none]. Qed.

Lemma stack_charge d g : charges 0 1 g (consume (u32 ((Z.max (u32 d) free_stack_depth - free_stack_depth) * stack_entry_gas_price)) g).
Proof.
  pose proof (wrapu_range 32 ((Z.max (u32 d) free_stack_depth - free_stack_depth) * stack_entry_gas_price) ltac:(lia)).
  eapply charges_weaken; [apply charges_one|lia|lia]. lia.
Qed.

Lemma check_args_run d n st :
  check_args d n st = if (depth (stack st) <? n) || (depth (stack st) <? nargs d) || ((n <? nargs d) && (0 <=? n))
                      then Throw stk_und (core st) else Done (tt, st).
Proof. unfold check_args. vm_run. destruct (_ || _); [done|]. by destruct (_ && _). Qed.

Lemma move_run own s n : n <= depth s -> move_from_stack own s n = Some (take (Z.to_nat n) s ++ own, drop (Z.to_nat n) s).
Proof. intros Hn. unfold move_from_stack. destruct (Z.ltb_spec (depth s) n); [lia|done]. Qed.
Lemma drop_bottom_run n st : 0 <= n <= depth (stack st) ->
  drop_bottom n st = Done (tt, with_stack st (take (length (stack st) - Z.to_nat n) (stack st))).
Proof. intros Hn. unfold drop_bottom. vm_run. assert ((0 <=? n) && (n <=? depth (stack st)) = true) as -> by lia. done. Qed.

(** The state with its registers cleared where [c] restores them. *)
Lemma ready_preclear H c d b st s g : get_cdata c = Some d -> cont_wf H c -> sound b H st -> entries_ok H s ->
  ready H c {| stack := s; code := code st; core := core_with_gas g (core_with_cr (regs_preclear (cr (core st)) (save d)) (core st)) |}.
Proof.
  intros E Hc Hst Hs. destruct (sound_ready b H c st Hc Hst) as (_ & F & S & T). unfold ready, saved in *. rewrite E in *. cbn.
  rewrite adjust_preclear. done.
Qed.

Lemma saved_stack_ok H d : data_wf H d -> entries_ok H (saved_stack d).
Proof. intros Hd. unfold saved_stack. destruct (cd_stack d) as [s|] eqn:E; [by eapply data_stack|apply Forall_nil_2]. Qed.

Lemma prepare_jump_ok H c n b st : cont_wf H c -> sound b H st -> prepares H c (gas st) (prepare_jump c n st).
Proof.
  intros Hc Hst. unfold prepare_jump. destruct (get_cdata c) as [d|] eqn:E.
  - vm_run. rewrite check_args_run. destruct (_ || _) eqn:B; [by eapply prepares_stk_und|].
    apply orb_false_iff in B as [[B1%Z.ltb_ge B2%Z.ltb_ge]%orb_false_iff B3].
    unfold preclear_cr, update_cr, get_cr, set_cr. vm_run. cbn [stack with_core]. set (cpy := if _ && _ then n else nargs d).
    assert (cpy <= depth (stack st)) as Hcpy by (clear B3; unfold cpy; destruct (_ && _); lia).
    pose proof (proj1 Hst) as Hs. pose proof (saved_stack_ok H d (cdata_wf H c d Hc E)) as Hown.
    destruct (saved_stack d) as [|e own].
    + destruct ((0 <=? cpy) && (cpy <? depth (stack st))) eqn:D;
        [|exact (prepares_stay H c _ (ready_preclear H c d b st (stack st) (gas st) E Hc Hst Hs))].
      apply andb_true_iff in D as [D1%Z.leb_le D2%Z.ltb_lt]. cbv beta iota. rewrite drop_bottom_run by (cbn [stack with_core]; lia).
      cbv beta iota. unfold consume_stack_gas, consume_gas. split; [|apply stack_charge].
      apply (ready_preclear H c d b st); try done. by apply Forall_take.
    + set (m := if cpy <? 0 then depth (stack st) else cpy).
      rewrite move_run by (unfold m; destruct (cpy <? 0); lia). cbv beta iota. unfold consume_stack_gas, consume_gas. vm_run.
      split; [|apply stack_charge]. apply (ready_preclear H c d b st); try done. apply Forall_app. split; [by apply Forall_take|done].
  - vm_run. assert (forall s g, entries_ok H s -> ready H c {| stack := s; code := code st; core := core_with_gas g (core st) |}) as R.
    { intros s g Hs. destruct (sound_ready b H c st Hc Hst) as (_ & ? & ? & ?). done. }
    pose proof (R (stack st) (gas st) (proj1 Hst)) as Hr. pose proof (prepares_stay H c st) as Stay.
    destruct (Z.leb_spec 0 n); [|apply Stay; by eapply sound_ready].
    destruct (Z.ltb_spec (depth (stack st)) n); [by eapply prepares_stk_und|].
    destruct (Z.ltb_spec n (depth (stack st))); [|apply Stay; by eapply sound_ready].
    cbv beta iota. rewrite drop_bottom_run by lia. cbv beta iota. unfold consume_stack_gas, consume_gas. split; [|apply stack_charge].
    apply R, Forall_take. exact (proj1 Hst).
Qed.

Lemma prepare_ok H c b st : cont_wf H c -> sound b H st -> prepares H c (gas st) (prepare c st).
Proof.
  intros Hc Hst. unfold prepare. pose proof (prepares_stay H c st) as Stay.
  destruct (get_cdata c) as [d|] eqn:E; [|apply Stay; by eapply sound_ready].
  destruct (_ || _); [by eapply prepare_jump_ok|apply Stay; by eapply sound_ready].
Qed.

(** ** Jumps *)

Abbreviation landed := (fun z => z =? 0).
Abbreviation jumps b H n := (ctl b H H n any landed).

Lemma sound_weak b H st : sound b H st -> sound false H st.
Proof. intros (? & ? & Hc). split; [done|]. split; [done|]. by apply (code_ok_weaken b). Qed.

(** A jump that is prepared. *)
Lemma prepared_jump b H n c st m : (forall st, ready H c st -> outcome_ok H n any landed (gas st) (jump_to c st)) ->
  prepares H c (gas st) (m st) -> sound b H st -> outcome_ok H (S n) any landed (gas st) ((_ ← m; jump_to c) st).
Proof.
  intros Hj Hp Hst. vm_run. unfold prepares in Hp. destruct (m st) as [[u st']|e k|k|]; [| |done|done].
  - destruct Hp as [Hr C]. specialize (Hj st' Hr). destruct (jump_to c st') as [[z st2]|e k|k|]; [| |done|done].
    + destruct Hj as (? & ? & C2). split; [done|]. split; [done|]. exact (charges_trans _ _ _ _ _ _ _ C C2).
    + destruct Hj as (? & ? & C2). split; [done|]. split; [done|]. exact (charges_trans _ _ _ _ _ _ _ C C2).
  - destruct Hp as (? & ? & C). split; [done|]. split; [done|]. eapply charges_weaken; [exact C|lia|lia].
Qed.

Definition jump_to_ok (H : nat) (c : Cont) : Prop :=
  cont_wf H c -> forall st, ready H c st -> outcome_ok H (height c) any landed (gas st) (jump_to c st).

Lemma jumps_of b H c : jump_to_ok H c -> cont_wf H c -> jumps b H (S (height c)) (jump c).
Proof. intros Hj Hc st Hst. apply (prepared_jump b); [by apply Hj|by eapply prepare_ok|done]. Qed.

(** Where there are no registers to restore. *)
Lemma ready_ctl H c n : get_cdata c = None -> jumps false H n (jump_to c) ->
  forall st, ready H c st -> outcome_ok H n any landed (gas st) (jump_to c st).
Proof.
  intros E Hj st (Hs & F & S & T & Hco). apply Hj. unfold saved in *. rewrite E, adjust_empty in *. done.
Qed.
Lemma ctl_adjust H c d n m : get_cdata c = Some d -> jumps false H n m ->
  forall st, ready H c st -> outcome_ok H n any landed (gas st) ((_ ← adjust_cr (save d); m) st).
Proof.
  intros E Hj st (Hs & F & S & T & Hco). unfold saved in *. rewrite E in *. unfold adjust_cr, update_cr, get_cr, set_cr. vm_run.
  apply (Hj {| stack := stack st; code := code st; core := core_with_cr (regs_adjust (cr (core st)) (save d)) (core st) |}). done.
Qed.

Lemma exc_quit_ok H : jumps false H 0 exc_quit.
Proof.
  apply ctl_free. intros st Hst. unfold exc_quit. rewrite pop_smallint_run. unfold small_arg. destruct Hst as (Hs & Hc & Hb).
  assert (forall e, Z.lnot (get_errno e) =? 0 = false) as He by (by intros []).
  assert (forall s e, entries_ok H s -> sound (Z.lnot (get_errno e) =? 0) H {| stack := s; code := code st; core := core st |}) as W
    by (intros s e ?; rewrite He; done).
  destruct (stack st) as [|e s] eqn:Es; [split; [done|]; split; [by apply W|done]|]. inversion_clear Hs as [|? ? _ Hs'].
  destruct (as_int e) as [x|]; [|split; [done|]; split; [by apply W|done]].
  destruct ((_ <? _) || _) eqn:B; [split; [done|]; split; [by apply W|done]|].
  apply orb_false_iff in B as [B1%Z.ltb_ge B2%Z.ltb_ge]. split; [done|]. split; [|done]. rewrite wraps_small by lia.
  destruct (Z.eqb_spec (Z.lnot (to_long_any x)) 0); [unfold Z.lnot in *; lia|done].
Qed.

(** Coming back to a loop sets [c0], unless the body has its own. *)
Lemma ctl_loop b H (has : bool) k c : cont_wf H k -> jump_to_ok H c -> cont_wf H c ->
  jumps b H (S (height c)) (_ ← (if has then mret tt else update_cr (set_c0 k)); _ ← prepare c; jump_to c).
Proof.
  intros Hk Hj Hc. apply (ctl_bind _ _ _ _ any _ (fun _ => b)); [done|destruct has; [by apply ctl_ret|by apply ctl_set_c0]|].
  intros _ _. exact (jumps_of b H c Hj Hc).
Qed.

Lemma jumps_le b H n n' m : (n <= n')%nat -> jumps b H n m -> jumps b H n' m.
Proof. intros Hn Hm. by apply (ctl_weaken b H H n n' any any landed landed). Qed.

Lemma jump_to_all H c : jump_to_ok H c.
Proof.
  unfold jump_to_ok.
  induction c as [n| |v next IH|body IHb after IHa count|body IHb|body IHb after IHa|cond IHc body IHb after IHa chk|d ext IH|d cs]; intros Hc.
  - apply ready_ctl; [done|]. apply ctl_free. intros st Hst. inversion_clear Hc. split; [done|]. split; [|done].
    destruct (Z.eqb_spec (Z.lnot n) 0); [unfold Z.lnot in *; lia|done].
  - apply ready_ctl; [done|]. apply exc_quit_ok.
  - inversion_clear Hc as [| |? ? Hv Hn _| | | | | |]. apply ready_ctl; [done|]. cbn [jump_to height].
    apply (ctl_bind _ _ _ _ any _ (fun _ => false)); [done|by apply ctl_push_small|]. intros _ _. by apply jumps_of.
  - pose proof Hc as Hc'. inversion_clear Hc as [| | |? ? ? Hb Ha Hh| | | | |]. apply ready_ctl; [done|]. cbn [jump_to height].
    destruct (count <=? 0).
    + apply (jumps_le _ _ (S (height after))); [lia|by apply jumps_of].
    + apply (jumps_le _ _ (S (height body))); [lia|]. apply ctl_loop; [by apply wf_repeat|exact IHb|done].
  - inversion_clear Hc as [| | | |? Hb Hh| | | |]. apply ready_ctl; [done|]. cbn [jump_to height].
    apply ctl_loop; [by apply wf_again|exact IHb|done].
  - inversion_clear Hc as [| | | | |? ? Hb Ha Hh| | |]. apply ready_ctl; [done|]. cbn [jump_to height].
    apply (ctl_bind _ _ _ _ any _ (fun _ => false)); [done|apply ctl_pop_bool|]. intros [] _.
    + apply (jumps_le _ _ (S (height after))); [lia|by apply jumps_of].
    + apply (jumps_le _ _ (S (height body))); [lia|]. apply ctl_loop; [by apply wf_until|exact IHb|done].
  - inversion_clear Hc as [| | | | | |? ? ? ? Hcd Hb Ha Hh| |]. apply ready_ctl; [done|]. cbn [jump_to height].
    destruct chk; [apply (ctl_bind _ _ _ _ any _ (fun _ => false)); [done|apply ctl_pop_bool|]; intros [] _|].
    + apply (jumps_le _ _ (S (height body))); [lia|]. apply ctl_loop; [by apply wf_while|exact IHb|done].
    + apply (jumps_le _ _ (S (height after))); [lia|by apply jumps_of].
    + apply (jumps_le _ _ (S (height cond))); [lia|]. apply ctl_loop; [by apply wf_while|exact IHc|done].
  - inversion_clear Hc as [| | | | | | |? ? Hd He Hh|]. cbn [jump_to height]. apply (ctl_adjust H (ArgContExt d ext) d); [done|].
    apply (jumps_le _ _ (height ext)); [lia|]. apply (ctl_bind _ _ _ _ any _ (fun _ => false)); [done| |].
    + destruct (_ =? _); [by apply ctl_ret|apply ctl_force_cp].
    + intros _ _ st Hst. apply IH; [done|]. by eapply sound_ready.
  - inversion_clear Hc. cbn [jump_to height]. apply (ctl_adjust H (OrdCont d cs) d); [done|]. unfold set_code.
    apply (ctl_bind _ _ _ _ any _ (fun _ => true)); [done| |intros _ _; apply ctl_zero].
    apply (ctl_bind _ _ _ _ any _ (fun _ => true)); [done|by apply ctl_put_code|intros _ _; apply ctl_force_cp].
Qed.

Lemma ctl_jump b H c : cont_wf H c -> jumps b H (S (height c)) (jump c).
Proof. apply jumps_of, jump_to_all. Qed.
Lemma ctl_jump_args b H c n : cont_wf H c -> jumps b H (S (height c)) (jump_args c n).
Proof. intros Hc st Hst. apply (prepared_jump b); [by apply jump_to_all|by eapply prepare_jump_ok|done]. Qed.

End JumpSafe.
