(* ===== verification/CallSafe.v ===== *)
(** * Calls, loops and exceptions keep the machine sound ([crypto/vm/vm.cpp]) *)
From S2P Require Import Prelude BigInt BigIntOps BigIntShift BigIntLog RefInt Stack OpTable StackOps ArithOps ArithSpec TupleOps TupleSpec TupleSafe MachineTypes MachineKeeps Continuation Cells CellConstOps ContTypes ContJumps JumpSafe.

Section CallSafe.
Context `{CS : CellSystem}.

Abbreviation any := (fun _ => True).
Abbreviation entries_ok H := (Forall (@entry_ok vm_refs (cont_wf H))).
Abbreviation landed := (fun z => z =? 0).
Abbreviation jumps b H n := (ctl b H H n any landed).

Lemma wf_height H c : cont_wf H c -> (height c <= H)%nat.
Proof. intros []; try assumption; cbn; lia. Qed.

Lemma ctl_jump_max b H c : cont_wf H c -> jumps b H (S H) (jump c).
Proof. intros Hc. apply (jumps_le _ _ (S (height c))); [apply wf_height in Hc; lia|by apply ctl_jump]. Qed.
Lemma ctl_jump_args_max b H c n : cont_wf H c -> jumps b H (S H) (jump_args c n).
Proof. intros Hc. apply (jumps_le _ _ (S (height c))); [apply wf_height in Hc; lia|by apply ctl_jump_args]. Qed.

Lemma quit_wf H : cont_wf H quit0 /\ cont_wf H quit1.
Proof. split; by apply wf_quit. Qed.

(** ** Returns *)

Lemma ctl_ret_op b H : jumps b H (S H) ret.
Proof.
  apply (ctl_bind _ _ _ _ (cont_wf H) _ (fun _ => b)); [done|apply ctl_get_c0|]. intros c Hc.
  apply (ctl_bind _ _ _ _ any _ (fun _ => b)); [done|apply ctl_set_c0, quit_wf|]. intros _ _. by apply ctl_jump_max.
Qed.
Lemma ctl_ret_args b H n : jumps b H (S H) (ret_args n).
Proof.
  apply (ctl_bind _ _ _ _ (cont_wf H) _ (fun _ => b)); [done|apply ctl_get_c0|]. intros c Hc.
  apply (ctl_bind _ _ _ _ any _ (fun _ => b)); [done|apply ctl_set_c0, quit_wf|]. intros _ _. by apply ctl_jump_args_max.
Qed.
Lemma ctl_ret_alt b H : jumps b H (S H) ret_alt.
Proof.
  apply (ctl_bind _ _ _ _ (cont_wf H) _ (fun _ => b)); [done|apply ctl_get_c1|]. intros c Hc.
  apply (ctl_bind _ _ _ _ any _ (fun _ => b)); [done|apply ctl_set_c1, quit_wf|]. intros _ _. by apply ctl_jump_max.
Qed.

(** ** Calls *)

Lemma adjust_set_c0 x r s : c0 s = None -> regs_adjust (set_c0 x r) s = set_c0 x (regs_adjust r s).
Proof. intros E. unfold regs_adjust, set_c0. cbn. by rewrite E. Qed.
Lemma set_c0_full x r : regs_full r -> regs_full (set_c0 x r).
Proof. unfold regs_full. cbn. intuition. Qed.

(** The end of a call, from a state whose registers are sound once [c0] is set and those of the
    continuation are restored. *)
Definition finish_call (c : Cont) (new_stk : list StackEntry) (rest : option (list StackEntry)) (pays : bool) (n : Z) (old : option Cont) : VM Z :=
  _ ← (if pays then consume_stack_gas (depth new_stk) else mret tt);
  r ← return_cont rest n old; _ ← set_stack new_stk; _ ← update_cr (set_c0 r); jump_to c.

Lemma finish_call_ok H c new_stk rest pays n old st : cont_wf H c -> entries_ok H new_stk -> (forall l, rest = Some l -> entries_ok H l) ->
  (forall x, old = Some x -> cont_wf H x) -> code_ok true (code st) -> get_table (cp (core st)) = true ->
  (forall x, cont_wf H x -> regs_full (regs_adjust (set_c0 x (cr (core st))) (saved c)) /\ regs_sound H (regs_adjust (set_c0 x (cr (core st))) (saved c))) ->
  outcome_ok H (S (height c)) any landed (gas st) (finish_call c new_stk rest pays n old st).
Proof.
  intros Hc Hn Hr Ho Hcode Ht HR.
  assert (forall st1, stack st1 = stack st -> code st1 = code st -> cr (core st1) = cr (core st) -> cp (core st1) = cp (core st) ->
            charges 0 1 (gas st) (gas st1) ->
            outcome_ok H (S (height c)) any landed (gas st)
              ((r ← return_cont rest n old; _ ← set_stack new_stk; _ ← update_cr (set_c0 r); jump_to c) st1)) as W.
  { intros st1 _ Ec Er Ep C. unfold return_cont, take_code, get_cp, update_cr, get_cr, set_cr. vm_run. rewrite Ec.
    destruct (code st) as [cs|]; [|done]. cbn [core with_core cr]. set (k := OrdCont _ cs).
    assert (cont_wf H k) as Hk.
    { apply wf_ord; [|done]. apply data_intro; [done|]. apply define_c0_sound; [done|apply empty_sound]. }
    destruct (HR k Hk) as [F S]. set (st2 := with_core _ _).
    assert (ready H c st2) as Hready by (unfold ready, st2; cbn; rewrite Er, Ep; done).
    pose proof (jump_to_all H c Hc st2 Hready) as J. change (gas st2) with (gas st1) in J.
    destruct (jump_to c st2) as [[z st3]|e q|q|]; [| |done|done].
    - destruct J as (? & ? & C2). split; [done|]. split; [done|]. exact (charges_trans _ _ _ _ _ _ _ C C2).
    - destruct J as (? & ? & C2). split; [done|]. split; [done|]. exact (charges_trans _ _ _ _ _ _ _ C C2). }
  unfold finish_call. destruct pays; unfold consume_stack_gas, consume_gas; vm_run; apply W; try done; [apply stack_charge|].
  eapply charges_weaken; [apply charges_none|lia|lia].
Qed.

(** The stacks of a call whose arguments are there. *)
Lemma call_stacks_ok H d n s : data_wf H d -> entries_ok H s -> n <= depth s -> nargs d <= depth s -> ~ (n < nargs d /\ 0 <= n) ->
  exists new_stk rest pays, call_stacks d n s = Some (new_stk, rest, pays) /\ entries_ok H new_stk /\ (forall l, rest = Some l -> entries_ok H l).
Proof.
  intros Hd Hs Hn Ha Hna. unfold call_stacks. pose proof (saved_stack_ok H d Hd) as Ho.
  set (cpy := if nargs d <? 0 then _ else _). set (skip := if _ && _ then _ else _).
  assert (cpy <= depth s /\ 0 <= skip /\ (0 <= cpy -> cpy + skip <= depth s)) as (H1 & H2 & H3).
  { unfold cpy, skip. destruct (Z.ltb_spec (nargs d) 0), (Z.leb_spec 0 n), (Z.leb_spec 0 (nargs d)); cbn [andb]; lia. }
  clearbody cpy skip. destruct (saved_stack d) as [|e own].
  - destruct (Z.leb_spec 0 cpy); [|by eexists _, _, _].
    unfold split_top. destruct (Z.ltb_spec (depth s) cpy), (Z.ltb_spec (depth s - cpy) skip); try lia. cbn.
    eexists _, _, _. split; [done|]. split; [by apply Forall_take|]. intros l [= <-]. by apply Forall_drop.
  - rewrite move_run by (destruct (Z.ltb_spec cpy 0); lia). cbn. eexists _, _, _. split; [done|].
    split; [apply Forall_app; split; [by apply Forall_take|done]|]. intros l [= <-]. by apply Forall_drop, Forall_drop.
Qed.

Lemma ctl_call_args H c n k : cont_wf H c -> jumps true H (S (height c)) (call_args c n k).
Proof.
  intros Hc st Hst. pose proof Hst as (Hs & (F & S & T) & Hcode).
  assert (forall x, c0 (cr (core st)) = Some x -> cont_wf H x) as Hold by exact (proj1 (regs_elim H _ S)).
  unfold call_args. destruct (get_cdata c) as [d|] eqn:E.
  - pose proof (cdata_wf H c d Hc E) as Hd. destruct (c0 (save d)) as [y|] eqn:E0; [by apply (ctl_jump_args true)|].
    vm_run. rewrite check_args_run. destruct (_ || _) eqn:B.
    { split; [done|]. split; [done|]. eapply charges_weaken; [apply charges_none|lia|lia]. }
    apply orb_false_iff in B as [[B1%Z.ltb_ge B2%Z.ltb_ge]%orb_false_iff B3].
    unfold preclear_cr, update_cr at 1, get_cr, set_cr. vm_run. cbn [stack with_core].
    destruct (call_stacks_ok H d n (stack st) Hd Hs B1 B2) as (new_stk & rest & pays & -> & Hn & Hr).
    { intros [L1%Z.ltb_lt L2%Z.leb_le]. by rewrite L1, L2 in B3. }
    refine (finish_call_ok H c new_stk rest pays k (c0 (cr (core st)))
      (with_core (core_with_cr (regs_preclear (cr (core st)) (save d)) (core st)) st) Hc Hn Hr Hold Hcode T _).
    intros x Hx. cbn.
    unfold saved. rewrite E, adjust_set_c0, adjust_preclear by done. split; [by apply set_c0_full, adjust_full|].
    apply set_c0_sound; [done|]. apply adjust_sound; [done|by apply data_sound].
  - vm_run. destruct (Z.ltb_spec (depth (stack st)) n).
    { split; [done|]. split; [done|]. eapply charges_weaken; [apply charges_none|lia|lia]. }
    unfold get_cr. cbv beta iota.
    assert (forall x, cont_wf H x -> regs_full (regs_adjust (set_c0 x (cr (core st))) (saved c)) /\ regs_sound H (regs_adjust (set_c0 x (cr (core st))) (saved c))) as R.
    { intros x Hx. unfold saved. rewrite E, adjust_empty. split; [by apply set_c0_full|by apply set_c0_sound]. }
    destruct (0 <=? n).
    + unfold split_top. destruct (Z.ltb_spec (depth (stack st)) n), (Z.ltb_spec (depth (stack st) - n) 0); try lia. cbn.
      refine (finish_call_ok H c _ (Some _) true k (c0 (cr (core st))) st Hc (Forall_take _ _ _ Hs) _ Hold Hcode T R).
      intros l [= <-]. by apply Forall_drop.
    + by refine (finish_call_ok H c (stack st) None false k (c0 (cr (core st))) st Hc Hs _ Hold Hcode T R).
Qed.

Lemma ctl_return_cont H stk n old : (forall l, stk = Some l -> entries_ok H l) -> (forall x, old = Some x -> cont_wf H x) ->
  ctl true H H 0 (cont_wf H) (fun _ => false) (return_cont stk n old).
Proof.
  intros Hs Ho. unfold return_cont. apply (ctl_bind _ _ _ _ slice_ok _ (fun _ => false)); [done|apply ctl_take_code|]. intros cs Hcs.
  apply (ctl_bind _ _ _ _ any _ (fun _ => false)); [done|eapply ctl_weaken; [apply ctl_get_cp|done..]|]. intros c _.
  apply ctl_ret. apply wf_ord; [|done]. apply data_intro; [done|]. apply define_c0_sound; [done|apply empty_sound].
Qed.

Lemma ctl_jump_to b H c : cont_wf H c -> jumps b H (height c) (jump_to c).
Proof. intros Hc st Hst. apply jump_to_all; [done|by eapply sound_ready]. Qed.

Lemma ctl_simple_call H c : cont_wf H c -> jumps true H (S (height c)) (simple_call c).
Proof.
  intros Hc. unfold simple_call. apply (ctl_bind _ _ _ _ (fun r => regs_full r /\ regs_sound H r) _ (fun _ => true)); [done|apply ctl_get_cr|].
  intros r [_ S]. apply (ctl_bind _ _ _ _ (cont_wf H) _ (fun _ => false)); [done|apply ctl_return_cont; [done|]|].
  { exact (proj1 (regs_elim H _ S)). }
  intros k Hk. apply (ctl_bind _ _ _ _ any _ (fun _ => false)); [done|by apply ctl_set_c0|]. intros _ _.
  apply (jumps_le _ _ (height c)); [lia|by apply ctl_jump_to].
Qed.

Lemma ctl_call H c : cont_wf H c -> jumps true H (S H) (call c).
Proof.
  intros Hc. apply (jumps_le _ _ (S (height c))); [apply wf_height in Hc; lia|]. unfold call.
  destruct (get_cdata c) as [d|]; [|by apply ctl_simple_call]. destruct (c0 (save d)); [by apply ctl_jump|].
  destruct (_ || _); [by apply ctl_call_args|by apply ctl_simple_call].
Qed.
Lemma ctl_call_args_max H c n k : cont_wf H c -> jumps true H (S H) (call_args c n k).
Proof. intros Hc. apply (jumps_le _ _ (S (height c))); [apply wf_height in Hc; lia|by apply ctl_call_args]. Qed.

(** ** The current continuation *)

Definition saves (H : nat) (f : ControlRegs -> ControlRegs) : Prop := forall r, regs_sound H r -> regs_sound H (f r).

Lemma wf_succ H c : cont_wf H c -> cont_wf (S H) c.
Proof. apply cont_mono. lia. Qed.

(** The control data of a continuation, and the continuation with other data: an envelope may be
    one more jump to go through. *)
Lemma force_cdata_wf H c : cont_wf H c ->
  data_wf H (fst (force_cdata c)) /\ forall d, data_wf H d -> cont_wf (S H) (snd (force_cdata c) d).
Proof.
  intros Hc. assert (data_wf H (plain_data (-1))) as Hp by (apply data_intro; [done|apply empty_sound]).
  assert (forall d, data_wf H d -> cont_wf (S H) (ArgContExt d c)) as He.
  { intros d Hd. apply wf_ext; [by apply (data_mono H); [lia|]|by apply wf_succ|apply wf_height in Hc; cbn; lia]. }
  destruct c; try (split; [exact Hp|exact He]); inversion_clear Hc; cbn; (split; [done|]); intros d Hd; apply wf_succ.
  - by apply wf_ext.
  - by apply wf_ord.
Qed.

Lemma force_cregs_wf H f c : cont_wf H c -> saves H f -> cont_wf (S H) (force_cregs f c).
Proof.
  intros Hc Hf. unfold force_cregs. destruct (force_cdata_wf H c Hc) as [Hd Hr]. destruct (force_cdata c) as [d rebuild]. apply Hr.
  apply data_intro; [by intros l; apply data_stack|]. by apply Hf, data_sound.
Qed.
Lemma force_cregs_opt_wf H f c c' : cont_wf H c -> (forall r r', regs_sound H r -> f r = Some r' -> regs_sound H r') ->
  force_cregs_opt f c = Some c' -> cont_wf (S H) c'.
Proof.
  intros Hc Hf E. unfold force_cregs_opt in E.
  assert (c' = force_cregs (fun r => default r (f r)) c) as ->.
  { unfold force_cregs. destruct (force_cdata c) as [d rebuild]. destruct (f (save d)); [|done]. by injection E as <-. }
  apply force_cregs_wf; [done|]. intros r Hr. destruct (f r) as [r'|] eqn:Er; [by eapply Hf|done].
Qed.

(** The stack that was read is the one that is checked. *)
Lemma extract_stack_run n st :
  extract_stack n st =
    if (n <? 0) || (n =? depth (stack st)) then Done ((stack st, None), st)
    else if n <=? 0 then Done (([], Some (stack st)), st)
    else if depth (stack st) <? n then Throw stk_und (core st)
    else let s := take (Z.to_nat n) (stack st) in
         Done ((s, Some (drop (Z.to_nat n) (stack st))),
               {| stack := stack st; code := code st;
                  core := core_with_gas (consume (u32 ((Z.max (u32 (depth s)) free_stack_depth - free_stack_depth) * stack_entry_gas_price)) (gas st)) (core st) |}).
Proof.
  unfold extract_stack. vm_run. destruct (_ || _) eqn:E; [done|]. destruct (Z.ltb_spec 0 n), (Z.leb_spec n 0); try lia; [|done].
  cbv beta iota. rewrite check_run. cbn [forallb]. destruct (Z.leb_spec n (depth (stack st))), (Z.ltb_spec (depth (stack st)) n); try lia; [|done].
  cbn [andb]. unfold split_top. destruct (Z.ltb_spec (depth (stack st)) n), (Z.ltb_spec (depth (stack st) - n) 0); try lia. cbn [orb].
  rewrite Z.add_0_r. done.
Qed.

Lemma ctl_extract_stack b H n :
  ctl b H H 1 (fun p => entries_ok H (fst p) /\ forall l, snd p = Some l -> entries_ok H l) (fun _ => b) (extract_stack n).
Proof.
  intros st Hst. rewrite extract_stack_run. pose proof (proj1 Hst) as Hs.
  assert (charges 0 1 (gas st) (gas st)) as C by (eapply charges_weaken; [apply charges_none|lia|lia]).
  destruct (_ || _); [done|]. destruct (n <=? 0).
  - split; [split; [by apply Forall_nil|by intros l [= <-]]|done].
  - destruct (_ <? _); [split; [done|]; split; [apply Hst|done]|]. cbv zeta. split; [|split; [|apply stack_charge]].
    + split; [by apply Forall_take|]. intros l [= <-]. by apply Forall_drop.
    + destruct Hst as (? & (? & ? & ?) & ?). done.
Qed.

Lemma ctl_save_if b H x m : ctl b H H 0 (saves H) (fun _ => b) m -> ctl b H H 0 (saves H) (fun _ => b) (save_if x m).
Proof. intros Hm. destruct x; [done|]. apply ctl_ret. by intros r Hr. Qed.
Lemma ctl_save_c0 b H : ctl b H H 0 (saves H) (fun _ => b) save_c0.
Proof.
  apply (ctl_bind _ _ _ _ (fun r => regs_full r /\ regs_sound H r) _ (fun _ => b)); [done|apply ctl_get_cr|]. intros r [_ S].
  apply (ctl_bind _ _ _ _ any _ (fun _ => b)); [done|apply ctl_set_c0, quit_wf|]. intros _ _. apply ctl_ret. intros r' Hr'.
  apply define_c0_sound; [|done]. exact (proj1 (regs_elim H _ S)).
Qed.
Lemma ctl_save_c1 b H : ctl b H H 0 (saves H) (fun _ => b) save_c1.
Proof.
  apply (ctl_bind _ _ _ _ (fun r => regs_full r /\ regs_sound H r) _ (fun _ => b)); [done|apply ctl_get_cr|]. intros r [_ S].
  apply (ctl_bind _ _ _ _ any _ (fun _ => b)); [done|apply ctl_set_c1, quit_wf|]. intros _ _. apply ctl_ret. intros r' Hr'.
  apply define_c1_sound; [|done]. exact (proj1 (proj2 (regs_elim H _ S))).
Qed.

(** Saving [c2] too leaves it empty, which only [TRY] does. *)
Lemma ctl_extract_cc H m n ca : Z.testbit m 2 = false -> ctl true H H 1 (cont_wf H) (fun _ => false) (extract_cc m n ca).
Proof.
  intros E2. unfold extract_cc. rewrite E2.
  apply (ctl_charge _ _ _ _ (fun p => entries_ok H (fst p) /\ forall l, snd p = Some l -> entries_ok H l) _ (fun _ => true));
    [done|apply ctl_extract_stack|]. intros [s rest] [Hs Hr].
  apply (ctl_bind _ _ _ _ slice_ok _ (fun _ => false)); [done|apply ctl_take_code|]. intros cs Hcs.
  apply (ctl_bind _ _ _ _ (fun c => get_table c = true) _ (fun _ => false)); [done|apply ctl_get_cp|]. intros c _.
  apply (ctl_bind _ _ _ _ any _ (fun _ => false)); [done|by apply ctl_set_stack|]. intros _ _.
  apply (ctl_bind _ _ _ _ (saves H) _ (fun _ => false)); [done|apply ctl_save_if, ctl_save_c0|]. intros f0 H0.
  apply (ctl_bind _ _ _ _ (saves H) _ (fun _ => false)); [done|apply ctl_save_if, ctl_save_c1|]. intros f1 H1.
  apply (ctl_bind _ _ _ _ (eq (fun s => s)) _ (fun _ => false)); [done|by apply ctl_ret|]. intros f2 <-. apply ctl_ret.
  apply wf_ord; [|done]. apply data_intro; [done|]. by apply H1, H0, empty_sound.
Qed.

(** [TRY] saves [c2] and sets it; the rest is as without [c2]. *)
Lemma extract_try {A} n ca f (m : VM A) st :
  (cc ← extract_cc 7 n ca; _ ← update_cr (set_c0 cc); _ ← update_cr (set_c2 (f cc)); m) st =
  (cc ← extract_cc 3 n ca; r ← get_cr; let cc := force_cregs (define_c2 (c2 r)) cc in
   _ ← update_cr (set_c0 cc); _ ← update_cr (set_c2 (f cc)); m) st.
Proof.
  unfold extract_cc, mbind, vm_bind. destruct (extract_stack n st) as [[[s rest] st1]| | |]; try done.
  unfold take_code. destruct (code st1); done.
Qed.

(** ** Loops *)

Lemma ctl_c1_envelope_if b H brk c : cont_wf H c -> ctl b H (S H) 0 (cont_wf (S H)) (fun _ => b) (c1_envelope_if brk c).
Proof.
  intros Hc. assert (cont_wf (S H) c) as Hc' by (by apply wf_succ).
  unfold c1_envelope_if. destruct brk; [|apply (ctl_raise _ _ (S H)); [lia|by apply ctl_ret]]. unfold c1_envelope.
  apply (ctl_bind _ _ _ _ (fun r => regs_full r /\ regs_sound H r) _ (fun _ => b)); [lia|apply ctl_get_cr|]. intros r [_ Hr].
  apply (ctl_raise _ _ (S H)); [lia|]. cbv zeta.
  assert (cont_wf (S H) (force_cregs (fun s => define_c0 (c0 r) (define_c1 (c1 r) s)) c)) as Hf.
  { apply force_cregs_wf; [done|]. intros s Hs. apply define_c0_sound; [exact (proj1 (regs_elim H _ Hr))|].
    apply define_c1_sound; [exact (proj1 (proj2 (regs_elim H _ Hr)))|done]. }
  apply (ctl_bind _ _ _ _ any _ (fun _ => b)); [done|by apply ctl_set_c1|]. intros _ _. by apply ctl_ret.
Qed.

Lemma ctl_repeat b H body after n : cont_wf H body -> cont_wf H after -> ctl b H (S H) (S (S H)) any landed (repeat body after n).
Proof.
  intros Hb Ha. apply (ctl_raise _ _ (S H)); [lia|]. unfold repeat. destruct (_ <=? _).
  - apply ctl_jump_max. by apply wf_succ.
  - apply ctl_jump_max. pose proof (wf_height H body Hb). pose proof (wf_height H after Ha).
    apply wf_repeat; [by apply wf_succ|by apply wf_succ|cbn; lia].
Qed.
Lemma ctl_again b H body : cont_wf H body -> ctl b H (S H) (S (S H)) any landed (again body).
Proof.
  intros Hb. apply (ctl_raise _ _ (S H)); [lia|]. apply ctl_jump_max. pose proof (wf_height H body Hb).
  apply wf_again; [by apply wf_succ|cbn; lia].
Qed.
Lemma ctl_until b H body after : cont_wf H body -> cont_wf H after -> ctl b H (S H) (S (S H)) any landed (until body after).
Proof.
  intros Hb Ha. apply (ctl_raise _ _ (S H)); [lia|]. pose proof (wf_height H body Hb). pose proof (wf_height H after Ha).
  assert (cont_wf (S H) body) as Hb' by (by apply wf_succ).
  apply (ctl_bind _ _ _ _ any _ (fun _ => b)); [done| |intros _ _; by apply ctl_jump_max].
  destruct (has_c0 body); [by apply ctl_ret|]. apply ctl_set_c0, wf_until; [done|by apply wf_succ|cbn; lia].
Qed.
Lemma ctl_loop_while b H cond body after : cont_wf H cond -> cont_wf H body -> cont_wf H after ->
  ctl b H (S H) (S (S H)) any landed (loop_while cond body after).
Proof.
  intros Hc Hb Ha. apply (ctl_raise _ _ (S H)); [lia|]. pose proof (wf_height H cond Hc). pose proof (wf_height H body Hb).
  pose proof (wf_height H after Ha). assert (cont_wf (S H) cond) as Hc' by (by apply wf_succ).
  apply (ctl_bind _ _ _ _ any _ (fun _ => b)); [done| |intros _ _; by apply ctl_jump_max].
  destruct (has_c0 cond); [by apply ctl_ret|].
  apply ctl_set_c0, wf_while; [done|by apply wf_succ|by apply wf_succ|cbn; lia].
Qed.

(** ** Exceptions *)

Lemma throw_run excno arg st :
  throw_exception_arg excno arg st =
    let g := consume exception_gas_price (gas st) in
    let st' := {| stack := [se_int (make_refint excno); arg]; code := None; core := core_with_gas g (core st) |} in
    if 0 <=? gas_remaining g then (c ← get_c2; jump c) st' else NoGas (core st').
Proof.
  unfold throw_exception_arg, push_smallint, push, put_code, consume_chk, consume_gas, gas_check. vm_run. cbn [gas core core_gas core_with_gas].
  by destruct (_ <=? _).
Qed.

Lemma ctl_handler b H : jumps b H (S H) (c ← get_c2; jump c).
Proof. apply (ctl_bind _ _ _ _ (cont_wf H) _ (fun _ => b)); [done|apply ctl_get_c2|]. intros c Hc. by apply ctl_jump_max. Qed.

Lemma ctl_throw_arg b H excno arg : in_range excno -> @entry_ok vm_refs (cont_wf H) arg ->
  jumps b H (S (S H)) (throw_exception_arg excno arg).
Proof.
  intros He Ha st Hst. rewrite throw_run. cbv zeta. destruct (0 <=? _); [|done].
  set (st' := {| stack := _; code := _; core := _ |}).
  assert (sound false H st') as Hst'.
  { destruct Hst as (_ & Hc & _). split; [|by split]. apply Forall_cons_2; [|apply Forall_cons_2; [done|by apply Forall_nil]].
    by apply ok_int, small_int_ok. }
  pose proof (ctl_handler false H st' Hst') as J. unfold outcome_ok in *.
  assert (charges 0 1 (gas st) (gas st')) as C1.
  { apply (charges_weaken 50 0 1 1); [apply (charges_one 50); lia|lia|lia]. }
  destruct ((c ← get_c2; jump c) st') as [[z st2]|e k|k|]; [| |done|done].
  - destruct J as (? & ? & C2). split; [done|]. split; [done|]. exact (charges_trans _ _ _ _ _ _ _ C1 C2).
  - destruct J as (? & ? & C2). split; [done|]. split; [done|]. exact (charges_trans _ _ _ _ _ _ _ C1 C2).
Qed.

End CallSafe.
