(* ===== verification/ContOpsSafe.v ===== *)
(** * The control instructions keep the machine sound ([crypto/vm/contops.cpp], [cellops.cpp])

    From any sound machine whose continuations have height at most [H], an instruction leads to
    one of height at most [H + 2], and charges at most [H + 6] times. *)
From S2P Require Import Prelude BigInt BigIntOps BigIntShift BigIntLog RefInt Stack OpTable StackOps ArithOps ArithSpec TupleOps TupleSpec TupleSafe MachineTypes MachineKeeps Continuation Cells CellConstOps BuilderOps SliceOps CellSpec ContOps ContChange ContTypes ContJumps JumpSafe CallSafe.

Section ContOpsSafe.
Context `{CS : CellSystem}.

Abbreviation any := (fun _ => True).
Abbreviation entries_ok H := (Forall (@entry_ok vm_refs (cont_wf H))).
Abbreviation entry_wf H := (@entry_ok vm_refs (cont_wf H)).
Abbreviation landed := (fun z => z =? 0).

(** ** The end of an instruction *)

Lemma ctl_post {A} b H H1 H2 n n' (P : A -> Prop) b' m : ctl b H H1 n P b' m -> (H1 <= H2)%nat -> (n <= n')%nat -> ctl b H H2 n' P b' m.
Proof.
  intros Hm Hle Hn st Hst. pose proof (outcome_weaken _ _ n' _ P _ b' _ _ (Hm st Hst) Hn (fun a p => p) (fun a p q => q)) as O.
  destruct (m st) as [[a st']|e k|k|]; [| |done|done].
  - destruct O as (? & ? & ?). split; [done|]. split; [by eapply sound_raise|done].
  - destruct O as (? & ? & ?). split; [done|]. split; [by eapply core_raise|done].
Qed.

(** An instruction that may jump, and one that goes on with the code. *)
Abbreviation jump_instr H m := (ctl true H (S (S H)) (6 + H) any landed m).
Abbreviation data_instr H m := (ctl true H (S (S H)) (6 + H) any (fun _ => true) m).

Lemma end_zero H : jump_instr H (mret 0).
Proof. eapply ctl_post; [apply (ctl_zero H 0)|lia|lia]. Qed.
Lemma end_ret0 H m : data_instr H m -> jump_instr H (ret0 m).
Proof.
  intros Hm. rewrite <- (Nat.add_0_r (6 + H)). apply (ctl_seq _ _ (S (S H)) _ _ _ any _ (fun _ => true)); [done|done|].
  intros _ _. apply ctl_zero.
Qed.

(** ** Entries that are known to be there *)

Definition ctl_at {A} (d : Z) (b : bool) (H H' n : nat) (P : A -> Prop) (b' : A -> bool) (m : VM A) : Prop :=
  forall st, sound b H st -> d <= depth (stack st) -> outcome_ok H' n P b' (gas st) (m st).

Lemma at_any {A} d b H H' n (P : A -> Prop) b' m : ctl b H H' n P b' m -> ctl_at d b H H' n P b' m.
Proof. intros Hm st Hst _. by apply Hm. Qed.
Lemma ctl_checked {A} d b H H' n (P : A -> Prop) b' m : (H <= H')%nat -> ctl_at d b H H' n P b' m ->
  ctl b H H' n P b' (_ ← check_underflow [d]; m).
Proof.
  intros Hle Hm st Hst. vm_run. rewrite check_run. cbn [forallb]. destruct (Z.leb_spec d (depth (stack st))); cbn [andb]; [by apply Hm|].
  split; [done|]. split; [by eapply core_raise; [|apply Hst]|]. eapply charges_weaken; [apply charges_none|lia|lia].
Qed.

Lemma at_pop {A} d b H H' n (Q : A -> Prop) b' k : 0 <= d ->
  (forall e, entry_wf H e -> ctl_at d b H H' n Q b' (k e)) -> ctl_at (d + 1) b H H' n Q b' (e ← pop; k e).
Proof.
  intros Hd Hk st Hst Hdep. vm_run. destruct (stack st) as [|e s] eqn:Es; [unfold depth in Hdep; cbn in Hdep; lia|].
  rewrite (pop_run e s st Es). cbv beta iota. destruct Hst as (Hs & Hc & Hb). rewrite Es in Hs. inversion_clear Hs as [|? ? He Hs'].
  apply (Hk e He (with_stack st s)); [done|]. rewrite depth_cons in Hdep. cbn [stack with_stack]. autorewrite with vm_state. lia.
Qed.

(** Operations that take one entry off. *)
Definition pops1 {A} (m : VM A) : Prop := forall st a st', m st = Done (a, st') -> depth (stack st) <= depth (stack st') + 1.

Lemma at_bind {A B} d b H H' n (P : A -> Prop) (Q : B -> Prop) b' m k : (H <= H')%nat -> pops1 m ->
  ctl b H H 0 P (fun _ => b) m -> (forall a, P a -> ctl_at d b H H' n Q b' (k a)) -> ctl_at (d + 1) b H H' n Q b' (x ← m; k x).
Proof.
  intros Hle Hp Hm Hk st Hst Hdep. vm_run. specialize (Hm st Hst). destruct (m st) as [[a st']|e q|q|] eqn:E; [| |done|done].
  - destruct Hm as (Ha & Hs & C). specialize (Hp _ _ _ E). specialize (Hk a Ha st' Hs ltac:(lia)).
    destruct (k a st') as [[x st2]|e q|q|]; [| |done|done].
    + destruct Hk as (? & ? & C2). split; [done|]. split; [done|]. exact (charges_trans _ _ _ _ _ _ _ C C2).
    + destruct Hk as (? & ? & C2). split; [done|]. split; [done|]. exact (charges_trans _ _ _ _ _ _ _ C C2).
  - destruct Hm as (? & ? & C). split; [done|]. split; [by eapply core_raise|]. eapply charges_weaken; [exact C|lia|lia].
Qed.

Lemma pops1_pop_as {A} (f : StackEntry -> option A) : pops1 (pop_as f).
Proof.
  intros st a st' E. rewrite pop_as_run in E. destruct (stack st) as [|e s]; [done|]. destruct (f e); [|done]. injection E as _ <-.
  rewrite depth_cons. autorewrite with vm_state. lia.
Qed.
Lemma pops1_bind {A B} (m : VM A) (k : A -> VM B) : pops1 m -> (forall a st b st', k a st = Done (b, st') -> stack st' = stack st) ->
  pops1 (x ← m; k x).
Proof.
  intros Hm Hk st b st2 E. revert E. vm_run. destruct (m st) as [[a st']|e q|q|] eqn:Em; try discriminate. intros E.
  rewrite (Hk _ _ _ _ E). by eapply Hm.
Qed.
Lemma pops1_bool : pops1 pop_bool.
Proof.
  apply pops1_bind; [|by intros a st b st' [= _ <-]]. apply pops1_bind; [apply pops1_pop_as|]. intros a st b st' E.
  destruct (is_valid a); [by injection E as _ <-|done].
Qed.
Lemma pops1_smallint max min : pops1 (pop_smallint_range max min).
Proof.
  intros st a st' E. rewrite pop_smallint_run in E. unfold small_arg in E. destruct (stack st) as [|e s]; [done|].
  destruct (as_int e); [|done]. destruct (_ || _); [done|]. injection E as _ <-. rewrite depth_cons. autorewrite with vm_state. lia.
Qed.

Lemma ctl_smallint b H max min : - 2 ^ 31 <= min -> max < 2 ^ 31 ->
  ctl b H H 0 (fun v => min <= v <= max) (fun _ => b) (pop_smallint_range max min).
Proof. intros Hmin Hmax. apply ctl_data; [apply safe_pop_smallint|by apply typed_smallint]. Qed.
Lemma ctl_pop_chk b H : ctl b H H 0 (entry_wf H) (fun _ => b) pop_chk.
Proof. apply ctl_data; [apply safe_pop_chk|apply typed_pop_chk]. Qed.
Lemma ctl_pop_slice b H : ctl b H H 0 slice_ok (fun _ => b) pop_cellslice.
Proof. apply ctl_data; [apply safe_pop_as|apply typed_pop_slice]. Qed.
Lemma ctl_pop_finite b H : ctl b H H 0 vm_int (fun _ => b) pop_int_finite.
Proof. apply ctl_data; [vm_safe|apply typed_pop_int_finite]. Qed.
Lemma ctl_push_int b H x : vm_int x -> ctl b H H 0 any (fun _ => b) (push_int x).
Proof. intros Hx. apply ctl_data; [vm_safe|by apply typed_push_int, vm_int_storable]. Qed.

Lemma ctl_get_code H : ctl true H H 0 slice_ok (fun _ => true) get_code.
Proof.
  apply ctl_free. intros st Hst. unfold get_code. pose proof Hst as (_ & _ & Hb). destruct (code st); [|done]. by split.
Qed.
Lemma slice_entry H cs : slice_ok cs -> entry_wf H (se_slice cs).
Proof. apply ok_slice. Qed.
Lemma cell_ok H c : entry_wf H (se_cell c).
Proof. by apply ok_other. Qed.
Lemma ctl_push_code H : ctl true H H 0 any (fun _ => true) push_code.
Proof. apply (ctl_bind _ _ _ _ slice_ok _ (fun _ => true)); [done|apply ctl_get_code|]. intros cs Hcs. by apply ctl_push, slice_entry. Qed.

(** ** Reading the code *)

Lemma ctl_need_ref {A} H H' n (P : A -> Prop) b' pfx (k : Cell -> VM A) : (H <= H')%nat ->
  (forall c, ctl true H H' n P b' (k c)) -> ctl true H H' n P b' (_ ← need (have_refs 1); _ ← advance pfx; c ← fetch_ref; k c).
Proof.
  intros Hle Hk st Hst. pose proof Hst as (Hs & Hc & Hb). unfold need, get_code, advance, fetch_ref, fetch_ref_of, behind, put_code. vm_run.
  destruct (code st) as [cs|] eqn:E; [|done]. unfold guard_vm, have_refs.
  destruct (cs_refs cs) as [|c rest] eqn:Er.
  { split; [done|]. split; [by eapply core_raise|]. eapply charges_weaken; [apply charges_none|lia|lia]. }
  assert ((1 <=? Z.of_nat (length (c :: rest))) = true) as -> by (apply Z.leb_le; rewrite length_cons; lia). vm_run. cbn [code stack core option_map].
  rewrite E. cbn [option_map cs_refs cs_bits]. rewrite Er. cbv beta iota.
  apply (Hk c {| stack := stack st; code := Some _; core := core st |}). split; [done|]. split; [done|].
  apply (slice_ok_le cs); [done|cbn [cs_bits]; rewrite !length_drop; lia|cbn [cs_refs]; rewrite length_drop, <- Er; lia].
Qed.

Lemma ctl_need_slice {A} H H' n (P : A -> Prop) b' pfx bits refs (k : CellSlice -> VM A) : (H <= H')%nat -> 0 <= pfx -> 0 <= bits ->
  (forall c, slice_ok c -> ctl true H H' n P b' (k c)) ->
  ctl true H H' n P b' (_ ← need (have (pfx + bits)); _ ← need (have_refs refs); _ ← advance pfx; s ← fetch_subslice bits refs; k s).
Proof.
  intros Hle Hp Hbits Hk st Hst. pose proof Hst as (Hs & Hc & Hb). unfold need, get_code, advance, fetch_subslice, fetch_subslice_of, behind, put_code, get_code. vm_run.
  destruct (code st) as [cs|] eqn:E; [|done]. unfold guard_vm. vm_run.
  assert (outcome_ok H' n P b' (gas st) (Throw inv_opcode (core st))) as Ht.
  { split; [done|]. split; [by eapply core_raise|]. eapply charges_weaken; [apply charges_none|lia|lia]. }
  destruct (have (pfx + bits) cs) eqn:E1; [|exact Ht]. cbv beta iota. rewrite E. cbv beta iota. destruct (have_refs refs cs) eqn:E2; [|exact Ht].
  cbn [code]. rewrite E. cbn [option_map]. unfold prefetch_subslice.
  assert (have bits {| cs_bits := drop (Z.to_nat pfx) (cs_bits cs); cs_refs := cs_refs cs |} = true) as ->.
  { unfold have in *. cbn [cs_bits]. rewrite length_drop. apply Z.leb_le in E1. apply Z.leb_le. lia. }
  assert (have_refs refs {| cs_bits := drop (Z.to_nat pfx) (cs_bits cs); cs_refs := cs_refs cs |} = true) as -> by exact E2.
  cbn [andb]. unfold option_bind. cbv beta iota.
  match goal with |- outcome_ok _ _ _ _ _ (k ?c ?s) => refine (Hk c _ s _) end.
  - apply (slice_ok_le cs); [done|cbn [cs_bits]; rewrite length_take, length_drop; lia|cbn [cs_refs]; rewrite length_take; lia].
  - split; [done|]. split; [done|]. apply (slice_ok_le cs); [done|cbn [cs_bits]; rewrite !length_drop; lia|cbn [cs_refs]; rewrite length_drop; lia].
Qed.

Lemma need_no_refs {A} p (m : VM A) st : (_ ← need p; m) st = (_ ← need p; _ ← need (have_refs 0); m) st.
Proof.
  unfold need, get_code. vm_run. destruct (code st) as [cs|] eqn:E; [|done]. cbv beta iota. destruct (p cs); [|done].
  assert (have_refs 0 cs = true) as Hr by (apply Z.leb_le; lia). unfold guard_vm. vm_run. rewrite E. cbv beta iota. by rewrite Hr.
Qed.

End ContOpsSafe.

(** ** Steps *)

Ltac ctl_leaf :=
  first
  [ simple apply ctl_check | simple apply ctl_pop_bool | simple apply ctl_pop_cont | simple apply ctl_get_c0 | simple apply ctl_get_c1
  | simple apply ctl_get_c2 | simple apply ctl_get_c3 | simple apply ctl_get_cr | simple apply ctl_get_cp | simple apply ctl_push_code
  | simple apply ctl_smallint; [lia|lia] | simple apply ctl_pop_chk | simple apply ctl_pop_slice | simple apply ctl_pop_finite
  | simple apply ctl_guard; reflexivity | simple apply ctl_push_int; assumption
  | simple apply ctl_push_small; assumption
  | apply ctl_push; first [apply slice_entry; assumption | apply cell_ok | assumption | apply ok_cont; assumption] ].
Ltac ctl_step := eapply ctl_bind; [lia|ctl_leaf|intros ? ?; cbv beta in *].
Ltac ctl_pay := eapply ctl_charge; [lia|first [apply ctl_load | apply ctl_extract_cc; reflexivity]|intros ? ?; cbv beta in *].
Ltac ctl_end :=
  eapply ctl_post;
  [ first [ simple apply (ctl_zero _ 0) | simple apply ctl_call; assumption | simple apply ctl_call_args_max; assumption
          | simple apply ctl_jump_max; assumption | simple apply ctl_jump_args_max; assumption | simple apply ctl_ret_op
          | simple apply ctl_ret_args | simple apply ctl_ret_alt | simple apply ctl_repeat; assumption | simple apply ctl_again; assumption
          | simple apply ctl_until; assumption | simple apply ctl_loop_while; assumption
          | simple apply (ctl_ret _ _ 0); exact I | simple apply ctl_force_cp | ctl_leaf ]
  | lia | lia ].
Ltac ctl_go := repeat first [solve [ctl_end] | ctl_step | ctl_pay | simple apply ctl_if].

Section CellConstSafe.
Context `{CS : CellSystem}.

Abbreviation any := (fun _ => True).
Abbreviation data_instr H m := (ctl true H (S (S H)) (6 + H) any (fun _ => true) m).

(** ** Constants in the code *)

Lemma ref_to_cont_ok b H c : ctl b H H 1 (cont_wf H) (fun _ => b) (ref_to_cont c).
Proof.
  unfold ref_to_cont. ctl_pay. ctl_step. apply ctl_ret. apply wf_ord; [|done]. apply data_intro; [done|apply empty_sound].
Qed.

(** The continuation that runs a slice. *)
Lemma plain_ok H c cs : slice_ok cs -> cont_wf H (OrdCont (plain_data c) cs).
Proof. intros Hcs. apply wf_ord; [|done]. apply data_intro; [done|apply empty_sound]. Qed.

Lemma push_ref_ok H mode pfx : data_instr H (exec_push_ref mode pfx).
Proof.
  unfold exec_push_ref. apply ctl_need_ref; [lia|]. intros c. pose proof (plain_ok H) as Hp.
  apply ctl_if; [ctl_go|]. apply ctl_if; [|ctl_go]. ctl_pay. ctl_step. eapply ctl_post; [by apply ctl_push, ok_cont, plain_ok|lia|lia].
Qed.

Lemma push_slice_ok H bits refs pfx : 0 <= bits -> 0 <= pfx -> data_instr H (exec_push_slice_common bits refs pfx).
Proof. intros. unfold exec_push_slice_common. apply ctl_need_slice; [lia|done|done|]. intros c Hc%remove_trailing_ok. ctl_end. Qed.

Lemma push_cont_ok H args pfx : 0 <= pfx -> data_instr H (exec_push_cont args pfx).
Proof.
  intros Hp. unfold exec_push_cont. apply ctl_need_slice; [lia|done| |].
  { unfold cont_bits. pose proof (Z.land_nonneg args 127). lia. }
  intros c Hc. ctl_step. eapply ctl_post; [by apply ctl_push, ok_cont, plain_ok|lia|lia].
Qed.
Lemma push_cont_simple_ok H args pfx : 0 <= pfx -> data_instr H (exec_push_cont_simple args pfx).
Proof.
  intros Hp st. unfold exec_push_cont_simple. rewrite need_no_refs. revert st. apply ctl_need_slice; [lia|done| |].
  { unfold cont_simple_bits. pose proof (Z.land_nonneg args 15). lia. }
  intros c Hc. ctl_step. eapply ctl_post; [by apply ctl_push, ok_cont, plain_ok|lia|lia].
Qed.

End CellConstSafe.
