(* ===== verification/ControlSafe.v ===== *)
(** * Every control instruction keeps the machine sound ([crypto/vm/contops.cpp]) *)
From S2P Require Import Prelude BigInt BigIntOps BigIntShift BigIntLog RefInt Stack OpTable StackOps ArithOps ArithSpec TupleOps TupleSpec TupleSafe MachineTypes MachineKeeps MachineInv Continuation Cells CellConstOps BuilderOps SliceOps ContOps ContChange ContTypes ContJumps JumpSafe CallSafe ContOpsSafe.

Section ControlSafe.
Context `{CS : CellSystem}.

Abbreviation any := (fun _ => True).
Abbreviation entries_ok H := (Forall (@entry_ok vm_refs (cont_wf H))).
Abbreviation entry_wf H := (@entry_ok vm_refs (cont_wf H)).
Abbreviation landed := (fun z => z =? 0).
Abbreviation jump_instr H m := (ctl true H (S (S H)) (6 + H) any landed m).
Abbreviation data_instr H m := (ctl true H (S (S H)) (6 + H) any (fun _ => true) m).

(** ** Jumps *)

Lemma callcc_ok H : jump_instr H exec_callcc.
Proof. unfold exec_callcc. ctl_go. Qed.
Lemma callcc_args_ok H n k : jump_instr H (cont ← pop_cont; cc ← extract_cc 3 n k; _ ← push_cont cc; jump cont).
Proof. ctl_go. Qed.

Lemma do_with_ref_ok H pfx (f : Cont -> VM Z) : (forall c, cont_wf H c -> ctl true H (S (S H)) (5 + H) any landed (f c)) ->
  jump_instr H (exec_do_with_ref f pfx).
Proof.
  intros Hf. unfold exec_do_with_ref. apply ctl_need_ref; [lia|]. intros cell.
  eapply ctl_charge; [lia|apply ref_to_cont_ok|]. exact Hf.
Qed.
Lemma do_with_cell_ok H pfx (f : Cell -> VM Z) : (forall c, jump_instr H (f c)) -> jump_instr H (exec_do_with_cell f pfx).
Proof. intros Hf. unfold exec_do_with_cell. by apply ctl_need_ref; [lia|]. Qed.

(** ** Instructions *)

(** The outcome of an instruction: it goes on or ends, with at least [lo] charged. *)
Definition paid (lo : Z) (H n : nat) (g : GasLimits) (o : outcome (Z * VmState)) : Prop :=
  match o with
  | Done (z, st) => sound (z =? 0) H st /\ charges lo n g (gas st)
  | Throw e k => thrown e = true /\ core_wf H k /\ charges lo n g (core_gas k)
  | NoGas k => True
  | Undefined => False
  end.
Definition instr_sound (i : OpcodeInstr) : Prop := forall H opcode bits st, covers i opcode -> sound true H st ->
  paid 10 (S (S H)) (7 + H) (gas st) (dispatch_instr i opcode bits st).

Lemma paid_first c H H' n m st : 0 <= c <= 2 ^ 32 -> sound true H st -> ctl true H H' n any landed m ->
  paid c H' (S n) (gas st) ((_ ← consume_gas c; m) st).
Proof.
  intros Hc Hst Hm. unfold consume_gas. vm_run. set (st1 := {| stack := _; code := _; core := _ |}).
  assert (sound true H st1) as Hst1 by (destruct Hst as (? & (? & ? & ?) & ?); done).
  specialize (Hm st1 Hst1). pose proof (charges_one c (gas st) Hc) as C. change (consume c (gas st)) with (gas st1) in C.
  destruct (m st1) as [[z st2]|e k|k|]; [| |done|done].
  - destruct Hm as (_ & ? & C2). split; [done|]. replace c with (c + 0) by lia. exact (charges_trans _ _ _ _ _ _ _ C C2).
  - destruct Hm as (? & ? & C2). split; [done|]. split; [done|]. replace c with (c + 0) by lia. exact (charges_trans _ _ _ _ _ _ _ C C2).
Qed.
Lemma paid_lower lo lo' H n g o : lo' <= lo -> paid lo H n g o -> paid lo' H n g o.
Proof.
  intros Hl Ho. assert (forall g', charges lo n g g' -> charges lo' n g g') as W by (intros; by eapply charges_weaken).
  destruct o as [[z st]|e k|k|]; [|destruct Ho as (? & ? & ?)|done|done].
  - destruct Ho as [? ?]. split; [done|by apply W].
  - split; [done|]. split; [done|by apply W].
Qed.

Lemma ctl_advance H n : ctl true H H 0 any (fun _ => true) (advance n).
Proof. apply ctl_free. intros st (? & ? & Hb). split; [done|]. split; [|done]. split; [done|]. split; [done|]. by apply code_ok_skip. Qed.

Lemma pay_sound H bits m st : 0 <= bits <= 24 -> sound true H st -> jump_instr H m ->
  paid 10 (S (S H)) (7 + H) (gas st) ((_ ← consume_gas (gas_per_instr + bits * gas_per_bit); m) st).
Proof.
  intros Hb Hst Hm. eapply paid_lower; [|apply (paid_first _ H); [|done|exact Hm]]; unfold gas_per_instr, gas_per_bit; lia.
Qed.
Lemma short_sound H (b : bool) m : jump_instr H m -> jump_instr H (if b then throw inv_opcode else m).
Proof. intros Hm. apply ctl_if; [|done]. apply ctl_throw; [done|lia]. Qed.

Lemma jump_sound opcode opc_bits m : 0 <= opc_bits <= 24 -> (forall H, jump_instr H m) -> instr_sound (mkjump opcode opc_bits m).
Proof.
  intros Hb Hm H opc bits st _ Hst. apply pay_sound; [done|done|]. apply short_sound. eapply ctl_bind; [lia|apply ctl_advance|]. done.
Qed.
Lemma jump_arg_sound lo hi tot_bits m : 0 <= tot_bits <= 24 ->
  (forall H opc, lo <= opc < hi -> jump_instr H (m (Z.shiftr opc (max_opcode_bits - tot_bits)))) -> instr_sound (OpcodeInstrFixed lo hi tot_bits m).
Proof.
  intros Hb Hm H opc bits st Hc Hst. apply pay_sound; [done|done|]. apply short_sound. eapply ctl_bind; [lia|apply ctl_advance|].
  intros ? _. by apply Hm.
Qed.
Lemma jump_fixed_sound opcode opc_bits arg_bits m : 0 <= opc_bits + arg_bits <= 24 -> (forall H args, jump_instr H (m args)) ->
  instr_sound (mkjump_fixed opcode opc_bits arg_bits m).
Proof. intros Hb Hm. apply jump_arg_sound; [done|]. intros. apply Hm. Qed.
Lemma jump_range_sound lo hi tot_bits arg_bits m : 0 <= tot_bits <= 24 -> (forall H args, jump_instr H (m args)) ->
  instr_sound (mkjump_range lo hi tot_bits arg_bits m).
Proof. intros Hb Hm. apply jump_arg_sound; [done|]. intros. apply Hm. Qed.
Lemma any_ext_sound lo hi tot_bits m len : 0 <= tot_bits <= 24 -> (forall H args, jump_instr H (m args tot_bits)) ->
  instr_sound (OpcodeInstrExt lo hi tot_bits m len).
Proof. intros Hb Hm H opc bits st _ Hst. apply pay_sound; [done|done|]. by apply short_sound. Qed.
Lemma ext_sound opcode opc_bits arg_bits m len : 0 <= opc_bits + arg_bits <= 24 ->
  (forall H args, jump_instr H (m args (opc_bits + arg_bits))) -> instr_sound (mkext opcode opc_bits arg_bits m len).
Proof. apply any_ext_sound. Qed.
Lemma ext_range_sound lo hi tot_bits arg_bits m len : 0 <= tot_bits <= 24 -> (forall H args, jump_instr H (m args tot_bits)) ->
  instr_sound (mkextrange lo hi tot_bits arg_bits m len).
Proof. apply any_ext_sound. Qed.

Lemma simple_sound opcode opc_bits m : 0 <= opc_bits <= 24 -> (forall H, data_instr H m) -> instr_sound (mksimple opcode opc_bits m).
Proof. intros Hb Hm. apply jump_sound; [done|]. intros H. by apply end_ret0. Qed.
Lemma fixed_sound opcode opc_bits arg_bits m : 0 <= opc_bits + arg_bits <= 24 -> (forall H args, data_instr H (m args)) ->
  instr_sound (mkfixed opcode opc_bits arg_bits m).
Proof. intros Hb Hm. apply jump_fixed_sound; [done|]. intros H args. by apply end_ret0. Qed.
Lemma range_sound lo hi tot_bits arg_bits m : 0 <= tot_bits <= 24 -> (forall H args, data_instr H (m args)) ->
  instr_sound (mkfixedrange lo hi tot_bits arg_bits m).
Proof. intros Hb Hm. apply jump_range_sound; [done|]. intros H args. by apply end_ret0. Qed.
Lemma dummy_sound i : is_dummy i = true -> instr_sound i.
Proof.
  destruct i; try discriminate. intros _ H opc bits st _ Hst. apply (pay_sound H 0); [lia|done|]. apply ctl_throw; [done|lia].
Qed.

(** An instruction on data. *)
Lemma data_sound_instr i : instr_safe i -> (forall CK, @instr_typed vm_refs CK i) -> instr_sound i.
Proof.
  intros Hs Ht H opc bits st Hc (Hst & Hk & Hcode). specialize (Hs opc bits Hc st). specialize (Ht (cont_wf H) opc bits Hc st Hst).
  assert (forall k, spends 10 2 (core st) k -> core_wf (S (S H)) k /\ charges 10 (7 + H) (gas st) (core_gas k)) as W.
  { intros k (g & C & ->). split; [|by eapply charges_weaken; [exact C|lia|lia]]. apply (core_raise H); [lia|exact Hk]. }
  destruct (dispatch_instr i opc bits st) as [[z st']|e k|k|]; [| |done|done].
  - destruct Ht as (<- & Hst' & [? ?]%W & Hcode'). split; [|done]. split; [by apply (entries_raise H); [lia|]|]. split; [done|]. auto.
  - destruct Ht as (? & [? ?]%W). done.
Qed.

End ControlSafe.

(** An instruction of each kind, and the definition of the operation at hand. *)
Ltac term_head t := match t with ?f _ => term_head f | _ => t end.
Ltac ctl_unfold := match goal with |- ctl _ _ _ _ _ _ ?m => let h := term_head m in unfold h end; cbv zeta.
Ltac instr_kind :=
  first [ simple apply jump_sound; [lia|intros H] | simple apply jump_fixed_sound; [lia|intros H args]
        | simple apply jump_range_sound; [lia|intros H args] | simple apply ext_sound; [lia|intros H args]
        | simple apply ext_range_sound; [lia|intros H args]
        | simple apply simple_sound; [lia|intros H] | simple apply fixed_sound; [lia|intros H args]
        | simple apply range_sound; [lia|intros H args] ].
Ltac destruct_if := match goal with |- context [if ?b then _ else _] => destruct b end.
