(* ===== verification/CellSafe.v ===== *)
(** * The instructions on cells keep the machine sound ([crypto/vm/cellops.cpp])

    They leave slices and builders of at most 1023 bits and 4 references, push 257-bit integers,
    and dereference nothing that is not there. *)
From S2P Require Import Prelude BitMem BitCmp BigInt BigIntOps BigIntLog BigIntBits BigIntBytes RefInt Stack OpTable ArithSpec MachineTypes MachineKeeps Continuation Cells CellConstOps BuilderOps SliceOps CellSpec ContTypes ContJumps JumpSafe CallSafe ContOpsSafe ControlSafe.

Section CellSteps.
Context `{CS : CellSystem}.

Abbreviation any := (fun _ => True).
Abbreviation entry_wf H := (@entry_ok vm_refs (cont_wf H)).

Lemma ctl_pop_builder b H : ctl b H H 0 builder_ok (fun _ => b) pop_builder.
Proof. apply ctl_data; [apply safe_pop_as|apply typed_pop_builder]. Qed.
Lemma ctl_pop_int b H : ctl b H H 0 vm_int (fun _ => b) pop_int.
Proof. apply ctl_data; [apply safe_pop_as|apply typed_pop_int]. Qed.
Lemma ctl_pop_cell b H : ctl b H H 0 any (fun _ => b) pop_cell.
Proof. apply ctl_data; [apply safe_pop_as|by apply typed_pop_as]. Qed.
Lemma ctl_pop_maybe_cell b H : ctl b H H 0 any (fun _ => b) pop_maybe_cell.
Proof.
  eapply (ctl_weaken b H H 0 0 (fun o => forall c, o = Some c -> True) any (fun _ => b)); [|done|done|done].
  apply ctl_data; [unfold pop_maybe_cell, pop_maybe; vm_safe|by apply typed_pop_maybe].
Qed.
Lemma ctl_push_quiet b H x : vm_int x -> ctl b H H 0 any (fun _ => b) (push_int_quiet x true).
Proof. intros Hx. apply ctl_data; [unfold push_int_quiet; vm_safe|by apply typed_push_quiet, vm_int_storable]. Qed.
Lemma ctl_push_number b H x : wf word_cnt x -> ctl b H H 0 any (fun _ => b) (push_int x).
Proof. intros Hx. apply ctl_data; [vm_safe|by apply typed_push_int, number_storable; right]. Qed.
Lemma ctl_push_slice b H cs : slice_ok cs -> ctl b H H 0 any (fun _ => b) (push_cellslice cs).
Proof. intros Hc. by apply ctl_push, slice_entry. Qed.
Lemma ctl_push_builder b H cb : builder_ok cb -> ctl b H H 0 any (fun _ => b) (push_builder cb).
Proof. intros Hc. by apply ctl_push, ok_builder. Qed.
Lemma ctl_push_cell b H c : ctl b H H 0 any (fun _ => b) (push_cell c).
Proof. apply ctl_push, cell_ok. Qed.
Lemma ctl_push_bool b H v : ctl b H H 0 any (fun _ => b) (push_bool v).
Proof. apply ctl_push_small. unfold in_range, Half. destruct v; lia. Qed.

Lemma ctl_pass {A} b H (P : A -> Prop) o : (forall a, o = Some a -> P a) -> ctl b H H 0 P (fun _ => b) (ensure_pass o).
Proof. intros Hp. destruct o as [a|]; [by apply (ctl_ret _ _ 0), Hp|]. by apply ctl_throw. Qed.
Lemma ctl_some {A} b H (P : A -> Prop) o : (exists a, o = Some a /\ P a) -> ctl b H H 0 P (fun _ => b) (unchecked o).
Proof. intros (a & -> & Ha). by apply (ctl_ret _ _ 0). Qed.
Lemma ctl_space b H bits refs cb : ctl b H H 0 (fun _ => can_extend_by bits refs cb = true) (fun _ => b) (check_space bits refs cb).
Proof. unfold check_space, guard_vm. destruct (can_extend_by bits refs cb); [by apply (ctl_ret _ _ 0)|by apply ctl_throw]. Qed.
Lemma ctl_finalize b H special cb : ctl b H H 1 any (fun _ => b) (finalize_copy special cb).
Proof.
  unfold finalize_copy. eapply (ctl_seq _ _ H _ 1 0 any _ (fun _ => b)); [done| |intros _ _; by apply ctl_pass].
  apply ctl_data; [vm_safe|]. apply (typed_gas (n := 0)). unfold cell_create_gas_price. lia.
Qed.
End CellSteps.

(** ** Steps *)

Ltac cell_side := first [assumption | by apply behind_ok | eassumption | done].
Ltac cell_leaf :=
  first
  [ ctl_leaf | simple apply ctl_pop_builder | simple apply ctl_pop_int | simple apply ctl_pop_cell | simple apply ctl_pop_maybe_cell
  | simple apply ctl_push_quiet; assumption | simple apply ctl_push_number; assumption | simple apply ctl_push_slice; cell_side
  | simple apply ctl_push_builder; cell_side | simple apply ctl_push_cell | simple apply ctl_push_bool | simple apply ctl_space
  | simple apply ctl_push_small; unfold in_range, Half; lia | apply ctl_pop_cell | apply ctl_pop_maybe_cell ].
Ltac cell_step := eapply ctl_bind; [lia|cell_leaf|intros ? ?; cbv beta in *].
Ltac cell_end :=
  first [ simple apply ctl_throw; [reflexivity|lia]
        | eapply ctl_post; [first [cell_leaf | simple apply (ctl_ret _ _ 0); exact I]|lia|lia] ].
Ltac cell_go := repeat first [solve [cell_end] | cell_step | simple apply ctl_if].

Section CellSafe.
Context `{CS : CellSystem}.

Abbreviation any := (fun _ => True).
Abbreviation data_instr H m := (ctl true H (S (S H)) (6 + H) any (fun _ => true) m).

(** ** Comparisons *)

Lemma truth_range b : in_range (truth b).
Proof. unfold in_range, Half. destruct b; cbn; lia. Qed.
Lemma count_range b cs : slice_ok cs -> in_range (count_leading b cs) /\ in_range (count_trailing b cs).
Proof.
  intros R%cs_size_range. unfold cs_size in R. unfold count_leading, count_trailing.
  pose proof (run_length_range b (cs_bits cs)). pose proof (run_length_range b (rev (cs_bits cs))) as L. rewrite length_rev in L.
  unfold in_range, Half. lia.
Qed.

Lemma un_cmp_ok H f : data_instr H (exec_un_cs_cmp f).
Proof. unfold exec_un_cs_cmp. pose proof truth_range as T. cell_go. by eapply ctl_post; [apply ctl_push_small, T|lia|lia]. Qed.
Lemma bin_cmp_ok H f : data_instr H (exec_bin_cs_cmp f).
Proof. unfold exec_bin_cs_cmp. pose proof truth_range as T. cell_go. by eapply ctl_post; [apply ctl_push_small, T|lia|lia]. Qed.
Lemma iun_cmp_ok H f : (forall cs, slice_ok cs -> in_range (f cs)) -> data_instr H (exec_iun_cs_cmp f).
Proof. intros Hf. unfold exec_iun_cs_cmp. cell_go. by eapply ctl_post; [apply ctl_push_small, Hf|lia|lia]. Qed.
Lemma ibin_cmp_ok H f : (forall cs1 cs2, in_range (f cs1 cs2)) -> data_instr H (exec_ibin_cs_cmp f).
Proof. intros Hf. unfold exec_ibin_cs_cmp. cell_go. by eapply ctl_post; [apply ctl_push_small, Hf|lia|lia]. Qed.

Lemma cell_cmp_ops_sound : Forall instr_sound cell_cmp_ops.
Proof.
  unfold cell_cmp_ops.
  repeat (apply Forall_cons_2; [instr_kind; first [ apply un_cmp_ok | apply bin_cmp_ok | apply iun_cmp_ok; intros; by apply count_range
    | apply ibin_cmp_ok; intros cs1 cs2; pose proof (lex_bits_range (cs_bits cs1) (cs_bits cs2)); unfold lex_cmp, in_range, Half; lia ]|]).
  apply Forall_nil.
Qed.

(** ** Building cells *)

Lemma store_fail_ok H code builder x args : in_range code -> builder_ok builder -> vm_int x -> data_instr H (store_int_common_fail code builder x args).
Proof.
  intros Hc Hb Hx. unfold store_int_common_fail. eapply (ctl_bind _ _ _ _ any _ (fun _ => true)); [lia| |intros ? _].
  - apply ctl_if; cell_step; cell_leaf.
  - by eapply ctl_post; [apply ctl_push_small|lia|lia].
Qed.

Lemma pop_operands_ok H (rev : bool) : ctl true H H 0 (fun p => builder_ok (fst p) /\ vm_int (snd p)) (fun _ => true)
  (if negb rev then b ← pop_builder; x ← pop_int; mret (b, x) else x ← pop_int; b ← pop_builder; mret (b, x)).
Proof. apply ctl_if; repeat cell_step; by apply (ctl_ret _ _ 0). Qed.

Lemma store_int_ok H bits args : 0 <= bits -> data_instr H (exec_store_int_common bits args).
Proof.
  intros Hb. unfold exec_store_int_common. cbv zeta. eapply ctl_bind; [lia|apply pop_operands_ok|]. intros [builder x] [Hbd Hx]. cbn [fst snd] in *.
  assert (in_range (-1) /\ in_range 1) as [R1 R2] by (unfold in_range, Half; lia).
  destruct (can_extend_by bits 0 builder) eqn:E; cbn [negb]; cbv iota.
  - apply ctl_if; [apply ctl_if; [by apply store_fail_ok|cell_end]|].
    eapply ctl_bind; [lia|apply (ctl_pass _ _ builder_ok)|].
    + intros b'. by apply store_int256_ok.
    + intros b' Hb'. cell_go.
  - apply ctl_if; [by apply store_fail_ok|cell_end].
Qed.

Lemma byte_bits args : 0 <= Z.land args 255 + 1 <= 256.
Proof. change 255 with (Z.ones 8). rewrite Z.land_ones by lia. pose proof (Z.mod_pos_bound args (2 ^ 8) ltac:(lia)). lia. Qed.

Lemma exec_store_int_ok H sgnd args : data_instr H (exec_store_int sgnd args).
Proof. unfold exec_store_int. cbv zeta. cell_step. apply store_int_ok. pose proof (byte_bits args). lia. Qed.
Lemma exec_store_int_var_ok H args : data_instr H (exec_store_int_var args).
Proof.
  unfold exec_store_int_var. cbv zeta. cell_step. eapply ctl_bind; [lia|apply ctl_smallint; [lia|destruct (negb _); cbn; lia]|].
  intros bits Hb. cbv beta in Hb. apply store_int_ok. lia.
Qed.
Lemma exec_store_int_fixed_ok H args : data_instr H (exec_store_int_fixed args).
Proof. unfold exec_store_int_fixed. cbv zeta. cell_step. apply store_int_ok. pose proof (byte_bits args). lia. Qed.

Lemma store_le_ok H args : data_instr H (exec_store_le_int args).
Proof.
  unfold exec_store_le_int. cbv zeta. set (bits := if Z.testbit args 1 then 64 else 32). set (sgnd := negb (Z.testbit args 0)). do 4 cell_step.
  match goal with Hx : vm_int ?x |- _ => destruct (fits_bits_any x bits sgnd) eqn:F; cbn [negb]; cbv iota; [|cell_end]; destruct Hx as [->|[Hw Hv]]; [by rewrite fits_bits_any_nan in F|] end.
  assert (0 <= bits /\ bits = 8 * Z.of_nat (Z.to_nat (Z.shiftr bits 3)) /\ (Z.to_nat (Z.shiftr bits 3) <= max_bytes)%nat) as (Hb & Eb & Hn).
  { unfold bits. destruct (Z.testbit args 1); (split; [lia|split; [reflexivity|by apply Nat.leb_le]]). }
  apply fits_bits_any_value in F; [|done..]. rewrite Eb in F. match goal with Hc : can_extend_by _ _ _ = true |- _ => rewrite Eb in Hc; rename Hc into Hsp end.
  match goal with Hcb : builder_ok ?cb |- _ => destruct (store_le_value _ _ sgnd cb Hcb Hw Hn F Hsp) as (buff & Ex & L & _ & Es); rewrite Ex end.
  eapply (ctl_bind _ _ _ _ (fun b => b = buff)); [lia|apply ctl_some; by exists buff|]. intros ? ->. rewrite Es.
  eapply (ctl_bind _ _ _ _ builder_ok); [lia|apply ctl_pass|intros b' Hb'; cell_go]. intros b' [= <-]. apply more_ok; [done|]. rewrite length_mem_bits, L.
  by replace (Z.of_nat (8 * Z.to_nat (Z.shiftr bits 3))) with (8 * Z.of_nat (Z.to_nat (Z.shiftr bits 3))) by lia.
Qed.

(** The end of the instructions that store: the builder, or the operands again. *)
Lemma stored_ok H (o : option CellBuilder) (quiet : bool) : (forall b', o = Some b' -> builder_ok b') ->
  ctl true H (S (S H)) (4 + H) any (fun _ => true) (b' ← ensure_pass o; _ ← push_builder b'; if quiet then push_smallint 0 else mret tt).
Proof. intros Ho. eapply ctl_bind; [lia|by apply ctl_pass|]. intros b' Hb'. cell_go. Qed.
Lemma refused_ok H (quiet : bool) (m1 m2 : VM unit) : ctl true H H 0 any (fun _ => true) m1 -> ctl true H H 0 any (fun _ => true) m2 ->
  data_instr H (if negb quiet then throw cell_ov else _ ← m1; _ ← m2; push_smallint (-1)).
Proof. intros H1 H2. apply ctl_if; [cell_end|]. eapply ctl_bind; [lia|done|]. intros ? _. eapply ctl_bind; [lia|done|]. intros ? _. cell_end. Qed.

Ltac refused := apply refused_ok; cell_leaf.
Ltac stored := eapply ctl_post; [apply stored_ok; intros ?|lia|lia].

Lemma store_ref_instr_ok H quiet : data_instr H (exec_store_ref quiet) /\ data_instr H (exec_store_ref_rev quiet).
Proof.
  split; [unfold exec_store_ref|unfold exec_store_ref_rev]; repeat cell_step; (apply ctl_if; [refused|stored; by apply store_ref_ok]).
Qed.
Lemma store_as_ref_ok H quiet : data_instr H (exec_store_builder_as_ref quiet) /\ data_instr H (exec_store_builder_as_ref_rev quiet).
Proof.
  split; [unfold exec_store_builder_as_ref|unfold exec_store_builder_as_ref_rev]; repeat cell_step;
    (apply ctl_if; [refused|]; eapply ctl_charge; [lia|apply ctl_finalize|]; intros c _; stored; by apply store_ref_ok).
Qed.
Lemma store_slice_ok H quiet : data_instr H (exec_store_slice quiet) /\ data_instr H (exec_store_slice_rev quiet).
Proof.
  split; [unfold exec_store_slice|unfold exec_store_slice_rev]; repeat cell_step; (apply ctl_if; [refused|stored; by apply append_ok]).
Qed.
Lemma store_builder_ok H quiet : data_instr H (exec_store_builder quiet) /\ data_instr H (exec_store_builder_rev quiet).
Proof.
  split; [unfold exec_store_builder|unfold exec_store_builder_rev]; repeat cell_step; (apply ctl_if; [refused|stored; by apply append_ok]).
Qed.

Lemma end_cell_ok H : data_instr H exec_builder_to_cell /\ data_instr H exec_builder_to_special_cell.
Proof.
  split; [unfold exec_builder_to_cell|unfold exec_builder_to_special_cell]; repeat cell_step; (eapply ctl_charge; [lia|apply ctl_finalize|]; intros c _; cell_end).
Qed.
Lemma new_builder_ok H : data_instr H exec_new_builder.
Proof. eapply ctl_post; [apply ctl_push_builder; by split|lia|lia]. Qed.

(** References of the code that are known to be there. *)
Lemma code_refs_ok n H builder st cs : sound true H st -> code st = Some cs -> (n <= length (cs_refs cs))%nat -> builder_ok builder ->
  outcome_ok H 0 builder_ok (fun _ => true) (gas st) (store_code_refs n builder st).
Proof.
  revert builder st cs. induction n as [|n IH]; intros builder st cs Hst E Hn Hb; [by apply (ctl_ret true H 0)|].
  cbn [store_code_refs]. unfold fetch_ref, get_code, fetch_ref_of. vm_run. rewrite E. destruct (cs_refs cs) as [|c refs] eqn:Er; [cbn in Hn; lia|].
  unfold put_code, ensure_pass. vm_run. cbn [stack core]. destruct Hst as (Hs & Hc & Hcode). rewrite E in Hcode.
  destruct (store_ref_bool c builder) as [b'|] eqn:Eb.
  - apply (IH b' {| stack := stack st; code := Some (behind 0 1 cs); core := core st |} (behind 0 1 cs)); [|done| |by eapply store_ref_ok].
    + split; [done|]. split; [done|]. by apply behind_ok.
    + cbn [behind cs_refs]. rewrite length_drop, Er. cbn in *. lia.
  - split; [done|]. split; [done|]. apply charges_none.
Qed.

(** The operands of such an instruction, with the code as it is. *)
Lemma const_ref_rest refs H st cs : sound true H st -> code st = Some cs -> (Z.to_nat refs <= length (cs_refs cs))%nat ->
  outcome_ok H 0 any (fun _ => true) (gas st)
    ((_ ← check_underflow [1]; builder ← pop_builder; _ ← check_space 0 refs builder; b' ← store_code_refs (Z.to_nat refs) builder; push_builder b') st).
Proof.
  intros Hst E Hr. vm_run. rewrite check_run. cbn [forallb]. assert (forall e, thrown e = true -> outcome_ok H 0 any (fun _ : unit => true) (gas st) (Throw e (core st))) as Ht.
  { intros e He. split; [done|]. split; [apply Hst|apply charges_none]. }
  destruct (1 <=? depth (stack st)); cbn [andb]; [|by apply Ht]. unfold pop_builder. rewrite pop_as_run.
  destruct (stack st) as [|e s] eqn:Es; [by apply Ht|]. destruct (as_builder e) as [builder|] eqn:Eb; [|by apply Ht].
  destruct Hst as (Hs & Hc & Hcode). rewrite Es in Hs. inversion_clear Hs as [|? ? He Hs'].
  assert (builder_ok builder) as Hb by (inversion He; subst; simplify_eq/=; done).
  unfold check_space, guard_vm. destruct (can_extend_by 0 refs builder); [|by apply Ht]. vm_run.
  eapply (outcome_bind H H 0 0 builder_ok any (fun _ => true) (fun _ => true) (gas st)); [done| |intros b' Hb'; by apply ctl_push_builder].
  by apply (code_refs_ok _ H builder (with_stack st s) cs).
Qed.

Lemma store_const_ref_ok H args pfx : data_instr H (exec_store_const_ref args pfx).
Proof.
  unfold exec_store_const_ref. cbv zeta. set (refs := Z.land args 1 + 1). clearbody refs. eapply (ctl_post true H H _ 0); [|lia|lia]. intros st Hst.
  pose proof Hst as (Hs & Hk & Hc). unfold need, get_code, advance. vm_run. destruct (code st) as [cs|] eqn:E; [|done].
  unfold guard_vm, have_refs. destruct (Z.leb_spec refs (Z.of_nat (length (cs_refs cs)))); [|split; [done|]; split; [exact Hk|apply charges_none]].
  vm_run. rewrite E. cbn [option_map]. set (st1 := {| stack := stack st; code := _; core := core st |}).
  eapply (const_ref_rest refs H st1); [|reflexivity|cbn [cs_refs]; lia]. split; [done|]. split; [done|]. by apply (code_ok_skip true (Z.to_nat pfx) (Some cs)).
Qed.

Lemma const_slice_ok H args pfx : 0 <= pfx -> data_instr H (exec_store_const_slice args pfx).
Proof.
  intros Hp. unfold exec_store_const_slice. apply ctl_need_slice; [lia|done| |].
  { unfold const_slice_bits. pose proof (Z.land_nonneg args 7). lia. }
  intros s Hs%remove_trailing_ok. cbv zeta. cell_step. cell_step. eapply ctl_bind; [lia|apply (ctl_pass _ _ builder_ok)|].
  - intros b'. by apply append_ok.
  - intros b' Hb'. cell_end.
Qed.

(** ** The space of a builder *)

Lemma s32_small v : in_range (s32 v).
Proof. pose proof (wraps_range 32 v ltac:(lia)). unfold in_range, Half. lia. Qed.
Lemma int_builder_ok H f : data_instr H (exec_int_builder_func f).
Proof. unfold exec_int_builder_func. cell_go. by eapply ctl_post; [apply ctl_push_small, s32_small|lia|lia]. Qed.
Lemma int2_builder_ok H f : data_instr H (exec_2int_builder_func f).
Proof.
  unfold exec_2int_builder_func. cell_go. eapply ctl_bind; [lia|apply ctl_push_small, s32_small|]. intros ? _.
  by eapply ctl_post; [apply ctl_push_small, s32_small|lia|lia].
Qed.
Lemma chk_answer_ok H (quiet : bool) bits refs builder : data_instr H
  (if quiet then push_smallint (if can_extend_by bits refs builder then -1 else 0) else check_space bits refs builder).
Proof.
  apply ctl_if.
  - eapply ctl_post; [apply ctl_push_small; unfold in_range, Half; destruct (can_extend_by _ _ _); lia|lia|lia].
  - eapply (ctl_weaken _ _ _ 0); [eapply ctl_post; [apply ctl_space|lia|lia]|lia|done|done].
Qed.
Lemma chk_bits_ok H quiet args : data_instr H (exec_builder_chk_bits quiet args).
Proof. unfold exec_builder_chk_bits. cbv zeta. cell_step. cell_step. apply chk_answer_ok. Qed.
Lemma small_if_ok H (b : bool) max d : 0 <= d <= max -> max < 2 ^ 31 ->
  ctl true H H 0 (fun v => 0 <= v <= max) (fun _ => true) (if b then pop_smallint_range max 0 else mret d).
Proof. intros Hd Hm. apply ctl_if; [apply ctl_smallint; lia|]. apply (ctl_ret _ _ 0). lia. Qed.
Lemma chk_bits_refs_ok H mode : data_instr H (exec_builder_chk_bits_refs mode).
Proof.
  unfold exec_builder_chk_bits_refs. cell_step. eapply ctl_bind; [lia|apply small_if_ok; lia|]. intros refs _.
  eapply ctl_bind; [lia|apply small_if_ok; lia|]. intros bits _. cell_step. apply chk_answer_ok.
Qed.

Lemma store_same_instr_ok H v : data_instr H (exec_store_same v).
Proof.
  unfold exec_store_same. cell_step. eapply (ctl_bind _ _ _ _ any _ (fun _ => true)); [lia| |intros x _].
  { apply ctl_if; [|by apply (ctl_ret _ _ 0)]. eapply ctl_weaken; [apply ctl_smallint; lia|lia|done|done]. }
  cell_step. cell_step. cell_step. eapply ctl_post; [apply ctl_push_builder; apply store_same_ok; [done|lia]|lia|lia].
Qed.

Lemma cell_serialize_ops_sound : Forall instr_sound cell_serialize_ops.
Proof.
  unfold cell_serialize_ops.
  repeat (apply Forall_cons_2;
    [instr_kind; first
      [ apply new_builder_ok | apply end_cell_ok | apply exec_store_int_ok | apply exec_store_int_var_ok | apply exec_store_int_fixed_ok | apply store_le_ok
      | apply store_ref_instr_ok | apply store_as_ref_ok | apply store_slice_ok | apply store_builder_ok
      | apply end_ret0, store_const_ref_ok | apply end_ret0, const_slice_ok; lia | apply int_builder_ok | apply int2_builder_ok
      | apply chk_bits_ok | apply chk_bits_refs_ok | apply store_same_instr_ok ]|]).
  apply Forall_nil.
Qed.

(** ** Reading cells *)

Lemma to_slice_ok H : data_instr H exec_cell_to_slice /\ data_instr H exec_cell_to_slice_maybe_special.
Proof.
  split; [unfold exec_cell_to_slice|unfold exec_cell_to_slice_maybe_special]; cell_step.
  - eapply ctl_charge; [lia|apply ctl_load|]. intros cs Hcs. cell_end.
  - eapply ctl_charge; [lia|apply ctl_load_special|]. intros [cs sp] Hcs. cbn [fst] in Hcs. cell_go.
Qed.
Lemma special_cell_ok H quiet : data_instr H (exec_load_special_cell quiet).
Proof. unfold exec_load_special_cell. cell_go. Qed.
Lemma chk_empty_ok H : data_instr H exec_slice_chk_empty.
Proof. unfold exec_slice_chk_empty. cell_go. Qed.

Lemma load_int_ok H bits mode : 0 <= bits <= 257 -> data_instr H (exec_load_int_common bits mode).
Proof.
  intros Hb. unfold exec_load_int_common. cell_step. match goal with cs : CellSlice |- _ => destruct (have bits cs) eqn:Eh end; cbn [negb]; cbv iota zeta.
  - eapply (ctl_bind _ _ _ _ any _ (fun _ => true)); [lia| |intros ? _; cell_go]. apply ctl_if.
    + eapply ctl_bind; [lia|apply ctl_some; by apply prefetch_int256_value|]. intros x [Hx _]. cell_leaf.
    + eapply (ctl_bind _ _ _ _ (fun r => wf word_cnt (fst r) /\ slice_ok (snd r))); [lia|apply ctl_some|].
      * match goal with |- exists _, fetch_int256 _ ?s ?c = _ /\ _ => destruct (fetch_int256_value bits s c ltac:(done) Hb Eh) as (x & E & W & _) end.
        eexists. split; [exact E|]. split; [done|by apply behind_ok].
      * intros [x cs'] [Hx Hcs']. cbn [fst snd] in *. cell_go.
  - apply ctl_if; [cell_end|]. eapply (ctl_bind _ _ _ _ any _ (fun _ => true)); [lia| |intros ? _; cell_end].
    apply ctl_if; [cell_leaf|by apply (ctl_ret _ _ 0)].
Qed.
Lemma load_int_fixed_ok H mode args : data_instr H (exec_load_int_fixed mode args).
Proof. unfold exec_load_int_fixed. cbv zeta. pose proof (byte_bits args). apply load_int_ok. lia. Qed.
Lemma load_int_fixed2_ok H args : data_instr H (exec_load_int_fixed2 args).
Proof. unfold exec_load_int_fixed2. cbv zeta. pose proof (byte_bits args). apply load_int_ok. lia. Qed.
Lemma bit_bound args : 0 <= Z.land args 1 <= 1.
Proof. assert (Z.land args 1 = args mod 2) as -> by (apply (Z.land_ones args 1); lia). pose proof (Z.mod_pos_bound args 2 ltac:(lia)). lia. Qed.
Lemma load_int_var_ok H args : data_instr H (exec_load_int_var args).
Proof.
  unfold exec_load_int_var. pose proof (bit_bound args). cell_step. eapply ctl_bind; [lia|apply ctl_smallint; lia|]. intros bits Hb. cbv beta in Hb. apply load_int_ok. lia.
Qed.
Lemma preload_uint_ok H args : data_instr H (exec_preload_uint_fixed_0e args).
Proof.
  unfold exec_preload_uint_fixed_0e. cbv zeta. assert (0 <= Z.shiftl (Z.land args 7 + 1) 5 <= 256) as Hb.
  { change 7 with (Z.ones 3). rewrite Z.land_ones, Z.shiftl_mul_pow2 by lia. pose proof (Z.mod_pos_bound args (2 ^ 3) ltac:(lia)). lia. }
  cell_step. match goal with Hc : slice_ok _ |- _ => destruct (zeroext_value _ _ Hc Hb) as [W _] end. cell_go.
Qed.

Lemma have_no_refs cs : have_refs 0 cs = true.
Proof. apply Z.leb_le. lia. Qed.
Lemma load_le_ok H args : data_instr H (exec_load_le_int args).
Proof.
  unfold exec_load_le_int. cbv zeta. set (len := if Z.testbit args 1 then 8 else 4). set (sgnd := negb (Z.testbit args 0)). cell_step. cell_step.
  assert (0 <= len <= 32 /\ Z.shiftl len 3 = len * 8) as [Hl El] by (unfold len; destruct (Z.testbit args 1); (split; [lia|reflexivity])). rewrite El.
  match goal with cs : CellSlice |- _ => destruct (have (len * 8) cs) eqn:Eh end; cbn [negb]; cbv iota.
  - match goal with Hc : slice_ok ?cs |- _ => destruct (prefetch_le_value len sgnd cs Hc Hl Eh) as (buff & E & Hw & _); rewrite E end.
    eapply (ctl_bind _ _ _ _ (fun b => b = buff)); [lia|apply ctl_some; by exists buff|]. intros ? ->.
    eapply (ctl_bind _ _ _ _ (wf word_cnt)); [lia|apply ctl_some|].
    { revert Hw. generalize (import_bytes_lsb_any word_cnt buff sgnd). intros x Hw. exists x. split; [|done]. destruct Hw as [(Hn & _) _]. by destruct x. }
    intros x Hx. cell_step. eapply (ctl_bind _ _ _ _ any _ (fun _ => true)); [lia| |intros ? _; cell_go].
    apply ctl_if; [|by apply (ctl_ret _ _ 0)]. eapply (ctl_bind _ _ _ _ slice_ok _ (fun _ => true)); [lia|apply ctl_some|intros cs' Hcs'; cell_leaf].
    unfold skip_first. rewrite Eh, (have_no_refs). eexists. split; [done|by apply behind_ok].
  - apply ctl_if; [|cell_end]. eapply (ctl_bind _ _ _ _ any _ (fun _ => true)); [lia| |intros ? _; cell_end].
    apply ctl_if; [cell_leaf|by apply (ctl_ret _ _ 0)].
Qed.

Lemma preload_ref_ok H idx cs : 0 <= idx -> data_instr H (preload_ref idx cs).
Proof.
  intros Hi. unfold preload_ref. destruct (have_refs (idx + 1) cs) eqn:E; cbn [negb]; cbv iota; [|cell_end]. apply Z.leb_le in E.
  eapply (ctl_bind _ _ _ _ any _ (fun _ => true)); [lia|apply ctl_some|intros c _; cell_end].
  destruct (lookup_lt_is_Some_2 (cs_refs cs) (Z.to_nat idx)) as [c Ec]; [cbn [CellRef vm_refs] in *; lia|]. by exists c.
Qed.
Lemma preload_ref_instr_ok H : (forall args, data_instr H (exec_preload_ref_fixed args)) /\ data_instr H exec_preload_ref.
Proof.
  split; [intros args; unfold exec_preload_ref_fixed; cbv zeta|unfold exec_preload_ref]; repeat cell_step; apply preload_ref_ok; [|lia].
  pose proof (Z.land_nonneg args 3). lia.
Qed.

Lemma first_ref cs : have_refs 1 cs = true -> exists c, prefetch_ref 0 cs = Some c /\ fetch_ref_of cs = Some (c, behind 0 1 cs).
Proof. unfold have_refs, prefetch_ref, fetch_ref_of. intros E%Z.leb_le. destruct (cs_refs cs) as [|c refs]; [done|]. by exists c. Qed.
Lemma load_ref_ok H mode : data_instr H (exec_load_ref mode).
Proof.
  unfold exec_load_ref. cell_step. match goal with cs : CellSlice |- _ => destruct (have_refs 1 cs) eqn:Eh end; cbn [negb]; cbv iota; [|cell_go].
  destruct (first_ref _ Eh) as (c & -> & ->). eapply (ctl_bind _ _ _ _ any _ (fun _ => true)); [lia| |intros ? _; cell_go].
  apply ctl_if.
  - eapply (ctl_bind _ _ _ _ any _ (fun _ => true)); [lia|apply ctl_some; by exists c|]. intros ? _. cell_leaf.
  - eapply (ctl_bind _ _ _ _ (fun r => slice_ok (snd r))); [lia|apply ctl_some; eexists; split; [done|by apply behind_ok]|].
    intros [c' cs'] Hcs'. cbn [fst snd] in *. cell_go.
Qed.
Lemma load_ref_to_slice_ok H mode : data_instr H (exec_load_ref_rev_to_slice mode).
Proof.
  unfold exec_load_ref_rev_to_slice. cell_step. match goal with cs : CellSlice |- _ => destruct (have_refs 1 cs) eqn:Eh end; cbn [negb]; cbv iota; [|cell_go].
  destruct (first_ref _ Eh) as (c & -> & ->). eapply (ctl_seq _ _ (S (S H)) _ 1 (5 + H) any _ (fun _ => true)); [lia| |intros ? _; cell_go].
  apply (ctl_post _ _ H _ 1); [|lia|lia]. apply ctl_if.
  - eapply (ctl_bind _ _ _ _ any _ (fun _ => true)); [lia|apply ctl_some; by exists c|]. intros ? _.
    eapply ctl_charge; [lia|apply ctl_load|]. intros cs' Hcs'. cell_leaf.
  - eapply (ctl_bind _ _ _ _ (fun r => slice_ok (snd r))); [lia|apply ctl_some; eexists; split; [done|by apply behind_ok]|].
    intros [c' cs'] Hcs'. cbn [fst snd] in *. cell_step. eapply ctl_charge; [lia|apply ctl_load|]. intros cs2 Hcs2. cell_leaf.
Qed.

(** ** Parts of slices *)

Lemma have_split bits refs cs : have bits cs = true -> have_refs refs cs = true ->
  prefetch_subslice bits refs cs = Some {| cs_bits := take (Z.to_nat bits) (cs_bits cs); cs_refs := take (Z.to_nat refs) (cs_refs cs) |}.
Proof. intros Eb Er. unfold prefetch_subslice. by rewrite Eb, Er. Qed.

Lemma load_slice_ok H bits mode : data_instr H (exec_load_slice_common bits mode).
Proof.
  unfold exec_load_slice_common. cell_step. match goal with cs : CellSlice |- _ => destruct (have bits cs) eqn:Eh end; cbn [negb]; cbv iota.
  - eapply (ctl_bind _ _ _ _ any _ (fun _ => true)); [lia| |intros ? _; cell_go]. unfold fetch_subslice_of. rewrite (have_split bits 0 _ Eh (have_no_refs _)).
    apply ctl_if.
    + eapply (ctl_bind _ _ _ _ slice_ok _ (fun _ => true)); [lia|apply ctl_some; eexists; split; [done|by apply taken_ok]|]. intros s Hs. cell_leaf.
    + eapply (ctl_bind _ _ _ _ (fun r => slice_ok (fst r) /\ slice_ok (snd r))); [lia|apply ctl_some; eexists; split; [done|]|].
      * split; [by apply taken_ok|by apply behind_ok].
      * intros [s cs'] [Hs Hcs']. cbn [fst snd] in *. cell_go.
  - apply ctl_if; [cell_end|]. eapply (ctl_bind _ _ _ _ any _ (fun _ => true)); [lia| |intros ? _; cell_end].
    apply ctl_if; [cell_leaf|by apply (ctl_ret _ _ 0)].
Qed.
Lemma load_slice_instr_ok H args : data_instr H (exec_load_slice_fixed args) /\ data_instr H (exec_load_slice args) /\ data_instr H (exec_load_slice_fixed2 args).
Proof.
  split; [apply load_slice_ok|]. split; [|apply load_slice_ok]. unfold exec_load_slice. cell_step. cell_step. apply load_slice_ok.
Qed.

Lemma cut_end_ok H o : (forall cs', o = Some cs' -> slice_ok cs') ->
  data_instr H (match o with Some cs' => push_cellslice cs' | None => throw cell_und end).
Proof. intros Ho. destruct o as [cs'|]; [|cell_end]. eapply ctl_post; [by apply ctl_push_slice, Ho|lia|lia]. Qed.
Lemma slice_op_ok H max f : max < 2 ^ 31 -> (forall x cs cs', slice_ok cs -> f x cs = Some cs' -> slice_ok cs') -> data_instr H (exec_slice_op_args max f).
Proof.
  intros Hm Hf. unfold exec_slice_op_args. cell_step. eapply ctl_bind; [lia|apply ctl_smallint; [lia|done]|]. intros x _. cell_step.
  apply cut_end_ok. intros cs'. by apply Hf.
Qed.
Lemma slice_op2_ok H max1 max2 f : max1 < 2 ^ 31 -> max2 < 2 ^ 31 -> (forall x y cs cs', slice_ok cs -> f x y cs = Some cs' -> slice_ok cs') ->
  data_instr H (exec_slice_op_args2 max1 max2 f).
Proof.
  intros H1 H2 Hf. unfold exec_slice_op_args2. cell_step. eapply ctl_bind; [lia|apply ctl_smallint; [lia|done]|]. intros y _.
  eapply ctl_bind; [lia|apply ctl_smallint; [lia|done]|]. intros x _. cell_step. apply cut_end_ok. intros cs'. by apply Hf.
Qed.
Lemma substr_ok l1 r1 l2 r2 cs cs' : slice_ok cs -> (c ← skip_first l1 r1 cs; only_first l2 r2 c) = Some cs' -> slice_ok cs'.
Proof.
  intros Hc. destruct (skip_first l1 r1 cs) as [c|] eqn:E; [|done]. cbn [mbind option_bind]. apply prefetch_subslice_ok. by eapply skip_first_ok.
Qed.
Lemma subslice_ok H : data_instr H exec_subslice.
Proof. unfold exec_subslice. do 6 cell_step. apply cut_end_ok. intros cs'. by apply substr_ok. Qed.

Lemma begins_ok H quiet cs2 : data_instr H (exec_slice_begins_with_common quiet cs2).
Proof.
  unfold exec_slice_begins_with_common. cell_step. apply ctl_if; [cell_go|]. eapply ctl_bind; [lia|by apply ctl_push_slice, behind_ok|]. intros ? _. cell_go.
Qed.
Lemma begins_instr_ok H quiet : data_instr H (exec_slice_begins_with quiet).
Proof. unfold exec_slice_begins_with. cell_step. cell_step. apply begins_ok. Qed.
Lemma begins_const_ok H args pfx : 0 <= pfx -> data_instr H (exec_slice_begins_with_const args pfx).
Proof.
  intros Hp st. unfold exec_slice_begins_with_const. cbv zeta. rewrite need_no_refs. revert st. apply ctl_need_slice; [lia|done| |].
  { unfold begins_bits. pose proof (Z.land_nonneg args 127). lia. }
  intros c _. apply begins_ok.
Qed.

Lemma split_ok H quiet : data_instr H (exec_split quiet).
Proof.
  unfold exec_split. do 4 cell_step. apply ctl_if; [cell_go|]. match goal with |- context [only_first ?b ?r ?c] => set (o1 := only_first b r c); set (o2 := skip_first b r c) end.
  eapply ctl_bind; [lia|apply ctl_push_slice|intros ? _].
  { destruct o1 eqn:E; [by eapply prefetch_subslice_ok|done]. }
  eapply ctl_bind; [lia|apply ctl_push_slice|intros ? _; cell_go].
  destruct o2 eqn:E; [by eapply skip_first_ok|done].
Qed.

(** ** What is left *)

Lemma chk_op_ok H max quiet f : max < 2 ^ 31 -> data_instr H (exec_slice_chk_op_args max quiet f).
Proof.
  intros Hm. unfold exec_slice_chk_op_args. cell_step. eapply ctl_bind; [lia|apply ctl_smallint; [lia|done]|]. intros x _. cell_step.
  apply ctl_if; [eapply ctl_post; [apply ctl_push_small, truth_range|lia|lia]|]. eapply ctl_post; [by apply ctl_guard|lia|lia].
Qed.
Lemma chk_op2_ok H max1 max2 quiet f : max1 < 2 ^ 31 -> max2 < 2 ^ 31 -> data_instr H (exec_slice_chk_op_args2 max1 max2 quiet f).
Proof.
  intros H1 H2. unfold exec_slice_chk_op_args2. cell_step. eapply ctl_bind; [lia|apply ctl_smallint; [lia|done]|]. intros y _.
  eapply ctl_bind; [lia|apply ctl_smallint; [lia|done]|]. intros x _. cell_step.
  apply ctl_if; [eapply ctl_post; [apply ctl_push_small, truth_range|lia|lia]|]. eapply ctl_post; [by apply ctl_guard|lia|lia].
Qed.
Lemma bits_refs_ok H mode : data_instr H (exec_slice_bits_refs mode).
Proof.
  unfold exec_slice_bits_refs. cell_step. cell_step. match goal with Hc : slice_ok _ |- _ => pose proof (cs_size_range _ Hc); pose proof (cs_size_refs_range _ Hc) end.
  eapply (ctl_bind _ _ _ _ any _ (fun _ => true)); [lia| |intros ? _; cell_go]. apply ctl_if; [cell_leaf|by apply (ctl_ret _ _ 0)].
Qed.
Lemma load_same_ok H x : data_instr H (exec_load_same x).
Proof.
  unfold exec_load_same. cell_step. eapply (ctl_bind _ _ _ _ any _ (fun _ => true)); [lia| |intros v _].
  { apply ctl_if; [|by apply (ctl_ret _ _ 0)]. eapply ctl_weaken; [apply ctl_smallint; lia|lia|done|done]. }
  cell_step. cbv zeta. match goal with Hc : slice_ok ?cs |- _ => pose proof (count_range (negb (v =? 0)) cs Hc) as [R _] end.
  eapply ctl_bind; [lia|by apply ctl_push_small|intros ? _]. eapply ctl_post; [apply ctl_push_slice; destruct (0 <? _); [by apply behind_ok|done]|lia|lia].
Qed.
Lemma depth_instr_ok H : data_instr H exec_cell_depth /\ data_instr H exec_slice_depth.
Proof.
  split; [unfold exec_cell_depth|unfold exec_slice_depth]; cell_step.
  - eapply ctl_post; [apply ctl_push_small|lia|lia]. match goal with |- in_range (match ?c with _ => _ end) => destruct c as [cell|] end; [|unfold in_range, Half; lia].
    pose proof (depth_range cell). unfold in_range, Half. lia.
  - eapply ctl_post; [apply ctl_push_small|lia|lia]. match goal with |- in_range (cs_get_depth ?c) => pose proof (refs_depth_range (cs_refs c)) end.
    unfold cs_get_depth, in_range, Half. lia.
Qed.

Lemma cell_deserialize_ops_sound : Forall instr_sound cell_deserialize_ops.
Proof.
  unfold cell_deserialize_ops.
  repeat (apply Forall_cons_2;
    [instr_kind; first
      [ apply to_slice_ok | apply special_cell_ok | apply chk_empty_ok | apply load_int_fixed_ok | apply load_int_fixed2_ok | apply load_int_var_ok | apply load_le_ok
      | apply preload_uint_ok | apply preload_ref_instr_ok | apply load_ref_ok | apply load_ref_to_slice_ok | apply load_slice_instr_ok
      | apply slice_op_ok; [lia|intros ? ? ?; first [apply prefetch_subslice_ok | apply skip_first_ok | apply only_last_ok | apply skip_last_ok]]
      | apply slice_op2_ok; [lia|lia|intros ? ? ? ?; first [apply prefetch_subslice_ok | apply skip_first_ok | apply only_last_ok | apply skip_last_ok | apply substr_ok]]
      | apply subslice_ok | apply begins_instr_ok | apply end_ret0, begins_const_ok; lia | apply split_ok
      | apply chk_op_ok; lia | apply chk_op2_ok; lia | apply bits_refs_ok | apply load_same_ok | apply depth_instr_ok ]|]).
  apply Forall_nil.
Qed.

Lemma cell_data_ops_sound : Forall instr_sound cell_data_ops.
Proof.
  unfold cell_data_ops. rewrite !Forall_app. split; [apply cell_cmp_ops_sound|]. split; [apply cell_serialize_ops_sound|apply cell_deserialize_ops_sound].
Qed.

End CellSafe.
