(* ===== verification/JumpOpsSafe.v ===== *)
(** * Jumps, conditions, loops and constants keep the machine sound ([crypto/vm/contops.cpp], [cellops.cpp]) *)
From S2P Require Import Prelude BigInt BigIntOps BigIntShift BigIntLog RefInt Stack OpTable StackOps ArithOps ArithSpec TupleOps TupleSpec TupleSafe MachineTypes MachineKeeps MachineInv Continuation Cells CellConstOps BuilderOps SliceOps ContOps ContChange ContTypes ContJumps JumpSafe CallSafe ContOpsSafe ControlSafe.

Section JumpOpsSafe.
Context `{CS : CellSystem}.

Abbreviation any := (fun _ => True).
Abbreviation landed := (fun z => z =? 0).
Abbreviation jump_instr H m := (ctl true H (S (S H)) (6 + H) any landed m).
Abbreviation data_instr H m := (ctl true H (S (S H)) (6 + H) any (fun _ => true) m).

(** ** Constants *)

Lemma cell_const_ops_sound : Forall instr_sound cell_const_ops.
Proof.
  unfold cell_const_ops.
  repeat (apply Forall_cons_2;
    [instr_kind; apply end_ret0;
     first [ apply push_ref_ok | apply push_cont_ok; lia | apply push_cont_simple_ok; lia
           | ctl_unfold; apply push_slice_ok; [unfold slice_bits, slice_r_bits, slice_r2_bits|lia];
             match goal with |- context [Z.land ?a ?m] => pose proof (Z.land_nonneg a m) end; lia ]|]).
  apply Forall_nil.
Qed.

(** ** Jumps *)

Lemma continuation_jump_ops_sound : Forall instr_sound continuation_jump_ops.
Proof.
  unfold continuation_jump_ops.
  repeat (apply Forall_cons_2;
    [instr_kind; first [ctl_unfold; solve [ctl_go] | ctl_unfold; apply do_with_ref_ok; intros c Hc; solve [ctl_go]]|]).
  apply Forall_nil.
Qed.

(** ** Conditions *)

Lemma if_else_ok H : jump_instr H exec_if_else.
Proof. unfold exec_if_else. ctl_step. ctl_step. ctl_step. ctl_step. destruct_if; ctl_end. Qed.

(** Selecting takes the entries off without a check of its own. *)
Lemma condsel_rest H x y : @entry_ok vm_refs (cont_wf H) x -> @entry_ok vm_refs (cont_wf H) y ->
  data_instr H (b ← pop_bool; push (if b : bool then x else y)).
Proof. intros Hx Hy. ctl_step. eapply ctl_post; [apply ctl_push; by destruct_if|lia|lia]. Qed.
Lemma condsel_ok H : data_instr H exec_condsel.
Proof.
  unfold exec_condsel. apply ctl_checked; [lia|]. apply (at_pop 2); [lia|]. intros y Hy. apply (at_pop 1); [lia|]. intros x Hx.
  apply at_any. by apply condsel_rest.
Qed.
Lemma condsel_chk_ok H : data_instr H exec_condsel_chk.
Proof.
  unfold exec_condsel_chk. apply ctl_checked; [lia|]. apply (at_pop 2); [lia|]. intros y Hy. apply (at_pop 1); [lia|]. intros x Hx.
  apply at_any. ctl_step. by apply condsel_rest.
Qed.

Lemma ref_step {B} H (Q : B -> Prop) b2 n c k : (forall cont, cont_wf H cont -> ctl true H (S (S H)) n Q b2 (k cont)) ->
  ctl true H (S (S H)) (S n) Q b2 (x ← ref_to_cont c; k x).
Proof. intros Hk. eapply ctl_charge; [lia|apply ref_to_cont_ok|exact Hk]. Qed.

Lemma ifelse_ref_ok H mode pfx : jump_instr H (exec_ifelse_ref mode pfx).
Proof.
  unfold exec_ifelse_ref. apply ctl_need_ref; [lia|]. intros c. ctl_step. ctl_step. ctl_step.
  apply (ctl_charge _ _ _ (5 + H) (cont_wf H) _ (fun _ => true)); [lia| |intros ? ?; ctl_end].
  apply ctl_if; [apply ref_to_cont_ok|]. by apply ctl_ret.
Qed.

(** Two references; the second one is there when the first is gone. *)
Lemma ctl_need_refs {A} H H' n (P : A -> Prop) b' pfx (k : Cell -> Cell -> VM A) : (H <= H')%nat ->
  (forall c1 c2, ctl true H H' n P b' (k c1 c2)) ->
  ctl true H H' n P b' (_ ← need (have_refs 2); _ ← advance pfx; c1 ← fetch_ref; c2 ← fetch_ref; k c1 c2).
Proof.
  intros Hle Hk st Hst. pose proof Hst as (Hs & Hc & Hb). unfold need, get_code, advance, fetch_ref, fetch_ref_of, behind, put_code, get_code. vm_run.
  destruct (code st) as [cs|] eqn:E; [|done]. unfold guard_vm, have_refs.
  destruct (Z.leb_spec 2 (Z.of_nat (length (cs_refs cs)))) as [L|L]; vm_run.
  - destruct (cs_refs cs) as [|c1 [|c2 rest]] eqn:Er; [cbn in L; lia|cbn in L; lia|]. cbn [code stack core option_map]. rewrite E.
    cbn [option_map cs_refs cs_bits]. rewrite Er. cbv beta iota.
    apply (Hk c1 c2 {| stack := stack st; code := Some _; core := core st |}). split; [done|]. split; [done|].
    apply (slice_ok_le cs); [done|cbn [cs_bits]; rewrite !length_drop; lia|cbn [cs_refs]; rewrite Er, !length_drop, !length_cons; lia].
  - split; [done|]. split; [by eapply core_raise|]. eapply charges_weaken; [apply charges_none|lia|lia].
Qed.
Lemma ifref_elseref_ok H pfx : jump_instr H (exec_ifref_elseref pfx).
Proof. unfold exec_ifref_elseref. apply ctl_need_refs; [lia|]. intros c1 c2. ctl_step. apply ref_step. intros c Hc. ctl_end. Qed.

Lemma if_bit_jmpref_ok H args pfx : jump_instr H (exec_if_bit_jmpref args pfx).
Proof.
  unfold exec_if_bit_jmpref. apply ctl_need_ref; [lia|]. intros cell. cbv zeta. ctl_step. ctl_step.
  apply ctl_if; [|ctl_end]. apply ref_step. intros c Hc. ctl_end.
Qed.

(** ** Loops *)

Lemma envelope_step {B} H (Q : B -> Prop) b b2 n brk c k : cont_wf H c ->
  (forall after, cont_wf (S H) after -> ctl b (S H) (S (S H)) n Q b2 (k after)) ->
  ctl b H (S (S H)) n Q b2 (x ← c1_envelope_if brk c; k x).
Proof.
  intros Hc Hk. change n with (0 + n)%nat. eapply ctl_seq; [|by apply ctl_c1_envelope_if|exact Hk]. lia.
Qed.

Ltac loop_end := intros after Hafter; eapply ctl_post; [first [apply ctl_repeat | apply ctl_until | apply ctl_loop_while]; first [assumption | by apply wf_succ]|lia|lia].

Lemma repeat_ok H brk : jump_instr H (exec_repeat brk).
Proof. unfold exec_repeat. ctl_step. ctl_step. ctl_step. apply ctl_if; [ctl_end|]. ctl_pay. apply envelope_step; [done|]. loop_end. Qed.
Lemma repeat_end_ok H brk : jump_instr H (exec_repeat_end brk).
Proof.
  unfold exec_repeat_end. ctl_step. ctl_step. apply ctl_if; [ctl_end|]. ctl_pay. ctl_step. apply envelope_step; [done|]. loop_end.
Qed.
Lemma until_ok H brk : jump_instr H (exec_until brk).
Proof. unfold exec_until. ctl_step. ctl_pay. apply envelope_step; [done|]. loop_end. Qed.
Lemma until_end_ok H brk : jump_instr H (exec_until_end brk).
Proof. unfold exec_until_end. ctl_pay. ctl_step. apply envelope_step; [done|]. loop_end. Qed.
Lemma while_ok H brk : jump_instr H (exec_while brk).
Proof. unfold exec_while. ctl_step. ctl_step. ctl_step. ctl_pay. apply envelope_step; [done|]. loop_end. Qed.
Lemma while_end_ok H brk : jump_instr H (exec_while_end brk).
Proof. unfold exec_while_end. ctl_step. ctl_pay. ctl_step. apply envelope_step; [done|]. loop_end. Qed.

Lemma again_ok H brk : jump_instr H (exec_again brk).
Proof.
  unfold exec_again. destruct brk.
  - apply (ctl_charge _ _ _ (5 + H) any _ (fun _ => false)); [lia| |intros _ _; ctl_go].
    apply (ctl_charge _ _ _ 0 (cont_wf H) any (fun _ => false) (fun _ => false)); [lia|by apply ctl_extract_cc|]. intros cc Hc.
    by apply ctl_set_c1.
  - apply (ctl_bind _ _ _ _ any _ (fun _ => true)); [lia|by apply ctl_ret|]. intros _ _. ctl_go.
Qed.

Lemma c1_save_set_ok b H : ctl b H (S H) 0 any (fun _ => b) (c1_save_set true).
Proof.
  unfold c1_save_set. eapply ctl_bind; [lia|apply ctl_get_c0|]. intros c Hc. eapply ctl_bind; [lia|apply ctl_get_cr|]. intros r [_ S].
  cbv zeta. apply (ctl_raise _ _ (1 + H)); [lia|]. assert (cont_wf (1 + H) (force_cregs (define_c1 (c1 r)) c)) as Hf.
  { apply force_cregs_wf; [done|]. intros s Hs. apply define_c1_sound; [|done]. exact (proj1 (proj2 (regs_elim H _ S))). }
  eapply ctl_bind; [lia|by apply ctl_set_c0|]. intros ? _. by apply ctl_set_c1.
Qed.
Lemma again_end_ok H brk : jump_instr H (exec_again_end brk).
Proof.
  unfold exec_again_end. change (6 + H)%nat with (0 + (6 + H))%nat.
  apply (ctl_seq true H (S H) (S (S H)) 0 (6 + H) any any (fun _ => true)); [lia| |].
  - destruct brk; [apply c1_save_set_ok|]. apply (ctl_raise _ _ (S H)); [lia|]. by apply ctl_ret.
  - intros ? _. eapply ctl_charge; [lia|by apply ctl_extract_cc|]. intros c Hc. eapply ctl_post; [by apply ctl_again|lia|lia].
Qed.

Lemma continuation_cond_loop_ops_sound : Forall instr_sound continuation_cond_loop_ops.
Proof.
  unfold continuation_cond_loop_ops.
  repeat (apply Forall_cons_2;
    [instr_kind;
     first [ apply if_else_ok | apply condsel_ok | apply condsel_chk_ok | apply ifelse_ref_ok | apply ifref_elseref_ok | apply if_bit_jmpref_ok
           | apply repeat_ok | apply repeat_end_ok | apply until_ok | apply until_end_ok | apply while_ok | apply while_end_ok
           | apply again_ok | apply again_end_ok
           | apply do_with_cell_ok; intros c; ctl_unfold; ctl_step; apply ctl_if; first [ctl_end | apply ref_step; intros ? ?; ctl_end]
           | ctl_unfold; solve [ctl_go] ]|]).
  apply Forall_nil.
Qed.

End JumpOpsSafe.
