(* ===== verification/ContChangeSafe.v ===== *)
(** * Closures, registers, composition and exceptions keep the machine sound ([crypto/vm/contops.cpp]) *)
From S2P Require Import Prelude BigInt BigIntOps BigIntShift BigIntLog RefInt Stack OpTable StackOps ArithOps ArithSpec TupleOps TupleSpec TupleSafe MachineTypes MachineKeeps MachineInv Continuation Cells CellConstOps BuilderOps SliceOps ContOps ContChange ContTypes ContJumps JumpSafe CallSafe ContOpsSafe ControlSafe.

Section ContChangeSafe.
Context `{CS : CellSystem}.

Abbreviation any := (fun _ => True).
Abbreviation entries_ok H := (Forall (@entry_ok vm_refs (cont_wf H))).
Abbreviation entry_wf H := (@entry_ok vm_refs (cont_wf H)).
Abbreviation landed := (fun z => z =? 0).
Abbreviation jump_instr H m := (ctl true H (S (S H)) (6 + H) any landed m).
Abbreviation data_instr H m := (ctl true H (S (S H)) (6 + H) any (fun _ => true) m).

(** ** Rules *)

Lemma ctl_up {A} b H H' n (P : A -> Prop) b' m : ctl b (S H) H' n P b' m -> ctl b H H' n P b' m.
Proof. apply ctl_raise. lia. Qed.
Lemma at_stack {B} d b H H' n (Q : B -> Prop) b' k :
  (forall s, entries_ok H s -> d <= depth s -> ctl b H H' n Q b' (k s)) -> ctl_at d b H H' n Q b' (s ← get_stack; k s).
Proof. intros Hk st Hst Hd. exact (Hk (stack st) (proj1 Hst) Hd st Hst). Qed.
Lemma at_seq {A B} d b H H' n1 n2 (P : A -> Prop) (Q : B -> Prop) b1 b2 m k : (H <= H')%nat -> ctl_at d b H H n1 P b1 m ->
  (forall a, P a -> ctl (b1 a) H H' n2 Q b2 (k a)) -> ctl_at d b H H' (n1 + n2) Q b2 (x ← m; k x).
Proof. intros Hle Hm Hk st Hst Hd. apply (outcome_bind H H' n1 n2 P Q b1 b2 (gas st) (m st) k Hle); [by apply Hm|done]. Qed.
Lemma pops1_cont : pops1 pop_cont.
Proof. apply pops1_pop_as. Qed.

(** ** Closures *)

Lemma with_args_wf H stk n d : (forall l, stk = Some l -> entries_ok H l) -> data_wf H d -> data_wf H (with_args stk n d).
Proof. intros Hs Hd. apply data_intro; [done|by apply data_sound]. Qed.

Lemma closure_stack_ok H own s n : (forall l, own = Some l -> entries_ok H l) -> entries_ok H s -> 0 <= n <= depth s ->
  exists stk rest, closure_stack own s n = Some (stk, rest) /\ entries_ok H stk /\ entries_ok H rest.
Proof.
  intros Ho Hs Hn. unfold closure_stack. destruct own as [own|].
  - rewrite move_run by lia. eexists _, _. split; [done|]. split; [|by apply Forall_drop]. apply Forall_app. split; [by apply Forall_take|by apply Ho].
  - unfold split_top. destruct (Z.ltb_spec (depth s) n), (Z.ltb_spec (depth s - n) 0); try lia. cbn. eexists _, _. split; [done|].
    split; [by apply Forall_take|by apply Forall_drop].
Qed.

Lemma copy_args_ok H copy d : 0 <= copy -> data_wf H d -> ctl_at copy true H H 1 (data_wf H) (fun _ => true) (copy_args copy d).
Proof.
  intros Hn Hd. unfold copy_args. destruct (_ && _); [apply at_any, ctl_throw; [done|lia]|].
  apply at_stack. intros s Hs Hdep.
  destruct (closure_stack_ok H (cd_stack d) s copy) as (stk & rest & -> & Hstk & Hrest); [by intros l; apply data_stack|done|lia|].
  eapply ctl_bind; [lia|by apply ctl_set_stack|]. intros ? _. eapply ctl_charge; [lia|apply ctl_stack_gas|]. intros ? _.
  apply ctl_ret. apply with_args_wf; [|done]. by intros l [= <-].
Qed.

Lemma ctl_push_cont b H H' n c : (H <= H')%nat -> cont_wf H' c -> ctl b H H' n any (fun _ => b) (push_cont c).
Proof. intros Hle Hc. apply (ctl_raise _ _ H'); [done|]. eapply ctl_post; [by apply ctl_push, ok_cont|lia|lia]. Qed.

Lemma setcontargs_ok H copy more : data_instr H (exec_setcontargs_common copy more).
Proof.
  unfold exec_setcontargs_common. apply ctl_checked; [lia|].
  apply (at_bind _ _ _ _ _ (cont_wf H)); [lia|apply pops1_cont|apply ctl_pop_cont|]. intros cont Hc.
  destruct (_ || _); [|apply at_any, ctl_push_cont; [lia|by apply (cont_mono H); [lia|]]].
  destruct (force_cdata_wf H cont Hc) as [Hd Hr]. destruct (force_cdata cont) as [d rebuild]. cbn [fst snd] in *.
  apply (at_seq copy true H (S (S H)) 1 (5 + H) (data_wf H) any (fun _ => true)); [lia| |].
  - destruct (Z.ltb_spec 0 copy); [apply copy_args_ok; [lia|done]|]. by apply at_any, ctl_ret.
  - intros d' Hd'. apply ctl_push_cont; [lia|]. apply wf_succ, Hr, with_args_wf; [by intros l; apply data_stack|done].
Qed.

Lemma return_args_ok H count : 0 <= count -> data_instr H (exec_return_args_common count).
Proof.
  intros Hcount. unfold exec_return_args_common. apply ctl_checked; [lia|]. apply at_stack. intros s Hs Hdep. destruct (_ =? _); [ctl_end|]. cbv zeta.
  unfold split_top. destruct (Z.ltb_spec (depth s) count), (Z.ltb_spec (depth s - count) 0); try lia. cbn [orb].
  eapply ctl_bind; [lia|by apply ctl_set_stack, Forall_take|]. intros ? _.
  eapply ctl_bind; [lia|apply ctl_get_c0|]. intros cont Hc.
  destruct (force_cdata_wf H cont Hc) as [Hd Hr]. destruct (force_cdata cont) as [d rebuild]. cbn [fst snd] in *.
  destruct (_ && _); [apply ctl_throw; [done|lia]|].
  set (alt := drop _ s). assert (entries_ok H alt) as Ha by (by apply Forall_drop).
  assert (exists stk, match cd_stack d with None => Some alt | Some own => option_map fst (move_from_stack own alt (depth s - count)) end = Some stk
            /\ entries_ok H stk) as (stk & -> & Hstk).
  { destruct (cd_stack d) as [own|] eqn:Eo; [|by exists alt]. rewrite move_run.
    - eexists. split; [done|]. apply Forall_app. split; [by apply Forall_take|by eapply data_stack].
    - unfold alt. autorewrite with vm_state. lia. }
  eapply ctl_charge; [lia|apply ctl_stack_gas|]. intros ? _. apply ctl_up.
  eapply ctl_post; [apply ctl_set_c0, Hr, with_args_wf; [by intros l [= <-]|done]|lia|lia].
Qed.

Lemma bless_args_ok H copy more : data_instr H (exec_bless_args_common copy more).
Proof.
  unfold exec_bless_args_common. apply ctl_checked; [lia|].
  apply (at_bind _ _ _ _ _ slice_ok); [lia|apply pops1_pop_as|apply ctl_pop_slice|]. intros cs Hcs.
  apply at_stack. intros s Hs Hdep. unfold split_top. destruct (Z.ltb_spec (depth s) copy), (Z.ltb_spec (depth s - copy) 0); try lia. cbn [orb].
  eapply ctl_bind; [lia|by apply ctl_set_stack, Forall_drop|]. intros ? _.
  eapply ctl_charge; [lia|apply ctl_stack_gas|]. intros ? _. eapply ctl_bind; [lia|apply ctl_get_cp|]. intros c _.
  apply (ctl_push_cont _ H); [lia|]. apply (cont_mono H); [lia|]. apply wf_ord; [|done]. apply with_args_wf; [intros l [= <-]; by apply Forall_take|].
  apply data_intro; [done|apply empty_sound].
Qed.

(** ** Control registers *)

Lemma regs_get_ok H idx r : regs_full r -> regs_sound H r ->
  match regs_get idx r with Some (Some e) => entry_wf H e | Some None => False | None => True end.
Proof.
  intros ([? F0] & [? F1] & [? F2] & [? F3] & [? F4] & [? F5] & [? F7]) (S0 & S1 & S2 & S3 & S7)%regs_elim. unfold regs_get.
  rewrite F0, F1, F2, F3, F4, F5, F7. cbn [option_map].
  repeat (destruct (idx =? _); [first [exact (ok_cont _ (S0 _ F0)) | exact (ok_cont _ (S1 _ F1)) | exact (ok_cont _ (S2 _ F2)) | exact (ok_cont _ (S3 _ F3))
    | by apply ok_other | by apply ok_tuple; apply S7]|]). done.
Qed.
Lemma ctl_get_ctr b H idx : ctl b H H 0 (entry_wf H) (fun _ => b) (get_ctr idx).
Proof.
  unfold get_ctr. eapply ctl_bind; [lia|apply ctl_get_cr|]. intros r [F S]. cbv beta. pose proof (regs_get_ok H idx r F S) as G.
  destruct (regs_get idx r) as [[e|]|]; [by apply ctl_ret|done|]. apply ctl_ret. by apply ok_other.
Qed.

(** Values that fit a register. *)
Lemma set_c_ok H idx c r r' : cont_wf H c -> regs_sound H r -> set_c idx c r = Some r' ->
  regs_sound H r' /\ (regs_full r -> regs_full r').
Proof.
  intros Hc Hr E. unfold set_c in E.
  repeat (destruct (idx =? _); [injection E as <-; split; [first [by apply set_c0_sound | by apply set_c1_sound | by apply set_c2_sound | by apply set_c3_sound]
    |unfold regs_full; cbn; intuition]|]). done.
Qed.
Lemma set_d_ok H idx c r r' : regs_sound H r -> set_d idx c r = Some r' -> regs_sound H r' /\ (regs_full r -> regs_full r').
Proof.
  intros Hr E. unfold set_d in E. destruct (set_d_sound H c r Hr).
  repeat (destruct (idx =? _); [injection E as <-; split; [done|unfold regs_full; cbn; intuition]|]). done.
Qed.
Lemma set_c7_ok H t r : entry_wf H (se_tuple t) -> regs_sound H r -> regs_sound H (set_c7 t r) /\ (regs_full r -> regs_full (set_c7 t r)).
Proof.
  intros Ht Hr. inversion Ht; subst; [|discriminate]. split; [by apply set_c7_sound|]. unfold regs_full. cbn. intuition.
Qed.

Lemma entry_cont H e c : entry_wf H e -> as_cont e = Some c -> cont_wf H c.
Proof. intros He E. inversion He; subst; simplify_eq/=; try done. Qed.
Lemma entry_tuple_of H e t : entry_wf H e -> as_tuple e = Some t -> entry_wf H (se_tuple t).
Proof. intros He E. destruct e; try discriminate E. by injection E as <-. Qed.

Lemma regs_set_ok H idx e r r' : entry_wf H e -> regs_sound H r -> regs_set idx e r = Some r' -> regs_sound H r' /\ (regs_full r -> regs_full r').
Proof.
  intros He Hr E. unfold regs_set in E. destruct (idx <? 4).
  { destruct (as_cont e) as [c|] eqn:Ec; [|done]. apply (set_c_ok H idx c r r'); [by eapply entry_cont|done|done]. }
  destruct (_ && _). { destruct (as_cell e) as [c|]; [|done]. by apply (set_d_ok H idx c r r'). }
  destruct (_ =? _); [|done]. destruct (as_tuple e) as [t|] eqn:Et; [|done]. injection E as <-.
  apply set_c7_ok; [by eapply entry_tuple_of|done].
Qed.
Lemma regs_define_ok H idx e r r' : entry_wf H e -> regs_sound H r -> regs_define idx e r = Some r' -> regs_sound H r'.
Proof.
  intros He Hr E. unfold regs_define, define_c, define_d, define_c7 in E. destruct (idx <? 4).
  { destruct (as_cont e) as [c|] eqn:Ec; [|done]. destruct (get_c idx r); [done|].
    apply (set_c_ok H idx c r r'); [by eapply entry_cont|done|done]. }
  destruct (_ && _). { destruct (as_cell e) as [c|]; [|done]. destruct (get_d idx r); [done|]. by apply (set_d_ok H idx c r r'). }
  destruct (_ =? _); [|done]. destruct (as_tuple e) as [t|] eqn:Et; [|done]. injection E as <-. destruct (c7 r); [done|].
  apply set_c7_ok; [by eapply entry_tuple_of|done].
Qed.

Lemma ctl_set_ctr b H idx e : entry_wf H e -> ctl b H H 0 any (fun _ => b) (set_ctr idx e).
Proof.
  intros He. unfold set_ctr. eapply ctl_bind; [lia|apply ctl_get_cr|]. intros r [F S].
  destruct (regs_set idx e r) as [r'|] eqn:E; [|by apply ctl_throw].
  destruct (regs_set_ok H idx e r r' He S E). apply ctl_set_cr; auto.
Qed.
Lemma ctl_define_ctr b H idx e c : entry_wf H e -> cont_wf H c -> ctl b H (S H) 0 (cont_wf (S H)) (fun _ => b) (define_ctr idx e c).
Proof.
  intros He Hc. apply ctl_up. unfold define_ctr. destruct (force_cregs_opt _ c) as [c'|] eqn:E; [|by apply ctl_throw]. apply ctl_ret.
  eapply force_cregs_opt_wf; [exact Hc| |exact E]. intros r r'. by apply regs_define_ok.
Qed.
Lemma try_define_wf H idx e c : entry_wf H e -> cont_wf H c -> cont_wf (S H) (try_define idx e c).
Proof.
  intros He Hc. unfold try_define. apply force_cregs_wf; [done|]. intros r Hr.
  destruct (regs_define idx e r) as [r'|] eqn:E; [by eapply regs_define_ok|done].
Qed.

(** A continuation that one more register is saved in. *)
Lemma define_step {B} b H (Q : B -> Prop) b2 n idx e c k : entry_wf H e -> cont_wf H c ->
  (forall c', cont_wf (S H) c' -> ctl b (S H) (S (S H)) n Q b2 (k c')) ->
  ctl b H (S (S H)) n Q b2 (x ← define_ctr idx e c; k x).
Proof. intros He Hc Hk. change n with (0 + n)%nat. eapply ctl_seq; [|by apply ctl_define_ctr|exact Hk]. lia. Qed.

Ltac ctr_step := eapply ctl_bind; [lia|first [apply ctl_get_ctr | ctl_leaf]|intros ? ?; cbv beta in *].
Ltac set_end := eapply ctl_post; [first [by apply ctl_set_c0 | by apply ctl_set_c1 | by apply ctl_set_ctr]|lia|lia].

Lemma push_ctr_ok H args : data_instr H (exec_push_ctr args).
Proof. unfold exec_push_ctr. cbv zeta. ctr_step. ctl_end. Qed.
Lemma pop_ctr_ok H args : data_instr H (exec_pop_ctr args).
Proof. unfold exec_pop_ctr. cbv zeta. ctr_step. set_end. Qed.
Lemma setcont_ctr_ok H args : data_instr H (exec_setcont_ctr args).
Proof. unfold exec_setcont_ctr. cbv zeta. do 3 ctr_step. apply define_step; [done|done|]. intros c Hc. apply ctl_push_cont; [lia|by apply wf_succ]. Qed.
Lemma setret_ctr_ok H args : data_instr H (exec_setret_ctr args).
Proof. unfold exec_setret_ctr. cbv zeta. do 2 ctr_step. apply define_step; [done|done|]. intros c Hc. set_end. Qed.
Lemma setalt_ctr_ok H args : data_instr H (exec_setalt_ctr args).
Proof. unfold exec_setalt_ctr. cbv zeta. do 2 ctr_step. apply define_step; [done|done|]. intros c Hc. set_end. Qed.
Lemma save_ctr_ok H args : data_instr H (exec_save_ctr args).
Proof. unfold exec_save_ctr. cbv zeta. do 2 ctr_step. apply define_step; [done|done|]. intros c Hc. set_end. Qed.
Lemma savealt_ctr_ok H args : data_instr H (exec_savealt_ctr args).
Proof. unfold exec_savealt_ctr. cbv zeta. do 2 ctr_step. apply define_step; [done|done|]. intros c Hc. set_end. Qed.
Lemma saveboth_ctr_ok H args : data_instr H (exec_saveboth_ctr args).
Proof.
  unfold exec_saveboth_ctr. cbv zeta. do 3 ctr_step. apply ctl_up.
  eapply ctl_bind; [lia|by apply ctl_set_c0, try_define_wf|]. intros ? _. eapply ctl_post; [by apply ctl_set_c1, try_define_wf|lia|lia].
Qed.
Lemma popsave_ctr_ok H args : data_instr H (exec_popsave_ctr args).
Proof.
  unfold exec_popsave_ctr. cbv zeta. do 4 ctr_step.
  assert (forall idx e, entry_wf H e -> ctl true (S H) (S H) 0 any (fun _ => true) (set_ctr idx e)) as W.
  { intros idx e He. apply ctl_set_ctr. by apply (entry_raise H); [lia|]. }
  apply ctl_up, ctl_if.
  - eapply ctl_bind; [lia|by apply ctl_set_c0, try_define_wf|]. intros ? _. eapply ctl_post; [by apply W|lia|lia].
  - eapply ctl_bind; [lia|by apply W|]. intros ? _. eapply ctl_post; [by apply ctl_set_c0, try_define_wf|lia|lia].
Qed.
Lemma push_ctr_var_ok H : data_instr H exec_push_ctr_var.
Proof. unfold exec_push_ctr_var. do 3 ctr_step. ctl_end. Qed.
Lemma pop_ctr_var_ok H : data_instr H exec_pop_ctr_var.
Proof. unfold exec_pop_ctr_var. do 4 ctr_step. set_end. Qed.
Lemma setcont_ctr_var_ok H : data_instr H exec_setcont_ctr_var.
Proof. unfold exec_setcont_ctr_var. do 5 ctr_step. apply define_step; [done|done|]. intros c Hc. apply ctl_push_cont; [lia|by apply wf_succ]. Qed.

(** ** Composition *)

(** Defining [c0] or [c1] of a continuation. *)
Lemma define01_wf H r c : regs_sound H r -> cont_wf H c ->
  cont_wf (S H) (force_cregs (define_c0 (c0 r)) c) /\ cont_wf (S H) (force_cregs (define_c0 (c1 r)) c) /\ cont_wf (S H) (force_cregs (define_c1 (c1 r)) c).
Proof.
  intros (S0 & S1 & _)%regs_elim Hc.
  split; [|split]; (apply force_cregs_wf; [done|]); intros s Hs; first [by apply define_c0_sound | by apply define_c1_sound].
Qed.

Lemma compos_ok H mask : data_instr H (exec_compos mask).
Proof.
  unfold exec_compos. do 3 ctr_step. apply ctl_push_cont; [lia|]. apply wf_succ, force_cregs_wf; [done|]. intros r Hr. unfold compos_regs.
  assert (forall v : Cont, cont_wf H v -> forall c, Some v = Some c -> cont_wf H c) as W by (by intros v Hv c [= <-]).
  repeat (destruct (mask =? _); [repeat first [apply define_c0_sound; [by apply W|] | apply define_c1_sound; [by apply W|]]; exact Hr|]). exact Hr.
Qed.

Ltac compos_go := do 2 ctr_step; match goal with S : regs_full _ /\ regs_sound ?H ?r, C : cont_wf ?H ?c |- _ =>
  destruct (define01_wf H r c (proj2 S) C) as (? & ? & ?) end; apply ctl_up.
Lemma atexit_ok H : data_instr H exec_atexit.
Proof. unfold exec_atexit. compos_go. set_end. Qed.
Lemma atexit_alt_ok H : data_instr H exec_atexit_alt.
Proof. unfold exec_atexit_alt. compos_go. set_end. Qed.
Lemma setexit_alt_ok H : data_instr H exec_setexit_alt.
Proof.
  unfold exec_setexit_alt. compos_go. apply ctl_up. eapply ctl_post; [apply ctl_set_c1|lia|lia]. apply define01_wf; [|done].
  match goal with S : regs_full _ /\ _ |- _ => destruct S end. by apply (regs_raise H); [lia|].
Qed.
Lemma thenret_ok H : data_instr H exec_thenret.
Proof. unfold exec_thenret. compos_go. apply ctl_push_cont; [lia|by apply wf_succ]. Qed.
Lemma thenret_alt_ok H : data_instr H exec_thenret_alt.
Proof. unfold exec_thenret_alt. compos_go. apply ctl_push_cont; [lia|by apply wf_succ]. Qed.
Lemma invert_ok H : data_instr H exec_invert.
Proof. unfold exec_invert. do 2 ctr_step. eapply ctl_bind; [lia|by apply ctl_set_c0|]. intros ? _. set_end. Qed.
Lemma samealt_ok H save_ : data_instr H (exec_samealt save_).
Proof.
  unfold exec_samealt. do 2 ctr_step. match goal with S : regs_full _ /\ regs_sound ?H ?r, C : cont_wf ?H ?c |- _ =>
    destruct (define01_wf H r c (proj2 S) C) as (? & ? & ?) end. apply ctl_up. destruct save_; cbv zeta.
  - eapply ctl_bind; [lia|by apply ctl_set_c0|]. intros ? _. set_end.
  - eapply ctl_bind; [lia|by apply (ctl_ret _ _ 0 any)|]. intros ? _. eapply ctl_post; [by apply ctl_set_c1, wf_succ|lia|lia].
Qed.
Lemma booleval_ok H : jump_instr H exec_booleval.
Proof.
  unfold exec_booleval. ctr_step. ctl_pay.
  assert (forall v c, in_range v -> cont_wf H c -> cont_wf (S H) (PushIntCont v c)) as W.
  { intros v c Hv Hc. apply wf_push_int; [done|by apply wf_succ|apply wf_height in Hc; cbn; lia]. }
  apply ctl_up. eapply ctl_bind; [lia|apply ctl_set_c0, W; [unfold in_range, Half; lia|done]|]. intros ? _.
  eapply ctl_bind; [lia|apply ctl_set_c1, W; [unfold in_range, Half; lia|done]|]. intros ? _.
  eapply ctl_post; [by apply ctl_jump_max, wf_succ|lia|lia].
Qed.

End ContChangeSafe.
