(* ===== verification/ExceptionSafe.v ===== *)
(** * Exceptions, dictionary jumps and the rest: the whole codepage keeps the machine sound ([crypto/vm/contops.cpp], [cp0.cpp]) *)
From S2P Require Import Prelude BigInt BigIntOps BigIntShift BigIntLog RefInt Stack OpTable StackOps StackSafety ArithOps ArithSafe ArithSpec TupleOps TupleSpec TupleSafe MachineTypes MachineKeeps MachineInv Continuation Cells CellConstOps BuilderOps SliceOps ContOps ContChange Machine ContTypes ContJumps JumpSafe CallSafe ContOpsSafe ControlSafe CellSafe JumpOpsSafe ContChangeSafe.

Section ExceptionSafe.
Context `{CS : CellSystem}.

Abbreviation any := (fun _ => True).
Abbreviation entries_ok H := (Forall (@entry_ok vm_refs (cont_wf H))).
Abbreviation entry_wf H := (@entry_ok vm_refs (cont_wf H)).
Abbreviation landed := (fun z => z =? 0).
Abbreviation jump_instr H m := (ctl true H (S (S H)) (6 + H) any landed m).
Abbreviation data_instr H m := (ctl true H (S (S H)) (6 + H) any (fun _ => true) m).

(** ** Building continuations *)

Lemma setcont_varargs_ok H : data_instr H exec_setcont_varargs.
Proof. unfold exec_setcont_varargs. do 3 ctl_step. apply setcontargs_ok. Qed.
Lemma setnum_varargs_ok H : data_instr H exec_setnum_varargs.
Proof. unfold exec_setnum_varargs. do 2 ctl_step. apply setcontargs_ok. Qed.
Lemma return_varargs_ok H : data_instr H exec_return_varargs.
Proof. unfold exec_return_varargs. ctl_step. apply return_args_ok. lia. Qed.
Lemma bless_varargs_ok H : data_instr H exec_bless_varargs.
Proof. unfold exec_bless_varargs. do 3 ctl_step. apply bless_args_ok. Qed.
Lemma bless_ok H : data_instr H exec_bless.
Proof.
  unfold exec_bless. eapply ctl_bind; [lia|apply ctl_pop_slice|intros cs Hcs]. eapply ctl_bind; [lia|apply ctl_get_cp|intros c _].
  apply (ctl_push_cont _ H); [lia|]. apply (cont_mono H); [lia|]. by apply plain_ok.
Qed.

Lemma continuation_change_ops_sound : Forall instr_sound continuation_change_ops.
Proof.
  unfold continuation_change_ops, reg_ctr_oprange. cbn [app].
  repeat (apply Forall_cons_2;
    [instr_kind;
     first [ apply setcontargs_ok | apply return_args_ok, arg0_range | apply setcont_varargs_ok | apply setnum_varargs_ok
           | apply return_varargs_ok | apply bless_varargs_ok | apply bless_ok | apply bless_args_ok | apply push_ctr_ok
           | apply pop_ctr_ok | apply setcont_ctr_ok | apply setret_ctr_ok | apply setalt_ctr_ok | apply popsave_ctr_ok
           | apply save_ctr_ok | apply savealt_ctr_ok | apply saveboth_ctr_ok | apply push_ctr_var_ok | apply pop_ctr_var_ok
           | apply setcont_ctr_var_ok | apply compos_ok | apply atexit_ok | apply atexit_alt_ok | apply setexit_alt_ok
           | apply thenret_ok | apply thenret_alt_ok | apply invert_ok | apply booleval_ok | apply samealt_ok ]|]).
  apply Forall_nil.
Qed.

(** ** Dictionary jumps *)

Lemma mask_range w v : 0 <= w <= 32 -> in_range (Z.land v (Z.ones w)).
Proof.
  intros Hw. rewrite Z.land_ones by lia. pose proof (Z.mod_pos_bound v (2 ^ w)). pose proof (Z.pow_pos_nonneg 2 w ltac:(lia) ltac:(lia)).
  pose proof (Z.pow_le_mono_r 2 w 32 ltac:(lia) ltac:(lia)). unfold in_range, Half. lia.
Qed.

Lemma continuation_dict_jump_ops_sound : Forall instr_sound continuation_dict_jump_ops.
Proof.
  unfold continuation_dict_jump_ops.
  repeat (apply Forall_cons_2;
    [instr_kind; ctl_unfold; (eapply ctl_bind; [lia|apply ctl_push_small; first [by apply (mask_range 8) | by apply (mask_range 14)]|intros ? _]);
     first [solve [ctl_go] | eapply ctl_bind; [lia|apply ctl_get_c3|intros c Hc]; apply (ctl_push_cont _ H); [lia|by apply (cont_mono H); [lia|]]]|]).
  apply Forall_nil.
Qed.

(** ** Exceptions *)

Lemma throw_ok b H n e : in_range n -> entry_wf H e -> ctl b H (S (S H)) (6 + H) any landed (throw_exception_arg n e).
Proof. intros Hn He. eapply ctl_post; [by apply ctl_throw_arg|lia|lia]. Qed.
Lemma zero_ok H : entry_wf H (se_int (make_refint 0)).
Proof. apply ok_int, small_int_ok. unfold in_range, Half. lia. Qed.

Lemma throw_fixed_ok H mask mode args : in_range (Z.land args mask) -> jump_instr H (exec_throw_fixed mask mode args).
Proof.
  intros Hn. assert (jump_instr H (throw_exception (Z.land args mask))) as Ht by (by apply throw_ok, zero_ok).
  unfold exec_throw_fixed. cbv zeta. apply ctl_if; [done|]. ctl_step. apply ctl_if; [ctl_end|done].
Qed.
Lemma throw_arg_fixed_ok H mask mode args : in_range (Z.land args mask) -> jump_instr H (exec_throw_arg_fixed mask mode args).
Proof.
  intros Hn. unfold exec_throw_arg_fixed. cbv zeta. apply ctl_checked; [lia|].
  assert (ctl_at 1 true H (S (S H)) (6 + H) any landed
            (e ← pop; if negb (Bool.eqb (Z.testbit mode 0) (Z.testbit mode 0)) then mret 0 else throw_exception_arg (Z.land args mask) e)) as W0.
  { apply (at_pop 0); [lia|]. intros e He. apply at_any, ctl_if; [ctl_end|by apply throw_ok]. }
  destruct (mode =? 0); [exact W0|].
  apply (at_bind 1 _ _ _ _ any); [lia|apply pops1_bool|apply ctl_pop_bool|]. intros b _. apply (at_pop 0); [lia|]. intros e He.
  apply at_any, ctl_if; [ctl_end|by apply throw_ok].
Qed.

(** The end of [THROWANY]: the argument is on the stack if there is one. *)
Lemma throw_any_end H (has_param skip : bool) n : in_range n ->
  ctl_at (Z.b2z has_param) true H (S (S H)) (6 + H) any landed
    (if skip then _ ← (if has_param then _ ← pop; mret tt else mret tt); mret 0
     else if has_param then e ← pop; throw_exception_arg n e else throw_exception n).
Proof.
  intros Hn. assert (jump_instr H (throw_exception n)) as Ht by (by apply throw_ok, zero_ok).
  destruct skip, has_param; [| |apply (at_pop 0); [lia|]; intros e He; by apply at_any, throw_ok|by apply at_any].
  - intros st. replace ((_ ← (_ ← pop; mret tt); mret 0) st) with ((_ ← pop; mret 0 : VM Z) st) by (vm_run; by destruct (pop st) as [[? ?]| | |]).
    revert st. apply (at_pop 0); [lia|]. intros e He. apply at_any. ctl_go.
  - apply at_any. eapply ctl_bind; [lia|by apply (ctl_ret _ _ 0 any)|intros ? _; ctl_end].
Qed.
Lemma throw_any_ok H args : jump_instr H (exec_throw_any args).
Proof.
  unfold exec_throw_any. cbv zeta. apply ctl_checked; [lia|].
  set (param := Z.testbit args 0). set (when := Z.testbit args 1). clearbody param when.
  assert (forall flag, ctl_at (Z.b2z param + 1) true H (S (S H)) (6 + H) any landed
    (excno ← pop_smallint_range 0xffff 0;
     if negb (Bool.eqb flag when) then _ ← (if param then _ ← pop; mret tt else mret tt); mret 0
     else if param then e ← pop; throw_exception_arg excno e else throw_exception excno)) as W.
  { intros flag. eapply at_bind; [lia|apply pops1_smallint|apply ctl_smallint; lia|]. intros n Hn. cbv beta in Hn.
    apply throw_any_end. unfold in_range, Half. lia. }
  destruct (negb (Z.land args 6 =? 0)); cbn [Z.b2z].
  - replace (1 + 1 + Z.b2z param) with (Z.b2z param + 1 + 1) by lia.
    eapply at_bind; [lia|apply pops1_bool|apply ctl_pop_bool|]. intros flag _. apply W.
  - replace (1 + 0 + Z.b2z param) with (Z.b2z param + 1) by lia. apply W.
Qed.

(** ** [TRY] *)

Definition try_rest (handler cont : Cont) (r : ControlRegs) (cc : Cont) : VM Z :=
  _ ← update_cr (set_c0 cc);
  _ ← update_cr (set_c2 (force_cregs (fun s => define_c0 (Some cc) (define_c2 (c2 r) s)) handler)); jump cont.

Lemma try_extract_ok H n ca handler cont r : cont_wf H handler -> cont_wf H cont -> regs_sound H r ->
  jump_instr H (cc ← extract_cc 7 n ca; try_rest handler cont r cc).
Proof.
  intros Hh Hc Hr st. unfold try_rest. rewrite (extract_try n ca (fun cc => force_cregs (fun s => define_c0 (Some cc) (define_c2 (c2 r) s)) handler)).
  revert st. eapply ctl_charge; [lia|by apply ctl_extract_cc|]. intros cc Hcc. eapply ctl_bind; [lia|apply ctl_get_cr|]. intros r' [_ Hr'].
  cbv zeta. set (cc' := force_cregs _ cc).
  pose proof (proj1 (proj2 (proj2 (regs_elim H _ Hr)))) as C2. pose proof (proj1 (proj2 (proj2 (regs_elim H _ Hr')))) as C2'.
  assert (cont_wf (S H) cc') as Hcc'. { apply force_cregs_wf; [done|]. intros s Hs. by apply define_c2_sound. }
  apply ctl_up. eapply ctl_bind; [lia|by apply ctl_set_c0|]. intros ? _. apply ctl_up.
  eapply ctl_bind; [lia|apply ctl_set_c2, force_cregs_wf; [by apply wf_succ|]|].
  - intros s Hs. apply define_c0_sound; [by intros c [= <-]|]. apply define_c2_sound; [|done]. intros c Ec. by apply wf_succ, C2.
  - intros ? _. eapply ctl_post; [by apply ctl_jump_max, wf_succ, wf_succ|lia|lia].
Qed.
Lemma try_ok H args : jump_instr H (exec_try args).
Proof.
  unfold exec_try. cbv zeta. ctl_step. ctl_step. ctl_step. eapply ctl_bind; [lia|apply ctl_get_cr|]. intros r [F R]. cbv beta.
  destruct (0 <=? args); by apply try_extract_ok.
Qed.

Lemma exception_ops_sound : Forall instr_sound exception_ops.
Proof.
  unfold exception_ops.
  repeat (apply Forall_cons_2;
    [instr_kind;
     first [ apply throw_fixed_ok; first [by apply (mask_range 6) | by apply (mask_range 11)]
           | apply throw_arg_fixed_ok; by apply (mask_range 11)
           | apply throw_any_ok | apply try_ok ]|]).
  apply Forall_nil.
Qed.

(** ** The codepage *)

Lemma codepage_ops_sound : Forall instr_sound codepage_ops.
Proof.
  unfold codepage_ops, exec_set_cp, exec_set_cp_any, exec_set_cp_generic.
  repeat (apply Forall_cons_2; [instr_kind; ctl_go|]). apply Forall_nil.
Qed.

Lemma data_ops_sound : Forall instr_sound data_ops.
Proof.
  assert (Forall instr_safe data_ops) as Hs.
  { unfold data_ops. rewrite !Forall_app. split; [apply stack_ops_safe|]. split; [apply tuple_ops_safe|apply arith_ops_safe]. }
  apply Forall_forall. intros i Hi%list_elem_of_In. apply data_sound_instr; [by apply (elem_Forall _ _ _ Hs)|].
  intros CK. by apply (elem_Forall _ _ _ data_ops_typed).
Qed.

Lemma cp0_ops_sound : Forall instr_sound cp0_ops.
Proof.
  unfold cp0_ops, control_ops. rewrite !Forall_app. split; [apply data_ops_sound|]. split; [apply cell_const_ops_sound|]. split; [apply cell_data_ops_sound|].
  split; [|apply codepage_ops_sound]. split; [apply continuation_jump_ops_sound|]. split; [apply continuation_cond_loop_ops_sound|].
  split; [apply continuation_change_ops_sound|]. split; [apply continuation_dict_jump_ops_sound|apply exception_ops_sound].
Qed.

End ExceptionSafe.
