(* ===== verification/ControlSpec.v ===== *)
(** * What calls and handlers do ([VmState::call], [ret] and [extract_cc] of [crypto/vm/vm.cpp], [TRY] of [contops.cpp])

    A call hides the caller's stack and comes back to it; a handler runs once, with the
    registers of the place where it was set up. *)
From S2P Require Import Prelude BigInt RefInt Stack OpTable StackOps MachineTypes Continuation Cells CellConstOps BuilderOps SliceOps ContOps ContChange ContTypes ContJumps JumpSafe CallSafe ContOpsSafe TreeCells.

Section ControlSpec.
Context `{CS : CellSystem}.

(** The entries that [n] arguments or results take off a stack, all of them if [n] is negative,
    and those below. *)
Definition passed (n : Z) (s : list StackEntry) : list StackEntry := if n <? 0 then s else take (Z.to_nat n) s.
Definition kept (n : Z) (s : list StackEntry) : list StackEntry := if n <? 0 then [] else drop (Z.to_nat n) s.

(** A jump to code whose codepage exists, with the registers that it has saved. *)
Lemma set_code_run cs p st : get_table p = true ->
  set_code cs p st = Done (tt, {| stack := stack st; code := Some cs; core := core_with_cp p (core st) |}).
Proof.
  intros Hp. unfold set_code, put_code, force_cp, set_cp, get_cp, init_cp, put_cp. vm_run. cbn [core].
  destruct (Z.eqb_spec p (cp (core st))) as [E|E].
  - cbn. rewrite E. by destruct st as [? ? []].
  - rewrite Hp. done.
Qed.
Lemma jump_to_ord (d : ControlData) (cs : CellSlice) (st : VmState) : get_table (cd_cp d) = true ->
  jump_to (OrdCont d cs) st =
    Done (0, {| stack := stack st; code := Some cs; core := core_with_cp (cd_cp d) (core_with_cr (regs_adjust (cr (core st)) (save d)) (core st)) |}).
Proof. intros Hp. cbn [jump_to]. unfold adjust_cr, update_cr, get_cr, set_cr. vm_run. by rewrite set_code_run. Qed.

(** The whole jump: the stack that the code gets, and what is paid for it. *)
Definition entered (d : ControlData) (cs : CellSlice) (g : GasLimits) (st : VmState) : VmState :=
  {| stack := passed (nargs d) (stack st) ++ saved_stack d; code := Some cs;
     core := core_with_cp (cd_cp d) (core_with_cr (regs_adjust (cr (core st)) (save d)) (core_with_gas g (core st))) |}.

Lemma jump_ord_run (d : ControlData) (cs : CellSlice) (st : VmState) : get_table (cd_cp d) = true ->
  if depth (stack st) <? nargs d then jump (OrdCont d cs) st = Throw stk_und (core st)
  else exists g, charges 0 1 (gas st) g /\ jump (OrdCont d cs) st = Done (0, entered d cs g st).
Proof.
  intros Hp. unfold jump, prepare. cbn [get_cdata]. destruct (bool_decide _ || _) eqn:B.
  - unfold prepare_jump. cbn [get_cdata]. vm_run. rewrite check_args_run.
    destruct (Z.ltb_spec (depth (stack st)) (-1)); [pose proof (depth_nonneg (stack st)); lia|]. cbn [orb].
    change (0 <=? -1) with false. rewrite !andb_false_r, orb_false_r. destruct (Z.ltb_spec (depth (stack st)) (nargs d)); [done|].
    unfold preclear_cr, update_cr, get_cr, set_cr. vm_run. cbn [stack with_core andb]. set (st1 := with_core _ st).
    assert (forall s g, s = passed (nargs d) (stack st) ++ saved_stack d ->
      jump_to (OrdCont d cs) {| stack := s; code := code st; core := core_with_gas g (core st1) |} = Done (0, entered d cs g st)) as W.
    { intros s g ->. rewrite jump_to_ord by done. cbn [core stack cr core_with_gas with_core core_with_cr st1]. by rewrite adjust_preclear. }
    assert (charges 0 1 (gas st) (gas st)) as C0 by (eapply charges_weaken; [apply charges_none|lia|lia]).
    destruct (saved_stack d) as [|e own] eqn:Eo.
    + destruct ((0 <=? nargs d) && (nargs d <? depth (stack st))) eqn:D.
      * apply andb_true_iff in D as [D1%Z.leb_le D2%Z.ltb_lt]. rewrite drop_bottom_run by (cbn [stack st1 with_core]; lia).
        cbv beta iota. unfold consume_stack_gas, consume_gas. cbn [stack with_stack st1 with_core code core gas]. eexists.
        split; [apply (stack_charge (nargs d))|]. apply W. rewrite app_nil_r. unfold passed. destruct (Z.ltb_spec (nargs d) 0); [lia|].
        transitivity (take (length (stack st) - Z.to_nat (depth (stack st) - nargs d)) (stack st)); [reflexivity|]. f_equal. unfold depth in *. lia.
      * exists (gas st). split; [done|]. rewrite <- (W (stack st) (gas st)); [by destruct st as [? ? []]|].
        rewrite app_nil_r. unfold passed. destruct (Z.ltb_spec (nargs d) 0); [done|]. rewrite take_ge; [done|].
        unfold depth in *. destruct (Z.leb_spec 0 (nargs d)), (Z.ltb_spec (nargs d) (Z.of_nat (length (stack st)))); try lia; done.
    + set (m := if nargs d <? 0 then depth (stack st) else nargs d). rewrite move_run by (unfold m; destruct (nargs d <? 0); lia).
      cbv beta iota. unfold consume_stack_gas, consume_gas. vm_run. eexists. split; [apply stack_charge|]. apply W.
      unfold passed, m. destruct (nargs d <? 0); [|done]. rewrite take_ge; [done|]. unfold depth. lia.
  - apply orb_false_iff in B as [B1 B2%Z.leb_gt]. destruct (Z.ltb_spec (depth (stack st)) (nargs d)); [pose proof (depth_nonneg (stack st)); lia|].
    exists (gas st). split; [eapply charges_weaken; [apply charges_none|lia|lia]|]. vm_run. rewrite jump_to_ord by done. unfold entered, passed, saved_stack.
    destruct (Z.ltb_spec (nargs d) 0); [|lia]. destruct (cd_stack d); [done|]. cbn [default from_option id]. rewrite app_nil_r. by destruct st as [? ? []].
Qed.

(** A return to a continuation that saves registers, from a state that holds it in [c0]. *)
Lemma ret_ord_run (d : ControlData) (cs : CellSlice) (st : VmState) : get_table (cd_cp d) = true -> c0 (cr (core st)) = Some (OrdCont d cs) ->
  let r := set_c0 quit0 (cr (core st)) in
  if depth (stack st) <? nargs d then ret st = Throw stk_und (core_with_cr r (core st))
  else exists st', ret st = Done (0, st') /\ stack st' = passed (nargs d) (stack st) ++ saved_stack d /\ code st' = Some cs
         /\ cr (core st') = regs_adjust r (save d) /\ cp (core st') = cd_cp d /\ charges 0 1 (gas st) (gas st').
Proof.
  intros Hp E0 r. unfold ret, get_c0, get_cr, update_cr, set_cr. vm_run. rewrite E0. unfold deref. vm_run. unfold get_cr. cbv beta iota.
  set (st1 := with_core (core_with_cr r (core st)) st). pose proof (jump_ord_run d cs st1 Hp) as J. change (stack st1) with (stack st) in J.
  destruct (depth (stack st) <? nargs d); [exact J|]. destruct J as (g & C & J). exists (entered d cs g st1). split; [exact J|]. done.
Qed.

(** ** Calls *)

Lemma call_stacks_plain (d : ControlData) n s : cd_stack d = None -> nargs d = -1 -> n <= depth s ->
  call_stacks d n s = Some (passed n s, if n <? 0 then None else Some (kept n s), 0 <=? n).
Proof.
  intros Es En Hn. unfold call_stacks, saved_stack, passed, kept. rewrite Es, En. cbn [default from_option id]. change (-1 <? 0) with true.
  change (0 <=? -1) with false. rewrite andb_false_r. destruct (Z.leb_spec 0 n), (Z.ltb_spec n 0); try lia.
  - destruct (Z.leb_spec 0 n); [|lia]. unfold split_top. destruct (Z.ltb_spec (depth s) n), (Z.ltb_spec (depth s - n) 0); try lia.
    cbn. by rewrite Z.add_0_r.
  - done.
Qed.

(** What a call leaves behind to return to. *)
Definition return_data (rest : option (list StackEntry)) (n p : Z) (k : Cont) : ControlData :=
  {| cd_stack := rest; save := define_c0 (Some k) empty_regs; nargs := n; cd_cp := p |}.

Lemma return_cont_run rest n (k : Cont) (cs : CellSlice) st : code st = Some cs ->
  return_cont rest n (Some k) st =
    Done (OrdCont (return_data rest n (cp (core st)) k) cs, {| stack := stack st; code := None; core := core st |}).
Proof. intros E. unfold return_cont, take_code, get_cp. vm_run. by rewrite E. Qed.

(** The end of a call: the new stack, what is paid for it, the continuation and the jump. *)
Lemma finish_call_run (d : ControlData) (body cs : CellSlice) new_stk rest (pays : bool) n (k : Cont) st :
  code st = Some cs -> get_table (cd_cp d) = true -> c0 (save d) = None ->
  exists st1, finish_call (OrdCont d body) new_stk rest pays n (Some k) st = Done (0, st1)
    /\ stack st1 = new_stk /\ code st1 = Some body /\ c0 (cr (core st1)) = Some (OrdCont (return_data rest n (cp (core st)) k) cs).
Proof.
  intros Ec Hp E0.
  assert (forall st1, code st1 = Some cs -> cp (core st1) = cp (core st) -> exists st2,
    (r ← return_cont rest n (Some k); _ ← set_stack new_stk; _ ← update_cr (set_c0 r); jump_to (OrdCont d body)) st1 = Done (0, st2)
    /\ stack st2 = new_stk /\ code st2 = Some body /\ c0 (cr (core st2)) = Some (OrdCont (return_data rest n (cp (core st)) k) cs)) as W.
  { intros st1 Ec1 Ep. vm_run. rewrite (return_cont_run rest n k cs st1 Ec1). cbv beta iota. unfold update_cr, get_cr, set_cr. vm_run.
    rewrite jump_to_ord by done. eexists. split; [done|]. split; [done|]. split; [done|]. cbn. rewrite E0, Ep. done. }
  unfold finish_call, consume_stack_gas, consume_gas. destruct pays; vm_run; by apply W.
Qed.

(** C26. A call with [params] arguments gives the code that is called just those entries; when
    it returns, with whatever it has left on its stack, the machine goes on with the caller's
    code, codepage and [c0], and the top [retvals] results on top of the caller's own entries. *)
Theorem call_protects_frame (d : ControlData) (body cs : CellSlice) (k : Cont) (params retvals : Z) (st : VmState) :
  code st = Some cs -> c0 (cr (core st)) = Some k -> get_table (cp (core st)) = true ->
  cd_stack d = None -> nargs d = -1 -> c0 (save d) = None -> get_table (cd_cp d) = true ->
  if depth (stack st) <? params then call_args (OrdCont d body) params retvals st = Throw stk_und (core st)
  else exists back st1, call_args (OrdCont d body) params retvals st = Done (0, st1)
    /\ stack st1 = passed params (stack st) /\ code st1 = Some body /\ c0 (cr (core st1)) = Some back
    /\ forall st2, c0 (cr (core st2)) = Some back ->
         if depth (stack st2) <? retvals then ret st2 = Throw stk_und (core_with_cr (set_c0 quit0 (cr (core st2))) (core st2))
         else exists st3, ret st2 = Done (0, st3) /\ stack st3 = passed retvals (stack st2) ++ kept params (stack st)
                /\ code st3 = Some cs /\ cr (core st3) = set_c0 k (cr (core st2)) /\ cp (core st3) = cp (core st)
                /\ charges 0 1 (gas st2) (gas st3).
Proof.
  intros Ec Ek Ht Es En E0 Hp. unfold call_args. cbn [get_cdata]. rewrite E0. vm_run. rewrite check_args_run, En.
  pose proof (depth_nonneg (stack st)) as Hd. destruct (Z.ltb_spec (depth (stack st)) params) as [|Hn]; [done|].
  assert ((depth (stack st) <? -1) || ((params <? -1) && (0 <=? params)) = false) as B by lia. cbn [orb]. rewrite B.
  unfold get_cr at 1, preclear_cr, update_cr at 1, get_cr at 1, set_cr at 1. vm_run. cbn [stack with_core].
  rewrite (call_stacks_plain d params _ Es En Hn), Ek. cbv beta iota. set (st0 := with_core _ st).
  destruct (finish_call_run d body cs (passed params (stack st)) (if params <? 0 then None else Some (kept params (stack st))) (0 <=? params) retvals k st0 Ec Hp E0)
    as (st1 & E1 & Hs1 & Hc1 & Hk1).
  eexists _, st1. split; [exact E1|]. split; [exact Hs1|]. split; [exact Hc1|]. split; [exact Hk1|]. intros st2 E2.
  pose proof (ret_ord_run _ cs st2 (Ht : get_table (cd_cp (return_data _ _ _ _)) = true) E2) as R. cbv zeta in R. cbn [nargs return_data] in R.
  destruct (depth (stack st2) <? retvals); [exact R|]. destruct R as (st3 & E3 & Hs3 & Hc3 & Hr3 & Hp3 & C). exists st3. split; [exact E3|].
  split; [|split; [exact Hc3|split; [|split; [exact Hp3|exact C]]]].
  - rewrite Hs3. f_equal. unfold saved_stack, return_data, kept. cbn [cd_stack]. by destruct (params <? 0).
  - rewrite Hr3. by destruct (cr (core st2)).
Qed.

(** ** Handlers *)

(** What [TRY] saves, and the handler that it sets up. *)
Definition after_try (k0 k1 k2 : Cont) (p : Z) (cs : CellSlice) : Cont :=
  OrdCont {| cd_stack := None; save := set_c2 k2 (set_c1 k1 (set_c0 k0 empty_regs)); nargs := -1; cd_cp := p |} cs.
Definition handler_of (after k2 : Cont) (p : Z) (hcode : CellSlice) : Cont :=
  OrdCont {| cd_stack := None; save := set_c0 after (set_c2 k2 empty_regs); nargs := -1; cd_cp := p |} hcode.

Lemma pop_cont_run c s st : stack st = se_cont c :: s -> pop_cont st = Done (c, with_stack st s).
Proof. intros Es. unfold pop_cont. by rewrite pop_as_run, Es. Qed.

Lemma extract_all_run (cs : CellSlice) (k0 k1 k2 : Cont) st : code st = Some cs ->
  c0 (cr (core st)) = Some k0 -> c1 (cr (core st)) = Some k1 -> c2 (cr (core st)) = Some k2 ->
  extract_cc 7 (-1) (-1) st = Done (after_try k0 k1 k2 (cp (core st)) cs,
    {| stack := stack st; code := None; core := core_with_cr (clear_c2 (set_c1 quit1 (set_c0 quit0 (cr (core st))))) (core st) |}).
Proof.
  intros Ec E0 E1 E2. destruct st as [s c k]. cbn [stack code core] in *. subst c. unfold extract_cc. vm_run. rewrite extract_stack_run.
  change ((-1 <? 0) || (-1 =? depth (stack {| stack := s; code := Some cs; core := k |}))) with true. cbv beta iota.
  unfold take_code, get_cp, save_if, save_c0, save_c1, save_c2, get_cr, update_cr, get_cr, set_cr.
  change (Z.testbit 7 0) with true. change (Z.testbit 7 1) with true. change (Z.testbit 7 2) with true. vm_run. cbn [code stack core with_core snd fst cp cr core_with_cr].
  rewrite E0. cbn [set_c0 c1 c2]. rewrite E1. cbn [set_c1 c2]. change (c2 (set_c0 quit0 (cr k))) with (c2 (cr k)). rewrite E2. reflexivity.
Qed.

Lemma try_run (hcode bcode cs : CellSlice) p s (k0 k1 k2 : Cont) st :
  stack st = se_cont (OrdCont (plain_data p) hcode) :: se_cont (OrdCont (plain_data p) bcode) :: s -> code st = Some cs ->
  c0 (cr (core st)) = Some k0 -> c1 (cr (core st)) = Some k1 -> c2 (cr (core st)) = Some k2 -> get_table p = true ->
  exists st1, exec_try (-1) st = Done (0, st1) /\ stack st1 = s /\ code st1 = Some bcode
    /\ cr (core st1) = set_c2 (handler_of (after_try k0 k1 k2 (cp (core st)) cs) k2 p hcode)
                         (set_c1 quit1 (set_c0 (after_try k0 k1 k2 (cp (core st)) cs) (cr (core st)))).
Proof.
  intros Es Ec E0 E1 E2 Hp. unfold exec_try. change (0 <=? -1) with false. cbv zeta. vm_run. rewrite check_run, Es. cbn [forallb].
  rewrite !depth_cons. destruct (Z.leb_spec 2 (depth s + 1 + 1)); [|pose proof (depth_nonneg s); lia]. cbn [andb]. cbv beta iota.
  rewrite (pop_cont_run _ _ st Es). cbv beta iota. rewrite (pop_cont_run (OrdCont (plain_data p) bcode) s (with_stack st (_ :: s)) eq_refl). cbv beta iota.
  unfold get_cr at 1. cbv beta iota. set (st1 := with_stack _ s). rewrite (extract_all_run cs k0 k1 k2 st1 Ec E0 E1 E2). cbv beta iota.
  unfold get_cr, update_cr, get_cr, set_cr. vm_run. cbn [core with_core cr core_with_cr stack code].
  change (cr (core st1)) with (cr (core st)). rewrite E2.
  set (st2 := with_core _ _). assert (get_table (cd_cp (plain_data p)) = true) as Hp' by exact Hp.
  pose proof (jump_ord_run (plain_data p) bcode st2 Hp') as J. cbn [nargs plain_data] in J.
  destruct (Z.ltb_spec (depth (stack st2)) (-1)); [pose proof (depth_nonneg (stack st2)); lia|]. destruct J as (g & _ & J).
  eexists. split; [exact J|]. split; [by apply app_nil_r|]. split; [done|]. cbn. by rewrite ?adjust_empty.
Qed.

(** C27. [TRY] runs its body on the rest of the stack.  When the body returns, the machine goes
    on behind [TRY] with the old [c0], [c1] and [c2]; when an exception is thrown with that
    handler in place and 50 gas left, the handler runs on its argument and number alone, under
    the old [c2], and returns to the same place. *)
Theorem try_handles (hcode bcode cs : CellSlice) p s (k0 k1 k2 : Cont) st :
  stack st = se_cont (OrdCont (plain_data p) hcode) :: se_cont (OrdCont (plain_data p) bcode) :: s -> code st = Some cs ->
  c0 (cr (core st)) = Some k0 -> c1 (cr (core st)) = Some k1 -> c2 (cr (core st)) = Some k2 ->
  get_table p = true -> get_table (cp (core st)) = true ->
  exists after handler st1, exec_try (-1) st = Done (0, st1) /\ stack st1 = s /\ code st1 = Some bcode
    /\ c0 (cr (core st1)) = Some after /\ c2 (cr (core st1)) = Some handler
    /\ (forall st2, c0 (cr (core st2)) = Some after -> exists st3, ret st2 = Done (0, st3) /\ stack st3 = stack st2
          /\ code st3 = Some cs /\ cr (core st3) = set_c2 k2 (set_c1 k1 (set_c0 k0 (cr (core st2)))))
    /\ (forall st2 n arg, c2 (cr (core st2)) = Some handler ->
          if gas_remaining (consume exception_gas_price (gas st2)) <? 0 then exists k, throw_exception_arg n arg st2 = NoGas k
          else exists st3, throw_exception_arg n arg st2 = Done (0, st3) /\ stack st3 = [se_int (make_refint n); arg]
          /\ code st3 = Some hcode /\ c0 (cr (core st3)) = Some after /\ c2 (cr (core st3)) = Some k2).
Proof.
  intros Es Ec E0 E1 E2 Hp Ht. destruct (try_run hcode bcode cs p s k0 k1 k2 st Es Ec E0 E1 E2 Hp) as (st1 & Et & Hs1 & Hc1 & Hr1).
  set (after := after_try k0 k1 k2 (cp (core st)) cs) in *. set (handler := handler_of after k2 p hcode) in *.
  exists after, handler, st1. split; [exact Et|]. split; [exact Hs1|]. split; [exact Hc1|]. rewrite Hr1. split; [done|]. split; [done|]. split.
  - intros st2 Ea. pose proof (ret_ord_run _ cs st2 (Ht : get_table (cd_cp {| cd_stack := None; save := _; nargs := -1; cd_cp := _ |}) = true) Ea) as R.
    cbv zeta in R. cbn [nargs] in R. destruct (Z.ltb_spec (depth (stack st2)) (-1)); [pose proof (depth_nonneg (stack st2)); lia|].
    destruct R as (st3 & E3 & Hs3 & Hc3 & Hr3 & _). exists st3. split; [exact E3|]. split; [by rewrite Hs3; apply app_nil_r|].
    split; [exact Hc3|]. by rewrite Hr3.
  - intros st2 n arg Eh. rewrite throw_run. cbv zeta.
    destruct (Z.leb_spec 0 (gas_remaining (consume exception_gas_price (gas st2)))) as [Hg|Hg], (Z.ltb_spec (gas_remaining (consume exception_gas_price (gas st2))) 0); try lia; [|eauto].
    set (st4 := {| stack := [_; _]; code := _; core := _ |}).
    assert ((c ← get_c2; jump c) st4 = jump handler st4) as ->.
    { unfold get_c2, get_cr. vm_run. change (cr (core st4)) with (cr (core st2)). by rewrite Eh. }
    pose proof (jump_ord_run {| cd_stack := None; save := set_c0 after (set_c2 k2 empty_regs); nargs := -1; cd_cp := p |} hcode st4 Hp) as J.
    cbn [nargs] in J. change (depth (stack st4) <? -1) with false in J. destruct J as (g & _ & J). eexists. split; [exact J|]. done.
Qed.

End ControlSpec.

(** ** The theorems at work *)

(** A caller with three integers calls [PUSHINT 5] with one argument and takes one result. *)
Definition caller : @VmState (@vm_refs tree_cells) :=
  {| stack := [se_int [7]; se_int [8]; se_int [9]]; code := Some (hex 1 0xF);
     core := {| core_gas := some_gas 100; cr := set_c2 ExcQuitCont (set_c1 quit1 (set_c0 quit0 empty_regs)); cp := 0; loaded_cells := []; cstate := None; steps := 0 |} |}.
Definition callee : @VmState (@vm_refs tree_cells) :=
  match call_args (OrdCont (plain_data 0) (hex 2 0x75)) 1 1 caller with Done (_, st) => with_stack st [se_int [5]; se_int [7]] | _ => caller end.

Lemma call_protects_frame_witness : exists st3, ret callee = Done (0, st3) /\ stack st3 = [se_int [5]; se_int [8]; se_int [9]] /\ code st3 = Some (hex 1 0xF).
Proof.
  destruct (call_protects_frame (plain_data 0) (hex 2 0x75) (hex 1 0xF) quit0 1 1 caller eq_refl eq_refl eq_refl eq_refl eq_refl eq_refl eq_refl)
    as (back & st1 & E1 & _ & _ & Hb & R).
  assert (c0 (cr (core callee)) = Some back) as Ec by (unfold callee; rewrite E1; exact Hb).
  destruct (R callee Ec) as (st3 & E3 & Hs & Hc & _). exists st3. split; [exact E3|]. split; [exact Hs|exact Hc].
Defined.

(** [TRY] of [THROW 33] with the handler [INC]. *)
Definition trying : @VmState (@vm_refs tree_cells) :=
  with_stack caller [se_cont (OrdCont (plain_data 0) (hex 2 0xA4)); se_cont (OrdCont (plain_data 0) (hex 4 0xF221)); se_int [9]].
Lemma try_handles_witness : exists st1 st3, exec_try (-1) trying = Done (0, st1) /\ code st1 = Some (hex 4 0xF221)
  /\ throw_exception 33 st1 = Done (0, st3) /\ code st3 = Some (hex 2 0xA4) /\ stack st3 = [se_int [33]; se_int [0]].
Proof.
  destruct (try_handles (hex 2 0xA4) (hex 4 0xF221) (hex 1 0xF) 0 [se_int [9]] quit0 quit1 ExcQuitCont trying eq_refl eq_refl eq_refl eq_refl eq_refl eq_refl eq_refl)
    as (after & handler & st1 & E1 & Hs1 & Hc1 & _ & Hh & _ & T).
  specialize (T st1 33 (se_int (make_refint 0)) Hh).
  assert (gas_remaining (gas st1) = 100) as G.
  { assert (match exec_try (-1) trying with Done (_, st) => gas_remaining (gas st) = 100 | _ => True end) as G by (vm_compute; reflexivity). by rewrite E1 in G. }
  assert ((gas_remaining (consume exception_gas_price (gas st1)) <? 0) = false) as L by (cbn [consume with_remaining gas_remaining]; rewrite G; reflexivity).
  rewrite L in T. destruct T as (st3 & E3 & Hs3 & Hc3 & _). exists st1, st3. split; [exact E1|]. split; [exact Hc1|]. split; [exact E3|]. split; [exact Hc3|exact Hs3].
Defined.
