(* ===== verification/RunSafe.v ===== *)
(** * The machine runs safely and ends ([VmState::step] and [VmState::run] of [crypto/vm/vm.cpp])

    An iteration of the loop from a sound machine leads to a sound machine, whose continuations
    are at most two jumps higher, or ends the run; and it charges at least 5, so that a run with
    [g] gas has at most [g / 5 + 2] iterations. *)
From S2P Require Import Prelude BigInt RefInt Stack OpTable MachineTypes Continuation Cells CellConstOps BuilderOps SliceOps ContOps ContChange Machine Run ContTypes ContJumps JumpSafe CallSafe ContOpsSafe ControlSafe ExceptionSafe.

(** ** Gas *)

(** While the sums stay small, [gas_remaining] does not wrap around. *)
Lemma charges_amount lo n g g' : charges lo n g g' -> - 2 ^ 63 <= gas_remaining g - Z.of_nat n * 2 ^ 32 -> gas_remaining g < 2 ^ 63 ->
  exists c, lo <= c <= Z.of_nat n * 2 ^ 32 /\ 0 <= c /\ gas_remaining g' = gas_remaining g - c.
Proof.
  intros (l & F & L & S & ->) Hlo Hhi. exists (foldr Z.add 0 l).
  assert (0 <= foldr Z.add 0 l <= Z.of_nat (length l) * 2 ^ 32) as B.
  { clear - F. induction F as [|c l Hc F IH]; cbn [foldr length]; [lia|]. rewrite Nat2Z.inj_succ. lia. }
  split; [nia|]. split; [lia|]. clear S. assert (Z.of_nat (length l) * 2 ^ 32 <= Z.of_nat n * 2 ^ 32) as Hl by nia.
  assert (- 2 ^ 63 <= gas_remaining g - Z.of_nat (length l) * 2 ^ 32) as Hlo' by lia. clear Hlo L Hl B n.
  revert g Hlo' Hhi. induction F as [|c l Hc F IH]; intros g Hlo Hhi; cbn [foldl foldr]; [lia|].
  cbn [length] in Hlo. rewrite Nat2Z.inj_succ in Hlo.
  assert (gas_remaining (consume c g) = gas_remaining g - c) as E.
  { unfold consume, with_remaining. cbn [gas_remaining]. apply wraps_small; [lia|]. unfold in_range in *. lia. }
  rewrite IH; rewrite ?E; lia.
Qed.

Section RunSafe.
Context `{CS : CellSystem} (t : OpcodeTable).

Abbreviation any := (fun _ => True).
Abbreviation landed := (fun z => z =? 0).

(** A registered codepage. *)
Definition table_sound : Prop := table_wf t /\ final t = false /\ forall i, i ∈ instructions t -> instr_sound i.

Lemma dispatch_sound H st : table_sound -> sound true H st -> paid 10 (S (S H)) (7 + H) (gas st) (dispatch (finalize t) st).
Proof.
  intros (Hw & Hf & Hi) Hst. pose proof Hst as (_ & _ & Hb). unfold dispatch. destruct (code st) as [cs|] eqn:Ec; [|done].
  assert (final (finalize t) = true) as -> by (unfold finalize; by rewrite Hf).
  destruct (lookup_finalized t (prefetch_opcode (cs_bits cs)) Hw Hf (prefetch_range _)) as (i & -> & Ci & Hor & _).
  destruct Hor as [Hin|Hd]; [by apply Hi|by apply dummy_sound].
Qed.

(** ** One step *)

Lemma paid_chk c H m st : 5 <= c <= 2 ^ 32 -> sound true H st -> ctl true H (S (S H)) (6 + H) any landed m ->
  paid 5 (S (S H)) (7 + H) (gas st) ((_ ← consume_chk c; m) st).
Proof.
  intros Hc Hst Hm. pose proof (paid_first c H (S (S H)) (6 + H) m st ltac:(lia) Hst Hm) as P.
  unfold consume_chk, gas_check. unfold consume_gas in *. revert P. vm_run. intros P. destruct (0 <=? _); [|done].
  eapply paid_lower; [|exact P]. lia.
Qed.

Lemma step_sound H st : table_sound -> sound true H st -> paid 5 (S (S H)) (7 + H) (gas st) (step (finalize t) st).
Proof.
  intros Ht Hst. pose proof Hst as (Hs & (F & R & T) & Hb). unfold step, count_step, get_code. vm_run. cbn [code with_core].
  destruct (code st) as [cs|] eqn:Ec; [|done]. set (st1 := with_core (bump (core st)) st).
  assert (sound true H st1) as Hst1. { split; [done|]. split; [done|]. cbn. rewrite Ec. exact Hb. }
  change (gas st) with (gas st1). destruct (0 <? _).
  - unfold dispatch_cp, get_cp. vm_run. change (cp (core st1)) with (cp (core st)). rewrite T.
    eapply paid_lower; [|by apply dispatch_sound]. lia.
  - destruct (cs_refs cs) as [|cell refs].
    + apply paid_chk; [unfold implicit_ret_gas_price; lia|done|]. eapply ctl_post; [apply ctl_ret_op|lia|lia].
    + apply paid_chk; [unfold implicit_jmpref_gas_price; lia|done|]. eapply ctl_charge; [lia|apply ref_to_cont_ok|]. intros c Hc.
      eapply ctl_post; [by apply ctl_jump_max|lia|lia].
Qed.

(** ** One iteration *)

(** The loop goes on from a sound machine, and at a moment in between the gas was not overdrawn. *)
Definition goes_on (H : nat) (g : GasLimits) (o : VmState + RunResult) : Prop :=
  match o with
  | inl st' => sound true (S (S H)) st' /\
      exists g1, charges 5 (8 + H) g g1 /\ 0 <= gas_remaining g1 /\ charges 0 (3 + H) g1 (gas st')
  | inr (Exit _ _ _) => True
  | inr Crash => False
  end.

Lemma errno_range e : in_range (get_errno e).
Proof. unfold in_range, Half. destruct e; cbn; lia. Qed.

Lemma finish_exits res st : exists res' stk k, finish res st = Exit res' stk k.
Proof. unfold finish. destruct (_ =? -1); [destruct (commit _)|]; eauto. Qed.

Lemma after_jump_ok H g g1 res st : sound (res =? 0) (S (S H)) st -> charges 5 (8 + H) g g1 -> 0 <= gas_remaining g1 ->
  charges 0 (3 + H) g1 (gas st) -> goes_on H g (after_jump res st).
Proof.
  intros Hst C1 Hg C2. unfold after_jump. destruct (res =? 0); [split; [done|by exists g1]|].
  destruct (finish_exits res st) as (? & ? & ? & ->). done.
Qed.

Lemma handle_ok H g e k : core_wf (S (S H)) k -> charges 5 (7 + H) g (core_gas k) -> goes_on H g (handle e k).
Proof.
  intros Hk C. unfold handle, throw_exception. rewrite throw_run. cbv zeta. set (st0 := {| stack := []; code := None; core := bump k |}).
  change (gas st0) with (core_gas k). set (g1 := consume _ _). destruct (Z.leb_spec 0 (gas_remaining g1)) as [Hg|]; [|done].
  set (st1 := {| stack := [_; _]; code := _; core := _ |}).
  assert (sound false (S (S H)) st1) as Hst1.
  { split; [|by split]. apply Forall_cons_2; [by apply ok_int, small_int_ok, errno_range|].
    apply Forall_cons_2; [apply (zero_ok)|by apply Forall_nil]. }
  assert (charges 5 (8 + H) g g1) as C1.
  { replace (8 + H)%nat with (7 + H + 1)%nat by lia. eapply charges_weaken; [eapply charges_trans; [exact C|apply charges_one]| |]; unfold exception_gas_price; lia. }
  pose proof (ctl_handler false (S (S H)) st1 Hst1) as J. change (gas st1) with g1 in J.
  destruct ((c ← get_c2; jump c) st1) as [[z st2]|e2 k2|k2|]; [|done|done|done].
  destruct J as (_ & Hst2 & C2). eapply after_jump_ok; [exact Hst2|exact C1|exact Hg|]. eapply charges_weaken; [exact C2|lia|lia].
Qed.

Lemma iteration_sound H st : table_sound -> sound true H st -> goes_on H (gas st) (iteration (finalize t) st).
Proof.
  intros Ht Hst. pose proof (step_sound H st Ht Hst) as P. unfold iteration, gas_check. vm_run.
  destruct (step (finalize t) st) as [[res st']|e k|k|]; [| |done|done].
  - destruct P as [Hst' C]. destruct (Z.leb_spec 0 (gas_remaining (gas st'))) as [Hg|]; [|done].
    eapply after_jump_ok; [exact Hst'| |exact Hg|]; [|eapply charges_weaken; [apply charges_none|lia|lia]].
    eapply charges_weaken; [exact C|lia|lia].
  - destruct P as (_ & Hk & C). by apply handle_ok.
Qed.

(** ** The loop *)

Lemma run_loop_sound fuel H st : table_sound -> sound true H st -> run_loop (finalize t) fuel st <> Some Crash.
Proof.
  intros Ht. revert H st. induction fuel as [|fuel IH]; intros H st Hst; [done|]. cbn [run_loop].
  pose proof (iteration_sound H st Ht Hst) as I. destruct (iteration (finalize t) st) as [st'|[]]; [|done|done].
  destruct I as [Hst' _]. by apply (IH (S (S H))).
Qed.

(** The gas after an iteration, as long as the heights are moderate. *)
Lemma iteration_gas H g st' r : goes_on H g r -> r = inl st' -> Z.of_nat H <= 2 ^ 29 -> - 2 ^ 61 - 2 ^ 37 <= gas_remaining g < 2 ^ 62 ->
  0 <= gas_remaining g /\ - 2 ^ 61 - 2 ^ 37 <= gas_remaining (gas st') <= gas_remaining g - 5.
Proof.
  intros G -> Hh Hg. destruct G as (_ & g1 & C1 & Hg1 & C2).
  destruct (charges_amount _ _ _ _ C1) as (c1 & ? & ? & E1); [lia|lia|].
  destruct (charges_amount _ _ _ _ C2) as (c2 & ? & ? & E2); [lia|lia|]. lia.
Qed.

(** Iterations that are enough for an amount of gas. *)
Definition loop_rounds (g : Z) : Z := Z.max 0 (g / 5 + 1) + 1.

Lemma run_loop_ends fuel H st : table_sound -> sound true H st -> - 2 ^ 61 - 2 ^ 37 <= gas_remaining (gas st) < 2 ^ 62 ->
  loop_rounds (gas_remaining (gas st)) <= Z.of_nat fuel -> Z.of_nat H + 2 * loop_rounds (gas_remaining (gas st)) <= 2 ^ 29 ->
  exists r, run_loop (finalize t) fuel st = Some r.
Proof.
  intros Ht. revert H st. induction fuel as [|fuel IH]; intros H st Hst Hg Hf Hh; [unfold loop_rounds in Hf; lia|]. cbn [run_loop].
  pose proof (iteration_sound H st Ht Hst) as I. destruct (iteration (finalize t) st) as [st'|r] eqn:E; [|eauto].
  destruct (iteration_gas H (gas st) st' _ I eq_refl) as [? ?]; [unfold loop_rounds in Hh; lia|lia|].
  assert (loop_rounds (gas_remaining (gas st')) <= loop_rounds (gas_remaining (gas st)) - 1) as R.
  { unfold loop_rounds. pose proof (Z.div_le_mono (gas_remaining (gas st')) (gas_remaining (gas st) + (-1) * 5) 5 ltac:(lia) ltac:(lia)) as D.
    rewrite Z.div_add in D by lia. pose proof (Z.div_pos (gas_remaining (gas st)) 5 ltac:(lia) ltac:(lia)). lia. }
  apply (IH (S (S H))); [apply I|lia|lia|lia].
Qed.

End RunSafe.
