(* ===== verification/RunTheorems.v ===== *)
(** * What holds of the whole machine

    Runs of the registered codepage: they never access what is not there, keep the types of
    what the machine stores, throw only the exceptions of the instruction set, and end before
    the gas is used up twice. *)
From stdpp Require Import relations.
From S2P Require Import Prelude BigInt RefInt Stack OpTable TupleOps MachineTypes Continuation Cells CellConstOps BuilderOps SliceOps ContOps ContChange Machine Run ContTypes ContJumps JumpSafe CallSafe ContOpsSafe ControlSafe ExceptionSafe RunSafe TreeCells.

Section RunTheorems.
Context `{CS : CellSystem}.

Abbreviation entries_ok H := (Forall (@entry_ok vm_refs (cont_wf H))).

(** The registered table. *)
Lemma init_op_cp0_sound : exists t, init_op_cp0 = Some (finalize t) /\ table_sound t.
Proof.
  destruct cp0_table as (t & E & Hw & Hf & Hin). exists t. unfold init_op_cp0. rewrite E. split; [done|]. split; [done|]. split; [done|].
  intros i Hi. apply (elem_Forall _ _ _ cp0_ops_sound). by apply Hin.
Qed.
(** The table that the program keeps. *)
Definition op_cp0 : OpcodeTable := default (finalize empty_table) init_op_cp0.
Lemma op_cp0_sound : exists t, op_cp0 = finalize t /\ table_sound t.
Proof. destruct init_op_cp0_sound as (t & E & Ht). exists t. unfold op_cp0. rewrite E. exact (conj eq_refl Ht). Qed.

(** ** The start *)

(** The machine that the constructor makes. *)
Definition start_regs (same_c3 : bool) (data : option Cell) (init_c7 : option (list StackEntry)) (cs : CellSlice) : ControlRegs :=
  {| c0 := Some quit0; c1 := Some quit1; c2 := Some ExcQuitCont; c3 := Some (if same_c3 then OrdCont (plain_data 0) cs else QuitCont 11);
     d0 := Some (default empty_cell data); d1 := Some empty_cell; c7 := Some (default [] init_c7) |}.
Definition started (flags : Z) (data : option Cell) (init_c7 : option (list StackEntry)) (cs : CellSlice) (stk : list StackEntry) (g : GasLimits) : VmState :=
  {| stack := if Z.testbit flags 0 && Z.testbit flags 1 then se_int (make_refint 0) :: stk else stk; code := Some cs;
     core := {| core_gas := g; cr := start_regs (Z.testbit flags 0) data init_c7 cs; cp := 0; loaded_cells := []; cstate := None; steps := 0 |} |}.

Lemma construct_run flags data init_c7 cs stk g : construct flags data init_c7 (blank cs stk g) = Done (tt, started flags data init_c7 cs stk g).
Proof.
  unfold construct, init_cregs, started. destruct data as [d|], init_c7 as [tup|], (Z.testbit flags 0), (Z.testbit flags 1); reflexivity.
Qed.

Lemma started_sound H flags data init_c7 cs stk g : slice_ok cs -> entries_ok H stk ->
  (forall tup, init_c7 = Some tup -> tuple_size tup <= 255 /\ entries_ok H tup) -> sound true H (started flags data init_c7 cs stk g).
Proof.
  intros Hc Hs Ht. split; [|split; [|exact Hc]].
  - unfold started. cbn [stack]. destruct (_ && _); [|done]. apply Forall_cons_2; [apply zero_ok|done].
  - split; [unfold regs_full; cbn; eauto 10|]. split; [|done]. apply regs_intro; cbn.
    + intros ? [= <-]. by apply wf_quit.
    + intros ? [= <-]. by apply wf_quit.
    + intros ? [= <-]. apply wf_exc_quit.
    + intros ? [= <-]. destruct_if; [by apply plain_ok|by apply wf_quit].
    + intros ? [= <-]. destruct init_c7 as [tup|]; [by apply Ht|]. split; [done|by apply Forall_nil].
Qed.

(** ** Properties *)

(** C22. The modelled codepage registers without conflicts of opcodes, and no run of the machine
    from a sound state accesses an entry of a stack, of a tuple or of the table of instructions,
    a register, the code, a reference of the code or a continuation that is not there.  These are
    the accesses that [Undefined] stands for, which ends a run in [Crash].  Shifts and arithmetic
    on machine words are not among them: the model gives their values, also for the one shift by
    the width of a word, of PLDUZ on an empty slice ([prefetch_int256_zeroext]). *)
Theorem machine_safe H st fuel : sound true H st ->
  init_op_cp0 = Some op_cp0 /\ run op_cp0 fuel st <> Some Crash /\ run_loop op_cp0 fuel st <> Some Crash.
Proof.
  intros Hst. destruct init_op_cp0_sound as (t & E & Ht). unfold op_cp0. rewrite E. cbn [from_option id]. split; [done|].
  pose proof (run_loop_sound t fuel H st Ht Hst) as R. split; [|done]. unfold run. by destruct (code st).
Qed.

(** C23. Every state that the run loop reaches from a sound one is sound: the stack, the stacks
    and registers saved in continuations, and the registers hold 257-bit integers, tuples of at
    most 255 entries and well-formed continuations; no register is empty, and there is code. *)
Theorem machine_keeps_types H st st' : sound true H st -> rtc (fun a b => iteration op_cp0 a = inl b) st st' ->
  exists H', sound true H' st'.
Proof.
  intros Hst R. destruct op_cp0_sound as (t & E & Ht). rewrite E in R. revert H Hst. induction R as [st|st st1 st2 E1 R IH]; intros H Hst; [eauto|].
  pose proof (iteration_sound t H st Ht Hst) as I. rewrite E1 in I. destruct I as [Hst1 _]. by apply (IH (S (S H))).
Qed.

(** C24. A step of the machine throws only stack underflow or overflow, integer overflow, range
    check, invalid opcode, type check, or cell overflow or underflow, and what it throws finds a handler. *)
Theorem machine_exceptions H st e k : sound true H st -> step op_cp0 st = Throw e k ->
  e ∈ [stk_und; stk_ov; int_ov; range_chk; inv_opcode; type_chk; cell_ov; cell_und] /\
  exists handler, c2 (cr k) = Some handler /\ cont_wf (S (S H)) handler.
Proof.
  intros Hst R. destruct op_cp0_sound as (t & E & Ht). rewrite E in R. pose proof (step_sound t H st Ht Hst) as P. rewrite R in P.
  destruct P as (He & (F & R' & _) & _). unfold thrown in He. rewrite bool_decide_eq_true in He. split; [exact He|]. destruct F as (_ & _ & [c Ec] & _).
  exists c. split; [exact Ec|]. exact (proj1 (proj2 (proj2 (regs_elim _ _ R'))) c Ec).
Qed.

(** C25. Every run of the machine ends: with [g] gas, [run_vm_code] gives a result after at most
    [g / 5 + 2] iterations of its loop. *)
Theorem run_vm_code_ends H fuel cs stk flags data g init_c7 :
  slice_ok cs -> entries_ok H stk -> (forall tup, init_c7 = Some tup -> tuple_size tup <= 255 /\ entries_ok H tup) ->
  0 <= gas_remaining g <= 2 ^ 28 -> Z.of_nat H <= 2 ^ 28 -> gas_remaining g / 5 + 2 <= Z.of_nat fuel ->
  exists r, run_vm_code op_cp0 fuel cs stk flags data g init_c7 = Some r.
Proof.
  intros Hc Hs Ht Hg Hh Hf. destruct op_cp0_sound as (t & -> & Hts). unfold run_vm_code. rewrite construct_run.
  set (st := started _ _ _ _ _ _). assert (sound true H st) as Hst by (by apply started_sound).
  change (run (finalize t) fuel st) with (run_loop (finalize t) fuel st).
  assert (loop_rounds (gas_remaining g) = gas_remaining g / 5 + 2) as R.
  { unfold loop_rounds. pose proof (Z.div_pos (gas_remaining g) 5 ltac:(lia) ltac:(lia)). lia. }
  pose proof (Z.div_le_upper_bound (gas_remaining g) 5 (2 ^ 26) ltac:(lia) ltac:(lia)).
  destruct (run_loop_ends t fuel H st Hts Hst) as [r E]; [change (gas st) with g; lia..|]. rewrite E.
  pose proof (run_loop_sound t fuel H st Hts Hst) as C. destruct r; [by eexists|by destruct C].
Qed.

End RunTheorems.

(** ** The theorems at work *)

(** [0 3 PUSHCONT { INC } REPEAT]: the code is run from the slice to its end. *)
Definition repeat_code : @CellSlice (@vm_refs tree_cells) := hex 10 0x707391A4E4.
Definition repeat_state : VmState := started 0 None None repeat_code [] (some_gas 1000).
Lemma repeat_sound : sound true 0 repeat_state.
Proof. apply started_sound; [split; vm_compute; discriminate|by apply Forall_nil|done]. Qed.

Definition next (st : @VmState (@vm_refs tree_cells)) : VmState := match iteration op_cp0 st with inl st' => st' | inr _ => st end.
(** Two integers are pushed. *)
Lemma next_steps : stack (next (next repeat_state)) = [se_int [3]; se_int [0]] /\
  rtc (fun a b => iteration op_cp0 a = inl b) repeat_state (next (next repeat_state)).
Proof. split; [by vm_compute|]. apply (rtc_l _ _ (next repeat_state)); [by vm_compute|]. apply rtc_once. by vm_compute. Qed.

(** [ADD] on the empty stack. *)
Definition add_state : @VmState (@vm_refs tree_cells) := started 0 None None (hex 2 0xA0) [] (some_gas 1000).
Lemma add_sound : sound true 0 add_state.
Proof. apply started_sound; [split; vm_compute; discriminate|by apply Forall_nil|done]. Qed.

Lemma machine_safe_witness : sound true 0 repeat_state /\ init_op_cp0 = Some op_cp0 /\ run op_cp0 40 repeat_state <> Some Crash
  /\ run_loop op_cp0 40 repeat_state <> Some Crash.
Proof. split; [exact repeat_sound|]. exact (machine_safe 0 repeat_state 40 repeat_sound). Defined.

Lemma machine_keeps_types_witness : sound true 0 repeat_state /\ exists H', sound true H' (next (next repeat_state)).
Proof. split; [exact repeat_sound|]. exact (machine_keeps_types 0 _ _ repeat_sound (proj2 next_steps)). Defined.

Lemma machine_exceptions_witness : exists k, step op_cp0 add_state = Throw stk_und k /\
  stk_und ∈ [stk_und; stk_ov; int_ov; range_chk; inv_opcode; type_chk; cell_ov; cell_und] /\
  exists handler, c2 (cr k) = Some handler /\ cont_wf 2 handler.
Proof.
  assert (exists k, step op_cp0 add_state = Throw stk_und k) as [k E] by (eexists; vm_compute; reflexivity).
  exists k. split; [exact E|]. exact (machine_exceptions 0 add_state stk_und k add_sound E).
Defined.

(** The result of the program above: exit code 0, and 3 on the stack. *)
Lemma run_vm_code_ends_witness :
  (0 <= gas_remaining (some_gas 200) <= 2 ^ 28 /\ exists r, run_vm_code op_cp0 42 repeat_code [] 0 None (some_gas 200) None = Some r) /\
  option_map (fun r => (exit_code r, result_stack r)) (run_vm_code op_cp0 42 repeat_code [] 0 None (some_gas 200) None) = Some (0, Some [se_int [3]]).
Proof.
  split; [|vm_compute; reflexivity].
  assert (0 <= gas_remaining (some_gas 200) <= 2 ^ 28) as Hg by (split; vm_compute; discriminate). split; [exact Hg|].
  apply (run_vm_code_ends 0); [split; vm_compute; discriminate|by apply Forall_nil|intros tup; discriminate|exact Hg|vm_compute; discriminate|vm_compute; discriminate].
Defined.
