(* ===== verification/LoopSpec.v ===== *)
(** * Loops ([VmState::repeat], [loop_while] of [crypto/vm/vm.cpp], the loop continuations of [continuation.cpp])

    Rules for total correctness.  A piece of code [runs_to] [Q] from [P] if, from a stack with
    [P] and at least [m] gas, the machine gets to its end with [Q] and [m'] gas left after the
    return, and with the [c0] that it had.  The rules compose the bodies of REPEAT and WHILE,
    which the machine enters by jumps and leaves by the implicit return at the end of the code. *)
From stdpp Require Import relations.
From S2P Require Import Prelude BigInt RefInt Stack OpTable StackOps ArithOps ArithSpec MachineTypes Continuation Cells CellConstOps BuilderOps SliceOps ContOps ContChange Machine Run ContTypes ContJumps JumpSafe CallSafe ContOpsSafe ControlSafe ControlSpec ExceptionSafe RunSafe TreeCells RunTheorems.

Section LoopSpec.
Context `{CS : CellSystem} (t : OpcodeTable).

(** ** Runs and their gas *)

Definition goes (st st' : VmState) : Prop := iteration t st = inl st'.
Definition ended : CellSlice := {| cs_bits := []; cs_refs := [] |}.
Definition enough (m : Z) (st : VmState) : Prop := m <= gas_remaining (gas st) < 2 ^ 63.

(** The machine is in the code [cs] of the codepage [p], with the continuation [k] in [c0]. *)
Definition in_code (cs : CellSlice) (p : Z) (k : Cont) (st : VmState) : Prop :=
  code st = Some cs /\ cp (core st) = p /\ c0 (cr (core st)) = Some k.
Definition at_end (k : Cont) (st : VmState) : Prop := code st = Some ended /\ c0 (cr (core st)) = Some k.

Definition runs_to (cs : CellSlice) (p : Z) (P : list StackEntry -> Prop) (m : Z) (Q : list StackEntry -> Prop) (m' : Z) : Prop :=
  forall k st, in_code cs p k st -> P (stack st) -> enough m st ->
  exists st', rtc goes st st' /\ at_end k st' /\ Q (stack st') /\ enough (m' + 5) st'.

(** ** Jumps *)

(** Code with the register [c0] that it returns to. *)
Definition code_cont (cs : CellSlice) (p : Z) (k : option Cont) : Cont :=
  OrdCont {| cd_stack := None; save := define_c0 k empty_regs; nargs := -1; cd_cp := p |} cs.
Definition arrives (cs : CellSlice) (p : Z) (k : Cont) (st : VmState) (o : outcome (Z * VmState)) : Prop :=
  exists st', o = Done (0, st') /\ in_code cs p k st' /\ stack st' = stack st /\ gas st' = gas st.

Lemma jump_code cs p k k0 st : get_table p = true -> c0 (cr (core st)) = Some k0 ->
  arrives cs p (default k0 k) st (jump (code_cont cs p k) st).
Proof.
  intros Hp E0. unfold jump, code_cont, prepare. cbn [get_cdata cd_stack nargs].
  assert (bool_decide (is_Some (@None (list StackEntry))) || (0 <=? -1) = false) as -> by done. vm_run. rewrite jump_to_ord by exact Hp.
  eexists. split; [done|]. split; [|done]. split; [done|]. split; [done|]. by destruct k.
Qed.

(** The implicit return. *)
Definition returned (st : VmState) : VmState :=
  {| stack := stack st; code := code st;
     core := core_with_cr (set_c0 quit0 (cr (core st))) (core_with_gas (consume implicit_ret_gas_price (gas st)) (bump (core st))) |}.
Lemma returned_enough m st : 0 <= m -> enough (m + 5) st -> enough m (returned st).
Proof.
  unfold enough, returned, gas. cbn [core core_gas core_with_cr core_with_gas]. intros Hm H. unfold consume, with_remaining, implicit_ret_gas_price.
  cbn [gas_remaining]. rewrite (wraps_small 64) by lia. lia.
Qed.

Lemma return_goes cs p k k' s m st : at_end k st -> 0 <= m -> enough (m + 5) st ->
  arrives cs p k' (with_stack (returned st) s) (jump k (returned st)) ->
  exists st', goes st st' /\ in_code cs p k' st' /\ stack st' = s /\ enough m st'.
Proof.
  intros [Ec E0] Hm He (st' & J & Hi & Hs & Hg). exists st'. change (gas (with_stack (returned st) s)) with (gas (returned st)) in Hg.
  pose proof (returned_enough m st Hm He) as Hr. split; [|split; [exact Hi|split; [exact Hs|by unfold enough; rewrite Hg]]].
  unfold goes, iteration, step, count_step, get_code. vm_run. cbn [code with_core]. rewrite Ec. cbn [cs_bits cs_refs ended length].
  change (0 <? Z.of_nat 0) with false. cbv beta iota. unfold consume_chk, consume_gas, gas_check. vm_run.
  assert ((0 <=? gas_remaining (consume implicit_ret_gas_price (gas (with_core (bump (core st)) st)))) = true) as G.
  { apply Z.leb_le. destruct Hr as [Hr _]. unfold returned, gas in Hr. cbn [core core_gas core_with_cr core_with_gas] in Hr.
    unfold gas. cbn [core core_gas with_core bump]. unfold gas in Hr. lia. }
  unfold gas at 1. cbn [core core_gas core_with_gas]. rewrite G. cbv beta iota. unfold ret, get_c0, get_cr, deref, update_cr, set_cr. vm_run.
  cbn [core cr core_with_gas with_core bump]. rewrite E0. cbv beta iota. unfold get_cr. cbv beta iota.
  match goal with |- context [jump k ?x] => change x with (returned st) end. rewrite J. cbv beta iota.
  rewrite Hg. destruct Hr as [Hr _]. destruct (Z.leb_spec 0 (gas_remaining (gas (returned st)))); [done|lia].
Qed.

(** ** Loop continuations *)

Definition with_c0 (k : Cont) (st : VmState) : VmState := with_core (core_with_cr (set_c0 k (cr (core st))) (core st)) st.

(** A loop enters its code with itself in [c0]. *)
Lemma jump_inside cs p k st : get_table p = true -> arrives cs p k st (jump (code_cont cs p None) (with_c0 k st)).
Proof. intros Hp. exact (jump_code cs p None k (with_c0 k st) Hp eq_refl). Qed.

Lemma jump_repeat_more body after c st : 0 < c -> has_c0 body = false ->
  jump (RepeatCont body after c) st = jump body (with_c0 (RepeatCont body after (c - 1)) st).
Proof. intros Hc Hb. unfold jump at 1. cbn [prepare get_cdata jump_to]. rewrite Hb. destruct (Z.leb_spec c 0); [lia|]. by vm_run. Qed.
Lemma jump_repeat_done body after c st : c <= 0 -> jump (RepeatCont body after c) st = jump after st.
Proof. intros Hc. unfold jump at 1. cbn [prepare get_cdata jump_to]. destruct (Z.leb_spec c 0); [by vm_run|lia]. Qed.
Lemma jump_while_test cond body after st : has_c0 cond = false ->
  jump (WhileCont cond body after false) st = jump cond (with_c0 (WhileCont cond body after true) st).
Proof. intros Hb. unfold jump at 1. cbn [prepare get_cdata jump_to]. rewrite Hb. by vm_run. Qed.

(** The answer that a condition leaves on the stack: an integer, and it is not 0. *)
Lemma pop_answer x s st : stack st = se_int x :: s -> is_valid x = true -> pop_bool st = Done (negb (sgn x =? 0), with_stack st s).
Proof. intros Es Hx. unfold pop_bool, pop_int_finite. vm_run. by rewrite (pop_int_run _ _ _ Es), Hx. Qed.
Lemma jump_while_answer cond body after x s st : stack st = se_int x :: s -> is_valid x = true -> has_c0 body = false ->
  jump (WhileCont cond body after true) st =
    if sgn x =? 0 then jump after (with_stack st s) else jump body (with_c0 (WhileCont cond body after false) (with_stack st s)).
Proof.
  intros Es Hx Hb. unfold jump at 1. cbn [prepare get_cdata jump_to]. rewrite Hb. vm_run. rewrite (pop_answer x s st Es Hx). by destruct (sgn x =? 0).
Qed.

(** ** Rules *)

(** A sequence of runs. *)
Definition reaches (Q : VmState -> Prop) (st : VmState) : Prop := exists st', rtc goes st st' /\ Q st'.
Lemma reaches_step Q st st' : goes st st' -> reaches Q st' -> reaches Q st.
Proof. intros G (st2 & R & HQ). exists st2. split; [by eapply rtc_l|done]. Qed.
Lemma reaches_run Q st st' : rtc goes st st' -> reaches Q st' -> reaches Q st.
Proof. intros G (st2 & R & HQ). exists st2. split; [by etrans|done]. Qed.

(** Behind the loop, in the code [cs]. *)
Definition behind (cs : CellSlice) (p : Z) (k : Cont) (Q : list StackEntry -> Prop) (st : VmState) : Prop :=
  in_code cs p k st /\ Q (stack st) /\ enough 0 st.

Lemma return_behind cs p k k0 s Q st : get_table p = true -> at_end k0 st -> Q s -> enough 5 st ->
  jump k0 (returned st) = jump (code_cont cs p (Some k)) (with_stack (returned st) s) -> reaches (behind cs p k Q) st.
Proof.
  intros Hp He HQ Hg J. destruct (return_goes cs p k0 k s 0 st He ltac:(lia) Hg) as (st' & G & Hi & Hs & Hg').
  - rewrite J. by apply (jump_code cs p (Some k) quit0).
  - eapply reaches_step; [exact G|]. exists st'. split; [done|]. split; [exact Hi|]. by rewrite Hs.
Qed.

Section Repeat.
Context (P : nat -> list StackEntry -> Prop) (m : Z) (bcode cs : CellSlice) (pb p : Z) (k : Cont).
Context (Hm : 0 <= m) (Hpb : get_table pb = true) (Hp : get_table p = true).
Context (Hbody : forall i, runs_to bcode pb (P (S i)) (m * Z.of_nat (S i)) (P i) (m * Z.of_nat i)).

Abbreviation body := (code_cont bcode pb None).
Abbreviation after := (code_cont cs p (Some k)).

Lemma repeat_rounds i st : at_end (RepeatCont body after (Z.of_nat i)) st -> P i (stack st) -> enough (m * Z.of_nat i + 5) st ->
  reaches (behind cs p k (P 0%nat)) st.
Proof.
  revert st. induction i as [|i IH]; intros st He HP Hg.
  - eapply return_behind; [exact Hp|exact He|exact HP|by rewrite Z.mul_0_r in Hg|]. by apply jump_repeat_done.
  - destruct (return_goes bcode pb _ (RepeatCont body after (Z.of_nat i)) (stack st) (m * Z.of_nat (S i)) st He ltac:(nia) Hg) as (st1 & G1 & Hi1 & Hs1 & Hg1).
    { rewrite jump_repeat_more by (done || lia). replace (Z.of_nat (S i) - 1) with (Z.of_nat i) by lia. by apply jump_inside. }
    destruct (Hbody i _ st1 Hi1) as (st2 & R2 & He2 & HP2 & Hg2); [by rewrite Hs1|done|].
    eapply reaches_step; [exact G1|]. eapply reaches_run; [exact R2|]. by apply IH.
Qed.
End Repeat.

Section While.
Context (P R : nat -> list StackEntry -> Prop) (Q : list StackEntry -> Prop) (mc mb : Z) (ccode bcode cs : CellSlice) (pc pb p : Z) (k : Cont).
Context (Hmc : 0 <= mc) (Hmb : 0 <= mb) (Hpc : get_table pc = true) (Hpb : get_table pb = true) (Hp : get_table p = true).

(** What the condition leaves, when the body may run [i] times. *)
Definition answered (i : nat) (s : list StackEntry) : Prop :=
  exists x s', s = se_int x :: s' /\ is_valid x = true /\ if sgn x =? 0 then Q s' else (0 < i)%nat /\ R i s'.

Context (Hcond : forall i, runs_to ccode pc (P i) ((mc + mb) * Z.of_nat i + mc) (answered i) ((mc + mb) * Z.of_nat i)).
Context (Hbody : forall i, runs_to bcode pb (R (S i)) ((mc + mb) * Z.of_nat (S i)) (P i) ((mc + mb) * Z.of_nat i + mc)).

Abbreviation cond := (code_cont ccode pc None).
Abbreviation body := (code_cont bcode pb None).
Abbreviation after := (code_cont cs p (Some k)).
Abbreviation loop := (WhileCont cond body after).

Lemma while_rounds i st : at_end (loop true) st -> answered i (stack st) -> enough ((mc + mb) * Z.of_nat i + 5) st ->
  reaches (behind cs p k Q) st.
Proof.
  revert st. induction i as [i IH] using lt_wf_ind. intros st He (x & s & Es & Hx & HR) Hg.
  pose proof (jump_while_answer cond body after x s (returned st) Es Hx eq_refl) as J. destruct (sgn x =? 0).
  - apply (return_behind _ _ _ _ s _ _ Hp He HR); [|done]. destruct Hg. split; [nia|done].
  - destruct HR as [Hi HR], i as [|i]; [lia|].
    destruct (return_goes bcode pb _ (loop false) s ((mc + mb) * Z.of_nat (S i)) st He ltac:(nia) Hg) as (st1 & G1 & Hi1 & Hs1 & Hg1).
    { rewrite J. by apply jump_inside. }
    destruct (Hbody i _ st1 Hi1) as (st2 & R2 & He2 & HP2 & Hg2); [by rewrite Hs1|done|].
    destruct (return_goes ccode pc _ (loop true) (stack st2) ((mc + mb) * Z.of_nat i + mc) st2 He2 ltac:(nia) Hg2) as (st3 & G3 & Hi3 & Hs3 & Hg3).
    { rewrite jump_while_test by done. by apply jump_inside. }
    destruct (Hcond i _ st3 Hi3) as (st4 & R4 & He4 & HP4 & Hg4); [by rewrite Hs3|done|].
    eapply reaches_step; [exact G1|]. eapply reaches_run; [exact R2|]. eapply reaches_step; [exact G3|]. eapply reaches_run; [exact R4|].
    apply (IH i); [lia|done..].
Qed.
End While.

(** ** The instructions *)

Lemma extract_return_run cs k st : code st = Some cs -> c0 (cr (core st)) = Some k ->
  extract_cc 1 (-1) (-1) st =
    Done (code_cont cs (cp (core st)) (Some k), {| stack := stack st; code := None; core := core_with_cr (set_c0 quit0 (cr (core st))) (core st) |}).
Proof.
  intros Ec E0. destruct st as [s c k0]. cbn [stack code core] in *. subst c. unfold extract_cc. vm_run. rewrite extract_stack_run.
  change ((-1 <? 0) || (-1 =? depth (stack {| stack := s; code := Some cs; core := k0 |}))) with true. cbv beta iota.
  unfold take_code, get_cp, save_if, save_c0, get_cr, update_cr, get_cr, set_cr.
  change (Z.testbit 1 0) with true. change (Z.testbit 1 1) with false. change (Z.testbit 1 2) with false. vm_run. cbn [code stack core with_core snd fst cp cr core_with_cr].
  by rewrite E0.
Qed.

Lemma check_two a b s st : stack st = a :: b :: s -> check_underflow [2] st = Done (tt, st).
Proof.
  intros Es. rewrite check_run, Es. cbn [forallb]. rewrite !depth_cons. pose proof (depth_nonneg s). by destruct (Z.leb_spec 2 (depth s + 1 + 1)); [|lia].
Qed.
Lemma pop_count_run n s st : stack st = se_int (make_refint n) :: s -> 0 <= n < 2 ^ 31 ->
  pop_smallint_range 0x7fffffff (-0x80000000) st = Done (n, with_stack st s).
Proof.
  intros Es Hn. rewrite pop_smallint_run. unfold small_arg. rewrite Es. cbn [as_int]. rewrite make_refint_small by (unfold in_range, Half; lia).
  cbn [to_long_any].
  destruct (Z.ltb_spec 0x7fffffff n); [lia|]. destruct (Z.ltb_spec n (-0x80000000)); [lia|]. cbn [orb]. by rewrite wraps_small by lia.
Qed.

(** C28. [REPEAT] with the count [n] runs its body [n] times: if the body turns [P (i + 1)] into
    [P i] with [m] gas, the machine gets from [P n] to [P 0] behind the instruction, with the
    caller's code, codepage and [c0]. *)
Theorem repeat_rule (P : nat -> list StackEntry -> Prop) m (bcode cs : CellSlice) pb (k : Cont) (n : nat) s (st : VmState) :
  stack st = se_cont (OrdCont (plain_data pb) bcode) :: se_int (make_refint (Z.of_nat n)) :: s -> code st = Some cs ->
  c0 (cr (core st)) = Some k -> get_table pb = true -> get_table (cp (core st)) = true -> Z.of_nat n < 2 ^ 31 -> 0 <= m ->
  (forall i, runs_to bcode pb (P (S i)) (m * Z.of_nat (S i)) (P i) (m * Z.of_nat i)) ->
  P n s -> enough (m * Z.of_nat n) st ->
  exists st1, exec_repeat false st = Done (0, st1) /\ reaches (behind cs (cp (core st)) k (P 0%nat)) st1.
Proof.
  intros Es Ec E0 Hpb Hp Hn Hm Hbody HP Hg. unfold exec_repeat. vm_run. rewrite (check_two _ _ _ _ Es), (pop_cont_run _ _ _ Es).
  rewrite (pop_count_run (Z.of_nat n) s) by (done || lia). destruct n as [|n]; [|].
  - eexists. split; [done|]. exists (with_stack st s). split; [done|]. split; [done|]. split; [exact HP|]. destruct Hg. split; [|done]. by rewrite Z.mul_0_r in *.
  - destruct (Z.leb_spec (Z.of_nat (S n)) 0); [lia|]. rewrite (extract_return_run cs k) by done. unfold c1_envelope_if, repeat. vm_run.
    destruct (Z.leb_spec (Z.of_nat (S n)) 0); [lia|]. set (st0 := {| stack := _; code := None; core := _ |}).
    set (after := code_cont cs (cp (core st)) (Some k)). rewrite jump_repeat_more by (done || lia). replace (Z.of_nat (S n) - 1) with (Z.of_nat n) by lia.
    destruct (jump_inside bcode pb (RepeatCont (OrdCont (plain_data pb) bcode) after (Z.of_nat n)) st0 Hpb) as (st1 & J & Hi & Hs & Hg1).
    exists st1. split; [exact J|]. destruct (Hbody n _ st1 Hi) as (st2 & R2 & He2 & HP2 & Hg2); [by rewrite Hs|by unfold enough; rewrite Hg1|].
    eapply reaches_run; [exact R2|]. by apply (repeat_rounds P m bcode cs pb (cp (core st)) k) with n.
Qed.

(** C29. [WHILE] runs its condition and its body in turn until the condition answers 0: if the
    condition turns [P i] into an answer with [R i] or [Q] below it, for [mc] gas, and the body
    turns [R (i + 1)] into [P i], for [mb] gas, then the machine gets from [P n] to [Q] behind
    the instruction, after at most [n] rounds. *)
Theorem while_rule (P R : nat -> list StackEntry -> Prop) (Q : list StackEntry -> Prop) mc mb (ccode bcode cs : CellSlice) pc pb (k : Cont) (n : nat) s (st : VmState) :
  stack st = se_cont (OrdCont (plain_data pb) bcode) :: se_cont (OrdCont (plain_data pc) ccode) :: s -> code st = Some cs ->
  c0 (cr (core st)) = Some k -> get_table pc = true -> get_table pb = true -> get_table (cp (core st)) = true -> 0 <= mc -> 0 <= mb ->
  (forall i, runs_to ccode pc (P i) ((mc + mb) * Z.of_nat i + mc) (answered R Q i) ((mc + mb) * Z.of_nat i)) ->
  (forall i, runs_to bcode pb (R (S i)) ((mc + mb) * Z.of_nat (S i)) (P i) ((mc + mb) * Z.of_nat i + mc)) ->
  P n s -> enough ((mc + mb) * Z.of_nat n + mc) st ->
  exists st1, exec_while false st = Done (0, st1) /\ reaches (behind cs (cp (core st)) k Q) st1.
Proof.
  intros Es Ec E0 Hpc Hpb Hp Hmc Hmb Hcond Hbody HP Hg. unfold exec_while. vm_run. rewrite (check_two _ _ _ _ Es), (pop_cont_run _ _ _ Es).
  rewrite (pop_cont_run (OrdCont (plain_data pc) ccode) s) by done. rewrite (extract_return_run cs k) by done. unfold c1_envelope_if, loop_while. vm_run.
  set (st0 := {| stack := _; code := None; core := _ |}). set (after := code_cont cs (cp (core st)) (Some k)).
  destruct (jump_inside ccode pc (WhileCont (OrdCont (plain_data pc) ccode) (OrdCont (plain_data pb) bcode) after true) st0 Hpc) as (st1 & J & Hi & Hs & Hg1).
  exists st1. split; [exact J|]. destruct (Hcond n _ st1 Hi) as (st2 & R2 & He2 & HP2 & Hg2); [by rewrite Hs|by unfold enough; rewrite Hg1|].
  eapply reaches_run; [exact R2|]. by apply (while_rounds P R Q mc mb ccode bcode cs pc pb (cp (core st)) k) with n.
Qed.

End LoopSpec.

(** ** The theorems at work *)

(** An instruction that goes on with the code. *)
Lemma instr_goes `{CS : CellSystem} (t : OpcodeTable) i (cs : CellSlice) (st st' : VmState) :
  code st = Some cs -> cp (core st) = 0 -> cs_bits cs <> [] -> final t = true -> lookup_instr t (prefetch_opcode (cs_bits cs)) = Some i ->
  dispatch_instr i (prefetch_opcode (cs_bits cs)) (prefetch_bits (cs_bits cs)) (with_core (bump (core st)) st) = Done (0, st') ->
  0 <= gas_remaining (gas st') -> goes t st st'.
Proof.
  intros Ec Ep Hb Hf Hl Hd Hg. unfold goes, iteration, step, count_step, get_code. vm_run. cbn [code with_core]. rewrite Ec.
  assert ((0 <? Z.of_nat (length (cs_bits cs))) = true) as -> by by destruct (cs_bits cs).
  unfold dispatch_cp, get_cp. vm_run. cbn [core with_core bump cp]. rewrite Ep. change (get_table 0) with true. cbv beta iota.
  unfold dispatch. cbn [code with_core]. rewrite Ec, Hf, Hl, Hd. cbv beta iota. unfold gas_check. destruct (Z.leb_spec 0 (gas_remaining (gas st'))); [done|lia].
Qed.

(** One instruction of 8 bits, that leaves the stack [s'] and costs 18. *)
Lemma short_computes t (op : Z) (s' : list (@StackEntry (@vm_refs tree_cells))) i k (st : VmState) m :
  final t = true -> lookup_instr t (prefetch_opcode (cs_bits (hex 2 op))) = Some i -> in_code (hex 2 op) 0 k st -> 0 <= m -> enough (m + 23) st ->
  dispatch_instr i (prefetch_opcode (cs_bits (hex 2 op))) (prefetch_bits (cs_bits (hex 2 op))) (with_core (bump (core st)) st) =
    Done (0, {| stack := s'; code := Some ended; core := core_with_gas (consume 18 (gas st)) (bump (core st)) |}) ->
  exists st', rtc (goes t) st st' /\ at_end k st' /\ stack st' = s' /\ enough (m + 5) st'.
Proof.
  intros Hf Hl (Ec & Ep & E0) Hm Hg Hd.
  assert (gas_remaining (consume 18 (gas st)) = gas_remaining (gas st) - 18) as G.
  { unfold enough in Hg. unfold consume, with_remaining. cbn [gas_remaining]. by rewrite (wraps_small 64) by lia. }
  eexists. split; [apply rtc_once; eapply (instr_goes t i); [exact Ec|exact Ep|discriminate|exact Hf|exact Hl|exact Hd|]|].
  - unfold gas. cbn [core core_gas core_with_gas]. unfold enough, gas in *. rewrite G. lia.
  - split; [exact (conj eq_refl E0)|]. split; [reflexivity|]. unfold enough, gas in *. cbn [core core_gas core_with_gas]. rewrite G. lia.
Qed.

(** [REPEAT] of [INC], and [WHILE] with the condition [DUP] and the body [DEC]. *)
Definition counter (n : nat) : list (@StackEntry (@vm_refs tree_cells)) := [se_int (make_refint (Z.of_nat n))].
Definition looping (s : list (@StackEntry (@vm_refs tree_cells))) : VmState :=
  {| stack := s; code := Some (hex 2 0x75);
     core := {| core_gas := some_gas 1000; cr := set_c2 ExcQuitCont (set_c1 quit1 (set_c0 quit0 empty_regs)); cp := 0; loaded_cells := []; cstate := None; steps := 0 |} |}.

Lemma inc_computes i : runs_to (CS := tree_cells) op_cp0 (hex 2 0xA4) 0 (fun s => (S i <= 3)%nat /\ s = counter (3 - S i)) (23 * Z.of_nat (S i))
  (fun s => (i <= 3)%nat /\ s = counter (3 - i)) (23 * Z.of_nat i).
Proof.
  intros k st Hc [Hi Es] Hg.
  destruct (short_computes op_cp0 0xA4 (counter (3 - i)) (mksimple 0xa4 8 (exec_inc false)) k st (23 * Z.of_nat i)) as (st' & R & He & Hs & Hg').
  - reflexivity.
  - reflexivity.
  - exact Hc.
  - lia.
  - by replace (23 * Z.of_nat i + 23) with (23 * Z.of_nat (S i)) by lia.
  - destruct Hc as (Ec & _), st as [s c core0]. cbn [stack code] in Es, Ec. subst s c. do 3 (destruct i as [|i]; [reflexivity|]). lia.
  - exists st'. split; [done|]. split; [done|]. split; [|done]. split; [lia|done].
Qed.

Lemma dup_computes i : runs_to (CS := tree_cells) op_cp0 (hex 2 0x20) 0 (fun s => (i <= 2)%nat /\ s = counter i) ((23 + 23) * Z.of_nat i + 23)
  (answered (fun i s => (i <= 2)%nat /\ s = counter i) (fun s => s = counter 0) i) ((23 + 23) * Z.of_nat i).
Proof.
  intros k st Hc [Hi Es] Hg.
  destruct (short_computes op_cp0 0x20 (counter i ++ counter i) (mksimple 0x20 8 exec_dup) k st ((23 + 23) * Z.of_nat i)) as (st' & R & He & Hs & Hg').
  - reflexivity.
  - reflexivity.
  - exact Hc.
  - lia.
  - done.
  - destruct Hc as (Ec & _), st as [s c core0]. cbn [stack code] in Es, Ec. subst s c. do 3 (destruct i as [|i]; [reflexivity|]). lia.
  - exists st'. split; [exact R|]. split; [exact He|]. split; [|exact Hg'].
    exists (make_refint (Z.of_nat i)), (counter i). split; [exact Hs|]. do 3 (destruct i as [|i]; [split; [reflexivity|]; cbn; repeat split; lia|]). lia.
Qed.
Lemma dec_computes i : runs_to (CS := tree_cells) op_cp0 (hex 2 0xA5) 0 (fun s => (S i <= 2)%nat /\ s = counter (S i)) ((23 + 23) * Z.of_nat (S i))
  (fun s => (i <= 2)%nat /\ s = counter i) ((23 + 23) * Z.of_nat i + 23).
Proof.
  intros k st Hc [Hi Es] Hg.
  destruct (short_computes op_cp0 0xA5 (counter i) (mksimple 0xa5 8 (exec_dec false)) k st ((23 + 23) * Z.of_nat i + 23)) as (st' & R & He & Hs & Hg').
  - reflexivity.
  - reflexivity.
  - exact Hc.
  - lia.
  - by replace ((23 + 23) * Z.of_nat i + 23 + 23) with ((23 + 23) * Z.of_nat (S i)) by lia.
  - destruct Hc as (Ec & _), st as [s c core0]. cbn [stack code] in Es, Ec. subst s c. do 2 (destruct i as [|i]; [reflexivity|]). lia.
  - exists st'. split; [exact R|]. split; [exact He|]. split; [|exact Hg']. split; [lia|exact Hs].
Qed.

Lemma repeat_rule_witness : exists st1, exec_repeat false (looping [se_cont (OrdCont (plain_data 0) (hex 2 0xA4)); se_int [3]; se_int [0]]) = Done (0, st1)
  /\ reaches op_cp0 (behind (hex 2 0x75) 0 quit0 (fun s => (0 <= 3)%nat /\ s = [se_int [3]])) st1.
Proof.
  apply (repeat_rule op_cp0 (fun i s => (i <= 3)%nat /\ s = counter (3 - i)) 23 (hex 2 0xA4) (hex 2 0x75) 0 quit0 3 (counter 0)).
  1-5: reflexivity.
  - lia.
  - lia.
  - exact inc_computes.
  - split; [lia|reflexivity].
  - split; vm_compute; [discriminate|reflexivity].
Defined.

Lemma while_rule_witness :
  exists st1, exec_while false (looping [se_cont (OrdCont (plain_data 0) (hex 2 0xA5)); se_cont (OrdCont (plain_data 0) (hex 2 0x20)); se_int [2]]) = Done (0, st1)
  /\ reaches op_cp0 (behind (hex 2 0x75) 0 quit0 (fun s => s = [se_int [0]])) st1.
Proof.
  apply (while_rule op_cp0 (fun i s => (i <= 2)%nat /\ s = counter i) (fun i s => (i <= 2)%nat /\ s = counter i) (fun s => s = counter 0) 23 23
           (hex 2 0x20) (hex 2 0xA5) (hex 2 0x75) 0 0 quit0 2 (counter 2)).
  1-6: reflexivity.
  - lia.
  - lia.
  - exact dup_computes.
  - exact dec_computes.
  - split; [lia|reflexivity].
  - split; vm_compute; [discriminate|reflexivity].
Defined.
